(** * Multi-agent orchestrator and resource manager: a shallow embedding

    The development follows two source files:

    - [src/index.ts], class [MultiAgentOrchestrator]: agents, tasks, the
      message bus and the periodic tick; and, of class
      [AutonomousAIServer], the context store and the tools of the
      knowledge graph;
    - [autonomous-ai-server/src/resource-manager.ts], class
      [ResourceManager]: resource pressure handling, task checkpoints and
      emergency dumps.

    Modelling conventions.

    - A JavaScript [Map] iterates in insertion order and the orchestrator
      relies on it (tie-breaks in [findBestAgent], the loops of the tick), so
      the maps of the orchestrator are association lists ([JsMap]).  The file
      system of the resource manager is a finite map from paths to contents
      ([gmap]): nothing there depends on an order.
    - Objects stored in the maps are mutated in place by the source and then
      written back under the key they were read from.  A method is embedded
      as one function of the state: what it does when no other call runs
      before it returns.  Under this reading a value-per-key store and the
      object store of the source agree.  One [await] lets time pass: the
      strategy that [executeTask] waits for.  The two parts of [executeTask]
      around it are embedded as well ([executeTask_begin],
      [executeTask_settle]), the second as a function of the contents the
      two objects held by the call have when the strategy settles; what is
      proved of states reached by several calls says so when it needs every
      call to run to its end before the next one begins.
    - [Date.now()], [new Date()], [Math.random()] and the operating system
      figures are inputs of the functions that read them.  An ISO timestamp is
      the number of milliseconds it denotes.
    - Counters and durations in milliseconds are integers ([Z]); averages,
      percentages and scores are rationals ([Q]).  Every finite double is a
      rational, and comparing two doubles is comparing the rationals they
      are; the arithmetic of the source rounds and the arithmetic on [Q]
      does not.  So the check of the resource pressure takes the sample as
      the source computed it, and [getResourceMetrics] and the score of
      [findBestAgent], which compute, are exact where the source is exact up
      to rounding.
    - The resource manager reaches the disk through the object [fs] that
      its first line binds; which functions of [fs-extra] that object has
      depends on how the module is loaded, and is a parameter
      ([Namespace]).
    - A thrown exception is the [inr] of a sum; [try]/[catch] is a [match].
    - [emit] and [console] output are not part of the state. *)

From Stdlib Require Import ZArith QArith Bool Ascii String List Lia.
From Stdlib Require Import Sorting.Sorted Sorting.Permutation.
From Stdlib Require Import DecimalString.
From stdpp Require Import base option strings gmap.
Import ListNotations.

Local Open Scope string_scope.
Local Open Scope list_scope.
Local Open Scope Z_scope.

Set Default Proof Using "Type".

(** ** JavaScript primitives *)

(** [!s] is true for the empty string and for [undefined]. *)
Definition truthy_string (s : string) : bool := negb (String.eqb s "").

Definition truthy (o : option string) : bool :=
  match o with
  | Some s => truthy_string s
  | None => false
  end.

(** [a || b] on an optional string. *)
Definition or_else (o : option string) (d : string) : string :=
  match o with
  | Some s => if truthy_string s then s else d
  | None => d
  end.

(** [Array.prototype.includes] on strings. *)
Definition includes (l : list string) (x : string) : bool :=
  existsb (String.eqb x) l.

(** [const i = a.indexOf(x); if (i > -1) a.splice(i, 1)]: the first
    occurrence of [x] is removed, later ones stay. *)
Fixpoint remove_first (x : string) (a : list string) : list string :=
  match a with
  | [] => []
  | y :: r => if String.eqb x y then r else y :: remove_first x r
  end.

(** [a.join(', ')]. *)
Fixpoint join (sep : string) (a : list string) : string :=
  match a with
  | [] => ""
  | [x] => x
  | x :: r => x ++ sep ++ join sep r
  end.

(** Decimal rendering of an integer inside a template string. *)
Definition string_of_Z (z : Z) : string :=
  NilZero.string_of_int (Z.to_int z).

(** JSON values, and the values of type [any] that flow through the code.
    [Cyclic] stands for a value that [JSON.stringify] rejects with a
    [TypeError] (an object graph with a cycle, a [BigInt]). *)
Unset Elimination Schemes.
Inductive json : Type :=
| JNull
| JBool (b : bool)
| JNum (q : Q)
| JStr (s : string)
| JArr (l : list json)
| JObj (fields : list (string * json)).
Set Elimination Schemes.

Inductive any : Type :=
| Plain (j : json)
| Cyclic.

(** A JavaScript [number]: a finite value or one of the three values that
    JSON cannot write. *)
Inductive number : Type :=
| Finite (q : Q)
| NaN
| PosInfinity
| NegInfinity.

(** ** Exceptions *)

(** The [Error] objects the two classes construct, by the place that throws
    them, and the values a task strategy or a file operation may throw. *)
Inductive Error : Type :=
| AgentExists (agentId : string)
| InvalidAgent (why : string)
| ParentNotFound (agentId : string)
| TaskNotFound (taskId : string)
| TaskNotPending (taskId : string)
| NoSuitableAgent
| AgentNotFound (agentId : string)
| UnmetDependencies (deps : list string)
| TaskNotFoundOrNotAssigned (taskId : string)
| AgentConfigMissing
| TypeError (what : string)
| StrategyError (msg : string)
| StrategyThrow (v : any)
| CallbackRejected
| IOError (path : string).

(** [error instanceof Error ? error.message : 'Unknown error'], with the
    messages of the source. *)
Definition error_message (e : Error) : string :=
  match e with
  | AgentExists a => "Agent with ID " ++ a ++ " already exists"
  | InvalidAgent why => why
  | ParentNotFound a => "Parent agent " ++ a ++ " not found"
  | TaskNotFound t => "Task " ++ t ++ " not found"
  | TaskNotPending t => "Task " ++ t ++ " is not in pending status"
  | NoSuitableAgent => "No suitable agent found for task"
  | AgentNotFound a => "Agent " ++ a ++ " not found"
  | UnmetDependencies deps => "Task has unmet dependencies: " ++ join ", " deps
  | TaskNotFoundOrNotAssigned t => "Task " ++ t ++ " not found or not assigned"
  | AgentConfigMissing => "Agent not found"
  | TypeError what => what
  | StrategyError msg => msg
  | StrategyThrow _ => "Unknown error"
  | CallbackRejected => "callback rejected"
  | IOError p => "EIO: " ++ p
  end.


Definition result (A : Type) : Type := (A + Error)%type.

(** A method is a function of the state that returns the new state and
    either a value or the exception it throws.  The state survives a throw:
    what a method has written before it throws stays written. *)
Definition M (S A : Type) : Type := S -> S * result A.

Definition ret {S A} (a : A) : M S A := fun s => (s, inl a).
Definition throw {S A} (e : Error) : M S A := fun s => (s, inr e).
Definition bind {S A B} (m : M S A) (k : A -> M S B) : M S B :=
  fun s =>
    match m s with
    | (s', inl a) => k a s'
    | (s', inr e) => (s', inr e)
    end.
Definition read {S} : M S S := fun s => (s, inl s).
Definition modify {S} (f : S -> S) : M S unit := fun s => (f s, inl tt).
(** [try { m } catch (error) { h error }]. *)
Definition try_catch {S A} (m : M S A) (h : Error -> M S A) : M S A :=
  fun s =>
    match m s with
    | (s', inl a) => (s', inl a)
    | (s', inr e) => h e s'
    end.
(** [for (const x of xs) { body x }]. *)
Fixpoint for_each {S A} (xs : list A) (body : A -> M S unit) : M S unit :=
  match xs with
  | [] => ret tt
  | x :: r => bind (body x) (fun _ => for_each r body)
  end.

Declare Scope js_scope.
Delimit Scope js_scope with js.
Notation "'let*' x ':=' m 'in' k" := (bind m (fun x => k))
  (at level 10, x pattern, m at level 100, k at level 200) : js_scope.
Notation "m ';;' k" := (bind m (fun _ => k))
  (at level 100, k at level 200, right associativity) : js_scope.
Local Open Scope js_scope.

(** ** [Map] with insertion order *)

Module JsMap.
Section Defs.
Context {V : Type}.

Definition t := list (string * V).

Definition empty : t := [].

Fixpoint get (k : string) (m : t) : option V :=
  match m with
  | [] => None
  | (k', v) :: r => if String.eqb k k' then Some v else get k r
  end.

Definition has (k : string) (m : t) : bool :=
  match get k m with Some _ => true | None => false end.

(** [set] on a present key keeps its position; a new key goes last. *)
Fixpoint set (k : string) (v : V) (m : t) : t :=
  match m with
  | [] => [(k, v)]
  | (k', v') :: r =>
      if String.eqb k k' then (k, v) :: r else (k', v') :: set k v r
  end.

Fixpoint delete (k : string) (m : t) : t :=
  match m with
  | [] => []
  | (k', v') :: r =>
      if String.eqb k k' then delete k r else (k', v') :: delete k r
  end.

Definition keys (m : t) : list string := map fst m.
Definition values (m : t) : list V := map snd m.
Definition entries (m : t) : list (string * V) := m.
End Defs.
Arguments t : clear implicits.
End JsMap.

(** ** Data model of the orchestrator *)

Inductive Priority : Type := low | medium | high | critical.

Inductive TaskType : Type :=
  research | analysis | coding | testing | documentation | planning | custom.

Inductive TaskStatus : Type :=
  pending | assigned | in_progress | completed | failed | cancelled.

Inductive AgentStatus : Type := idle | busy | error | offline.

Inductive MessageType : Type :=
  task_assignment | task_result | collaboration_request | status_update
  | error_report.

Definition Priority_eqb (a b : Priority) : bool :=
  match a, b with
  | low, low | medium, medium | high, high | critical, critical => true
  | _, _ => false
  end.

Definition TaskStatus_eqb (a b : TaskStatus) : bool :=
  match a, b with
  | pending, pending | assigned, assigned | in_progress, in_progress
  | completed, completed | failed, failed | cancelled, cancelled => true
  | _, _ => false
  end.

Definition AgentStatus_eqb (a b : AgentStatus) : bool :=
  match a, b with
  | idle, idle | busy, busy | error, error | offline, offline => true
  | _, _ => false
  end.

(** [interface AgentConfig]. *)
Module AgentConfig.
Record t : Type := mk {
    id : string;
    name : string;
    role : string;
    capabilities : list string;
    systemPrompt : string;
    maxTokens : option Z;
    temperature : option Q;
    tools : option (list string);
    parentAgentId : option string;
    priority : Priority;
    timeout : option Z
  }.
End AgentConfig.

(** [interface Task].  The timestamps are milliseconds. *)
Module Task.
Record t : Type := mk {
    id : string;
    description : string;
    type : TaskType;
    priority : Priority;
    assignedAgentId : option string;
    status : TaskStatus;
    dependencies : list string;
    result : option any;
    error : option string;
    createdAt : Z;
    startedAt : option Z;
    completedAt : option Z;
    estimatedDuration : option Z;
    actualDuration : option Z;
    parentTaskId : option string;
    subtasks : list string
  }.

Definition with_status (s : TaskStatus) (x : t) : t :=
  mk (id x) (description x) (type x) (priority x) (assignedAgentId x) s
     (dependencies x) (result x) (error x) (createdAt x) (startedAt x)
     (completedAt x) (estimatedDuration x) (actualDuration x)
     (parentTaskId x) (subtasks x).

Definition with_assignedAgentId (a : option string) (x : t) : t :=
  mk (id x) (description x) (type x) (priority x) a (status x)
     (dependencies x) (result x) (error x) (createdAt x) (startedAt x)
     (completedAt x) (estimatedDuration x) (actualDuration x)
     (parentTaskId x) (subtasks x).

Definition with_result (r : option any) (x : t) : t :=
  mk (id x) (description x) (type x) (priority x) (assignedAgentId x)
     (status x) (dependencies x) r (error x) (createdAt x) (startedAt x)
     (completedAt x) (estimatedDuration x) (actualDuration x)
     (parentTaskId x) (subtasks x).

Definition with_error (e : option string) (x : t) : t :=
  mk (id x) (description x) (type x) (priority x) (assignedAgentId x)
     (status x) (dependencies x) (result x) e (createdAt x) (startedAt x)
     (completedAt x) (estimatedDuration x) (actualDuration x)
     (parentTaskId x) (subtasks x).

Definition with_startedAt (d : option Z) (x : t) : t :=
  mk (id x) (description x) (type x) (priority x) (assignedAgentId x)
     (status x) (dependencies x) (result x) (error x) (createdAt x) d
     (completedAt x) (estimatedDuration x) (actualDuration x)
     (parentTaskId x) (subtasks x).

Definition with_completedAt (d : option Z) (x : t) : t :=
  mk (id x) (description x) (type x) (priority x) (assignedAgentId x)
     (status x) (dependencies x) (result x) (error x) (createdAt x)
     (startedAt x) d (estimatedDuration x) (actualDuration x)
     (parentTaskId x) (subtasks x).

Definition with_actualDuration (d : option Z) (x : t) : t :=
  mk (id x) (description x) (type x) (priority x) (assignedAgentId x)
     (status x) (dependencies x) (result x) (error x) (createdAt x)
     (startedAt x) (completedAt x) (estimatedDuration x) d
     (parentTaskId x) (subtasks x).

Definition with_subtasks (l : list string) (x : t) : t :=
    mk (id x) (description x) (type x) (priority x) (assignedAgentId x)
       (status x) (dependencies x) (result x) (error x) (createdAt x)
       (startedAt x) (completedAt x) (estimatedDuration x) (actualDuration x)
       (parentTaskId x) l.
End Task.

(** [Partial<Task>]: [None] is a property the caller left out. *)
Module PartialTask.
Record t : Type := mk {
    id : option string;
    description : option string;
    type : option TaskType;
    priority : option Priority;
    assignedAgentId : option string;
    status : option TaskStatus;
    dependencies : option (list string);
    result : option any;
    error : option string;
    createdAt : option Z;
    startedAt : option Z;
    completedAt : option Z;
    estimatedDuration : option Z;
    actualDuration : option Z;
    parentTaskId : option string;
    subtasks : option (list string)
  }.

Definition empty : t :=
    mk None None None None None None None None None None None None None None
       None None.
End PartialTask.

(** [interface AgentState], with its two nested objects. *)
Module Performance.
Record t : Type := mk {
    tasksCompleted : Z;
    tasksSuccessful : Z;
    averageTaskDuration : Q;
    lastActiveAt : Z
  }.
End Performance.

Module Resources.
Record t : Type := mk {
    memoryUsage : Q;
    cpuUsage : Q;
    activeConnections : Z
  }.
End Resources.

Module AgentState.
Record t : Type := mk {
    id : string;
    status : AgentStatus;
    currentTask : option string;
    taskQueue : list string;
    performance : Performance.t;
    resources : Resources.t;
    capabilities : list string;
    specializations : list string
  }.

Definition with_status (s : AgentStatus) (x : t) : t :=
  mk (id x) s (currentTask x) (taskQueue x) (performance x) (resources x)
     (capabilities x) (specializations x).

Definition with_currentTask (c : option string) (x : t) : t :=
  mk (id x) (status x) c (taskQueue x) (performance x) (resources x)
     (capabilities x) (specializations x).

Definition with_taskQueue (q : list string) (x : t) : t :=
  mk (id x) (status x) (currentTask x) q (performance x) (resources x)
     (capabilities x) (specializations x).

Definition with_performance (p : Performance.t) (x : t) : t :=
  mk (id x) (status x) (currentTask x) (taskQueue x) p (resources x)
     (capabilities x) (specializations x).

Definition with_resources (r : Resources.t) (x : t) : t :=
    mk (id x) (status x) (currentTask x) (taskQueue x) (performance x) r
       (capabilities x) (specializations x).
End AgentState.

(** The [content] of a message is read by destructuring; a field that is
    absent reads as [undefined]. *)
Module Content.
Record t : Type := mk {
    taskId : option string;
    instructions : option any;
    result : option any;
    error : option string;
    requestType : option string;
    status : option any;
    details : option any
  }.

Definition empty : t := mk None None None None None None None.
End Content.

(** [Omit<AgentMessage, 'id' | 'timestamp'>], the argument of
    [sendMessage], and [AgentMessage]. *)
Module Envelope.
Record t : Type := mk {
    fromAgentId : string;
    toAgentId : string;
    type : MessageType;
    content : Content.t;
    priority : Priority
  }.
End Envelope.

Module AgentMessage.
Record t : Type := mk {
    id : string;
    timestamp : Z;
    body : Envelope.t
  }.
Definition fromAgentId (m : t) := Envelope.fromAgentId (body m).
Definition toAgentId (m : t) := Envelope.toAgentId (body m).
Definition type (m : t) := Envelope.type (body m).
Definition content (m : t) := Envelope.content (body m).
End AgentMessage.

(** The fields of [MultiAgentOrchestrator].  [handled] is a history
    variable: [processMessage] appends the id of a message each time it
    hands that message to the handler of its type.  No method reads it. *)
Record Orchestrator : Type := mkOrchestrator {
  agents : JsMap.t AgentConfig.t;
  agentStates : JsMap.t AgentState.t;
  tasks : JsMap.t Task.t;
  messageQueue : list AgentMessage.t;
  collaborationGraph : JsMap.t (list string);
  isRunning : bool;
  handled : list string
}.

Definition new_orchestrator : Orchestrator :=
  mkOrchestrator JsMap.empty JsMap.empty JsMap.empty [] JsMap.empty false [].

Definition set_agents (m : JsMap.t AgentConfig.t) (o : Orchestrator) :=
  mkOrchestrator m (agentStates o) (tasks o) (messageQueue o)
    (collaborationGraph o) (isRunning o) (handled o).
Definition set_agentStates (m : JsMap.t AgentState.t) (o : Orchestrator) :=
  mkOrchestrator (agents o) m (tasks o) (messageQueue o)
    (collaborationGraph o) (isRunning o) (handled o).
Definition set_tasks (m : JsMap.t Task.t) (o : Orchestrator) :=
  mkOrchestrator (agents o) (agentStates o) m (messageQueue o)
    (collaborationGraph o) (isRunning o) (handled o).
Definition set_messageQueue (q : list AgentMessage.t) (o : Orchestrator) :=
  mkOrchestrator (agents o) (agentStates o) (tasks o) q
    (collaborationGraph o) (isRunning o) (handled o).
Definition set_collaborationGraph (g : JsMap.t (list string))
    (o : Orchestrator) :=
  mkOrchestrator (agents o) (agentStates o) (tasks o) (messageQueue o) g
    (isRunning o) (handled o).
Definition set_handled (h : list string) (o : Orchestrator) :=
  mkOrchestrator (agents o) (agentStates o) (tasks o) (messageQueue o)
    (collaborationGraph o) (isRunning o) h.

(** ** Orchestrator: agents *)

Definition OM := M Orchestrator.

(** ASCII part of [String.prototype.toLowerCase]. *)
Definition lower_ascii (c : ascii) : ascii :=
  let n := nat_of_ascii c in
  if (Nat.leb 65 n && Nat.leb n 90)%bool then ascii_of_nat (n + 32) else c.

Fixpoint toLowerCase (s : string) : string :=
  match s with
  | EmptyString => EmptyString
  | String c r => String (lower_ascii c) (toLowerCase r)
  end.

(** [String.prototype.includes]. *)
Definition str_includes (s sub : string) : bool :=
  match String.index 0 sub s with Some _ => true | None => false end.

Definition validateAgentConfig (config : AgentConfig.t) : OM unit :=
  if (negb (truthy_string (AgentConfig.id config))
      || negb (truthy_string (AgentConfig.name config))
      || negb (truthy_string (AgentConfig.role config)))%bool
  then throw (InvalidAgent "Agent must have id, name, and role")
  else if (Nat.eqb (length (AgentConfig.capabilities config)) 0)
  then throw (InvalidAgent "Agent must have at least one capability")
  else if negb (truthy_string (AgentConfig.systemPrompt config))
  then throw (InvalidAgent "Agent must have a system prompt")
  else ret tt.

Definition deriveSpecializations (config : AgentConfig.t) : list string :=
  let caps := AgentConfig.capabilities config in
  let role := toLowerCase (AgentConfig.role config) in
  (if includes caps "coding" then ["software_development"] else [])
  ++ (if includes caps "research" then ["information_gathering"] else [])
  ++ (if includes caps "analysis" then ["data_analysis"] else [])
  ++ (if str_includes role "test" then ["quality_assurance"] else [])
  ++ (if str_includes role "doc" then ["technical_writing"] else []).

Definition addCollaborationLink (fromAgentId toAgentId : string)
    (o : Orchestrator) : Orchestrator :=
  let g := collaborationGraph o in
  let collaborators :=
    match JsMap.get fromAgentId g with Some l => l | None => [] end in
  let collaborators' :=
    if includes collaborators toAgentId then collaborators
    else collaborators ++ [toAgentId] in
  set_collaborationGraph (JsMap.set fromAgentId collaborators' g) o.

Definition initialState (config : AgentConfig.t) (now : Z) : AgentState.t :=
  AgentState.mk (AgentConfig.id config) idle None []
    (Performance.mk 0 0 (0 # 1) now)
    (Resources.mk (0 # 1) (0 # 1) 0)
    (AgentConfig.capabilities config)
    (deriveSpecializations config).

Definition createAgent (config : AgentConfig.t) (now : Z) : OM string :=
  let* o := read in
  if JsMap.has (AgentConfig.id config) (agents o)
  then throw (AgentExists (AgentConfig.id config))
  else
    validateAgentConfig config ;;
    modify (fun o =>
      set_agents (JsMap.set (AgentConfig.id config) config (agents o)) o) ;;
    modify (fun o =>
      set_agentStates
        (JsMap.set (AgentConfig.id config) (initialState config now)
           (agentStates o)) o) ;;
    (if truthy (AgentConfig.parentAgentId config)
     then modify (addCollaborationLink
                    (default "" (AgentConfig.parentAgentId config))
                    (AgentConfig.id config))
     else ret tt) ;;
    ret (AgentConfig.id config).

(** ** Orchestrator: tasks *)

(** The object literal of [createTask] before the spread of [taskConfig]. *)
Definition createTask_defaults (taskId : string) (taskConfig : PartialTask.t)
    (now : Z) : Task.t :=
  Task.mk taskId
    (or_else (PartialTask.description taskConfig) "Unnamed task")
    (default custom (PartialTask.type taskConfig))
    (default medium (PartialTask.priority taskConfig))
    None
    pending
    (default [] (PartialTask.dependencies taskConfig))
    None None now None None None None None [].

(** [{ ...base, ...taskConfig }]: every property present in [taskConfig]
    replaces the one of [base]. *)
Definition spread (base : Task.t) (taskConfig : PartialTask.t) : Task.t :=
  let over {A} (c : option A) (b : A) : A := default b c in
  let over_opt {A} (c : option A) (b : option A) : option A :=
    match c with Some x => Some x | None => b end in
  Task.mk
    (over (PartialTask.id taskConfig) (Task.id base))
    (over (PartialTask.description taskConfig) (Task.description base))
    (over (PartialTask.type taskConfig) (Task.type base))
    (over (PartialTask.priority taskConfig) (Task.priority base))
    (over_opt (PartialTask.assignedAgentId taskConfig)
       (Task.assignedAgentId base))
    (over (PartialTask.status taskConfig) (Task.status base))
    (over (PartialTask.dependencies taskConfig) (Task.dependencies base))
    (over_opt (PartialTask.result taskConfig) (Task.result base))
    (over_opt (PartialTask.error taskConfig) (Task.error base))
    (over (PartialTask.createdAt taskConfig) (Task.createdAt base))
    (over_opt (PartialTask.startedAt taskConfig) (Task.startedAt base))
    (over_opt (PartialTask.completedAt taskConfig) (Task.completedAt base))
    (over_opt (PartialTask.estimatedDuration taskConfig)
       (Task.estimatedDuration base))
    (over_opt (PartialTask.actualDuration taskConfig)
       (Task.actualDuration base))
    (over_opt (PartialTask.parentTaskId taskConfig) (Task.parentTaskId base))
    (over (PartialTask.subtasks taskConfig) (Task.subtasks base)).

(** [taskId] is the generated [task_<ms>_<random>] identifier. *)
Definition createTask (taskConfig : PartialTask.t) (taskId : string)
    (now : Z) : OM string :=
  let task := spread (createTask_defaults taskId taskConfig now) taskConfig in
  modify (fun o => set_tasks (JsMap.set taskId task (tasks o)) o) ;;
  ret taskId.

(** [Array.prototype.sort] with a comparator that puts [x] before [y] when
    [before x y] holds.  The sort is stable: elements the comparator does not
    separate keep their order. *)
Section Sort.
Context {A : Type} (before : A -> A -> bool).

Fixpoint sort_insert (x : A) (l : list A) : list A :=
  match l with
  | [] => [x]
  | y :: r => if before y x then y :: sort_insert x r else x :: y :: r
  end.

Definition sort (l : list A) : list A := fold_right sort_insert [] l.
End Sort.

Definition getTaskRequiredCapabilities (task : Task.t) : list string :=
  match Task.type task with
  | research => ["research"; "web_browsing"; "data_collection"]
  | analysis => ["analysis"; "data_processing"; "reasoning"]
  | coding => ["coding"; "programming"; "software_development"]
  | testing => ["testing"; "quality_assurance"; "debugging"]
  | documentation => ["documentation"; "writing"; "technical_writing"]
  | planning => ["planning"; "project_management"; "strategy"]
  | custom => []
  end.

Definition getTaskRequiredSpecializations (task : Task.t) : list string :=
  match Task.type task with
  | research => ["information_gathering"; "data_analysis"]
  | analysis => ["data_analysis"; "statistical_analysis"]
  | coding => ["software_development"; "programming"]
  | testing => ["quality_assurance"; "test_automation"]
  | documentation => ["technical_writing"; "documentation"]
  | planning => ["project_management"; "strategic_planning"]
  | custom => []
  end.

(** The body of the [map] callback of [findBestAgent].  In JavaScript the
    quotient is [Infinity] when [tasksCompleted] is 0; here it is 0.  The two
    agree on every state in which [tasksSuccessful > 0] implies
    [tasksCompleted > 0] ([perf_ok] below).  The sum is exact; the source
    adds doubles, which can order two agents whose exact scores are equal. *)
Definition score (task : Task.t) (state : AgentState.t)
    (config : AgentConfig.t) : Q :=
  let perf := AgentState.performance state in
  let matchingCapabilities :=
    List.filter (includes (getTaskRequiredCapabilities task))
      (AgentConfig.capabilities config) in
  let matchingSpecializations :=
    List.filter (includes (getTaskRequiredSpecializations task))
      (AgentState.specializations state) in
  let s0 := 0%Q in
  let s1 := (s0 + inject_Z (Z.of_nat (length matchingCapabilities) * 10))%Q in
  let s2 :=
    (s1 + inject_Z (Z.of_nat (length matchingSpecializations) * 15))%Q in
  let s3 :=
    if (0 <? Performance.tasksSuccessful perf)%Z
    then
      let successRate :=
        (inject_Z (Performance.tasksSuccessful perf)
         / inject_Z (Performance.tasksCompleted perf))%Q in
      (s2 + successRate * 5)%Q
    else s2 in
  let s4 :=
    if Priority_eqb (AgentConfig.priority config) (Task.priority task)
    then (s3 + 5)%Q else s3 in
  (s4 - inject_Z (Z.of_nat (length (AgentState.taskQueue state)) * 2))%Q.

(** One element of [scoredAgents]. *)
Record Scored : Type := mkScored {
  scored_id : string;
  scored_state : AgentState.t;
  scored_value : Q
}.

(** [(a, b) => b.score - a.score] is negative, so [a] goes first, when
    [a.score > b.score]. *)
Definition higher_score (a b : Scored) : bool :=
  negb (Qle_bool (scored_value a) (scored_value b)).

(** [availableAgents.map(agent => ...)]: reading [agent.config.capabilities]
    throws a [TypeError] for an agent state without a configuration. *)
Fixpoint score_all (task : Task.t) (o : Orchestrator)
    (available : list (string * AgentState.t)) : result (list Scored) :=
  match available with
  | [] => inl []
  | (id, state) :: r =>
      match JsMap.get id (agents o) with
      | None =>
          inr (TypeError "Cannot read properties of undefined")
      | Some config =>
          match score_all task o r with
          | inl l => inl (mkScored id state (score task state config) :: l)
          | inr e => inr e
          end
      end
  end.

Definition availableAgents (o : Orchestrator)
    : list (string * AgentState.t) :=
  List.filter
    (fun e => AgentStatus_eqb (AgentState.status (snd e)) idle)
    (JsMap.entries (agentStates o)).

Definition findBestAgent (task : Task.t) : OM (option string) :=
  let* o := read in
  match availableAgents o with
  | [] => ret None
  | available =>
      match score_all task o available with
      | inr e => throw e
      | inl scoredAgents =>
          match sort higher_score scoredAgents with
          | [] => ret None
          | best :: _ =>
              ret (if truthy_string (scored_id best)
                   then Some (scored_id best) else None)
          end
      end
  end.

Definition checkTaskDependencies (task : Task.t) (o : Orchestrator)
    : list string :=
  List.filter
    (fun depId =>
       match JsMap.get depId (tasks o) with
       | None => true
       | Some depTask => negb (TaskStatus_eqb (Task.status depTask) completed)
       end)
    (Task.dependencies task).

(** The block [if (!agentId) { ... }] of [assignTask]: the agent the task
    goes to, given or selected. *)
Definition resolveAgent (task : Task.t) (agentId : option string)
    : OM string :=
  if truthy agentId then ret (default "" agentId)
  else
    let* found := findBestAgent task in
    if truthy found then ret (default "" found)
    else throw NoSuitableAgent.

Definition assignTask (taskId : string) (agentId : option string)
    : OM bool :=
  let* o := read in
  match JsMap.get taskId (tasks o) with
  | None => throw (TaskNotFound taskId)
  | Some task =>
      if negb (TaskStatus_eqb (Task.status task) pending)
      then throw (TaskNotPending taskId)
      else
        let* agentId := resolveAgent task agentId in
        match JsMap.get agentId (agentStates o) with
        | None => throw (AgentNotFound agentId)
        | Some agentState =>
            let unmetDependencies := checkTaskDependencies task o in
            if (0 <? length unmetDependencies)%nat
            then throw (UnmetDependencies unmetDependencies)
            else
              let task' :=
                Task.with_status assigned
                  (Task.with_assignedAgentId (Some agentId) task) in
              let agentState' :=
                AgentState.with_taskQueue
                  (AgentState.taskQueue agentState ++ [taskId]) agentState in
              modify (fun o =>
                set_tasks (JsMap.set taskId task' (tasks o)) o) ;;
              modify (fun o =>
                set_agentStates
                  (JsMap.set agentId agentState' (agentStates o)) o) ;;
              ret true
        end
  end.

(** The seven execution strategies are external collaborators: each
    receives the task and the agent and returns a result or throws. *)
Record Strategies : Type := mkStrategies {
  executeResearchTask : Task.t -> AgentConfig.t -> result any;
  executeAnalysisTask : Task.t -> AgentConfig.t -> result any;
  executeCodingTask : Task.t -> AgentConfig.t -> result any;
  executeTestingTask : Task.t -> AgentConfig.t -> result any;
  executeDocumentationTask : Task.t -> AgentConfig.t -> result any;
  executePlanningTask : Task.t -> AgentConfig.t -> result any;
  executeCustomTask : Task.t -> AgentConfig.t -> result any
}.

(** The readings of [new Date()] taken by one call of [executeTask]:
    [startedAt], [completedAt], and the one [actualDuration] is measured
    with. *)
Record Clock : Type := mkClock {
  at_start : Z;
  at_completion : Z;
  at_measure : Z
}.

Section Execution.
Context (strategies : Strategies).

Definition executeTaskByType (task : Task.t) : OM any :=
  let* o := read in
  match JsMap.get (default "" (Task.assignedAgentId task)) (agents o) with
  | None => throw AgentConfigMissing
  | Some agent =>
      let run :=
        match Task.type task with
        | research => executeResearchTask strategies
        | analysis => executeAnalysisTask strategies
        | coding => executeCodingTask strategies
        | testing => executeTestingTask strategies
        | documentation => executeDocumentationTask strategies
        | planning => executePlanningTask strategies
        | custom => executeCustomTask strategies
        end in
      match run task agent with
      | inl r => ret r
      | inr e => throw e
      end
  end.

(** The writes of the [try] block before the strategy is called. *)
Definition task_started (clock : Clock) (task : Task.t) : Task.t :=
  Task.with_startedAt (Some (at_start clock))
    (Task.with_status in_progress task).

Definition agent_started (taskId : string) (agentState : AgentState.t)
    : AgentState.t :=
  AgentState.with_currentTask (Some taskId)
    (AgentState.with_status busy agentState).

(** The writes of the [try] block after the strategy has returned [r]. *)
Definition task_completed (clock : Clock) (r : any) (task : Task.t)
    : Task.t :=
  let task := Task.with_status completed task in
  let task := Task.with_completedAt (Some (at_completion clock)) task in
  let task := Task.with_result (Some r) task in
  match Task.startedAt task with
  | Some started =>
      Task.with_actualDuration (Some (at_measure clock - started)) task
  | None => task
  end.

Definition agent_succeeded (taskId : string) (task : Task.t)
    (agentState : AgentState.t) : AgentState.t :=
  let agentState := AgentState.with_status idle agentState in
  let agentState := AgentState.with_currentTask None agentState in
  let perf := AgentState.performance agentState in
  let completedCount := Performance.tasksCompleted perf + 1 in
  let successfulCount := Performance.tasksSuccessful perf + 1 in
  let average :=
    match Task.actualDuration task with
    | Some d =>
        if (d =? 0)%Z then Performance.averageTaskDuration perf
        else
          ((Performance.averageTaskDuration perf
            * inject_Z (completedCount - 1) + inject_Z d)
           / inject_Z completedCount)%Q
    | None => Performance.averageTaskDuration perf
    end in
  let agentState :=
    AgentState.with_performance
      (Performance.mk completedCount successfulCount average
         (Performance.lastActiveAt perf)) agentState in
  AgentState.with_taskQueue
    (remove_first taskId (AgentState.taskQueue agentState)) agentState.

(** The writes of the [catch] block. *)
Definition task_failed (clock : Clock) (e : Error) (task : Task.t)
    : Task.t :=
  let task := Task.with_status failed task in
  let task := Task.with_error (Some (error_message e)) task in
  Task.with_completedAt (Some (at_completion clock)) task.

Definition agent_failed (taskId : string) (agentState : AgentState.t)
    : AgentState.t :=
  let agentState := AgentState.with_status idle agentState in
  let agentState := AgentState.with_currentTask None agentState in
  let perf := AgentState.performance agentState in
  let agentState :=
    AgentState.with_performance
      (Performance.mk (Performance.tasksCompleted perf + 1)
         (Performance.tasksSuccessful perf)
         (Performance.averageTaskDuration perf)
         (Performance.lastActiveAt perf)) agentState in
  AgentState.with_taskQueue
    (remove_first taskId (AgentState.taskQueue agentState)) agentState.

Definition store_task (taskId : string) (task : Task.t) : OM unit :=
  modify (fun o => set_tasks (JsMap.set taskId task (tasks o)) o).

Definition store_agentState (agentId : string) (a : AgentState.t)
    : OM unit :=
  modify (fun o => set_agentStates (JsMap.set agentId a (agentStates o)) o).

(** The only statement of the [try] block that can throw is the call of
    the strategy, so the [catch] block sees the task and the agent state as
    the first writes of the [try] block left them.  This is the call when
    nothing else runs while it waits for the strategy; its two parts,
    around the wait, are [executeTask_begin] and [executeTask_settle]
    below. *)
Definition executeTask (taskId : string) (clock : Clock) : OM any :=
  let* o := read in
  match JsMap.get taskId (tasks o) with
  | None => throw (TaskNotFoundOrNotAssigned taskId)
  | Some task =>
      if negb (truthy (Task.assignedAgentId task))
      then throw (TaskNotFoundOrNotAssigned taskId)
      else
        let agentId := default "" (Task.assignedAgentId task) in
        match JsMap.get agentId (agentStates o) with
        | None => throw (AgentNotFound agentId)
        | Some agentState =>
            let task1 := task_started clock task in
            let agentState1 := agent_started taskId agentState in
            try_catch
              (store_task taskId task1 ;;
               store_agentState agentId agentState1 ;;
               let* r := executeTaskByType task1 in
               let task2 := task_completed clock r task1 in
               store_task taskId task2 ;;
               store_agentState agentId
                 (agent_succeeded taskId task2 agentState1) ;;
               ret r)
              (fun e =>
                 store_task taskId (task_failed clock e task1) ;;
                 store_agentState agentId
                   (agent_failed taskId agentState1) ;;
                 throw e)
        end
  end.
End Execution.

(** [executeTask] in two parts.  The call is suspended at
    [await this.executeTaskByType(task)] until the strategy settles, and
    other calls run in the meantime: a tick, a [cancelTask], a
    [removeAgent].  [executeTask] above is the run in which nothing comes in
    between.

    [executeTask_begin] is the part before the suspension: the two lookups
    and the first writes of the [try] block.  It returns the contents of the
    two objects the call holds from then on, the task and the agent
    state. *)
Definition executeTask_begin (taskId : string) (clock : Clock)
    : OM (Task.t * AgentState.t) :=
  let* o := read in
  match JsMap.get taskId (tasks o) with
  | None => throw (TaskNotFoundOrNotAssigned taskId)
  | Some task =>
      if negb (truthy (Task.assignedAgentId task))
      then throw (TaskNotFoundOrNotAssigned taskId)
      else
        let agentId := default "" (Task.assignedAgentId task) in
        match JsMap.get agentId (agentStates o) with
        | None => throw (AgentNotFound agentId)
        | Some agentState =>
            let task1 := task_started clock task in
            let agentState1 := agent_started taskId agentState in
            store_task taskId task1 ;;
            store_agentState agentId agentState1 ;;
            ret (task1, agentState1)
        end
  end.

(** [executeTask_settle] is the part after the suspension.  [settled] is
    what the strategy has returned or thrown; [task] and [agentState] are
    the contents, at that moment, of the two objects the call holds.  The
    calls that ran in the meantime have written to these objects, and
    [removeAgent] may have taken the agent state out of the map; the call
    looks at neither, writes its outcome into the two objects and stores
    them, the task under [taskId] and the agent state under
    [task.assignedAgentId]. *)
Definition executeTask_settle (taskId : string) (clock : Clock)
    (task : Task.t) (agentState : AgentState.t) (settled : result any)
    : OM any :=
  let agentId := default "" (Task.assignedAgentId task) in
  match settled with
  | inl r =>
      let task2 := task_completed clock r task in
      store_task taskId task2 ;;
      store_agentState agentId (agent_succeeded taskId task2 agentState) ;;
      ret r
  | inr e =>
      store_task taskId (task_failed clock e task) ;;
      store_agentState agentId (agent_failed taskId agentState) ;;
      throw e
  end.

(** [cancelTask] reads the time once. *)
Definition cancelTask (taskId : string) (now : Z) : OM bool :=
  let* o := read in
  match JsMap.get taskId (tasks o) with
  | None => ret false
  | Some task =>
      let task' :=
        Task.with_completedAt (Some now) (Task.with_status cancelled task) in
      store_task taskId task' ;;
      (if truthy (Task.assignedAgentId task')
       then
         let agentId := default "" (Task.assignedAgentId task') in
         match JsMap.get agentId (agentStates o) with
         | None => ret tt
         | Some agentState =>
             let agentState :=
               AgentState.with_taskQueue
                 (remove_first taskId (AgentState.taskQueue agentState))
                 agentState in
             let agentState :=
               match AgentState.currentTask agentState with
               | Some c =>
                   if String.eqb c taskId
                   then AgentState.with_status idle
                          (AgentState.with_currentTask None agentState)
                   else agentState
               | None => agentState
               end in
             store_agentState agentId agentState
         end
       else ret tt) ;;
      ret true
  end.

Definition removeAgent (agentId : string) (now : Z) : OM bool :=
  let* o := read in
  if negb (JsMap.has agentId (agents o)) then ret false
  else
    (match JsMap.get agentId (agentStates o) with
     | Some agentState =>
         if truthy (AgentState.currentTask agentState)
         then
           cancelTask (default "" (AgentState.currentTask agentState)) now ;;
           ret tt
         else ret tt
     | None => ret tt
     end) ;;
    modify (fun o =>
      set_collaborationGraph
        (map (fun e => (fst e, remove_first agentId (snd e)))
           (JsMap.delete agentId (collaborationGraph o))) o) ;;
    modify (fun o => set_agents (JsMap.delete agentId (agents o)) o) ;;
    modify (fun o =>
      set_agentStates (JsMap.delete agentId (agentStates o)) o) ;;
    ret true.

(** ** Orchestrator: collaboration and messages *)

(** The pairs [(i, j)] with [i < j], in the order of the two nested loops. *)
Fixpoint link_pairs (agentIds : list string) : list (string * string) :=
  match agentIds with
  | [] => []
  | a :: r => map (fun b => (a, b)) r ++ link_pairs r
  end.

Definition createCollaboration (agentIds : list string)
    (collaborationId : string) : OM string :=
  let* o := read in
  match List.find (fun a => negb (JsMap.has a (agents o))) agentIds with
  | Some a => throw (AgentNotFound a)
  | None =>
      for_each (link_pairs agentIds)
        (fun p =>
           modify (addCollaborationLink (fst p) (snd p)) ;;
           modify (addCollaborationLink (snd p) (fst p))) ;;
      ret collaborationId
  end.

Definition handleTaskAssignmentMessage (message : AgentMessage.t) : OM unit :=
  let* o := read in
  let taskId := Content.taskId (AgentMessage.content message) in
  if (truthy taskId && JsMap.has (default "" taskId) (tasks o))%bool
  then assignTask (default "" taskId) (Some (AgentMessage.toAgentId message)) ;;
       ret tt
  else ret tt.

Definition handleTaskResultMessage (message : AgentMessage.t) : OM unit :=
  let* o := read in
  let taskId := Content.taskId (AgentMessage.content message) in
  let result := Content.result (AgentMessage.content message) in
  if (truthy taskId && JsMap.has (default "" taskId) (tasks o))%bool
  then
    match JsMap.get (default "" taskId) (tasks o) with
    | Some task =>
        store_task (default "" taskId)
          (Task.with_status completed (Task.with_result result task))
    | None => ret tt
    end
  else ret tt.

(** The collaboration identifier is generated and then dropped. *)
Definition handleCollaborationRequestMessage (message : AgentMessage.t)
    : OM unit :=
  createCollaboration
    [AgentMessage.fromAgentId message; AgentMessage.toAgentId message] "" ;;
  ret tt.

Definition handleStatusUpdateMessage (message : AgentMessage.t) (now : Z)
    : OM unit :=
  let* o := read in
  match JsMap.get (AgentMessage.fromAgentId message) (agentStates o) with
  | Some agentState =>
      let perf := AgentState.performance agentState in
      store_agentState (AgentMessage.fromAgentId message)
        (AgentState.with_performance
           (Performance.mk (Performance.tasksCompleted perf)
              (Performance.tasksSuccessful perf)
              (Performance.averageTaskDuration perf) now) agentState)
  | None => ret tt
  end.

Definition handleErrorReportMessage (message : AgentMessage.t) : OM unit :=
  let* o := read in
  let taskId := Content.taskId (AgentMessage.content message) in
  let error := Content.error (AgentMessage.content message) in
  if (truthy taskId && JsMap.has (default "" taskId) (tasks o))%bool
  then
    match JsMap.get (default "" taskId) (tasks o) with
    | Some task =>
        store_task (default "" taskId)
          (Task.with_error error (Task.with_status failed task))
    | None => ret tt
    end
  else ret tt.

(** [now] is the time a [status_update] handler would read. *)
Definition processMessage (message : AgentMessage.t) (now : Z) : OM unit :=
  let* o := read in
  match JsMap.get (AgentMessage.toAgentId message) (agentStates o) with
  | None => ret tt
  | Some _ =>
      modify (fun o =>
        set_handled (handled o ++ [AgentMessage.id message]) o) ;;
      match AgentMessage.type message with
      | task_assignment => handleTaskAssignmentMessage message
      | task_result => handleTaskResultMessage message
      | collaboration_request => handleCollaborationRequestMessage message
      | status_update => handleStatusUpdateMessage message now
      | error_report => handleErrorReportMessage message
      end
  end.

(** [messageId] is the generated [msg_<ms>_<random>] identifier and [now] the
    time of the call. *)
Definition sendMessage (message : Envelope.t) (messageId : string) (now : Z)
    : OM string :=
  let fullMessage := AgentMessage.mk messageId now message in
  modify (fun o => set_messageQueue (messageQueue o ++ [fullMessage]) o) ;;
  processMessage fullMessage now ;;
  ret messageId.

(** ** Orchestrator: the tick *)

Definition priorityOrder (p : Priority) : Z :=
  match p with critical => 4 | high => 3 | medium => 2 | low => 1 end.

(** [(a, b) => priorityOrder[b.priority] - priorityOrder[a.priority]]. *)
Definition higher_priority (a b : Task.t) : bool :=
  (priorityOrder (Task.priority b) <? priorityOrder (Task.priority a))%Z.

(** [try { m } catch (error) { console.error(...) }]. *)
Definition swallow {A} (m : OM A) : OM unit :=
  try_catch (m ;; ret tt) (fun _ => ret tt).

Definition processPendingTasks : OM unit :=
  let* o := read in
  let pendingTasks :=
    sort higher_priority
      (List.filter (fun task => TaskStatus_eqb (Task.status task) pending)
         (JsMap.values (tasks o))) in
  for_each pendingTasks
    (fun task =>
       swallow
         (let* o := read in
          if (Nat.eqb (length (checkTaskDependencies task o)) 0)
          then assignTask (Task.id task) None ;; ret tt
          else ret tt)).

Definition processMessageQueue (now : Z) : OM unit :=
  let* o := read in
  let messagesToProcess := messageQueue o in
  modify (set_messageQueue []) ;;
  for_each messagesToProcess
    (fun message => swallow (processMessage message now)).

(** What one tick reads from outside: the time, and per agent the two
    [Math.random()] figures, per task the clock of its execution. *)
Record Inputs : Type := mkInputs {
  tickTime : Z;
  randomUsage : string -> Q * Q;
  clockOf : string -> Clock
}.

Section Tick.
Context (strategies : Strategies).

(** The loop runs over the live map; no statement of its body adds or
    removes a key, and the final [set] stores the object the body has
    already updated in place. *)
Definition updateAgentStates (inp : Inputs) : OM unit :=
  let* o := read in
  for_each (JsMap.keys (agentStates o))
    (fun agentId =>
       let* o := read in
       match JsMap.get agentId (agentStates o) with
       | None => ret tt
       | Some state =>
           let state :=
             AgentState.with_resources
               (Resources.mk (fst (randomUsage inp agentId) * 100)%Q
                  (snd (randomUsage inp agentId) * 100)%Q
                  (if AgentStatus_eqb (AgentState.status state) busy
                   then 1 else 0)) state in
           store_agentState agentId state ;;
           match AgentStatus_eqb (AgentState.status state) idle,
                 AgentState.taskQueue state with
           | true, nextTaskId :: _ =>
               match JsMap.get nextTaskId (tasks o) with
               | Some task =>
                   if TaskStatus_eqb (Task.status task) assigned
                   then swallow (executeTask strategies nextTaskId
                                   (clockOf inp nextTaskId))
                   else ret tt
               | None => ret tt
               end
           | _, _ => ret tt
           end
       end).

Definition handleTimeouts (inp : Inputs) : OM unit :=
  let* o := read in
  for_each (JsMap.keys (tasks o))
    (fun taskId =>
       let* o := read in
       match JsMap.get taskId (tasks o) with
       | None => ret tt
       | Some task =>
           match TaskStatus_eqb (Task.status task) in_progress,
                 Task.startedAt task with
           | true, Some startTime =>
               let agent :=
                 match Task.assignedAgentId task with
                 | Some a => JsMap.get a (agents o)
                 | None => None
                 end in
               let timeout :=
                 match agent with
                 | Some a =>
                     match AgentConfig.timeout a with
                     | Some t => if (t =? 0)%Z then 300000 else t
                     | None => 300000
                     end
                 | None => 300000
                 end in
               if (timeout <? tickTime inp - startTime)%Z
               then cancelTask taskId (tickTime inp) ;; ret tt
               else ret tt
           | _, _ => ret tt
           end
       end).

(** [(a, b) => a.load - b.load]. *)
Definition lighter (a b : string * AgentState.t) : bool :=
  (length (AgentState.taskQueue (snd a))
   <? length (AgentState.taskQueue (snd b)))%nat.

Definition optimizeTaskDistribution : OM unit :=
  let* o := read in
  let agentLoads :=
    sort lighter
      (List.filter
         (fun e => negb (AgentStatus_eqb (AgentState.status (snd e)) offline))
         (JsMap.entries (agentStates o))) in
  match agentLoads, rev agentLoads with
  | lightestAgent :: _ :: _, heaviestAgent :: _ =>
      let load e := Z.of_nat (length (AgentState.taskQueue (snd e))) in
      if (3 <? load heaviestAgent - load lightestAgent)%Z
      then
        let heaviestState := snd heaviestAgent in
        let taskToMove :=
          List.last (AgentState.taskQueue heaviestState) "" in
        store_agentState (fst heaviestAgent)
          (AgentState.with_taskQueue
             (List.removelast (AgentState.taskQueue heaviestState))
             heaviestState) ;;
        if truthy_string taskToMove
        then
          let* o := read in
          (match JsMap.get (fst lightestAgent) (agentStates o) with
           | Some lightestState =>
               store_agentState (fst lightestAgent)
                 (AgentState.with_taskQueue
                    (AgentState.taskQueue lightestState ++ [taskToMove])
                    lightestState)
           | None => ret tt
           end) ;;
          match JsMap.get taskToMove (tasks o) with
          | Some task =>
              store_task taskToMove
                (Task.with_assignedAgentId (Some (fst lightestAgent)) task)
          | None => ret tt
          end
        else ret tt
      else ret tt
  | _, _ => ret tt
  end.

(** The body of the [setInterval] callback. *)
Definition orchestratorTick (inp : Inputs) : OM unit :=
  swallow
    (processPendingTasks ;;
     processMessageQueue (tickTime inp) ;;
     updateAgentStates inp ;;
     handleTimeouts inp ;;
     optimizeTaskDistribution).
End Tick.

Definition startOrchestrator : OM unit :=
  modify (fun o =>
    mkOrchestrator (agents o) (agentStates o) (tasks o) (messageQueue o)
      (collaborationGraph o) true (handled o)).

Definition stopOrchestrator : OM unit :=
  modify (fun o =>
    mkOrchestrator (agents o) (agentStates o) (tasks o) (messageQueue o)
      (collaborationGraph o) false (handled o)).

(** [getTaskStatus] and [getAgentStatus]. *)
Definition getTaskStatus (taskId : string) (o : Orchestrator)
    : option Task.t := JsMap.get taskId (tasks o).
Definition getAgentStatus (agentId : string) (o : Orchestrator)
    : option AgentState.t := JsMap.get agentId (agentStates o).

(** The state after a call, whatever it returned or threw. *)
Definition exec {S A} (m : M S A) (s : S) : S := fst (m s).
Definition outcome {S A} (m : M S A) (s : S) : result A := snd (m s).

(** ** Resource manager: data model *)

(** [interface ResourceMetrics]; byte counts are integers, percentages are
    rationals. *)
Module ResourceMetrics.
Record t : Type := mk {
    totalRAM : Z;
    usedRAM : Z;
    freeRAM : Z;
    ramUtilization : Q;
    totalVRAM : Z;
    usedVRAM : Z;
    freeVRAM : Z;
    vramUtilization : Q;
    cpuUsage : Q;
    timestamp : Z
  }.
End ResourceMetrics.

(** [interface TaskCheckpoint]. *)
Module TaskCheckpoint.
Record t : Type := mk {
    taskId : string;
    agentId : string;
    status : string;
    progress : number;
    context : any;
    intermediateResults : list any;
    dependencies : list string;
    startTime : string;
    lastUpdate : string;
    modelState : any;
    memorySnapshot : any
  }.
End TaskCheckpoint.

Module Thresholds.
Record t : Type := mk {
    ramCritical : Q;
    ramWarning : Q;
    vramCritical : Q;
    vramWarning : Q
  }.
  (** [Partial<typeof this.resourceThresholds>]. *)
Record partial : Type := mkPartial {
    p_ramCritical : option Q;
    p_ramWarning : option Q;
    p_vramCritical : option Q;
    p_vramWarning : option Q
  }.
End Thresholds.

(** A registered callback [() => Promise<void>]: the function object, and
    whether the promise it returns rejects. *)
Record Callback : Type := mkCallback {
  callback_id : nat;
  callback_rejects : bool
}.

(** What a file holds: text that parses as JSON, kept as the value it parses
    to, or other text.  The only text the resource manager writes with
    [writeFile] is the basic dump record, which is not JSON. *)
Inductive FileContent : Type :=
| JsonFile (j : json)
| TextFile (s : string).

(** The fields of [ResourceManager], the disk it writes to, and a history
    variable [invoked] with the callbacks it has called, in order.  [refuses]
    tells for which paths a write fails (missing directory, read-only or full
    disk). *)
Record ResourceManager : Type := mkResourceManager {
  checkpointDirectory : string;
  emergencyDumpDirectory : string;
  resourceThresholds : Thresholds.t;
  isMonitoring : bool;
  emergencyCallbacks : list Callback;
  pauseCallbacks : list Callback;
  resumeCallbacks : list Callback;
  files : gmap string FileContent;
  refuses : string -> bool;
  invoked : list Callback
}.

Definition RM := M ResourceManager.

(** [path.join(dir, name)] for a [name] without separators. *)
Definition path_join (dir name : string) : string := dir ++ "/" ++ name.

(** The state the constructor builds over a disk. *)
Definition new_ResourceManager (workingDirectory : string)
    (disk : gmap string FileContent) (refuses : string -> bool)
    : ResourceManager :=
  mkResourceManager
    (path_join workingDirectory ".checkpoints")
    (path_join workingDirectory ".emergency-dumps")
    (Thresholds.mk 95 85 95 90)
    false [] [] [] disk refuses [].

Definition set_files (f : gmap string FileContent) (r : ResourceManager)
    : ResourceManager :=
  mkResourceManager (checkpointDirectory r) (emergencyDumpDirectory r)
    (resourceThresholds r) (isMonitoring r) (emergencyCallbacks r)
    (pauseCallbacks r) (resumeCallbacks r) f (refuses r) (invoked r).

Definition set_invoked (l : list Callback) (r : ResourceManager)
    : ResourceManager :=
  mkResourceManager (checkpointDirectory r) (emergencyDumpDirectory r)
    (resourceThresholds r) (isMonitoring r) (emergencyCallbacks r)
    (pauseCallbacks r) (resumeCallbacks r) (files r) (refuses r) l.

(** ** Resource manager: the [fs-extra] calls *)

(** [JSON.stringify] of a value of type [any]. *)
Definition stringify_any (a : any) : result json :=
  match a with
  | Plain j => inl j
  | Cyclic => inr (TypeError "Converting circular structure to JSON")
  end.

Fixpoint stringify_all (l : list any) : result (list json) :=
  match l with
  | [] => inl []
  | a :: r =>
      match stringify_any a, stringify_all r with
      | inl j, inl js => inl (j :: js)
      | inr e, _ => inr e
      | _, inr e => inr e
      end
  end.

(** [JSON.stringify] writes [null] for a number that is not finite. *)
Definition json_of_number (n : number) : json :=
  match n with
  | Finite q => JNum q
  | _ => JNull
  end.

(** The number a parsed JSON value is, if it is one. *)
Definition number_of_json (j : json) : option number :=
  match j with
  | JNum q => Some (Finite q)
  | _ => None
  end.

(** Property access on a parsed JSON value. *)
Definition field (name : string) (j : json) : option json :=
  match j with
  | JObj fields => JsMap.get name fields
  | _ => None
  end.

Definition lift {S A} (r : result A) : M S A :=
  match r with
  | inl a => ret a
  | inr e => throw e
  end.

Definition write (path : string) (c : FileContent) : RM unit :=
  let* r := read in
  if refuses r path then throw (IOError path)
  else modify (set_files (<[path := c]> (files r))).

(** [fs.writeJson(path, data)]: [data] is the outcome of serializing. *)
Definition writeJson (path : string) (data : result json) : RM unit :=
  let* j := lift data in
  write path (JsonFile j).

Definition writeFile (path text : string) : RM unit :=
  write path (TextFile text).

Definition copy (src dst : string) : RM unit :=
  let* r := read in
  match files r !! src with
  | None => throw (IOError src)
  | Some c => write dst c
  end.

Definition pathExists (path : string) : RM bool :=
  let* r := read in
  ret (match files r !! path with Some _ => true | None => false end).

Definition readJson (path : string) : RM json :=
  let* r := read in
  match files r !! path with
  | Some (JsonFile j) => ret j
  | Some (TextFile _) => throw (TypeError "Unexpected token in JSON")
  | None => throw (IOError path)
  end.

(** ** Resource manager: how the module binds [fs-extra] *)

(** [writeJson], [writeFile], [copy], [pathExists] and [readJson] above are
    the functions of the package.  What a method of the class calls is a
    member of the object [fs] that line 1 binds:
    [import * as fs from 'fs-extra'].  The [package.json] of the
    repository declares ["type": "module"], so Node loads [fs-extra], a
    CommonJS package, through its ES module loader, and the namespace object
    [fs] has, beside [default], only the members the loader finds by reading
    the text of the package: [writeJson], [readJson] and [writeFile] are not
    among them, and a call of one of them is a call of [undefined].  Compiled
    to CommonJS, [fs] is the export object of the package and has every
    member.  A [Namespace] tells which members [fs] has. *)
Inductive FsMember : Type :=
| WriteJson
| ReadJson
| WriteFile
| Copy
| PathExists.

Definition Namespace : Type := FsMember -> bool.

Definition member_name (m : FsMember) : string :=
  match m with
  | WriteJson => "writeJson"
  | ReadJson => "readJson"
  | WriteFile => "writeFile"
  | Copy => "copy"
  | PathExists => "pathExists"
  end.

(** [fs.m(...)]: the call [f] of the function of the package when [fs] has
    the member [m]; otherwise the [TypeError] of a call of [undefined],
    thrown before the package does anything. *)
Definition fs_call {A} (fs : Namespace) (m : FsMember) (f : RM A) : RM A :=
  if fs m then f
  else throw (TypeError ("fs." ++ member_name m ++ " is not a function")).

(** The object [fs] of a build to CommonJS. *)
Definition commonjs : Namespace := fun _ => true.

(** ** Resource manager: metrics and pressure *)

(** What one sample reads from the operating system and the process:
    [os.totalmem()], [os.freemem()], the microseconds of [process.cpuUsage]
    over the sampling window, and the time. *)
Record OsReading : Type := mkOsReading {
  totalmem : Z;
  freemem : Z;
  cpuMicros : Z;
  sampledAt : Z
}.

Definition GiB : Z := 1024 * 1024 * 1024.

Definition estimateVRAMUsage : Z := 24 * GiB.

Definition getCPUUsage (os : OsReading) : Q :=
  let percentage := (inject_Z (cpuMicros os) / 1000000 / 10)%Q in
  if Qle_bool percentage 100 then percentage else 100%Q.

(** [os.totalmem()] is positive, so the quotient is defined.  The two
    percentages are the exact quotients; the doubles the source computes can
    differ from them in the last place. *)
Definition getResourceMetrics (os : OsReading) : ResourceMetrics.t :=
  let totalRAM := totalmem os in
  let freeRAM := freemem os in
  let usedRAM := totalRAM - freeRAM in
  let ramUtilization := (inject_Z usedRAM / inject_Z totalRAM * 100)%Q in
  let estimatedTotalVRAM := 28 * GiB in
  let estimatedUsedVRAM := estimateVRAMUsage in
  let vramUtilization :=
    (inject_Z estimatedUsedVRAM / inject_Z estimatedTotalVRAM * 100)%Q in
  ResourceMetrics.mk totalRAM usedRAM freeRAM ramUtilization
    estimatedTotalVRAM estimatedUsedVRAM
    (estimatedTotalVRAM - estimatedUsedVRAM) vramUtilization
    (getCPUUsage os) (sampledAt os).

Definition nl : string := String (ascii_of_nat 10) "".

Definition metrics_json (m : ResourceMetrics.t) : json :=
  JObj [("totalRAM", JNum (inject_Z (ResourceMetrics.totalRAM m)));
        ("usedRAM", JNum (inject_Z (ResourceMetrics.usedRAM m)));
        ("freeRAM", JNum (inject_Z (ResourceMetrics.freeRAM m)));
        ("ramUtilization", JNum (ResourceMetrics.ramUtilization m));
        ("totalVRAM", JNum (inject_Z (ResourceMetrics.totalVRAM m)));
        ("usedVRAM", JNum (inject_Z (ResourceMetrics.usedVRAM m)));
        ("freeVRAM", JNum (inject_Z (ResourceMetrics.freeVRAM m)));
        ("vramUtilization", JNum (ResourceMetrics.vramUtilization m));
        ("cpuUsage", JNum (ResourceMetrics.cpuUsage m));
        ("timestamp", JNum (inject_Z (ResourceMetrics.timestamp m)))].

(** What one call of [emergencyDump] reads from outside: [Date.now()], the
    random suffix of the dump id, the sample, and the [processInfo] and
    [environment] objects. *)
Record DumpInputs : Type := mkDumpInputs {
  dumpNow : Z;
  dumpSuffix : string;
  dumpOs : OsReading;
  processInfo : json;
  environment : json
}.

Definition emergencyData (dumpId reason : string)
    (additionalData : option any) (inp : DumpInputs) : result json :=
  let systemState :=
    JObj [("activeAgents", JArr []);
          ("runningTasks", JArr []);
          ("resourceMetrics", metrics_json (getResourceMetrics (dumpOs inp)));
          ("modelLoadStates", JObj []);
          ("collaborations", JArr []);
          ("timestamp", JNum (inject_Z (dumpNow inp)))] in
  let tail :=
    [("processInfo", processInfo inp);
     ("environment", environment inp);
     ("timestamp", JNum (inject_Z (dumpNow inp)))] in
  match additionalData with
  | None =>
      inl (JObj ([("dumpId", JStr dumpId); ("reason", JStr reason);
                  ("systemState", systemState)] ++ tail))
  | Some a =>
      match stringify_any a with
      | inl j =>
          inl (JObj ([("dumpId", JStr dumpId); ("reason", JStr reason);
                      ("systemState", systemState);
                      ("additionalData", j)] ++ tail))
      | inr e => inr e
      end
  end.

Definition emergencyDump (reason : string) (additionalData : option any)
    (inp : DumpInputs) : RM string :=
  let* r := read in
  let dumpId :=
    ("emergency_" ++ string_of_Z (dumpNow inp) ++ "_" ++ dumpSuffix inp)%string
  in
  let dumpPath :=
    path_join (emergencyDumpDirectory r) (dumpId ++ ".json") in
  try_catch
    (writeJson dumpPath (emergencyData dumpId reason additionalData inp) ;;
     let latestDumpPath :=
       path_join (emergencyDumpDirectory r) "latest_emergency_dump.json" in
     copy dumpPath latestDumpPath ;;
     ret dumpId)
    (fun error =>
       let basicDumpPath :=
         path_join (emergencyDumpDirectory r) ("basic_" ++ dumpId ++ ".txt") in
       let basicInfo :=
         ("Emergency Dump: " ++ dumpId ++ nl ++ "Reason: " ++ reason ++ nl
          ++ "Timestamp: " ++ string_of_Z (dumpNow inp) ++ nl
          ++ "Error: Error: " ++ error_message error ++ nl)%string in
       writeFile basicDumpPath basicInfo ;;
       ret dumpId).

(** [`${error}`]: the name of the class of the error and its message. *)
Definition error_text (e : Error) : string :=
  match e with
  | TypeError what => "TypeError: " ++ what
  | _ => "Error: " ++ error_message e
  end.

(** [emergencyDump] as the class runs it, every call of [fs-extra] made
    through the object [fs].  With every member bound it returns and throws
    what the [emergencyDump] above does, and writes the same files; the text
    record names the class of the error it reports. *)
Definition emergencyDump_through (fs : Namespace) (reason : string)
    (additionalData : option any) (inp : DumpInputs) : RM string :=
  let* r := read in
  let dumpId :=
    ("emergency_" ++ string_of_Z (dumpNow inp) ++ "_" ++ dumpSuffix inp)%string
  in
  let dumpPath :=
    path_join (emergencyDumpDirectory r) (dumpId ++ ".json") in
  try_catch
    (fs_call fs WriteJson
       (writeJson dumpPath (emergencyData dumpId reason additionalData inp)) ;;
     let latestDumpPath :=
       path_join (emergencyDumpDirectory r) "latest_emergency_dump.json" in
     fs_call fs Copy (copy dumpPath latestDumpPath) ;;
     ret dumpId)
    (fun error =>
       let basicDumpPath :=
         path_join (emergencyDumpDirectory r) ("basic_" ++ dumpId ++ ".txt") in
       let basicInfo :=
         ("Emergency Dump: " ++ dumpId ++ nl ++ "Reason: " ++ reason ++ nl
          ++ "Timestamp: " ++ string_of_Z (dumpNow inp) ++ nl
          ++ "Error: " ++ error_text error ++ nl)%string in
       fs_call fs WriteFile (writeFile basicDumpPath basicInfo) ;;
       ret dumpId).

(** [await callback()] inside [try]/[catch]: the call is recorded, a
    rejection is logged and dropped. *)
Definition call (callback : Callback) : RM unit :=
  modify (fun r => set_invoked (invoked r ++ [callback]) r) ;;
  if callback_rejects callback
  then throw CallbackRejected
  else ret tt.

Definition call_guarded (callback : Callback) : RM unit :=
  try_catch (call callback) (fun _ => ret tt).

Definition handleCriticalRAMUsage (fs : Namespace)
    (metrics : ResourceMetrics.t) (inp : DumpInputs) : RM unit :=
  emergencyDump_through fs "critical-ram-usage"
    (Some (Plain (JObj [("metrics", metrics_json metrics)]))) inp ;;
  let* r := read in
  for_each (emergencyCallbacks r) call_guarded.

Definition handleWarningRAMUsage (metrics : ResourceMetrics.t) : RM unit :=
  let* r := read in
  for_each (pauseCallbacks r) call_guarded.

(** The two VRAM handlers only write to the console. *)
Definition handleCriticalVRAMUsage (metrics : ResourceMetrics.t) : RM unit :=
  ret tt.

Definition handleWarningVRAMUsage (metrics : ResourceMetrics.t) : RM unit :=
  ret tt.

(** [a >= b] on percentages. *)
Definition geq (a b : Q) : bool := Qle_bool b a.

(** [metrics] is the sample [await this.getResourceMetrics()] has returned
    to this check: its two percentages are the doubles the source has
    computed, [(usedRAM / totalRAM) * 100] rounded twice (56.99999999999999
    for 57 bytes used of 100), and the comparisons with the thresholds are
    comparisons of these figures.  [inp] is what the emergency dump reads if
    the check comes to it. *)
Definition checkResourcePressure (fs : Namespace)
    (metrics : ResourceMetrics.t) (inp : DumpInputs) : RM unit :=
  let* r := read in
  let th := resourceThresholds r in
  (if geq (ResourceMetrics.ramUtilization metrics) (Thresholds.ramCritical th)
   then handleCriticalRAMUsage fs metrics inp
   else if geq (ResourceMetrics.ramUtilization metrics)
             (Thresholds.ramWarning th)
   then handleWarningRAMUsage metrics
   else ret tt) ;;
  (if geq (ResourceMetrics.vramUtilization metrics)
        (Thresholds.vramCritical th)
   then handleCriticalVRAMUsage metrics
   else if geq (ResourceMetrics.vramUtilization metrics)
             (Thresholds.vramWarning th)
   then handleWarningVRAMUsage metrics
   else ret tt).

(** Callback registration and configuration. *)
Definition onEmergency (callback : Callback) : RM unit :=
  modify (fun r =>
    mkResourceManager (checkpointDirectory r) (emergencyDumpDirectory r)
      (resourceThresholds r) (isMonitoring r)
      (emergencyCallbacks r ++ [callback])
      (pauseCallbacks r) (resumeCallbacks r) (files r) (refuses r)
      (invoked r)).

Definition onPause (callback : Callback) : RM unit :=
  modify (fun r =>
    mkResourceManager (checkpointDirectory r) (emergencyDumpDirectory r)
      (resourceThresholds r) (isMonitoring r) (emergencyCallbacks r)
      (pauseCallbacks r ++ [callback])
      (resumeCallbacks r) (files r) (refuses r) (invoked r)).

Definition onResume (callback : Callback) : RM unit :=
  modify (fun r =>
    mkResourceManager (checkpointDirectory r) (emergencyDumpDirectory r)
      (resourceThresholds r) (isMonitoring r) (emergencyCallbacks r)
      (pauseCallbacks r)
      (resumeCallbacks r ++ [callback])
      (files r) (refuses r) (invoked r)).

Definition setThresholds (p : Thresholds.partial) : RM unit :=
  modify (fun r =>
    let th := resourceThresholds r in
    mkResourceManager (checkpointDirectory r) (emergencyDumpDirectory r)
      (Thresholds.mk
         (default (Thresholds.ramCritical th) (Thresholds.p_ramCritical p))
         (default (Thresholds.ramWarning th) (Thresholds.p_ramWarning p))
         (default (Thresholds.vramCritical th) (Thresholds.p_vramCritical p))
         (default (Thresholds.vramWarning th) (Thresholds.p_vramWarning p)))
      (isMonitoring r) (emergencyCallbacks r) (pauseCallbacks r)
      (resumeCallbacks r) (files r) (refuses r) (invoked r)).

Definition getThresholds (r : ResourceManager) : Thresholds.t :=
  resourceThresholds r.

Definition set_isMonitoring (b : bool) : RM unit :=
  modify (fun r =>
    mkResourceManager (checkpointDirectory r) (emergencyDumpDirectory r)
      (resourceThresholds r) b (emergencyCallbacks r) (pauseCallbacks r)
      (resumeCallbacks r) (files r) (refuses r) (invoked r)).

Definition startMonitoring : RM unit :=
  let* r := read in
  if isMonitoring r then ret tt else set_isMonitoring true.

Definition stopMonitoring : RM unit := set_isMonitoring false.

(** ** Resource manager: checkpoints *)

(** [{ ...taskCheckpoint, checkpointId, savedAt, version: '1.0' }] as
    [JSON.stringify] writes it. *)
Definition checkpointData (c : TaskCheckpoint.t) (checkpointId : string)
    (savedAt : Z) : result json :=
  match stringify_any (TaskCheckpoint.context c),
        stringify_all (TaskCheckpoint.intermediateResults c),
        stringify_any (TaskCheckpoint.modelState c),
        stringify_any (TaskCheckpoint.memorySnapshot c) with
  | inl context, inl intermediateResults, inl modelState, inl memorySnapshot =>
      inl (JObj
        [("taskId", JStr (TaskCheckpoint.taskId c));
         ("agentId", JStr (TaskCheckpoint.agentId c));
         ("status", JStr (TaskCheckpoint.status c));
         ("progress", json_of_number (TaskCheckpoint.progress c));
         ("context", context);
         ("intermediateResults", JArr intermediateResults);
         ("dependencies", JArr (map JStr (TaskCheckpoint.dependencies c)));
         ("startTime", JStr (TaskCheckpoint.startTime c));
         ("lastUpdate", JStr (TaskCheckpoint.lastUpdate c));
         ("modelState", modelState);
         ("memorySnapshot", memorySnapshot);
         ("checkpointId", JStr checkpointId);
         ("savedAt", JNum (inject_Z savedAt));
         ("version", JStr "1.0")])
  | inr e, _, _, _ => inr e
  | _, inr e, _, _ => inr e
  | _, _, inr e, _ => inr e
  | _, _, _, inr e => inr e
  end.

Definition checkpoint_id (taskId : string) (now : Z) : string :=
  "checkpoint_" ++ taskId ++ "_" ++ string_of_Z now.

Definition checkpoint_path (r : ResourceManager) (checkpointId : string)
    : string :=
  path_join (checkpointDirectory r) (checkpointId ++ ".json").

Definition quick_path (r : ResourceManager) (taskId : string) : string :=
  path_join (checkpointDirectory r) ("quick_" ++ taskId ++ ".json").

(** [now] is [Date.now()] and [savedAt] the later [new Date()]. *)
Definition saveTaskCheckpoint (fs : Namespace)
    (taskCheckpoint : TaskCheckpoint.t) (now savedAt : Z) : RM string :=
  let* r := read in
  let checkpointId := checkpoint_id (TaskCheckpoint.taskId taskCheckpoint) now in
  let checkpointPath := checkpoint_path r checkpointId in
  fs_call fs WriteJson
    (writeJson checkpointPath
       (checkpointData taskCheckpoint checkpointId savedAt)) ;;
  let quickRecoveryPath := quick_path r (TaskCheckpoint.taskId taskCheckpoint) in
  fs_call fs WriteJson
    (writeJson quickRecoveryPath
       (inl (JObj [("taskId", JStr (TaskCheckpoint.taskId taskCheckpoint));
                   ("checkpointId", JStr checkpointId);
                   ("checkpointPath", JStr checkpointPath);
                   ("lastUpdate", JNum (inject_Z savedAt))]))) ;;
  ret checkpointId.

(** [fs.readJson(quickRecovery.checkpointPath)] on what the pointer file
    holds under [checkpointPath].  A string is a path.  A number is handed
    on to [fs.readFile], which takes it for a file descriptor:
    [descriptor n] is what reading and parsing descriptor [n] gives, an
    error when [n] is not an open descriptor.  Anything else, [undefined]
    included, is refused with a [TypeError]. *)
Definition readJson_at (descriptor : Q -> result json)
    (checkpointPath : option json) : RM json :=
  match checkpointPath with
  | Some (JStr path) => readJson path
  | Some (JNum n) => lift (descriptor n)
  | _ => throw (TypeError "The path argument must be of type string")
  end.

(** The result is the parsed record, or [JNull] for [null].  Reading a
    property of [null] throws: the pointer file may hold [null]. *)
Definition loadTaskCheckpoint (fs : Namespace)
    (descriptor : Q -> result json) (taskId : string) : RM json :=
  try_catch
    (let* r := read in
     let quickRecoveryPath := quick_path r taskId in
     let* present := fs_call fs PathExists (pathExists quickRecoveryPath) in
     if (present : bool)
     then
       let* quickRecovery :=
         fs_call fs ReadJson (readJson quickRecoveryPath) in
       match quickRecovery with
       | JNull => throw (TypeError "Cannot read properties of null")
       | _ =>
           fs_call fs ReadJson
             (readJson_at descriptor (field "checkpointPath" quickRecovery))
       end
     else ret JNull)
    (fun _ => ret JNull).

(** ** Resource manager: recovery *)

(** The file a dump id names, and the copy of the latest dump. *)
Definition dump_path (r : ResourceManager) (dumpId : string) : string :=
  path_join (emergencyDumpDirectory r) (dumpId ++ ".json").

Definition latest_dump_path (r : ResourceManager) : string :=
  path_join (emergencyDumpDirectory r) "latest_emergency_dump.json".

(** The result is [dumpData.systemState]: [None] for [undefined],
    [Some JNull] for [null].  The log line reads [dumpData.dumpId] first,
    which throws when the file holds [null]. *)
Definition recoverFromDump (fs : Namespace) (dumpId : option string)
    : RM (option json) :=
  try_catch
    (let* r := read in
     let dumpPath :=
       if truthy dumpId then dump_path r (default "" dumpId)
       else latest_dump_path r in
     let* present := fs_call fs PathExists (pathExists dumpPath) in
     if (present : bool)
     then
       let* dumpData := fs_call fs ReadJson (readJson dumpPath) in
       match dumpData with
       | JNull => throw (TypeError "Cannot read properties of null")
       | _ => ret (field "systemState" dumpData)
       end
     else ret (Some JNull))
    (fun _ => ret (Some JNull)).

(** ** Orchestrator: sub-agents, subtasks and metrics *)

(** [new Error(message)] thrown from a place for which [Error] has no
    constructor of its own; only the message of such an error is read. *)
Definition Error_with (message : string) : Error := StrategyError message.

(** [Partial<AgentConfig>]: [None] is a property the caller left out. *)
Module PartialAgentConfig.
Record t : Type := mk {
  id : option string;
  name : option string;
  role : option string;
  capabilities : option (list string);
  systemPrompt : option string;
  maxTokens : option Z;
  temperature : option Q;
  tools : option (list string);
  parentAgentId : option string;
  priority : option Priority;
  timeout : option Z
}.

Definition empty : t :=
  mk None None None None None None None None None None None.
End PartialAgentConfig.

(** [a || b] when [a] is an optional number: [0] is falsy. *)
Definition or_number (a b : option Z) : option Z :=
  match a with
  | Some n => if (n =? 0)%Z then b else Some n
  | None => b
  end.

Definition or_ratio (a b : option Q) : option Q :=
  match a with
  | Some q => if Qeq_bool q 0 then b else Some q
  | None => b
  end.

(** [a || b] when [a] is an optional array: every array is truthy. *)
Definition or_array (a b : option (list string)) : option (list string) :=
  match a with
  | Some l => Some l
  | None => b
  end.

Definition generateSubAgentPrompt (parentAgent : AgentConfig.t)
    (subAgentConfig : PartialAgentConfig.t) : string :=
  join nl
    [("You are a specialized sub-agent working under "
      ++ AgentConfig.name parentAgent ++ " ("
      ++ AgentConfig.role parentAgent ++ ").")%string;
     "";
     ("Your specific role: "
      ++ or_else (PartialAgentConfig.role subAgentConfig)
           "Specialized Assistant")%string;
     "";
     "Parent Agent Context:";
     ("- Role: " ++ AgentConfig.role parentAgent)%string;
     ("- Capabilities: "
      ++ join ", " (AgentConfig.capabilities parentAgent))%string;
     "";
     "Your Responsibilities:";
     "- Execute specific subtasks assigned by your parent agent";
     "- Report progress and results back to the parent agent";
     "- Collaborate with sibling agents when necessary";
     "- Maintain focus on your specialized domain";
     "- Escalate complex issues to the parent agent";
     "";
     "Communication Protocol:";
     "- Always acknowledge task assignments";
     "- Provide regular status updates";
     "- Report completion with detailed results";
     "- Flag any blockers or dependencies immediately";
     "";
     or_else (PartialAgentConfig.systemPrompt subAgentConfig) ""].

(** The identifier [<parent>_sub_<ms>_<random>]. *)
Definition subAgentId_of (parentAgentId : string) (now : Z) (suffix : string)
    : string :=
  parentAgentId ++ "_sub_" ++ string_of_Z now ++ "_" ++ suffix.

(** The object literal [fullConfig] of [createSubAgent]. *)
Definition subAgentConfig_of (parentAgentId : string)
    (parentAgent : AgentConfig.t) (subAgentConfig : PartialAgentConfig.t)
    (subAgentId : string) : AgentConfig.t :=
  AgentConfig.mk subAgentId
    (or_else (PartialAgentConfig.name subAgentConfig)
       (AgentConfig.name parentAgent ++ " Sub-Agent"))
    (or_else (PartialAgentConfig.role subAgentConfig)
       ("Sub-" ++ AgentConfig.role parentAgent))
    (default (AgentConfig.capabilities parentAgent)
       (PartialAgentConfig.capabilities subAgentConfig))
    (or_else (PartialAgentConfig.systemPrompt subAgentConfig)
       (generateSubAgentPrompt parentAgent subAgentConfig))
    (or_number (PartialAgentConfig.maxTokens subAgentConfig)
       (AgentConfig.maxTokens parentAgent))
    (or_ratio (PartialAgentConfig.temperature subAgentConfig)
       (AgentConfig.temperature parentAgent))
    (or_array (PartialAgentConfig.tools subAgentConfig)
       (AgentConfig.tools parentAgent))
    (Some parentAgentId)
    (default medium (PartialAgentConfig.priority subAgentConfig))
    (or_number (PartialAgentConfig.timeout subAgentConfig) (Some 300000)).

(** [now] and [suffix] make the identifier; [createdAt] is the time
    [createAgent] reads. *)
Definition createSubAgent (parentAgentId : string)
    (subAgentConfig : PartialAgentConfig.t) (now : Z) (suffix : string)
    (createdAt : Z) : OM string :=
  let* o := read in
  match JsMap.get parentAgentId (agents o) with
  | None => throw (ParentNotFound parentAgentId)
  | Some parentAgent =>
      createAgent
        (subAgentConfig_of parentAgentId parentAgent subAgentConfig
           (subAgentId_of parentAgentId now suffix))
        createdAt
  end.

(** [getAllAgents], [getAllTasks] and [getCollaborationGraph]. *)
Definition getAllAgents (o : Orchestrator) : list AgentConfig.t :=
  JsMap.values (agents o).
Definition getAllTasks (o : Orchestrator) : list Task.t :=
  JsMap.values (tasks o).
Definition getCollaborationGraph (o : Orchestrator) : JsMap.t (list string) :=
  collaborationGraph o.

(** [{ ...subtaskConfig, parentTaskId: mainTaskId }]. *)
Definition under_parent (mainTaskId : string) (subtaskConfig : PartialTask.t)
    : PartialTask.t :=
  PartialTask.mk (PartialTask.id subtaskConfig)
    (PartialTask.description subtaskConfig) (PartialTask.type subtaskConfig)
    (PartialTask.priority subtaskConfig)
    (PartialTask.assignedAgentId subtaskConfig)
    (PartialTask.status subtaskConfig) (PartialTask.dependencies subtaskConfig)
    (PartialTask.result subtaskConfig) (PartialTask.error subtaskConfig)
    (PartialTask.createdAt subtaskConfig) (PartialTask.startedAt subtaskConfig)
    (PartialTask.completedAt subtaskConfig)
    (PartialTask.estimatedDuration subtaskConfig)
    (PartialTask.actualDuration subtaskConfig)
    (Some mainTaskId) (PartialTask.subtasks subtaskConfig).

(** One subtask to create: its configuration, and the identifier and the
    time [createTask] generates and reads for it. *)
Record SubtaskInput : Type := mkSubtaskInput {
  subtaskConfig : PartialTask.t;
  subtaskId : string;
  subtaskNow : Z
}.

(** The loop that creates the subtasks and collects their identifiers. *)
Fixpoint createSubtasks (mainTaskId : string) (inputs : list SubtaskInput)
    : OM (list string) :=
  match inputs with
  | [] => ret []
  | i :: rest =>
      let* id :=
        createTask (under_parent mainTaskId (subtaskConfig i)) (subtaskId i)
          (subtaskNow i) in
      let* ids := createSubtasks mainTaskId rest in
      ret (id :: ids)
  end.

Definition createTaskWithSubtasks (mainTaskConfig : PartialTask.t)
    (taskId : string) (now : Z) (subtaskConfigs : list SubtaskInput)
    : OM (string * list string) :=
  let* mainTaskId := createTask mainTaskConfig taskId now in
  let* subtaskIds := createSubtasks mainTaskId subtaskConfigs in
  let* o := read in
  match JsMap.get mainTaskId (tasks o) with
  | None => throw (TypeError "Cannot set properties of undefined")
  | Some mainTask =>
      store_task mainTaskId (Task.with_subtasks subtaskIds mainTask) ;;
      ret (mainTaskId, subtaskIds)
  end.

(** [try { m } finally { c }]: [c] runs whatever [m] did, and what [m]
    returned or threw stands unless [c] throws. *)
Definition finally {S A} (m : M S A) (c : M S unit) : M S A :=
  fun s =>
    match m s with
    | (s', r) =>
        match c s' with
        | (s'', inl _) => (s'', r)
        | (s'', inr e) => (s'', inr e)
        end
    end.

(** A method with a local variable of type [L]: the variable is a second
    component of the state for the time of the call. *)
Definition with_local {L A} (m : OM A) : M (Orchestrator * L) A :=
  fun s => match m (fst s) with (o', r) => ((o', snd s), r) end.

(** One sub-agent to create: its configuration and what [createSubAgent]
    reads for it. *)
Record SubAgentInput : Type := mkSubAgentInput {
  subConfig : PartialAgentConfig.t;
  subNow : Z;
  subSuffix : string;
  subCreatedAt : Z
}.

(** What one call of [executeTaskWithSubAgents] reads besides: the dropped
    collaboration identifier, the clock of [executeTask] and the time each
    [removeAgent] would cancel a task at. *)
Record SubAgentRun : Type := mkSubAgentRun {
  runCollaborationId : string;
  runClock : Clock;
  removedAt : string -> Z
}.

(** What [executeTaskWithSubAgents] returns: the object
    [{ ...result, subAgentsUsed, collaborationType: 'hierarchical' }], kept
    as the result it spreads and the list it adds. *)
Record SubAgentResult : Type := mkSubAgentResult {
  spreadResult : any;
  subAgentsUsed : list string
}.

Section SubAgents.
Context (strategies : Strategies).

Definition executeTaskWithSubAgents (taskId : string)
    (subAgentConfigs : list SubAgentInput) (inp : SubAgentRun)
    : OM SubAgentResult :=
  let* o := read in
  match JsMap.get taskId (tasks o) with
  | None => throw (Error_with "Task not found or not assigned")
  | Some task =>
      if negb (truthy (Task.assignedAgentId task))
      then throw (Error_with "Task not found or not assigned")
      else
        let parentAgentId := default "" (Task.assignedAgentId task) in
        fun o =>
          let body : M (Orchestrator * list string) SubAgentResult :=
            for_each subAgentConfigs
              (fun i =>
                 let* subAgentId :=
                   with_local
                     (createSubAgent parentAgentId (subConfig i) (subNow i)
                        (subSuffix i) (subCreatedAt i)) in
                 modify (fun s => (fst s, snd s ++ [subAgentId]))) ;;
            let* s := read in
            with_local
              (createCollaboration (parentAgentId :: snd s)
                 (runCollaborationId inp)) ;;
            let* r := with_local (executeTask strategies taskId (runClock inp)) in
            ret (mkSubAgentResult r (snd s)) in
          let cleanup : M (Orchestrator * list string) unit :=
            let* s := read in
            for_each (snd s)
              (fun subAgentId =>
                 with_local (removeAgent subAgentId (removedAt inp subAgentId)) ;;
                 ret tt) in
          match finally body cleanup (o, []) with
          | (s, r) => (fst s, r)
          end
  end.
End SubAgents.

(** The object [getSystemMetrics] returns, group by group. *)
Module SystemMetrics.
Record agent_counts : Type := mkAgents {
  agents_total : nat;
  agents_idle : nat;
  agents_busy : nat;
  agents_error : nat;
  agents_offline : nat
}.

Record task_counts : Type := mkTasks {
  tasks_total : nat;
  tasks_pending : nat;
  tasks_assigned : nat;
  tasks_in_progress : nat;
  tasks_completed : nat;
  tasks_failed : nat;
  tasks_cancelled : nat
}.

Record performance : Type := mkPerformance {
  averageTaskDuration : Q;
  successRate : Q;
  totalTasksCompleted : nat
}.

Record orchestrator : Type := mkOrchestratorFigures {
  metrics_isRunning : bool;
  messageQueueLength : nat;
  collaborations : nat
}.

Record t : Type := mk {
  of_agents : agent_counts;
  of_tasks : task_counts;
  of_performance : performance;
  of_orchestrator : orchestrator
}.
End SystemMetrics.

(** [xs.filter(p).length]. *)
Definition count_where {A} (p : A -> bool) (xs : list A) : nat :=
  length (List.filter p xs).

(** [t.actualDuration] as a condition: set, and not [0]. *)
Definition has_duration (t : Task.t) : bool :=
  match Task.actualDuration t with
  | Some d => negb (d =? 0)%Z
  | None => false
  end.

(** [sum / count || 0]: the quotient is [NaN], which is falsy, when no task
    has a duration. *)
Definition getSystemMetrics (o : Orchestrator) : SystemMetrics.t :=
  let agentList := JsMap.values (agentStates o) in
  let taskList := JsMap.values (tasks o) in
  let agents_with s :=
    count_where (fun a => AgentStatus_eqb (AgentState.status a) s) agentList in
  let tasks_with s :=
    count_where (fun t => TaskStatus_eqb (Task.status t) s) taskList in
  let timed := List.filter has_duration taskList in
  let sum :=
    fold_left (fun sum t => (sum + default 0 (Task.actualDuration t))%Z)
      timed 0%Z in
  SystemMetrics.mk
    (SystemMetrics.mkAgents (length agentList) (agents_with idle)
       (agents_with busy) (agents_with error) (agents_with offline))
    (SystemMetrics.mkTasks (length taskList) (tasks_with pending)
       (tasks_with assigned) (tasks_with in_progress) (tasks_with completed)
       (tasks_with failed) (tasks_with cancelled))
    (SystemMetrics.mkPerformance
       (if Nat.eqb (length timed) 0 then 0%Q
        else (inject_Z sum / inject_Z (Z.of_nat (length timed)))%Q)
       (if (0 <? length taskList)%nat
        then (inject_Z (Z.of_nat (tasks_with completed))
              / inject_Z (Z.of_nat (length taskList)))%Q
        else 0%Q)
       (tasks_with completed))
    (SystemMetrics.mkOrchestratorFigures (isRunning o)
       (length (messageQueue o)) (length (collaborationGraph o))).

(** ** Server: context memory and knowledge graph *)

(** The tools of the knowledge graph are methods of [AutonomousAIServer].
    Their arguments have the types the input schemas of the tools declare:
    names, types and observations are strings, the required properties are
    present.  With such arguments nothing inside the [try] blocks throws. *)

(** A string the server builds: the text [JSON.stringify(v, null, 2)], kept
    as the value [v] it writes, or other text. *)
Inductive Text : Type :=
| Stringified (v : json)
| Literal (s : string).

(** [interface ContextMemory]. *)
Module ContextMemory.
Record t : Type := mk {
  id : string;
  content : Text;
  type : string;
  timestamp : Z;
  tags : list string
}.
End ContextMemory.

(** An entity and a relation as the handlers build them. *)
Module Entity.
Record t : Type := mk {
  name : string;
  entityType : string;
  observations : list string;
  created : Z;
  lastModified : Z
}.

(** [entity.observations = l; entity.lastModified = now]. *)
Definition with_observations (l : list string) (now : Z) (e : t) : t :=
  mk (name e) (entityType e) l (created e) now.

Definition to_json (e : t) : json :=
  JObj [("name", JStr (name e));
        ("entityType", JStr (entityType e));
        ("observations", JArr (map JStr (observations e)));
        ("created", JNum (inject_Z (created e)));
        ("lastModified", JNum (inject_Z (lastModified e)))].
End Entity.

Module Relation.
Record t : Type := mk {
  from : string;
  to : string;
  relationType : string;
  created : Z
}.

(** [{ ...rel, from }]. *)
Definition with_from (from' : string) (rel : t) : t :=
  mk from' (to rel) (relationType rel) (created rel).

Definition to_json (rel : t) : json :=
  JObj [("from", JStr (from rel));
        ("to", JStr (to rel));
        ("relationType", JStr (relationType rel));
        ("created", JNum (inject_Z (created rel)))].

(** [rel.to === to && rel.relationType === relationType]. *)
Definition matches (to' relationType' : string) (rel : t) : bool :=
  String.eqb (to rel) to' && String.eqb (relationType rel) relationType'.
End Relation.

(** The fields of [AutonomousAIServer] that the tools of the knowledge graph
    read and write. *)
Record Server : Type := mkServer {
  contextMemory : JsMap.t ContextMemory.t;
  knowledgeGraph : JsMap.t Entity.t;
  entityRelations : JsMap.t (list Relation.t)
}.

Definition SM := M Server.

Definition new_server : Server := mkServer JsMap.empty JsMap.empty JsMap.empty.

Definition set_contextMemory
    (f : JsMap.t ContextMemory.t -> JsMap.t ContextMemory.t) (s : Server)
    : Server :=
  mkServer (f (contextMemory s)) (knowledgeGraph s) (entityRelations s).

Definition set_knowledgeGraph
    (f : JsMap.t Entity.t -> JsMap.t Entity.t) (s : Server) : Server :=
  mkServer (contextMemory s) (f (knowledgeGraph s)) (entityRelations s).

Definition set_entityRelations
    (f : JsMap.t (list Relation.t) -> JsMap.t (list Relation.t)) (s : Server)
    : Server :=
  mkServer (contextMemory s) (knowledgeGraph s) (f (entityRelations s)).

(** What a handler of the knowledge graph returns:
    [{ content: [{ type: 'text', text: JSON.stringify(result, null, 2) }] }],
    kept as the result, or the text of the [catch] branch with
    [isError: true]. *)
Inductive Response (A : Type) : Type :=
| Success (result : A)
| Failure (text : string).
Arguments Success {A} result.
Arguments Failure {A} text.

Definition json_of_nat (n : nat) : json := JNum (inject_Z (Z.of_nat n)).

(** What one call of [handleStoreContext] reads: [Date.now()], the random
    suffix of the identifier, and the time of the item. *)
Record StoreInputs : Type := mkStoreInputs {
  storeNow : Z;
  storeSuffix : string;
  storedAt : Z
}.

(** The result is the text of the response. *)
Definition handleStoreContext (content : Text) (type : string)
    (tags : option (list string)) (inp : StoreInputs) : SM string :=
  let id :=
    (type ++ "_" ++ string_of_Z (storeNow inp) ++ "_" ++ storeSuffix inp)%string
  in
  let contextItem :=
    ContextMemory.mk id content type (storedAt inp) (default [] tags) in
  modify (set_contextMemory (JsMap.set id contextItem)) ;;
  ret ("Stored context item with ID: " ++ id)%string.

(** [Array.from(this.entityRelations.values())
      .reduce((sum, rels) => sum + rels.length, 0)]. *)
Definition totalRelations_of (s : Server) : nat :=
  fold_left (fun sum rels => (sum + length rels)%nat)
    (JsMap.values (entityRelations s)) 0%nat.

(** *** [create_entities] *)

(** One entity of the request, and the two times the handler reads while it
    builds the entity. *)
Module EntityInput.
Record t : Type := mk {
  name : string;
  entityType : string;
  observations : option (list string);
  created : Z;
  lastModified : Z
}.
End EntityInput.

Module CreateEntities.
Record skipped_t : Type := mkSkipped {
  name : string;
  reason : string
}.

Record result : Type := mk {
  created : list Entity.t;
  skipped : list skipped_t;
  totalEntities : nat;
  timestamp : Z
}.

Definition to_json (r : result) : json :=
  JObj [("created", JArr (map Entity.to_json (created r)));
        ("skipped",
         JArr (map (fun k => JObj [("name", JStr (name k));
                                   ("reason", JStr (reason k))])
                 (skipped r)));
        ("totalEntities", json_of_nat (totalEntities r));
        ("timestamp", JNum (inject_Z (timestamp r)))].
End CreateEntities.

(** The object [entityData] that [handleCreateEntities] builds. *)
Definition entityData_of (entity : EntityInput.t) : Entity.t :=
  Entity.mk (EntityInput.name entity) (EntityInput.entityType entity)
    (default [] (EntityInput.observations entity))
    (EntityInput.created entity) (EntityInput.lastModified entity).

(** The loop of [handleCreateEntities]; [created] and [skipped] are the two
    arrays it fills. *)
Fixpoint createEntities_each (entities : list EntityInput.t)
    (created : list Entity.t) (skipped : list CreateEntities.skipped_t)
    : SM (list Entity.t * list CreateEntities.skipped_t) :=
  match entities with
  | [] => ret (created, skipped)
  | entity :: rest =>
      let name := EntityInput.name entity in
      let* s := read in
      if JsMap.has name (knowledgeGraph s)
      then
        createEntities_each rest created
          (skipped ++ [CreateEntities.mkSkipped name "Entity already exists"])
      else
        let entityData := entityData_of entity in
        modify (set_knowledgeGraph (JsMap.set name entityData)) ;;
        modify (set_entityRelations (JsMap.set name [])) ;;
        createEntities_each rest (created ++ [entityData]) skipped
  end.

Definition handleCreateEntities (entities : list EntityInput.t)
    (timestamp : Z) (store : StoreInputs)
    : SM (Response CreateEntities.result) :=
  try_catch
    (let* (created, skipped) := createEntities_each entities [] [] in
     let* s := read in
     let result :=
       CreateEntities.mk created skipped (length (knowledgeGraph s))
         timestamp in
     handleStoreContext (Stringified (CreateEntities.to_json result))
       "thought" (Some ["knowledge-graph"; "entities"; "create"]) store ;;
     ret (Success result))
    (fun error =>
       ret (Failure ("Failed to create entities: " ++ error_message error)%string)).

(** *** [create_relations] and [delete_relations] *)

(** One relation of the request, and the time the handler reads if it
    creates the relation. *)
Module RelationInput.
Record t : Type := mk {
  from : string;
  to : string;
  relationType : string;
  created : Z
}.
End RelationInput.

Module RelationNote.
(** [{ from, to, relationType, reason }] and [{ from, to, relationType }]. *)
Record t : Type := mk {
  from : string;
  to : string;
  relationType : string;
  reason : option string
}.

Definition to_json (n : t) : json :=
  JObj ([("from", JStr (from n));
         ("to", JStr (to n));
         ("relationType", JStr (relationType n))]
        ++ match reason n with
           | Some why => [("reason", JStr why)]
           | None => []
           end).
End RelationNote.

Module CreateRelations.
Record result : Type := mk {
  created : list Relation.t;
  skipped : list RelationNote.t;
  totalRelations : nat;
  timestamp : Z
}.

Definition to_json (r : result) : json :=
  JObj [("created", JArr (map Relation.to_json (created r)));
        ("skipped", JArr (map RelationNote.to_json (skipped r)));
        ("totalRelations", json_of_nat (totalRelations r));
        ("timestamp", JNum (inject_Z (timestamp r)))].
End CreateRelations.

Fixpoint createRelations_each (relations : list RelationInput.t)
    (created : list Relation.t) (skipped : list RelationNote.t)
    : SM (list Relation.t * list RelationNote.t) :=
  match relations with
  | [] => ret (created, skipped)
  | relation :: rest =>
      let from := RelationInput.from relation in
      let to := RelationInput.to relation in
      let relationType := RelationInput.relationType relation in
      let* s := read in
      if negb (JsMap.has from (knowledgeGraph s))
      then
        createRelations_each rest created
          (skipped ++ [RelationNote.mk from to relationType
                         (Some ("Source entity '" ++ from
                                ++ "' does not exist")%string)])
      else if negb (JsMap.has to (knowledgeGraph s))
      then
        createRelations_each rest created
          (skipped ++ [RelationNote.mk from to relationType
                         (Some ("Target entity '" ++ to
                                ++ "' does not exist")%string)])
      else
        let existingRelations :=
          default [] (JsMap.get from (entityRelations s)) in
        let relationExists :=
          existsb (Relation.matches to relationType) existingRelations in
        if relationExists
        then
          createRelations_each rest created
            (skipped ++ [RelationNote.mk from to relationType
                           (Some "Relation already exists")])
        else
          let relationData :=
            Relation.mk from to relationType (RelationInput.created relation)
          in
          modify (set_entityRelations
                    (JsMap.set from (existingRelations ++ [relationData]))) ;;
          createRelations_each rest (created ++ [relationData]) skipped
  end.

Definition handleCreateRelations (relations : list RelationInput.t)
    (timestamp : Z) (store : StoreInputs)
    : SM (Response CreateRelations.result) :=
  try_catch
    (let* (created, skipped) := createRelations_each relations [] [] in
     let* s := read in
     let result :=
       CreateRelations.mk created skipped (totalRelations_of s) timestamp in
     handleStoreContext (Stringified (CreateRelations.to_json result))
       "thought" (Some ["knowledge-graph"; "relations"; "create"]) store ;;
     ret (Success result))
    (fun error =>
       ret (Failure ("Failed to create relations: " ++ error_message error)%string)).

(** [a.findIndex(p)], [None] for [-1]. *)
Fixpoint findIndex {A} (p : A -> bool) (a : list A) : option nat :=
  match a with
  | [] => None
  | x :: r => if p x then Some 0%nat else option_map S (findIndex p r)
  end.

(** [a.splice(i, 1)] for an index inside the array. *)
Definition splice_one {A} (i : nat) (a : list A) : list A :=
  firstn i a ++ skipn (S i) a.

Module DeleteRelations.
Record result : Type := mk {
  deleted : list RelationNote.t;
  notFound : list RelationNote.t;
  totalRelations : nat;
  timestamp : Z
}.

Definition to_json (r : result) : json :=
  JObj [("deleted", JArr (map RelationNote.to_json (deleted r)));
        ("notFound", JArr (map RelationNote.to_json (notFound r)));
        ("totalRelations", json_of_nat (totalRelations r));
        ("timestamp", JNum (inject_Z (timestamp r)))].
End DeleteRelations.

(** One relation of the request of [delete_relations]. *)
Module RelationRef.
Record t : Type := mk {
  from : string;
  to : string;
  relationType : string
}.
End RelationRef.

Fixpoint deleteRelations_each (relations : list RelationRef.t)
    (deleted : list RelationNote.t) (notFound : list RelationNote.t)
    : SM (list RelationNote.t * list RelationNote.t) :=
  match relations with
  | [] => ret (deleted, notFound)
  | relation :: rest =>
      let from := RelationRef.from relation in
      let to := RelationRef.to relation in
      let relationType := RelationRef.relationType relation in
      let* s := read in
      match JsMap.get from (entityRelations s) with
      | None =>
          deleteRelations_each rest deleted
            (notFound ++ [RelationNote.mk from to relationType
                            (Some "Source entity has no relations")])
      | Some entityRelations =>
          match findIndex (Relation.matches to relationType) entityRelations with
          | None =>
              deleteRelations_each rest deleted
                (notFound ++ [RelationNote.mk from to relationType
                                (Some "Relation not found")])
          | Some relationIndex =>
              modify (set_entityRelations
                        (JsMap.set from
                           (splice_one relationIndex entityRelations))) ;;
              deleteRelations_each rest
                (deleted ++ [RelationNote.mk from to relationType None])
                notFound
          end
      end
  end.

Definition handleDeleteRelations (relations : list RelationRef.t)
    (timestamp : Z) (store : StoreInputs)
    : SM (Response DeleteRelations.result) :=
  try_catch
    (let* (deleted, notFound) := deleteRelations_each relations [] [] in
     let* s := read in
     let result :=
       DeleteRelations.mk deleted notFound (totalRelations_of s) timestamp in
     handleStoreContext (Stringified (DeleteRelations.to_json result))
       "thought" (Some ["knowledge-graph"; "relations"; "delete"]) store ;;
     ret (Success result))
    (fun error =>
       ret (Failure ("Failed to delete relations: " ++ error_message error)%string)).

(** *** [add_observations] and [delete_observations] *)

(** One entry of the request, and the time the handler reads if the entity
    exists. *)
Module ObservationInput.
Record t : Type := mk {
  entityName : string;
  contents : list string;
  lastModified : Z
}.
End ObservationInput.

Module EntityNote.
(** [{ entityName, reason: 'Entity does not exist' }]. *)
Record t : Type := mk {
  entityName : string;
  reason : string
}.

Definition to_json (n : t) : json :=
  JObj [("entityName", JStr (entityName n)); ("reason", JStr (reason n))].
End EntityNote.

Module AddObservations.
Record added_t : Type := mkAdded {
  entityName : string;
  addedObservations : list string;
  totalObservations : nat
}.

Record result : Type := mk {
  added : list added_t;
  failed : list EntityNote.t;
  timestamp : Z
}.

Definition to_json (r : result) : json :=
  JObj [("added",
         JArr (map (fun a =>
                      JObj [("entityName", JStr (entityName a));
                            ("addedObservations",
                             JArr (map JStr (addedObservations a)));
                            ("totalObservations",
                             json_of_nat (totalObservations a))])
                 (added r)));
        ("failed", JArr (map EntityNote.to_json (failed r)));
        ("timestamp", JNum (inject_Z (timestamp r)))].
End AddObservations.

Fixpoint addObservations_each (observations : list ObservationInput.t)
    (added : list AddObservations.added_t) (failed : list EntityNote.t)
    : SM (list AddObservations.added_t * list EntityNote.t) :=
  match observations with
  | [] => ret (added, failed)
  | obs :: rest =>
      let entityName := ObservationInput.entityName obs in
      let* s := read in
      match JsMap.get entityName (knowledgeGraph s) with
      | None =>
          addObservations_each rest added
            (failed ++ [EntityNote.mk entityName "Entity does not exist"])
      | Some entity =>
          let newObservations :=
            List.filter
              (fun content => negb (includes (Entity.observations entity) content))
              (ObservationInput.contents obs) in
          let entity' :=
            Entity.with_observations
              (Entity.observations entity ++ newObservations)
              (ObservationInput.lastModified obs) entity in
          modify (set_knowledgeGraph (JsMap.set entityName entity')) ;;
          addObservations_each rest
            (added ++ [AddObservations.mkAdded entityName newObservations
                         (length (Entity.observations entity'))])
            failed
      end
  end.

Definition handleAddObservations (observations : list ObservationInput.t)
    (timestamp : Z) (store : StoreInputs)
    : SM (Response AddObservations.result) :=
  try_catch
    (let* (added, failed') := addObservations_each observations [] [] in
     let result := AddObservations.mk added failed' timestamp in
     handleStoreContext (Stringified (AddObservations.to_json result))
       "thought" (Some ["knowledge-graph"; "observations"; "add"]) store ;;
     ret (Success result))
    (fun error =>
       ret (Failure ("Failed to add observations: " ++ error_message error)%string)).

Module DeleteObservations.
Record deleted_t : Type := mkDeleted {
  entityName : string;
  deletedCount : nat;
  remainingObservations : nat
}.

Record result : Type := mk {
  deleted : list deleted_t;
  failed : list EntityNote.t;
  timestamp : Z
}.

Definition to_json (r : result) : json :=
  JObj [("deleted",
         JArr (map (fun d =>
                      JObj [("entityName", JStr (entityName d));
                            ("deletedCount", json_of_nat (deletedCount d));
                            ("remainingObservations",
                             json_of_nat (remainingObservations d))])
                 (deleted r)));
        ("failed", JArr (map EntityNote.to_json (failed r)));
        ("timestamp", JNum (inject_Z (timestamp r)))].
End DeleteObservations.

(** One entry of the request of [delete_observations], and the time the
    handler reads if the entity exists. *)
Module DeletionInput.
Record t : Type := mk {
  entityName : string;
  observations : list string;
  lastModified : Z
}.
End DeletionInput.

Fixpoint deleteObservations_each (deletions : list DeletionInput.t)
    (deleted : list DeleteObservations.deleted_t) (failed : list EntityNote.t)
    : SM (list DeleteObservations.deleted_t * list EntityNote.t) :=
  match deletions with
  | [] => ret (deleted, failed)
  | deletion :: rest =>
      let entityName := DeletionInput.entityName deletion in
      let observations := DeletionInput.observations deletion in
      let* s := read in
      match JsMap.get entityName (knowledgeGraph s) with
      | None =>
          deleteObservations_each rest deleted
            (failed ++ [EntityNote.mk entityName "Entity does not exist"])
      | Some entity =>
          let originalCount := length (Entity.observations entity) in
          let entity' :=
            Entity.with_observations
              (List.filter (fun obs => negb (includes observations obs))
                 (Entity.observations entity))
              (DeletionInput.lastModified deletion) entity in
          modify (set_knowledgeGraph (JsMap.set entityName entity')) ;;
          deleteObservations_each rest
            (deleted
             ++ [DeleteObservations.mkDeleted entityName
                   (originalCount - length (Entity.observations entity'))
                   (length (Entity.observations entity'))])
            failed
      end
  end.

Definition handleDeleteObservations (deletions : list DeletionInput.t)
    (timestamp : Z) (store : StoreInputs)
    : SM (Response DeleteObservations.result) :=
  try_catch
    (let* (deleted, failed') := deleteObservations_each deletions [] [] in
     let result := DeleteObservations.mk deleted failed' timestamp in
     handleStoreContext (Stringified (DeleteObservations.to_json result))
       "thought" (Some ["knowledge-graph"; "observations"; "delete"]) store ;;
     ret (Success result))
    (fun error =>
       ret (Failure ("Failed to delete observations: " ++ error_message error)%string)).

(** *** [delete_entities] *)

Module DeleteEntities.
Record result : Type := mk {
  deleted : list string;
  notFound : list string;
  remainingEntities : nat;
  timestamp : Z
}.

Definition to_json (r : result) : json :=
  JObj [("deleted", JArr (map JStr (deleted r)));
        ("notFound", JArr (map JStr (notFound r)));
        ("remainingEntities", json_of_nat (remainingEntities r));
        ("timestamp", JNum (inject_Z (timestamp r)))].
End DeleteEntities.

(** The inner loop of [handleDeleteEntities]: every list of relations loses
    the relations that point to [entityName]. *)
Definition removeRelationsTo (entityName : string) : SM unit :=
  let* s := read in
  for_each (JsMap.entries (entityRelations s))
    (fun '(fromEntity, relations) =>
       let filteredRelations :=
         List.filter
           (fun rel => negb (String.eqb (Relation.to rel) entityName))
           relations in
       modify (set_entityRelations (JsMap.set fromEntity filteredRelations))).

Fixpoint deleteEntities_each (entityNames : list string)
    (deleted : list string) (notFound : list string)
    : SM (list string * list string) :=
  match entityNames with
  | [] => ret (deleted, notFound)
  | entityName :: rest =>
      let* s := read in
      if negb (JsMap.has entityName (knowledgeGraph s))
      then deleteEntities_each rest deleted (notFound ++ [entityName])
      else
        modify (set_knowledgeGraph (JsMap.delete entityName)) ;;
        modify (set_entityRelations (JsMap.delete entityName)) ;;
        removeRelationsTo entityName ;;
        deleteEntities_each rest (deleted ++ [entityName]) notFound
  end.

Definition handleDeleteEntities (entityNames : list string) (timestamp : Z)
    (store : StoreInputs) : SM (Response DeleteEntities.result) :=
  try_catch
    (let* (deleted, notFound) := deleteEntities_each entityNames [] [] in
     let* s := read in
     let result :=
       DeleteEntities.mk deleted notFound (length (knowledgeGraph s))
         timestamp in
     handleStoreContext (Stringified (DeleteEntities.to_json result))
       "thought" (Some ["knowledge-graph"; "entities"; "delete"]) store ;;
     ret (Success result))
    (fun error =>
       ret (Failure ("Failed to delete entities: " ++ error_message error)%string)).

(** *** [read_graph] and [open_nodes] *)

(** [[...new Set(xs)]]: the first occurrence of each string, in order. *)
Fixpoint unique (xs : list string) : list string :=
  match xs with
  | [] => []
  | x :: r => x :: List.filter (fun y => negb (String.eqb y x)) (unique r)
  end.

(** [rels.map(rel => ({ ...rel, from }))] over the entries of a map of
    relations. *)
Definition relations_from (from : string) (rels : list Relation.t)
    : list Relation.t :=
  map (Relation.with_from from) rels.

Module ReadGraph.
Record statistics_t : Type := mkStatistics {
  totalEntities : nat;
  totalRelations : nat;
  entityTypes : list string;
  relationTypes : list string
}.

Record result : Type := mk {
  entities : list Entity.t;
  relations : list Relation.t;
  statistics : statistics_t;
  timestamp : Z
}.

Definition to_json (r : result) : json :=
  JObj [("entities", JArr (map Entity.to_json (entities r)));
        ("relations", JArr (map Relation.to_json (relations r)));
        ("statistics",
         JObj [("totalEntities", json_of_nat (totalEntities (statistics r)));
               ("totalRelations",
                json_of_nat (totalRelations (statistics r)));
               ("entityTypes",
                JArr (map JStr (entityTypes (statistics r))));
               ("relationTypes",
                JArr (map JStr (relationTypes (statistics r))))]);
        ("timestamp", JNum (inject_Z (timestamp r)))].
End ReadGraph.

Definition handleReadGraph (timestamp : Z) (store : StoreInputs)
    : SM (Response ReadGraph.result) :=
  try_catch
    (let* s := read in
     let entities := JsMap.values (knowledgeGraph s) in
     let relations :=
       flat_map (fun '(from, rels) => relations_from from rels)
         (JsMap.entries (entityRelations s)) in
     let result :=
       ReadGraph.mk entities relations
         (ReadGraph.mkStatistics (length entities) (length relations)
            (unique (map Entity.entityType entities))
            (unique (map Relation.relationType relations)))
         timestamp in
     handleStoreContext (Stringified (ReadGraph.to_json result))
       "thought" (Some ["knowledge-graph"; "read"; "complete"]) store ;;
     ret (Success result))
    (fun error =>
       ret (Failure ("Failed to read graph: " ++ error_message error)%string)).

Module OpenNodes.
Record result : Type := mk {
  requestedNames : list string;
  foundEntities : list Entity.t;
  notFound : list string;
  relations : list Relation.t;
  timestamp : Z
}.

Definition to_json (r : result) : json :=
  JObj [("requestedNames", JArr (map JStr (requestedNames r)));
        ("foundEntities", JArr (map Entity.to_json (foundEntities r)));
        ("notFound", JArr (map JStr (notFound r)));
        ("relations", JArr (map Relation.to_json (relations r)));
        ("timestamp", JNum (inject_Z (timestamp r)))].
End OpenNodes.

(** The first loop of [handleOpenNodes]. *)
Fixpoint openNodes_each (s : Server) (names : list string)
    (foundEntities : list Entity.t) (notFound : list string)
    : list Entity.t * list string :=
  match names with
  | [] => (foundEntities, notFound)
  | name :: rest =>
      match JsMap.get name (knowledgeGraph s) with
      | Some entity => openNodes_each s rest (foundEntities ++ [entity]) notFound
      | None => openNodes_each s rest foundEntities (notFound ++ [name])
      end
  end.

Definition handleOpenNodes (names : list string) (timestamp : Z)
    (store : StoreInputs) : SM (Response OpenNodes.result) :=
  try_catch
    (let* s := read in
     let '(foundEntities, notFound) := openNodes_each s names [] [] in
     let relations :=
       flat_map
         (fun entity =>
            let entityRelations :=
              default [] (JsMap.get (Entity.name entity) (entityRelations s))
            in
            let relevantRelations :=
              List.filter (fun rel => includes names (Relation.to rel))
                entityRelations in
            relations_from (Entity.name entity) relevantRelations)
         foundEntities in
     let result :=
       OpenNodes.mk names foundEntities notFound relations timestamp in
     handleStoreContext (Stringified (OpenNodes.to_json result))
       "thought" (Some ["knowledge-graph"; "open"; "specific-nodes"]) store ;;
     ret (Success result))
    (fun error =>
       ret (Failure ("Failed to open nodes: " ++ error_message error)%string)).

(** ** Vocabulary of the properties *)

Definition is_terminal (s : TaskStatus) : bool :=
  match s with
  | completed | failed | cancelled => true
  | _ => false
  end.

(** Position along pending, assigned, in_progress, terminal. *)
Definition rank (s : TaskStatus) : nat :=
  match s with
  | pending => 0
  | assigned => 1
  | in_progress => 2
  | completed | failed | cancelled => 3
  end.

(** A status stays, or moves to a later position. *)
Definition forward (a b : TaskStatus) : Prop := a = b \/ (rank a < rank b)%nat.

(** Every task of [o] is still a task of [o'], and its status has only moved
    forward. *)
Definition tasks_forward (o o' : Orchestrator) : Prop :=
  forall k t, JsMap.get k (tasks o) = Some t ->
    exists t', JsMap.get k (tasks o') = Some t'
               /\ forward (Task.status t) (Task.status t').

(** No task queue holds a task whose status is terminal. *)
Definition queue_free_of_terminal (o : Orchestrator) (a : AgentState.t)
    : bool :=
  forallb
    (fun t =>
       match JsMap.get t (tasks o) with
       | Some task => negb (is_terminal (Task.status task))
       | None => true
       end)
    (AgentState.taskQueue a).

Definition queues_free_of_terminal (o : Orchestrator) : bool :=
  forallb (queue_free_of_terminal o) (JsMap.values (agentStates o)).

(** The claim about [createTask] as it is stated, at one input: the stored
    task carries the generated id and the status pending whatever the
    configuration supplies. *)
Definition createTask_as_claimed (taskConfig : PartialTask.t)
    (taskId : string) (now : Z) (o : Orchestrator) : Prop :=
  outcome (createTask taskConfig taskId now) o = inl taskId
  /\ exists t,
       getTaskStatus taskId (exec (createTask taskConfig taskId now) o)
         = Some t
       /\ Task.id t = taskId
       /\ Task.status t = pending
       /\ Task.type t = default custom (PartialTask.type taskConfig)
       /\ Task.priority t = default medium (PartialTask.priority taskConfig)
       /\ Task.dependencies t
          = default [] (PartialTask.dependencies taskConfig).

(** The terms of the score that do not depend on how matching entries are
    counted: the success rate when the agent has completed any task, the
    equal priorities and the length of the queue. *)
Definition score_rest (task : Task.t) (state : AgentState.t)
    (config : AgentConfig.t) : Q :=
  let perf := AgentState.performance state in
  ((if (0 <? Performance.tasksCompleted perf)%Z
    then 5 * (inject_Z (Performance.tasksSuccessful perf)
              / inject_Z (Performance.tasksCompleted perf))
    else 0)
   + (if Priority_eqb (AgentConfig.priority config) (Task.priority task)
      then 5 else 0)
   - 2 * inject_Z (Z.of_nat (length (AgentState.taskQueue state))))%Q.

(** The size of the intersection of two lists of strings read as sets: the
    number of different strings of [l] that are in [required]. *)
Definition common (required l : list string) : nat :=
  length (List.nodup string_dec (List.filter (includes required) l)).

(** The score of the agent-selection algorithm in the words of the claim:
    the agent's capabilities that are required for the task type, and its
    specializations that are, are counted as sets. *)
Definition spec_score (task : Task.t) (state : AgentState.t)
    (config : AgentConfig.t) : Q :=
  (10 * inject_Z (Z.of_nat (common (getTaskRequiredCapabilities task)
                              (AgentConfig.capabilities config)))
   + 15 * inject_Z (Z.of_nat (common (getTaskRequiredSpecializations task)
                                (AgentState.specializations state)))
   + score_rest task state config)%Q.

(** The number of entries of [l] that are in [required], an entry that is
    repeated counted each time. *)
Definition entries_in (required l : list string) : nat :=
  length (List.filter (includes required) l).

(** The score with the matching entries counted one by one. *)
Definition counted_score (task : Task.t) (state : AgentState.t)
    (config : AgentConfig.t) : Q :=
  (10 * inject_Z (Z.of_nat (entries_in (getTaskRequiredCapabilities task)
                              (AgentConfig.capabilities config)))
   + 15 * inject_Z (Z.of_nat (entries_in (getTaskRequiredSpecializations task)
                                (AgentState.specializations state)))
   + score_rest task state config)%Q.

(** The claim about [findBestAgent] as it is stated, at one input: the call
    does not throw, an agent it returns is idle and no idle agent has a
    higher score, the score being the one of the claim; it returns no agent
    when no agent is idle. *)
Definition findBestAgent_as_claimed (task : Task.t) (o : Orchestrator)
    : Prop :=
  match outcome (findBestAgent task) o with
  | inl None =>
      forall id state,
        JsMap.get id (agentStates o) = Some state ->
        AgentState.status state <> idle
  | inl (Some id) =>
      exists state config,
        JsMap.get id (agentStates o) = Some state
        /\ AgentState.status state = idle
        /\ JsMap.get id (agents o) = Some config
        /\ forall id' state' config',
             JsMap.get id' (agentStates o) = Some state' ->
             AgentState.status state' = idle ->
             JsMap.get id' (agents o) = Some config' ->
             (spec_score task state' config' <= spec_score task state config)%Q
  | inr _ => False
  end.

(** The counters of an agent as [createAgent] and [executeTask] leave them:
    successes are among the completed tasks. *)
Definition perf_ok (state : AgentState.t) : Prop :=
  let perf := AgentState.performance state in
  (0 <= Performance.tasksSuccessful perf <= Performance.tasksCompleted perf)%Z.

(** The registry as [createAgent] and [removeAgent] keep it: keys are unique
    and not empty, and every agent state has its configuration. *)
Definition registry_ok (o : Orchestrator) : Prop :=
  List.NoDup (JsMap.keys (agentStates o))
  /\ forall id state, In (id, state) (JsMap.entries (agentStates o)) ->
       id <> ""
       /\ (exists config, JsMap.get id (agents o) = Some config)
       /\ perf_ok state.

(** What [findBestAgent] relies on: the map of the agent states holds a key
    once, and every agent that is idle has an id that is not empty, a
    configuration, and not more successful than completed tasks. *)
Definition idle_agents_configured (o : Orchestrator) : Prop :=
  List.NoDup (JsMap.keys (agentStates o))
  /\ forall id state, In (id, state) (JsMap.entries (agentStates o)) ->
       AgentState.status state = idle ->
       id <> ""
       /\ (exists config, JsMap.get id (agents o) = Some config)
       /\ perf_ok state.


(** The object [fs] as the repository is configured: the three members the
    ES module loader does not find are missing.  Nothing is asked of the
    other members. *)
Definition as_configured (fs : Namespace) : Prop :=
  fs WriteJson = false /\ fs ReadJson = false /\ fs WriteFile = false.

(** The claim about checkpoints as it is stated, at one input: after the
    call of [saveTaskCheckpoint], [loadTaskCheckpoint] returns a record that
    is not [null] and carries the task id, the status and the progress of
    the checkpoint. *)
Definition checkpoint_roundtrip_as_claimed (fs : Namespace)
    (descriptor : Q -> result json) (c : TaskCheckpoint.t)
    (now savedAt : Z) (r : ResourceManager) : Prop :=
  let r' := exec (saveTaskCheckpoint fs c now savedAt) r in
  exists j,
    outcome (loadTaskCheckpoint fs descriptor (TaskCheckpoint.taskId c)) r'
    = inl j
    /\ j <> JNull
    /\ field "taskId" j = Some (JStr (TaskCheckpoint.taskId c))
    /\ field "status" j = Some (JStr (TaskCheckpoint.status c))
    /\ (field "progress" j ≫= number_of_json)
       = Some (TaskCheckpoint.progress c).

(** The calls a client, the monitoring timer and the process events make on
    a resource manager.  [CheckResourcePressure] is one firing of the
    monitoring interval or of the memory warning, with the sample it has
    taken. *)
Inductive RmCall : Type :=
| OnEmergency (callback : Callback)
| OnPause (callback : Callback)
| OnResume (callback : Callback)
| SetThresholds (p : Thresholds.partial)
| StartMonitoring
| StopMonitoring
| CheckResourcePressure (metrics : ResourceMetrics.t) (inp : DumpInputs)
| SaveTaskCheckpoint (c : TaskCheckpoint.t) (now savedAt : Z)
| LoadTaskCheckpoint (descriptor : Q -> result json) (taskId : string)
| EmergencyDump (reason : string) (additionalData : option any)
    (inp : DumpInputs)
| RecoverFromDump (dumpId : option string).

Definition perform (fs : Namespace) (c : RmCall) : RM unit :=
  match c with
  | OnEmergency callback => onEmergency callback
  | OnPause callback => onPause callback
  | OnResume callback => onResume callback
  | SetThresholds p => setThresholds p
  | StartMonitoring => startMonitoring
  | StopMonitoring => stopMonitoring
  | CheckResourcePressure metrics inp => checkResourcePressure fs metrics inp
  | SaveTaskCheckpoint c now savedAt =>
      saveTaskCheckpoint fs c now savedAt ;; ret tt
  | LoadTaskCheckpoint descriptor taskId =>
      loadTaskCheckpoint fs descriptor taskId ;; ret tt
  | EmergencyDump reason additionalData inp =>
      emergencyDump_through fs reason additionalData inp ;; ret tt
  | RecoverFromDump dumpId => recoverFromDump fs dumpId ;; ret tt
  end.

(** The state after a sequence of calls; a call that throws leaves the
    state it had reached. *)
Definition perform_all (fs : Namespace) (calls : list RmCall)
    (r : ResourceManager) : ResourceManager :=
  fold_left (fun r c => exec (perform fs c) r) calls r.

(** The claim about resume callbacks as it is stated, at one sequence of
    calls: a callback registered through [onResume] is never called. *)
Definition resume_never_invoked_as_claimed (fs : Namespace)
    (calls : list RmCall) (r : ResourceManager) : Prop :=
  forall cb, In (OnResume cb) calls ->
    forall c, In c (invoked (perform_all fs calls r)) ->
      callback_id c <> callback_id cb.

(** From [r] to [r'] the three callback lists are the same and every
    callback invoked by [r'] was invoked by [r] or is registered in [r] as
    an emergency or a pause callback. *)
Definition only_registered_called (r r' : ResourceManager) : Prop :=
  emergencyCallbacks r' = emergencyCallbacks r
  /\ pauseCallbacks r' = pauseCallbacks r
  /\ resumeCallbacks r' = resumeCallbacks r
  /\ forall c, In c (invoked r') ->
       In c (invoked r) \/ In c (emergencyCallbacks r)
       \/ In c (pauseCallbacks r).

(** No callback with the identity of [cb] has been invoked or is registered
    as an emergency or a pause callback. *)
Definition not_called_nor_armed (cb : Callback) (r : ResourceManager)
    : Prop :=
  forall c,
    In c (invoked r) \/ In c (emergencyCallbacks r)
    \/ In c (pauseCallbacks r) ->
    callback_id c <> callback_id cb.

(** From [r] to [r'] nothing but the files on the disk has changed. *)
Definition only_files_change (r r' : ResourceManager) : Prop :=
  checkpointDirectory r' = checkpointDirectory r
  /\ emergencyDumpDirectory r' = emergencyDumpDirectory r
  /\ resourceThresholds r' = resourceThresholds r
  /\ isMonitoring r' = isMonitoring r
  /\ emergencyCallbacks r' = emergencyCallbacks r
  /\ pauseCallbacks r' = pauseCallbacks r
  /\ resumeCallbacks r' = resumeCallbacks r
  /\ refuses r' = refuses r
  /\ invoked r' = invoked r.

(** A computation relates every state to the state it leaves. *)
Definition preserves {S A} (R : S -> S -> Prop) (m : M S A) : Prop :=
  forall s, R s (exec m s).

(** The message types whose handlers write no task status of their own. *)
Definition writes_no_status (t : MessageType) : bool :=
  match t with
  | task_result | error_report => false
  | task_assignment | collaboration_request | status_update => true
  end.

(** The calls made on an orchestrator: the public methods, [cancelTask] and
    the passes of the tick. *)
Inductive Call : Type :=
| CreateAgent (config : AgentConfig.t) (now : Z)
| RemoveAgent (agentId : string) (now : Z)
| CreateTask (taskConfig : PartialTask.t) (taskId : string) (now : Z)
| AssignTask (taskId : string) (agentId : option string)
| ExecuteTask (taskId : string) (clock : Clock)
| CancelTask (taskId : string) (now : Z)
| CreateCollaboration (agentIds : list string) (collaborationId : string)
| SendMessage (message : Envelope.t) (messageId : string) (now : Z)
| ProcessPendingTasks
| ProcessMessageQueue (now : Z)
| UpdateAgentStates (inp : Inputs)
| HandleTimeouts (inp : Inputs)
| OptimizeTaskDistribution
| Tick (inp : Inputs).

Definition make (strategies : Strategies) (c : Call) : OM unit :=
  match c with
  | CreateAgent config now => createAgent config now ;; ret tt
  | RemoveAgent agentId now => removeAgent agentId now ;; ret tt
  | CreateTask taskConfig taskId now =>
      createTask taskConfig taskId now ;; ret tt
  | AssignTask taskId agentId => assignTask taskId agentId ;; ret tt
  | ExecuteTask taskId clock => executeTask strategies taskId clock ;; ret tt
  | CancelTask taskId now => cancelTask taskId now ;; ret tt
  | CreateCollaboration agentIds collaborationId =>
      createCollaboration agentIds collaborationId ;; ret tt
  | SendMessage message messageId now =>
      sendMessage message messageId now ;; ret tt
  | ProcessPendingTasks => processPendingTasks
  | ProcessMessageQueue now => processMessageQueue now
  | UpdateAgentStates inp => updateAgentStates strategies inp
  | HandleTimeouts inp => handleTimeouts inp
  | OptimizeTaskDistribution => optimizeTaskDistribution
  | Tick inp => orchestratorTick strategies inp
  end.

(** The task, if it exists, has not reached a terminal status. *)
Definition not_yet_terminal (taskId : string) (o : Orchestrator) : Prop :=
  forall t, JsMap.get taskId (tasks o) = Some t ->
    is_terminal (Task.status t) = false.

Definition queue_writes_no_status (o : Orchestrator) : Prop :=
  forall m, In m (messageQueue o) ->
    writes_no_status (AgentMessage.type m) = true.

(** The calls under which the status order is kept: the generated task id
    is fresh; [executeTask] and [cancelTask] (also through [removeAgent]) are
    not applied to a task that is already terminal; no [task_result] or
    [error_report] message is sent or waiting. *)
Definition in_order (c : Call) (o : Orchestrator) : Prop :=
  match c with
  | CreateTask _ taskId _ => JsMap.get taskId (tasks o) = None
  | ExecuteTask taskId _ | CancelTask taskId _ => not_yet_terminal taskId o
  | RemoveAgent agentId _ =>
      forall a c, JsMap.get agentId (agentStates o) = Some a ->
        AgentState.currentTask a = Some c -> not_yet_terminal c o
  | SendMessage message _ _ => writes_no_status (Envelope.type message) = true
  | ProcessMessageQueue _ | Tick _ => queue_writes_no_status o
  | _ => True
  end.

(** [o'] is reached from [o] by the calls, each of them in order. *)
Inductive reaches_in_order (strategies : Strategies)
    : Orchestrator -> list Call -> Orchestrator -> Prop :=
| reaches_nil o : reaches_in_order strategies o [] o
| reaches_cons o c calls o' :
    in_order c o ->
    reaches_in_order strategies (exec (make strategies c) o) calls o' ->
    reaches_in_order strategies o (c :: calls) o'.

(** The state after a sequence of calls, without any condition on them. *)
Definition run_calls (strategies : Strategies) (calls : list Call)
    (o : Orchestrator) : Orchestrator :=
  fold_left (fun o c => exec (make strategies c) o) calls o.

(** A property of the state that holds after if it held before. *)
Definition keeps (P : Orchestrator -> Prop) (o o' : Orchestrator) : Prop :=
  P o -> P o'.

(** How many times a message has been handed to the handler of its type. *)
Definition times_handled (messageId : string) (o : Orchestrator) : nat :=
  count_occ string_dec (handled o) messageId.

(** From [o] to [o'] no agent state is lost and no handling is forgotten. *)
Definition agents_and_history_grow (o o' : Orchestrator) : Prop :=
  (forall k, JsMap.has k (agentStates o) = true ->
     JsMap.has k (agentStates o') = true)
  /\ forall id, (times_handled id o <= times_handled id o')%nat.

(** What [validateAgentConfig] asks of a configuration. *)
Definition valid_config (config : AgentConfig.t) : Prop :=
  AgentConfig.id config <> ""
  /\ AgentConfig.name config <> ""
  /\ AgentConfig.role config <> ""
  /\ AgentConfig.capabilities config <> []
  /\ AgentConfig.systemPrompt config <> "".

(** [b] is among the collaborators of [a]. *)
Definition linked (a b : string) (o : Orchestrator) : Prop :=
  exists l, JsMap.get a (collaborationGraph o) = Some l /\ In b l.

(** The calls of [Call] and the three public methods built from them. *)
Inductive Op : Type :=
| Basic (c : Call)
| CreateSubAgent (parentAgentId : string)
    (subAgentConfig : PartialAgentConfig.t) (now : Z) (suffix : string)
    (createdAt : Z)
| CreateTaskWithSubtasks (mainTaskConfig : PartialTask.t) (taskId : string)
    (now : Z) (subtaskConfigs : list SubtaskInput)
| ExecuteTaskWithSubAgents (taskId : string)
    (subAgentConfigs : list SubAgentInput) (inp : SubAgentRun).

Definition apply_op (strategies : Strategies) (op : Op) : OM unit :=
  match op with
  | Basic c => make strategies c
  | CreateSubAgent parentAgentId subAgentConfig now suffix createdAt =>
      createSubAgent parentAgentId subAgentConfig now suffix createdAt ;;
      ret tt
  | CreateTaskWithSubtasks mainTaskConfig taskId now subtaskConfigs =>
      createTaskWithSubtasks mainTaskConfig taskId now subtaskConfigs ;;
      ret tt
  | ExecuteTaskWithSubAgents taskId subAgentConfigs inp =>
      executeTaskWithSubAgents strategies taskId subAgentConfigs inp ;;
      ret tt
  end.

(** The state after a sequence of operations on a new orchestrator or on
    any other; an operation that throws leaves the state it had reached. *)
Definition run_ops (strategies : Strategies) (ops : list Op)
    (o : Orchestrator) : Orchestrator :=
  fold_left (fun o op => exec (apply_op strategies op) o) ops o.

(** Every list of collaborators is free of duplicates. *)
Definition collaborators_unique (o : Orchestrator) : Prop :=
  forall a l, In (a, l) (JsMap.entries (collaborationGraph o)) ->
    List.NoDup l.

(** Every collaborator in every list is a registered agent. *)
Definition collaborators_registered (o : Orchestrator) : Prop :=
  forall a l, In (a, l) (JsMap.entries (collaborationGraph o)) ->
    forall b, In b l -> JsMap.has b (agents o) = true.

(** Every entry of every task queue names a task of the orchestrator. *)
Definition queues_name_tasks (o : Orchestrator) : Prop :=
  forall id a, In (id, a) (JsMap.entries (agentStates o)) ->
    forall t, In t (AgentState.taskQueue a) -> JsMap.has t (tasks o) = true.

(** The registry, the queues and the collaboration graph as the operations
    keep them: an id has a state exactly when it has a configuration, in the
    same order and without repetition; every state is stored under its own
    id and carries the capabilities of its configuration, which is valid and
    stored under its own id too; queues name tasks that exist; lists of
    collaborators have no duplicates and hold registered agents only. *)
Definition consistent (o : Orchestrator) : Prop :=
  JsMap.keys (agentStates o) = JsMap.keys (agents o)
  /\ List.NoDup (JsMap.keys (agents o))
  /\ (forall id a, In (id, a) (JsMap.entries (agentStates o)) ->
        AgentState.id a = id
        /\ exists config,
             JsMap.get id (agents o) = Some config
             /\ AgentConfig.id config = id
             /\ AgentState.capabilities a = AgentConfig.capabilities config
             /\ valid_config config)
  /\ queues_name_tasks o
  /\ collaborators_unique o
  /\ collaborators_registered o.

(** No task of [o] is missing from [o']. *)
Definition tasks_kept (o o' : Orchestrator) : Prop :=
  forall k, JsMap.has k (tasks o) = true -> JsMap.has k (tasks o') = true.

(** A relation on orchestrators, read on states with a local variable. *)
Definition on_fst {L} (R : Orchestrator -> Orchestrator -> Prop)
    (s s' : Orchestrator * L) : Prop :=
  R (fst s) (fst s').

(** What the handler of a message leaves alone: the message queue, the
    record of the handlings and the set of agents that have a state. *)
Definition handler_frame (o o' : Orchestrator) : Prop :=
  messageQueue o' = messageQueue o
  /\ handled o' = handled o
  /\ forall k, JsMap.has k (agentStates o') = JsMap.has k (agentStates o).

(** The message has a target: its [toAgentId] has a state. *)
Definition has_target (o : Orchestrator) (m : AgentMessage.t) : bool :=
  JsMap.has (AgentMessage.toAgentId m) (agentStates o).

(** Inside [executeTaskWithSubAgents]: the configurations are those of
    [o0] followed by one entry for each identifier in the local list, in its
    order; the identifiers are distinct and none was registered in [o0]. *)
Definition grown_by (o0 : Orchestrator) (s : Orchestrator * list string)
    : Prop :=
  exists E : list (string * AgentConfig.t),
    agents (fst s) = agents o0 ++ E
    /\ map fst E = snd s
    /\ List.NoDup (snd s)
    /\ forall k, In k (snd s) -> JsMap.get k (agents o0) = None.

(** The task [createTask] stores for a configuration, an identifier and a
    time. *)
Definition task_of_config (taskConfig : PartialTask.t) (taskId : string)
    (now : Z) : Task.t :=
  spread (createTask_defaults taskId taskConfig now) taskConfig.

(** The timeout that applies to a task: the one of the configuration of its
    agent, or five minutes when the task has no agent, the agent has no
    configuration, or the configuration sets no timeout or [0]. *)
Definition timeout_of (o : Orchestrator) (task : Task.t) : Z :=
  match Task.assignedAgentId task with
  | Some a =>
      match JsMap.get a (agents o) with
      | Some config =>
          match AgentConfig.timeout config with
          | Some t => if (t =? 0)%Z then 300000 else t
          | None => 300000
          end
      | None => 300000
      end
  | None => 300000
  end.

(** The task is in progress and started more than its timeout before
    [now]. *)
Definition timed_out (o : Orchestrator) (now : Z) (task : Task.t) : bool :=
  match Task.status task, Task.startedAt task with
  | in_progress, Some startTime => (timeout_of o task <? now - startTime)%Z
  | _, _ => false
  end.

(** The task as [cancelTask] rewrites it. *)
Definition cancelled_at (now : Z) (task : Task.t) : Task.t :=
  Task.with_completedAt (Some now) (Task.with_status cancelled task).

(** The identifier [emergencyDump] makes from its inputs, and the text
    record it falls back to. *)
Definition dump_id (inp : DumpInputs) : string :=
  "emergency_" ++ string_of_Z (dumpNow inp) ++ "_" ++ dumpSuffix inp.

Definition basic_dump_path (r : ResourceManager) (dumpId : string) : string :=
  path_join (emergencyDumpDirectory r) ("basic_" ++ dumpId ++ ".txt").

(** From [o] to [o'] no task appears or disappears, and a task is as it
    was or, having been pending with every dependency completed, is now
    assigned to an agent; configurations, messages and links are the same
    and no agent state appears or disappears. *)
Definition only_assigns (o o' : Orchestrator) : Prop :=
  agents o' = agents o
  /\ JsMap.keys (agentStates o') = JsMap.keys (agentStates o)
  /\ messageQueue o' = messageQueue o
  /\ collaborationGraph o' = collaborationGraph o
  /\ forall taskId,
       match JsMap.get taskId (tasks o) with
       | None => JsMap.get taskId (tasks o') = None
       | Some task =>
           JsMap.get taskId (tasks o') = Some task
           \/ (Task.status task = pending
               /\ checkTaskDependencies task o = []
               /\ exists agent,
                    JsMap.get taskId (tasks o')
                    = Some (Task.with_status assigned
                              (Task.with_assignedAgentId (Some agent) task)))
       end.

(** *** The knowledge graph *)

(** The tools that read and write the knowledge graph, with what each call
    reads. *)
Inductive Tool : Type :=
| store_context (content : Text) (type : string) (tags : option (list string))
    (inp : StoreInputs)
| create_entities (entities : list EntityInput.t) (timestamp : Z)
    (store : StoreInputs)
| create_relations (relations : list RelationInput.t) (timestamp : Z)
    (store : StoreInputs)
| add_observations (observations : list ObservationInput.t) (timestamp : Z)
    (store : StoreInputs)
| delete_entities (entityNames : list string) (timestamp : Z)
    (store : StoreInputs)
| delete_observations (deletions : list DeletionInput.t) (timestamp : Z)
    (store : StoreInputs)
| delete_relations (relations : list RelationRef.t) (timestamp : Z)
    (store : StoreInputs)
| read_graph (timestamp : Z) (store : StoreInputs)
| open_nodes (names : list string) (timestamp : Z) (store : StoreInputs).

Definition call_tool (t : Tool) : SM unit :=
  match t with
  | store_context content type tags inp =>
      handleStoreContext content type tags inp ;; ret tt
  | create_entities entities timestamp store =>
      handleCreateEntities entities timestamp store ;; ret tt
  | create_relations relations timestamp store =>
      handleCreateRelations relations timestamp store ;; ret tt
  | add_observations observations timestamp store =>
      handleAddObservations observations timestamp store ;; ret tt
  | delete_entities entityNames timestamp store =>
      handleDeleteEntities entityNames timestamp store ;; ret tt
  | delete_observations deletions timestamp store =>
      handleDeleteObservations deletions timestamp store ;; ret tt
  | delete_relations relations timestamp store =>
      handleDeleteRelations relations timestamp store ;; ret tt
  | read_graph timestamp store => handleReadGraph timestamp store ;; ret tt
  | open_nodes names timestamp store =>
      handleOpenNodes names timestamp store ;; ret tt
  end.

(** The state after a sequence of tool calls. *)
Definition run_tools (tools : list Tool) (s : Server) : Server :=
  fold_left (fun s t => exec (call_tool t) s) tools s.

(** What identifies a relation among the relations of one entity. *)
Definition relation_key (rel : Relation.t) : string * string :=
  (Relation.to rel, Relation.relationType rel).

(** The relations stored for an entity, and the observations of an entity
    if it exists. *)
Definition relations_of (s : Server) (from : string) : list Relation.t :=
  default [] (JsMap.get from (entityRelations s)).

Definition observations_of (s : Server) (name : string)
    : option (list string) :=
  option_map Entity.observations (JsMap.get name (knowledgeGraph s)).

(** The graph is coherent: the two maps have the same keys in the same
    order, without repetition; an entity is stored under its name; the
    relations stored for an entity start at it, end at an entity that
    exists, and no two of them have the same target and type. *)
Definition graph_coherent (s : Server) : Prop :=
  JsMap.keys (entityRelations s) = JsMap.keys (knowledgeGraph s)
  /\ List.NoDup (JsMap.keys (knowledgeGraph s))
  /\ (forall name entity,
        JsMap.get name (knowledgeGraph s) = Some entity ->
        Entity.name entity = name)
  /\ (forall from rels,
        JsMap.get from (entityRelations s) = Some rels ->
        List.NoDup (map relation_key rels)
        /\ forall rel, In rel rels ->
             Relation.from rel = from
             /\ JsMap.has (Relation.to rel) (knowledgeGraph s) = true).

(** The graph is coherent after if it was before. *)
Definition coherence_kept (s s' : Server) : Prop :=
  graph_coherent s -> graph_coherent s'.

(** The request [deletions] names observation [obs] of entity [name]. *)
Definition to_delete (deletions : list DeletionInput.t) (name obs : string)
    : bool :=
  existsb
    (fun deletion =>
       String.eqb (DeletionInput.entityName deletion) name
       && includes (DeletionInput.observations deletion) obs)
    deletions.

(** The request [relations] names relation [rel] of entity [from]. *)
Definition to_unlink (relations : list RelationRef.t) (from : string)
    (rel : Relation.t) : bool :=
  existsb
    (fun relation =>
       String.eqb (RelationRef.from relation) from
       && Relation.matches (RelationRef.to relation)
            (RelationRef.relationType relation) rel)
    relations.

(** ** Sample inputs *)

Module Sample.
Definition coder : AgentConfig.t :=
    AgentConfig.mk "a1" "Coder" "developer" ["coding"] "You write code."
      None None None None medium None.

Definition tester : AgentConfig.t :=
  AgentConfig.mk "a2" "Tester" "test engineer" ["testing"]
    "You test code." None None None None high None.

Definition strategies : Strategies :=
  mkStrategies
    (fun _ _ => inl (Plain (JStr "research_result")))
    (fun _ _ => inl (Plain (JStr "analysis_result")))
    (fun _ _ => inl (Plain (JStr "coding_result")))
    (fun _ _ => inr (StrategyError "tests crashed"))
    (fun _ _ => inl (Plain (JStr "documentation_result")))
    (fun _ _ => inl (Plain (JStr "planning_result")))
    (fun _ _ => inl (Plain (JStr "custom_result"))).

Definition clock : Clock := mkClock 100 150 151.

Definition coding_task : PartialTask.t :=
  PartialTask.mk None (Some "write the parser") (Some coding) None None
    None None None None None None None None None None None.

Definition testing_task : PartialTask.t :=
  PartialTask.mk None (Some "test the parser") (Some testing) None None
    None (Some ["t1"]) None None None None None None None None None.

(** A configuration that supplies a status. *)
Definition finished_task : PartialTask.t :=
  PartialTask.mk None (Some "imported") None None None (Some completed)
    None None None None None None None None None None.

(** One agent, no task. *)
Definition one_agent : Orchestrator :=
  exec (createAgent coder 0) new_orchestrator.

(** One agent [a1] and one pending coding task [t1]. *)
Definition one_task : Orchestrator :=
  exec (createTask coding_task "t1" 1) one_agent.

(** [t1] assigned to [a1]. *)
Definition one_assigned : Orchestrator :=
  exec (assignTask "t1" None) one_task.

(** [t1] executed by [a1]: completed. *)
Definition one_completed : Orchestrator :=
  exec (executeTask strategies "t1" clock) one_assigned.

Definition message (type : MessageType) (content : Content.t)
    : Envelope.t :=
  Envelope.mk "a1" "a1" type content medium.

Definition about_t1 : Content.t :=
  Content.mk (Some "t1") None (Some (Plain (JStr "done elsewhere")))
    (Some "reported failure") None None None.

(** No agent, and a pending task [t2] that depends on an absent [t1]. *)
Definition blocked_task : Orchestrator :=
  exec (createTask testing_task "t2" 2) new_orchestrator.

(** The agent [a2] and a testing task [t3] assigned to it; the testing
    strategy of [strategies] throws. *)
Definition plain_testing_task : PartialTask.t :=
  PartialTask.mk None (Some "run the tests") (Some testing) None None
    None None None None None None None None None None None.

Definition failing_assigned : Orchestrator :=
  exec (assignTask "t3" (Some "a2"))
    (exec (createTask plain_testing_task "t3" 3)
       (exec (createAgent tester 0) new_orchestrator)).

(** Two idle agents. *)
Definition two_agents : Orchestrator :=
  exec (createAgent tester 0) one_agent.

Definition a_coding_task : Task.t :=
  spread (createTask_defaults "t1" coding_task 1) coding_task.

Definition inputs : Inputs :=
  mkInputs 1000 (fun _ => (1 # 2, 1 # 4)) (fun _ => clock).

(** A resource manager over an empty disk that accepts every write, and
    one whose disk refuses every write. *)
Definition manager : ResourceManager :=
  new_ResourceManager "/srv/work" ∅ (fun _ => false).

Definition manager_on_dead_disk : ResourceManager :=
  new_ResourceManager "/srv/work" ∅ (fun _ => true).

Definition checkpoint (progress : number) : TaskCheckpoint.t :=
  TaskCheckpoint.mk "t1" "a1" "in_progress" progress
    (Plain (JObj [("step", JNum 3)])) [Plain (JStr "draft")] []
    "2024-01-01T00:00:00.000Z" "2024-01-01T00:05:00.000Z"
    (Plain JNull) (Plain JNull).

Definition reading (total free : Z) : OsReading :=
  mkOsReading total free 50000 2000.

Definition dump_inputs (total free : Z) : DumpInputs :=
  mkDumpInputs 2000 "k3x9q2m1z" (reading total free) (JObj []) (JObj []).

Definition resume_hook : Callback := mkCallback 1 false.
Definition pause_hook : Callback := mkCallback 2 false.
Definition emergency_hook : Callback := mkCallback 3 true.

(** The object [fs] with the three members missing and the other two
    bound. *)
Definition loaded : Namespace :=
  fun m =>
    match m with
    | WriteJson | ReadJson | WriteFile => false
    | Copy | PathExists => true
    end.

(** A sample of 1000 bytes of which [free] are free, with the RAM
    utilization [ram] it reports. *)
Definition sample (free : Z) (ram : Q) : ResourceMetrics.t :=
  ResourceMetrics.mk 1000 (1000 - free) free ram (28 * GiB) (24 * GiB)
    (4 * GiB) (600 # 7) 12 2000.

(** No file descriptor is open. *)
Definition no_descriptor : Q -> result json :=
  fun _ => inr (IOError "EBADF").

(** Three registrations, then a sample at 90% and a sample at 99% of RAM. *)
Definition session : list RmCall :=
  [OnResume resume_hook; OnPause pause_hook; OnEmergency emergency_hook;
   CheckResourcePressure (sample 100 90) (dump_inputs 1000 100);
   CheckResourcePressure (sample 10 99) (dump_inputs 1000 10)].

(** A function registered to resume and to pause, then a sample at 90%. *)
Definition double_registration : list RmCall :=
  [OnResume resume_hook; OnPause resume_hook;
   CheckResourcePressure (sample 100 90) (dump_inputs 1000 100)].

(** A status update from [a1] to itself. *)
Definition heartbeat : Envelope.t := message status_update Content.empty.

(** [a1] reports a result for [t1], and [a1] reports an error for [t1]. *)
Definition result_report : Envelope.t := message task_result about_t1.
Definition failure_report : Envelope.t := message error_report about_t1.

(** Two idle agents for a coding task: [a3] lists the capability coding
    three times, [a4] lists two different capabilities of a coding task. *)
Definition repeater : AgentConfig.t :=
  AgentConfig.mk "a3" "Repeater" "developer" ["coding"; "coding"; "coding"]
    "You write code." None None None None medium None.

Definition versatile : AgentConfig.t :=
  AgentConfig.mk "a4" "Versatile" "developer" ["coding"; "programming"]
    "You write code." None None None None medium None.

Definition repeated_capabilities : Orchestrator :=
  exec (createAgent versatile 0) (exec (createAgent repeater 0) new_orchestrator).

(** A configuration that supplies an id. *)
Definition named_task : PartialTask.t :=
  PartialTask.mk (Some "mine") (Some "imported") None None None None
    None None None None None None None None None None.

(** [t1] is assigned to [a1] and its execution has begun: the call is
    suspended at its strategy. *)
Definition one_suspended : Orchestrator :=
  exec (executeTask_begin "t1" clock) one_assigned.

(** Meanwhile a tick finds the task late and cancels it. *)
Definition late : Inputs :=
  mkInputs 400000 (fun _ => (1 # 2, 1 # 4)) (fun _ => clock).

Definition timed_out_meanwhile : Orchestrator :=
  exec (handleTimeouts late) one_suspended.

(** Or, meanwhile, [a1] is removed.  The suspended call still holds the
    task, which is the one in the map, and the agent state, which is no
    longer in the map and is as [removeAgent] left it when it cancelled the
    task. *)
Definition removed_meanwhile : Orchestrator :=
  exec (removeAgent "a1" 120) one_suspended.

Definition held_task (o : Orchestrator) : Task.t :=
  default a_coding_task (JsMap.get "t1" (tasks o)).

Definition held_state (o : Orchestrator) : AgentState.t :=
  default (initialState coder 0) (JsMap.get "a1" (agentStates o)).

Definition coding_result : any := Plain (JStr "coding_result").
(** The inputs of a call of [handleStoreContext] at time [now]. *)
Definition store (now : Z) : StoreInputs := mkStoreInputs now "q1w2e3r4t" now.

(** A knowledge graph with two entities and one relation between them. *)
Definition graph : Server :=
  run_tools
    [create_entities
       [EntityInput.mk "ada" "person" (Some ["wrote a program"]) 10 10;
        EntityInput.mk "engine" "machine" None 11 11]
       12 (store 12);
     create_relations [RelationInput.mk "ada" "engine" "programmed" 20]
       21 (store 21)]
    new_server.
(** Two agents, and four coding tasks all assigned to [a1]. *)
Definition four_tasks_on_a1 : Orchestrator :=
  fold_left
    (fun o taskId =>
       exec (assignTask taskId (Some "a1"))
         (exec (createTask coding_task taskId 1) o))
    ["t1"; "t2"; "t3"; "t4"] two_agents.
End Sample.

(** * Properties *)

(** ** The state-and-exception monad *)

Lemma exec_bind {S A B} (m : M S A) (k : A -> M S B) (s : S) :
  exec (bind m k) s
  = match m s with
    | (s', inl a) => exec (k a) s'
    | (s', inr _) => s'
    end.
Proof. unfold exec, bind. destruct (m s) as [s' [a | e]]; reflexivity. Qed.

Lemma outcome_bind {S A B} (m : M S A) (k : A -> M S B) (s : S) :
  outcome (bind m k) s
  = match m s with
    | (s', inl a) => outcome (k a) s'
    | (_, inr e) => inr e
    end.
Proof. unfold outcome, bind. destruct (m s) as [s' [a | e]]; reflexivity. Qed.

Lemma exec_bind_outcome {S A B} (m : M S A) (k : A -> M S B) (s : S) :
  exec (bind m k) s
  = match outcome m s with
    | inl a => exec (k a) (exec m s)
    | inr _ => exec m s
    end.
Proof.
  unfold exec, outcome, bind. destruct (m s) as [s' [a | e]]; reflexivity.
Qed.

Lemma exec_modify_bind {S B} (f : S -> S) (k : unit -> M S B) (s : S) :
  exec (bind (modify f) k) s = exec (k tt) (f s).
Proof. reflexivity. Qed.

Lemma exec_try_catch_ret {S A} (m : M S A) (s : S) :
  exec (try_catch (bind m (fun _ => ret tt)) (fun _ => ret tt)) s = exec m s.
Proof.
  unfold exec, try_catch, bind, ret. destruct (m s) as [s' [a | e]]; reflexivity.
Qed.

Section Preserves.
Context {S : Type} (R : S -> S -> Prop).
Context (R_refl : forall s, R s s).
Context (R_trans : forall a b c, R a b -> R b c -> R a c).

Lemma preserves_ret {A} (a : A) : preserves R (ret a).
Proof using R_refl. intros s. apply R_refl. Qed.

Lemma preserves_throw {A} (e : Error) : preserves R (@throw S A e).
Proof using R_refl. intros s. apply R_refl. Qed.

Lemma preserves_lift {A} (r : result A) : preserves R (lift r).
Proof using R_refl. destruct r; intros s; apply R_refl. Qed.

Lemma preserves_bind {A B} (m : M S A) (k : A -> M S B) :
  preserves R m -> (forall a, preserves R (k a)) -> preserves R (bind m k).
Proof using R_trans.
  intros Hm Hk s. rewrite exec_bind. specialize (Hm s). unfold exec in Hm.
  destruct (m s) as [s' [a | e]]; simpl in Hm; [| exact Hm].
  eapply R_trans; [exact Hm | apply Hk].
Qed.

Lemma preserves_read {A} (k : S -> M S A) :
  (forall s, R s (exec (k s) s)) -> preserves R (bind read k).
Proof. intros Hk s. rewrite exec_bind. apply Hk. Qed.

Lemma preserves_read_all {A} (k : S -> M S A) :
  (forall x, preserves R (k x)) -> preserves R (bind read k).
Proof. intros Hk. apply preserves_read. intros s. apply Hk. Qed.

Lemma preserves_try_catch {A} (m : M S A) (h : Error -> M S A) :
  preserves R m -> (forall e, preserves R (h e)) ->
  preserves R (try_catch m h).
Proof using R_trans.
  intros Hm Hh s. unfold exec, try_catch. specialize (Hm s).
  unfold exec in Hm.
  destruct (m s) as [s' [a | e]]; simpl in Hm |- *; [exact Hm |].
  eapply R_trans; [exact Hm | apply Hh].
Qed.

(** The same for one starting state. *)
Lemma reach_bind {A B} (m : M S A) (k : A -> M S B) (s : S) :
  R s (exec m s) ->
  (forall a s', R s s' -> R s (exec (k a) s')) ->
  R s (exec (bind m k) s).
Proof.
  intros Hm Hk. rewrite exec_bind. unfold exec in Hm.
  destruct (m s) as [s' [a | e]]; simpl in Hm; [| exact Hm].
  now apply Hk.
Qed.

Lemma preserves_for_each {A} (xs : list A) (body : A -> M S unit) :
  (forall x, preserves R (body x)) -> preserves R (for_each xs body).
Proof using R_refl R_trans.
  intros Hb. induction xs as [| x xs IH]; simpl.
  - apply preserves_ret.
  - apply preserves_bind; [apply Hb | intros _; exact IH].
Qed.
End Preserves.

(** ** [JsMap] *)

Section JsMapFacts.
Context {V : Type}.
Implicit Types (m : JsMap.t V) (k : string) (v : V).

Lemma get_set_eq m k v : JsMap.get k (JsMap.set k v m) = Some v.
Proof.
  induction m as [| [k' v'] m IH]; simpl.
  - now rewrite String.eqb_refl.
  - destruct (String.eqb k k') eqn:E; simpl.
    + now rewrite String.eqb_refl.
    + now rewrite E.
Qed.

Lemma get_set_ne m k k' v :
  k <> k' -> JsMap.get k' (JsMap.set k v m) = JsMap.get k' m.
Proof.
  intros Hne. induction m as [| [k0 v0] m IH]; simpl.
  - destruct (String.eqb k' k) eqn:E; [| reflexivity].
    apply String.eqb_eq in E. congruence.
  - destruct (String.eqb k k0) eqn:E; simpl.
    + apply String.eqb_eq in E. subst k0.
      destruct (String.eqb k' k) eqn:E'; [| reflexivity].
      apply String.eqb_eq in E'. congruence.
    + now rewrite IH.
Qed.

Lemma get_set m k k' v :
  JsMap.get k' (JsMap.set k v m)
  = if String.eqb k' k then Some v else JsMap.get k' m.
Proof.
  destruct (String.eqb k' k) eqn:E.
  - apply String.eqb_eq in E. subst. apply get_set_eq.
  - apply String.eqb_neq in E. apply get_set_ne. congruence.
Qed.

Lemma keys_set_present m k v v0 :
  JsMap.get k m = Some v0 -> JsMap.keys (JsMap.set k v m) = JsMap.keys m.
Proof.
  induction m as [| [k' v'] m IH]; simpl; [discriminate |].
  destruct (String.eqb k k') eqn:E; simpl.
  - apply String.eqb_eq in E. now subst.
  - intros H. now rewrite IH.
Qed.

Lemma get_In m k v : JsMap.get k m = Some v -> In (k, v) m.
Proof.
  induction m as [| [k' v'] m IH]; simpl; [discriminate |].
  destruct (String.eqb k k') eqn:E.
  - apply String.eqb_eq in E. intros [= ->]. subst. now left.
  - intros H. right. now apply IH.
Qed.

Lemma In_get m k v :
  List.NoDup (JsMap.keys m) -> In (k, v) m -> JsMap.get k m = Some v.
Proof.
  induction m as [| [k' v'] m IH]; simpl; [tauto |].
  intros Hnd [H | H].
  - injection H as -> ->. now rewrite String.eqb_refl.
  - inversion Hnd as [| ? ? Hnotin Hnd']; subst.
    destruct (String.eqb k k') eqn:E.
    + apply String.eqb_eq in E. subst k'. exfalso. apply Hnotin.
      apply (in_map fst) in H. exact H.
    + now apply IH.
Qed.

Lemma In_keys_get m k : In k (JsMap.keys m) -> exists v, JsMap.get k m = Some v.
Proof.
  induction m as [| [k' v'] m IH]; simpl; [tauto |].
  intros [-> | H].
  - rewrite String.eqb_refl. eauto.
  - destruct (String.eqb k k'); eauto.
Qed.

Lemma get_In_keys m k v : JsMap.get k m = Some v -> In k (JsMap.keys m).
Proof.
  intros H. apply get_In in H. apply (in_map fst) in H. exact H.
Qed.

Lemma In_set_inv m k v k0 v0 :
  In (k0, v0) (JsMap.set k v m) -> (k0, v0) = (k, v) \/ In (k0, v0) m.
Proof.
  induction m as [| [k' v'] m IH]; simpl.
  - intros [H | []]. left. now symmetry.
  - destruct (String.eqb k k'); simpl.
    + intros [H | H]; [left; now symmetry | right; now right].
    + intros [H | H]; [right; now left |].
      destruct (IH H) as [H' | H']; [now left | right; now right].
Qed.

Lemma keys_set_absent m k v :
  JsMap.get k m = None -> JsMap.keys (JsMap.set k v m) = JsMap.keys m ++ [k].
Proof.
  induction m as [| [k' v'] m IH]; simpl; [reflexivity |].
  destruct (String.eqb k k') eqn:E; [discriminate |].
  intros H. simpl. now rewrite IH.
Qed.

Lemma NoDup_keys_set m k v :
  List.NoDup (JsMap.keys m) -> List.NoDup (JsMap.keys (JsMap.set k v m)).
Proof.
  intros Hnd. destruct (JsMap.get k m) as [v0 |] eqn:E.
  - now rewrite (keys_set_present m k v v0 E).
  - rewrite (keys_set_absent m k v E).
    apply List.NoDup_app; [exact Hnd | repeat constructor; simpl; tauto |].
    intros x Hx [<- | []]. apply In_keys_get in Hx. destruct Hx. congruence.
Qed.

Lemma In_delete_inv m k k0 v0 :
  In (k0, v0) (JsMap.delete k m) -> In (k0, v0) m /\ k0 <> k.
Proof.
  induction m as [| [k' v'] m IH]; simpl; [tauto |].
  destruct (String.eqb k k') eqn:E.
  - intros H. destruct (IH H). split; [now right | assumption].
  - intros [H | H].
    + injection H as -> ->. split; [now left |].
      apply String.eqb_neq in E. congruence.
    + destruct (IH H). split; [now right | assumption].
Qed.

Lemma get_delete_ne m k k0 :
  k0 <> k -> JsMap.get k0 (JsMap.delete k m) = JsMap.get k0 m.
Proof.
  intros Hne. induction m as [| [k' v'] m IH]; simpl; [reflexivity |].
  destruct (String.eqb k k') eqn:E; simpl.
  - apply String.eqb_eq in E. subst k'.
    destruct (String.eqb k0 k) eqn:E'; [| exact IH].
    apply String.eqb_eq in E'. congruence.
  - now rewrite IH.
Qed.

Lemma NoDup_keys_delete m k :
  List.NoDup (JsMap.keys m) -> List.NoDup (JsMap.keys (JsMap.delete k m)).
Proof.
  induction m as [| [k' v'] m IH]; simpl; [trivial |].
  intros Hnd. inversion Hnd as [| ? ? Hnotin Hnd']; subst.
  destruct (String.eqb k k'); [now apply IH |].
  simpl. constructor; [| now apply IH].
  intros Hin. apply Hnotin. apply In_keys_get in Hin. destruct Hin as [v Hv].
  assert (Hk : In (k', v) (JsMap.delete k m)) by now apply get_In.
  apply In_delete_inv in Hk. destruct Hk as [Hk _].
  apply (in_map fst) in Hk. exact Hk.
Qed.
End JsMapFacts.

(** ** [createTask] *)

(** C6, counterexample.  The claim as stated fails for a configuration that
    supplies a status: [createTask] stores the task with the supplied status
    [completed], not with [pending]. *)
Lemma createTask_supplied_status_wins :
  ~ createTask_as_claimed Sample.finished_task "t9" 5 new_orchestrator.
Proof.
  intros [_ (t & Ht & _ & Hs & _)].
  vm_compute in Ht. injection Ht as <-. discriminate Hs.
Qed.

(** C6, amended.  For every partial configuration that supplies no id,
    [createTask] stores the task under the generated id, with that id, and
    returns the id; each of the fields status, type, priority and
    dependencies of the stored task is the value the configuration supplies
    when it supplies one, and otherwise pending, custom, medium and the
    empty list. *)
Theorem createTask_defaults_and_overrides
    (taskConfig : PartialTask.t) (taskId : string) (now : Z)
    (o : Orchestrator) :
  PartialTask.id taskConfig = None ->
  outcome (createTask taskConfig taskId now) o = inl taskId
  /\ exists t,
       getTaskStatus taskId (exec (createTask taskConfig taskId now) o)
         = Some t
       /\ Task.id t = taskId
       /\ Task.status t = default pending (PartialTask.status taskConfig)
       /\ Task.type t = default custom (PartialTask.type taskConfig)
       /\ Task.priority t = default medium (PartialTask.priority taskConfig)
       /\ Task.dependencies t
          = default [] (PartialTask.dependencies taskConfig).
Proof.
  intros Hid. split; [reflexivity |].
  exists (spread (createTask_defaults taskId taskConfig now) taskConfig).
  split.
  - unfold getTaskStatus, createTask, exec, bind, modify, ret. simpl.
    apply get_set_eq.
  - destruct taskConfig as [i d ty p a s deps r e c st co es ac pa su].
    simpl in Hid. subst i. simpl.
    repeat split.
    + now destruct ty.
    + now destruct p.
    + now destruct deps.
Qed.

Lemma createTask_defaults_and_overrides_witness :
  outcome (createTask Sample.finished_task "t9" 5) new_orchestrator = inl "t9"
  /\ exists t,
       getTaskStatus "t9"
         (exec (createTask Sample.finished_task "t9" 5) new_orchestrator)
       = Some t
       /\ Task.id t = "t9"
       /\ Task.status t = completed
       /\ Task.type t = custom
       /\ Task.priority t = medium
       /\ Task.dependencies t = [].
Proof.
  apply (createTask_defaults_and_overrides Sample.finished_task "t9" 5
           new_orchestrator).
  reflexivity.
Defined.

(** A configuration that supplies an id is not covered: the task is stored
    under the generated id and carries the supplied one, so the pass over
    the pending tasks, which calls [assignTask] with the id the task
    carries, does not find it and leaves it pending. *)
Example createTask_supplied_id_is_not_the_key :
  let o := exec (createTask Sample.named_task "t9" 5) Sample.one_agent in
  (Task.id <$> getTaskStatus "t9" o) = Some "mine"
  /\ getTaskStatus "mine" o = None
  /\ outcome (assignTask "mine" None) o = inr (TaskNotFound "mine")
  /\ (Task.status <$> getTaskStatus "t9" (exec processPendingTasks o))
     = Some pending.
Proof. vm_compute. repeat split. Qed.

(** ** [assignTask] *)

Lemma findBestAgent_pure (task : Task.t) (o : Orchestrator) :
  exec (findBestAgent task) o = o.
Proof.
  unfold findBestAgent, exec, bind, read. cbv beta iota.
  destruct (availableAgents o) as [| x l]; [reflexivity |].
  destruct (score_all task o (x :: l)) as [scored | e]; [| reflexivity].
  destruct (sort higher_score scored); reflexivity.
Qed.


Lemma resolveAgent_pure task agentId (o : Orchestrator) :
  exec (resolveAgent task agentId) o = o.
Proof.
  unfold resolveAgent. destruct (truthy agentId); [reflexivity |].
  rewrite exec_bind.
  pose proof (findBestAgent_pure task o) as Hp. unfold exec in Hp.
  destruct (findBestAgent task o) as [o' [found | e]]; simpl in Hp; subst o'.
  - destruct (truthy found); reflexivity.
  - reflexivity.
Qed.


(** What [assignTask] returns on a pending task, by the outcome of the
    agent resolution and of the two checks that follow it. *)
Lemma assignTask_pending_outcome o taskId agentId task :
  JsMap.get taskId (tasks o) = Some task ->
  Task.status task = pending ->
  outcome (assignTask taskId agentId) o
  = match outcome (resolveAgent task agentId) o with
    | inr e => inr e
    | inl a =>
        match JsMap.get a (agentStates o) with
        | None => inr (AgentNotFound a)
        | Some _ =>
            match checkTaskDependencies task o with
            | [] => inl true
            | deps => inr (UnmetDependencies deps)
            end
        end
    end.
Proof.
  intros Hget Hst. unfold assignTask.
  rewrite outcome_bind. unfold read at 1. cbv beta iota.
  rewrite Hget, Hst. cbv beta iota. simpl negb. cbv iota.
  rewrite outcome_bind.
  pose proof (resolveAgent_pure task agentId o) as Hp.
  unfold exec, outcome in *.
  destruct (resolveAgent task agentId o) as [o' [a | e]]; simpl in Hp |- *;
    subst o'; [| reflexivity].
  destruct (JsMap.get a (agentStates o)); [| reflexivity].
  destruct (checkTaskDependencies task o); reflexivity.
Qed.




(** ** [executeTask] *)

Lemma executeTaskByType_pure strategies task (o : Orchestrator) :
  exec (executeTaskByType strategies task) o = o.
Proof.
  unfold executeTaskByType, exec, bind, read. cbv beta iota.
  destruct (JsMap.get _ (agents o)); [| reflexivity].
  match goal with |- context [match ?r with inl _ => _ | inr _ => _ end] =>
    destruct r end; reflexivity.
Qed.

(** The strategy sees the agent configurations only. *)
Lemma executeTaskByType_agents strategies task (o o' : Orchestrator) :
  agents o = agents o' ->
  outcome (executeTaskByType strategies task) o
  = outcome (executeTaskByType strategies task) o'.
Proof.
  intros H. unfold executeTaskByType, outcome, bind, read. cbv beta iota.
  rewrite H. destruct (JsMap.get _ (agents o')); [| reflexivity].
  match goal with |- context [match ?r with inl _ => _ | inr _ => _ end] =>
    destruct r end; reflexivity.
Qed.

Lemma remove_first_NoDup (x : string) (l : list string) :
  List.NoDup l -> ~ In x (remove_first x l).
Proof.
  induction l as [| y l IH]; simpl; [tauto |].
  intros Hnd. inversion Hnd as [| ? ? Hy Hl]; subst.
  destruct (String.eqb x y) eqn:E.
  - apply String.eqb_eq in E. now subst.
  - apply String.eqb_neq in E. simpl. intros [H | H]; [congruence |].
    now apply IH.
Qed.

(** The state [executeTask] leaves, by the outcome of the strategy. *)
Lemma executeTask_run strategies (o : Orchestrator) taskId clock task agentId
    agentState :
  JsMap.get taskId (tasks o) = Some task ->
  Task.assignedAgentId task = Some agentId ->
  agentId <> "" ->
  JsMap.get agentId (agentStates o) = Some agentState ->
  let task1 := task_started clock task in
  let agentState1 := agent_started taskId agentState in
  executeTask strategies taskId clock o
  = match outcome (executeTaskByType strategies task1) o with
    | inl r =>
        let task2 := task_completed clock r task1 in
        (set_agentStates
           (JsMap.set agentId (agent_succeeded taskId task2 agentState1)
              (JsMap.set agentId agentState1 (agentStates o)))
           (set_tasks
              (JsMap.set taskId task2 (JsMap.set taskId task1 (tasks o))) o),
         inl r)
    | inr e =>
        (set_agentStates
           (JsMap.set agentId (agent_failed taskId agentState1)
              (JsMap.set agentId agentState1 (agentStates o)))
           (set_tasks
              (JsMap.set taskId (task_failed clock e task1)
                 (JsMap.set taskId task1 (tasks o))) o),
         inr e)
    end.
Proof.
  intros Hget Hassigned Hne Hstate task1 agentState1.
  unfold executeTask, bind at 1, read at 1. cbv beta iota.
  rewrite Hget, Hassigned. cbn [truthy default negb]. unfold id.
  assert (Ht : truthy_string agentId = true).
  { unfold truthy_string. apply negb_true_iff. now apply String.eqb_neq. }
  rewrite Ht. cbn [negb]. rewrite Hstate.
  fold task1. fold agentState1.
  set (o1 := set_agentStates (JsMap.set agentId agentState1 (agentStates o))
               (set_tasks (JsMap.set taskId task1 (tasks o)) o)).
  assert (Hrun : executeTaskByType strategies task1 o1
                 = (o1, outcome (executeTaskByType strategies task1) o)).
  { pose proof (executeTaskByType_pure strategies task1 o1) as Hp.
    pose proof (executeTaskByType_agents strategies task1 o1 o eq_refl) as Ha.
    unfold exec, outcome in *.
    destruct (executeTaskByType strategies task1 o1) as [s r].
    simpl in *. now subst. }
  unfold try_catch, bind, store_task, store_agentState, modify, ret, throw.
  cbv beta iota.
  cbn [agentStates tasks agents set_tasks set_agentStates].
  unfold o1 in Hrun. rewrite Hrun.
  destruct (outcome (executeTaskByType strategies task1) o) as [r | e];
    reflexivity.
Qed.

(** C5.  For every task assigned to an existing agent, [executeTask] leaves
    that agent idle with no current task, with the first occurrence of the
    task taken out of its queue, whether the strategy returns or throws; it
    returns what the strategy returned and throws what the strategy threw.
    On a failure the task is failed, carries the message of the error and
    the completion time, and the agent has one more completed task and no
    more successful ones.  The message stored is the message of the [Error]
    the strategy threw, "Unknown error" when it threw a value that is not an
    [Error], and "Agent not found" when the agent has no configuration and
    no strategy is called. *)
Theorem executeTask_leaves_agent_idle
    (strategies : Strategies) (o : Orchestrator) (taskId : string)
    (clock : Clock) (task : Task.t) (agentId : string)
    (agentState : AgentState.t) :
  JsMap.get taskId (tasks o) = Some task ->
  Task.assignedAgentId task = Some agentId ->
  agentId <> "" ->
  JsMap.get agentId (agentStates o) = Some agentState ->
  let o' := exec (executeTask strategies taskId clock) o in
  let run := outcome (executeTaskByType strategies (task_started clock task)) o in
  let perf := AgentState.performance agentState in
  outcome (executeTask strategies taskId clock) o = run
  /\ exists a' t',
       JsMap.get agentId (agentStates o') = Some a'
       /\ JsMap.get taskId (tasks o') = Some t'
       /\ AgentState.status a' = idle
       /\ AgentState.currentTask a' = None
       /\ AgentState.taskQueue a'
          = remove_first taskId (AgentState.taskQueue agentState)
       /\ (List.NoDup (AgentState.taskQueue agentState) ->
           ~ In taskId (AgentState.taskQueue a'))
       /\ Performance.tasksCompleted (AgentState.performance a')
          = Performance.tasksCompleted perf + 1
       /\ match run with
          | inl r =>
              Task.status t' = completed
              /\ Task.result t' = Some r
              /\ Performance.tasksSuccessful (AgentState.performance a')
                 = Performance.tasksSuccessful perf + 1
          | inr e =>
              Task.status t' = failed
              /\ Task.error t' = Some (error_message e)
              /\ (forall msg, e = StrategyError msg ->
                    Task.error t' = Some msg)
              /\ (forall v, e = StrategyThrow v ->
                    Task.error t' = Some "Unknown error")
              /\ (e = AgentConfigMissing ->
                    Task.error t' = Some "Agent not found")
              /\ Task.completedAt t' = Some (at_completion clock)
              /\ Performance.tasksSuccessful (AgentState.performance a')
                 = Performance.tasksSuccessful perf
          end.
Proof.
  intros Hget Hassigned Hne Hstate o' run perf.
  pose proof (executeTask_run strategies o taskId clock task agentId
                agentState Hget Hassigned Hne Hstate) as Hrun.
  cbv zeta in Hrun. unfold o', exec, outcome at 1. rewrite Hrun. fold run.
  destruct run as [r | e]; cbn [fst snd]; (split; [reflexivity |]).
  - eexists _, _. cbn [agentStates tasks set_agentStates set_tasks].
    rewrite !get_set_eq.
    split; [reflexivity |]. split; [reflexivity |].
    split; [reflexivity |]. split; [reflexivity |].
    split; [reflexivity |].
    split; [intros Hnd; now apply remove_first_NoDup |].
    split; [reflexivity |]. repeat split.
  - eexists _, _. cbn [agentStates tasks set_agentStates set_tasks].
    rewrite !get_set_eq.
    split; [reflexivity |]. split; [reflexivity |].
    split; [reflexivity |]. split; [reflexivity |].
    split; [reflexivity |].
    split; [intros Hnd; now apply remove_first_NoDup |].
    split; [reflexivity |]. cbn.
    split; [reflexivity |]. split; [reflexivity |].
    split; [now intros msg -> |]. split; [now intros v -> |].
    split; [now intros -> |]. split; reflexivity.
Qed.

Lemma executeTask_leaves_agent_idle_witness :
  outcome (executeTask Sample.strategies "t3" Sample.clock)
    Sample.failing_assigned
  = inr (StrategyError "tests crashed").
Proof.
  eapply eq_trans.
  - refine (proj1 (executeTask_leaves_agent_idle Sample.strategies
                     Sample.failing_assigned "t3" Sample.clock _ "a2" _
                     _ _ _ _)).
    + vm_compute. reflexivity.
    + reflexivity.
    + discriminate.
    + vm_compute. reflexivity.
  - reflexivity.
Defined.

Example failed_task_carries_the_message :
  (Task.error
   <$> getTaskStatus "t3"
         (exec (executeTask Sample.strategies "t3" Sample.clock)
            Sample.failing_assigned))
  = Some (Some "tests crashed").
Proof. vm_compute. reflexivity. Qed.

(** [executeTask] is [executeTask_begin] followed at once by
    [executeTask_settle] on what the strategy gives and on the two objects
    as the first part left them. *)
Lemma executeTask_begin_then_settle strategies taskId clock
    (o : Orchestrator) :
  executeTask strategies taskId clock o
  = match executeTask_begin taskId clock o with
    | (o1, inl (task1, agentState1)) =>
        executeTask_settle taskId clock task1 agentState1
          (outcome (executeTaskByType strategies task1) o1) o1
    | (o1, inr e) => (o1, inr e)
    end.
Proof.
  cbv [executeTask executeTask_begin bind read].
  destruct (JsMap.get taskId (tasks o)) as [task |]; [| reflexivity].
  destruct (negb (truthy (Task.assignedAgentId task))); [reflexivity |].
  destruct (JsMap.get _ (agentStates o)) as [agentState |]; [| reflexivity].
  cbv [executeTask_settle try_catch bind store_task store_agentState modify
       ret throw].
  change (Task.assignedAgentId (task_started clock task))
    with (Task.assignedAgentId task).
  match goal with
  | |- context [executeTaskByType strategies ?t ?o1] =>
      pose proof (executeTaskByType_pure strategies t o1) as Hp;
      unfold exec, outcome in *;
      destruct (executeTaskByType strategies t o1) as [s [r | e]];
      simpl in Hp; subst s; reflexivity
  end.
Qed.

(** ** [findBestAgent] *)

Lemma AgentStatus_eqb_eq (a b : AgentStatus) :
  AgentStatus_eqb a b = true <-> a = b.
Proof. destruct a, b; simpl; split; congruence. Qed.

Lemma TaskStatus_eqb_eq (a b : TaskStatus) :
  TaskStatus_eqb a b = true <-> a = b.
Proof. destruct a, b; simpl; split; congruence. Qed.

Lemma TaskStatus_eqb_refl (a : TaskStatus) : TaskStatus_eqb a a = true.
Proof. now destruct a. Qed.

Section SortHead.
Context {A : Type} (key : A -> Q).
Let before (a b : A) : bool := negb (Qle_bool (key a) (key b)).

(** The first element of a list sorted by decreasing key is an element of
    the list with the largest key. *)
Lemma sort_head_max (l : list A) :
  match sort before l with
  | [] => l = []
  | h :: _ => In h l /\ forall x, In x l -> (key x <= key h)%Q
  end.
Proof.
  induction l as [| a l IH]; [reflexivity |].
  change (sort before (a :: l)) with (sort_insert before a (sort before l)).
  destruct (sort before l) as [| h r]; simpl.
  - subst l. split; [now left |]. intros x [<- | []]. apply Qle_refl.
  - destruct IH as [Hin Hmax]. unfold before at 1.
    destruct (Qle_bool (key h) (key a)) eqn:E; simpl.
    + apply Qle_bool_iff in E. split; [now left |].
      intros x [<- | Hx]; [apply Qle_refl |].
      eapply Qle_trans; [apply Hmax, Hx | exact E].
    + split; [now right |].
      intros x [<- | Hx]; [| now apply Hmax].
      apply Qlt_le_weak, Qnot_le_lt. intros Hle.
      apply Qle_bool_iff in Hle. congruence.
Qed.
End SortHead.

(** On an agent whose counters are consistent, the score the code computes
    is the score with the matching entries counted one by one. *)
Lemma score_counted_score (task : Task.t) (state : AgentState.t)
    (config : AgentConfig.t) :
  perf_ok state ->
  (score task state config == counted_score task state config)%Q.
Proof.
  unfold perf_ok, score, counted_score, score_rest, entries_in. cbv zeta.
  set (perf := AgentState.performance state).
  set (c := Z.of_nat (length (List.filter _ (AgentConfig.capabilities config)))).
  set (sp := Z.of_nat (length (List.filter _ (AgentState.specializations state)))).
  set (q := Z.of_nat (length (AgentState.taskQueue state))).
  intros [H0 Hle].
  rewrite !inject_Z_mult.
  destruct (0 <? Performance.tasksSuccessful perf)%Z eqn:Es.
  - apply Z.ltb_lt in Es.
    assert (Ec : (0 <? Performance.tasksCompleted perf)%Z = true)
      by (apply Z.ltb_lt; lia).
    rewrite Ec.
    destruct (Priority_eqb _ _); unfold Qdiv; ring.
  - apply Z.ltb_ge in Es.
    assert (E0 : Performance.tasksSuccessful perf = 0%Z) by lia.
    rewrite E0.
    destruct (0 <? Performance.tasksCompleted perf)%Z;
      destruct (Priority_eqb _ _); unfold Qdiv; ring.
Qed.

Lemma score_all_inv task (o : Orchestrator) l scored :
  score_all task o l = inl scored ->
  (forall s, In s scored ->
     In (scored_id s, scored_state s) l
     /\ exists config,
          JsMap.get (scored_id s) (agents o) = Some config
          /\ scored_value s = score task (scored_state s) config)
  /\ (forall id state config,
        In (id, state) l -> JsMap.get id (agents o) = Some config ->
        In (mkScored id state (score task state config)) scored).
Proof.
  revert scored. induction l as [| [id st] l IH]; simpl; intros scored.
  - intros [= <-]. split; [intros s [] | intros ? ? ? []].
  - destruct (JsMap.get id (agents o)) as [config |] eqn:Hc; [| discriminate].
    destruct (score_all task o l) as [rest | e]; [| discriminate].
    intros [= <-]. destruct (IH rest eq_refl) as [IH1 IH2]. split.
    + intros s [<- | Hs]; simpl.
      * split; [now left |]. exists config. now split.
      * destruct (IH1 s Hs) as [Hin Hex]. split; [now right | exact Hex].
    + intros id' st' config' [[= <- <-] | Hin] Hget.
      * left. congruence.
      * right. now apply IH2.
Qed.

Lemma score_all_total task (o : Orchestrator) l :
  (forall id state, In (id, state) l ->
     exists config, JsMap.get id (agents o) = Some config) ->
  exists scored, score_all task o l = inl scored.
Proof.
  induction l as [| [id st] l IH]; simpl; intros H; [now eexists |].
  destruct (H id st (or_introl eq_refl)) as [config ->].
  destruct IH as [rest ->]; [intros; eapply H; right; eauto |].
  now eexists.
Qed.

(** One agent state without a configuration among those that are scored
    makes the scoring throw. *)
Lemma score_all_orphan task (o : Orchestrator) l id state :
  In (id, state) l ->
  JsMap.get id (agents o) = None ->
  score_all task o l = inr (TypeError "Cannot read properties of undefined").
Proof.
  induction l as [| [id' st'] l IH]; simpl; [intros [] |].
  intros [[= -> ->] | Hin] Hnone.
  - now rewrite Hnone.
  - destruct (JsMap.get id' (agents o)); [| reflexivity].
    now rewrite IH.
Qed.

Lemma available_iff (o : Orchestrator) id state :
  In (id, state) (availableAgents o)
  <-> In (id, state) (JsMap.entries (agentStates o))
      /\ AgentState.status state = idle.
Proof.
  unfold availableAgents. rewrite filter_In. simpl.
  now rewrite AgentStatus_eqb_eq.
Qed.

(** An idle agent state without a configuration makes [findBestAgent] throw
    for every task. *)
Lemma findBestAgent_orphan_throws (task : Task.t) (o : Orchestrator) id state :
  In (id, state) (JsMap.entries (agentStates o)) ->
  AgentState.status state = idle ->
  JsMap.get id (agents o) = None ->
  findBestAgent task o
  = (o, inr (TypeError "Cannot read properties of undefined")).
Proof.
  intros Hin Hidle Hnone.
  assert (Hav : In (id, state) (availableAgents o))
    by (apply available_iff; now split).
  unfold findBestAgent, bind, read. cbv beta iota.
  destruct (availableAgents o) as [| x l] eqn:Eav; [destruct Hav |].
  rewrite <- Eav in *.
  now rewrite (score_all_orphan task o _ id state Hav Hnone).
Qed.

(** When every idle agent has a configuration, [findBestAgent] changes
    nothing and never throws; an agent it returns is idle and its score,
    matching entries counted one by one, is at least the score of every idle
    agent; it returns no agent only when no agent is idle. *)
Lemma findBestAgent_best_idle (task : Task.t) (o : Orchestrator) :
  idle_agents_configured o ->
  exec (findBestAgent task) o = o
  /\ match outcome (findBestAgent task) o with
     | inl None =>
         forall id state,
           JsMap.get id (agentStates o) = Some state ->
           AgentState.status state <> idle
     | inl (Some id) =>
         exists state config,
           JsMap.get id (agentStates o) = Some state
           /\ AgentState.status state = idle
           /\ JsMap.get id (agents o) = Some config
           /\ forall id' state' config',
                JsMap.get id' (agentStates o) = Some state' ->
                AgentState.status state' = idle ->
                JsMap.get id' (agents o) = Some config' ->
                (counted_score task state' config'
                 <= counted_score task state config)%Q
     | inr _ => False
     end.
Proof.
  intros [Hnd Hreg]. split; [apply findBestAgent_pure |].
  unfold findBestAgent, outcome, bind, read. cbv beta iota.
  pose proof (available_iff o) as Hav.
  destruct (availableAgents o) as [| x l] eqn:Eav.
  - cbn [snd ret]. intros id state Hget Hidle.
    apply get_In in Hget. now apply (Hav id state).
  - rewrite <- Eav in *. clear Eav x l.
    destruct (score_all_total task o (availableAgents o)) as [scored Hsc].
    { intros id state Hin. apply Hav in Hin. destruct Hin as [Hin Hidle].
      now apply (Hreg id state). }
    rewrite Hsc. destruct (score_all_inv task o _ _ Hsc) as [Hs1 Hs2].
    pose proof (sort_head_max scored_value scored) as Hhead.
    change (fun a b => negb (Qle_bool (scored_value a) (scored_value b)))
      with higher_score in Hhead.
    destruct (sort higher_score scored) as [| best rest].
    + subst scored. destruct (availableAgents o) as [| [id st] l]; simpl in Hsc.
      * cbn [snd ret]. intros id state Hget. apply get_In in Hget.
        intros Hidle. now apply (Hav id state).
      * destruct (JsMap.get id (agents o)); [| discriminate].
        destruct (score_all task o l); discriminate.
    + destruct Hhead as [Hin Hmax].
      destruct (Hs1 best Hin) as [Hbest (config & Hconfig & Hvalue)].
      apply Hav in Hbest. destruct Hbest as [Hentry Hidle].
      destruct (Hreg _ _ Hentry Hidle) as (Hne & _ & Hperf).
      assert (Ht : truthy_string (scored_id best) = true).
      { unfold truthy_string. apply negb_true_iff. now apply String.eqb_neq. }
      rewrite Ht. cbn [snd ret].
      exists (scored_state best), config.
      split; [now apply In_get |]. split; [exact Hidle |].
      split; [exact Hconfig |].
      intros id' state' config' Hget' Hidle' Hconfig'.
      assert (Hin' : In (id', state') (availableAgents o)).
      { apply Hav. split; [now apply get_In | exact Hidle']. }
      pose proof (Hs2 _ _ _ Hin' Hconfig') as Hscored.
      apply Hmax in Hscored. simpl in Hscored. rewrite Hvalue in Hscored.
      destruct (Hreg _ _ (get_In _ _ _ Hget') Hidle') as (_ & _ & Hperf').
      rewrite <- (score_counted_score task state' config' Hperf').
      rewrite <- (score_counted_score task (scored_state best) config Hperf).
      exact Hscored.
Qed.

Lemma registry_ok_idle (o : Orchestrator) :
  registry_ok o -> idle_agents_configured o.
Proof. intros [Hnd Hreg]. split; [exact Hnd |]. intros id state Hin _. now apply Hreg. Qed.

Lemma registry_ok_two_agents : registry_ok Sample.two_agents.
Proof.
  split.
  - repeat constructor; simpl; intuition discriminate.
  - intros id state [[= <- <-] | [[= <- <-] | []]];
      (split; [discriminate |]); (split; [eexists; reflexivity |]);
      unfold perf_ok; simpl; lia.
Qed.

(** C7, counterexample.  Two idle agents and a coding task: [a3] lists the
    capability coding three times, [a4] lists coding and programming.  The
    score of the claim is 30 for [a3] and 40 for [a4]; [findBestAgent]
    counts the three entries of [a3], scores it 50, and returns [a3]. *)
Lemma findBestAgent_counts_repeated_capabilities :
  outcome (findBestAgent Sample.a_coding_task) Sample.repeated_capabilities
  = inl (Some "a3")
  /\ ~ findBestAgent_as_claimed Sample.a_coding_task
         Sample.repeated_capabilities.
Proof.
  split; [vm_compute; reflexivity |].
  unfold findBestAgent_as_claimed.
  replace (outcome (findBestAgent Sample.a_coding_task)
             Sample.repeated_capabilities)
    with (@inl (option string) Error (Some "a3")) by (vm_compute; reflexivity).
  intros (state & config & Hstate & _ & Hconfig & Hmax).
  vm_compute in Hstate. injection Hstate as <-.
  vm_compute in Hconfig. injection Hconfig as <-.
  specialize (Hmax "a4" (initialState Sample.versatile 0) Sample.versatile
                eq_refl eq_refl eq_refl).
  vm_compute in Hmax. now apply Hmax.
Qed.

(** C7, amended.  In every state in which each idle agent has a
    configuration, an id that is not empty and no more successful than
    completed tasks, and for every task, [findBestAgent] changes nothing and
    does not throw; an agent it returns is idle (it never selects an agent
    that is not idle) and maximizes, among the idle agents, the score
    10 x entries of its capability list that are required for the task type
    + 15 x entries of its specialization list that are required, an entry
    that is repeated counted each time, + 5 x success rate when the agent
    has completed any task + 5 when the priorities are equal - 2 x queue
    length; it returns no agent exactly when no agent is idle. *)
Theorem findBestAgent_selects_best_idle (task : Task.t) (o : Orchestrator) :
  idle_agents_configured o ->
  exec (findBestAgent task) o = o
  /\ (outcome (findBestAgent task) o = inl None
      <-> forall id state,
            JsMap.get id (agentStates o) = Some state ->
            AgentState.status state <> idle)
  /\ match outcome (findBestAgent task) o with
     | inl None => True
     | inl (Some id) =>
         exists state config,
           JsMap.get id (agentStates o) = Some state
           /\ AgentState.status state = idle
           /\ JsMap.get id (agents o) = Some config
           /\ forall id' state' config',
                JsMap.get id' (agentStates o) = Some state' ->
                AgentState.status state' = idle ->
                JsMap.get id' (agents o) = Some config' ->
                (counted_score task state' config'
                 <= counted_score task state config)%Q
     | inr _ => False
     end.
Proof.
  intros Hok.
  destruct (findBestAgent_best_idle task o Hok) as [Hpure Hbest].
  split; [exact Hpure |].
  destruct (outcome (findBestAgent task) o) as [[id |] | e].
  - split; [| exact Hbest]. split; [discriminate |].
    intros Hnone. destruct Hbest as (state & config & Hget & Hidle & _).
    exfalso. exact (Hnone id state Hget Hidle).
  - split; [| exact I]. split; [intros _; exact Hbest | reflexivity].
  - contradiction.
Qed.

Lemma findBestAgent_selects_best_idle_witness :
  exec (findBestAgent Sample.a_coding_task) Sample.repeated_capabilities
  = Sample.repeated_capabilities
  /\ outcome (findBestAgent Sample.a_coding_task) Sample.repeated_capabilities
     = inl (Some "a3").
Proof.
  assert (Hok : idle_agents_configured Sample.repeated_capabilities).
  { split.
    - repeat constructor; simpl; intuition discriminate.
    - intros id state [[= <- <-] | [[= <- <-] | []]] _;
        (split; [discriminate |]); (split; [eexists; reflexivity |]);
        unfold perf_ok; simpl; lia. }
  split.
  - exact (proj1 (findBestAgent_selects_best_idle Sample.a_coding_task
                    Sample.repeated_capabilities Hok)).
  - reflexivity.
Defined.

(** ** [emergencyDump] *)

Lemma write_refused (r : ResourceManager) path c :
  refuses r path = true -> write path c r = (r, inr (IOError path)).
Proof. intros H. unfold write, bind, read, throw. now rewrite H. Qed.

Lemma write_accepted (r : ResourceManager) path c :
  refuses r path = false ->
  write path c r = (set_files (<[path := c]> (files r)) r, inl tt).
Proof. intros H. unfold write, bind, read, modify. now rewrite H. Qed.

Lemma writeJson_refused (r : ResourceManager) path data :
  refuses r path = true ->
  exists e, writeJson path data r = (r, inr e).
Proof.
  intros H. unfold writeJson, bind. destruct data as [j | e]; simpl.
  - rewrite write_refused by exact H. eauto.
  - eauto.
Qed.

(** C8.  When the disk refuses the writes of [emergencyDump], the write of
    the full record fails, the fallback write of the text record fails too,
    and the exception of the fallback leaves [emergencyDump]. *)
Theorem emergencyDump_fallback_throws
    (r : ResourceManager) (reason : string) (additionalData : option any)
    (inp : DumpInputs) :
  (forall path, refuses r path = true) ->
  exists path,
    outcome (emergencyDump reason additionalData inp) r = inr (IOError path).
Proof.
  intros Hdead. unfold emergencyDump, outcome, bind at 1, read.
  cbv beta iota. unfold try_catch.
  set (dumpId := ("emergency_" ++ _ ++ "_" ++ _)%string).
  unfold bind at 1.
  destruct (writeJson_refused r
              (path_join (emergencyDumpDirectory r) (dumpId ++ ".json"))
              (emergencyData dumpId reason additionalData inp)
              (Hdead _)) as [e ->].
  unfold bind, writeFile. rewrite write_refused by apply Hdead.
  eexists. reflexivity.
Qed.

Lemma emergencyDump_fallback_throws_witness :
  exists path,
    outcome (emergencyDump "critical-ram-usage" None
               (Sample.dump_inputs 1000 10))
      Sample.manager_on_dead_disk
    = inr (IOError path).
Proof.
  apply (emergencyDump_fallback_throws Sample.manager_on_dead_disk
           "critical-ram-usage" None (Sample.dump_inputs 1000 10)).
  intros path. reflexivity.
Defined.

Lemma only_files_change_refl (r : ResourceManager) : only_files_change r r.
Proof. repeat split. Qed.

Lemma only_files_change_trans (a b c : ResourceManager) :
  only_files_change a b -> only_files_change b c -> only_files_change a c.
Proof.
  unfold only_files_change.
  intros (?&?&?&?&?&?&?&?&?) (?&?&?&?&?&?&?&?&?).
  repeat split; congruence.
Qed.

Lemma write_frame path c : preserves only_files_change (write path c).
Proof.
  intros r. unfold write, exec, bind, read, modify, throw.
  destruct (refuses r path); simpl; repeat split.
Qed.

Lemma copy_frame src dst : preserves only_files_change (copy src dst).
Proof.
  intros r. unfold copy. rewrite exec_bind. unfold read.
  destruct (files r !! src); [apply write_frame | repeat split].
Qed.

Lemma readJson_frame path : preserves only_files_change (readJson path).
Proof.
  intros r. unfold readJson. rewrite exec_bind. unfold read.
  destruct (files r !! path) as [[j | t] |]; repeat split.
Qed.

Lemma pathExists_frame path : preserves only_files_change (pathExists path).
Proof. intros r. repeat split. Qed.

Lemma fs_call_bound {A} (fs : Namespace) (m : FsMember) (f : RM A) :
  fs m = true -> fs_call fs m f = f.
Proof. intros H. unfold fs_call. now rewrite H. Qed.

Lemma fs_call_missing {A} (fs : Namespace) (m : FsMember) (f : RM A) :
  fs m = false ->
  fs_call fs m f
  = throw (TypeError ("fs." ++ member_name m ++ " is not a function")).
Proof. intros H. unfold fs_call. now rewrite H. Qed.

Lemma fs_call_frame {A} (fs : Namespace) (m : FsMember) (f : RM A) :
  preserves only_files_change f ->
  preserves only_files_change (fs_call fs m f).
Proof.
  intros H. unfold fs_call. destruct (fs m); [exact H |].
  apply preserves_throw. exact only_files_change_refl.
Qed.

Create HintDb frame.
#[local] Hint Resolve write_frame copy_frame readJson_frame pathExists_frame
  : frame.

(** Frame reasoning through the combinators of the monad. *)
Ltac frame :=
  cbv beta;
  lazymatch goal with
  | |- preserves _ (ret _) =>
      apply preserves_ret; exact only_files_change_refl
  | |- preserves _ (throw _) =>
      apply preserves_throw; exact only_files_change_refl
  | |- preserves _ (lift _) =>
      apply preserves_lift; exact only_files_change_refl
  | |- preserves _ (fs_call _ _ _) => apply fs_call_frame; frame
  | |- preserves _ (bind read _) =>
      apply preserves_read_all; intros ?; frame
  | |- preserves _ (bind _ _) =>
      apply preserves_bind;
      [exact only_files_change_trans | frame | intros ?; frame]
  | |- preserves _ (try_catch _ _) =>
      apply preserves_try_catch;
      [exact only_files_change_trans | frame | intros ?; frame]
  | |- preserves _ (match ?x with _ => _ end) => destruct x; frame
  | |- _ => solve [auto with frame]
  end.

Lemma writeJson_frame path data :
  preserves only_files_change (writeJson path data).
Proof. unfold writeJson. frame. Qed.

Lemma writeFile_frame path text :
  preserves only_files_change (writeFile path text).
Proof. apply write_frame. Qed.

#[local] Hint Resolve writeJson_frame writeFile_frame : frame.

Lemma emergencyDump_frame reason additionalData inp :
  preserves only_files_change (emergencyDump reason additionalData inp).
Proof. unfold emergencyDump. frame. Qed.

Lemma emergencyDump_through_frame fs reason additionalData inp :
  preserves only_files_change
    (emergencyDump_through fs reason additionalData inp).
Proof. unfold emergencyDump_through. frame. Qed.

Lemma saveTaskCheckpoint_frame fs c now savedAt :
  preserves only_files_change (saveTaskCheckpoint fs c now savedAt).
Proof. unfold saveTaskCheckpoint. frame. Qed.

Lemma readJson_at_frame descriptor checkpointPath :
  preserves only_files_change (readJson_at descriptor checkpointPath).
Proof. unfold readJson_at. frame. Qed.

#[local] Hint Resolve readJson_at_frame : frame.

Lemma loadTaskCheckpoint_frame fs descriptor taskId :
  preserves only_files_change (loadTaskCheckpoint fs descriptor taskId).
Proof. unfold loadTaskCheckpoint. frame. Qed.

Lemma recoverFromDump_frame fs dumpId :
  preserves only_files_change (recoverFromDump fs dumpId).
Proof. unfold recoverFromDump. frame. Qed.

#[local] Hint Resolve emergencyDump_frame emergencyDump_through_frame
  saveTaskCheckpoint_frame loadTaskCheckpoint_frame recoverFromDump_frame
  : frame.

(** When the text record can be written, [emergencyDump] returns the dump
    id whatever happened to the full record. *)
Lemma emergencyDump_returns_when_fallback_accepted
    (r : ResourceManager) (reason : string) (additionalData : option any)
    (inp : DumpInputs) :
  let dumpId :=
    ("emergency_" ++ string_of_Z (dumpNow inp) ++ "_" ++ dumpSuffix inp)%string
  in
  refuses r
    (path_join (emergencyDumpDirectory r) ("basic_" ++ dumpId ++ ".txt"))
  = false ->
  outcome (emergencyDump reason additionalData inp) r = inl dumpId.
Proof.
  intros dumpId Hok. unfold emergencyDump, outcome, bind at 1, read.
  cbv beta iota. unfold try_catch. fold dumpId.
  match goal with
  | |- context [bind ?m ?k r] =>
      assert (Hp : preserves only_files_change (bind m k)) by frame;
      pose proof (Hp r) as Hframe;
      unfold exec in Hframe;
      destruct (bind m k r) as [r' [a | e]] eqn:E
  end.
  - unfold bind in E.
    destruct (writeJson _ _ r) as [r1 [[] | e1]]; [| discriminate].
    destruct (copy _ _ r1) as [r2 [[] | e2]]; [| discriminate].
    unfold ret in E. now injection E as _ <-.
  - simpl in Hframe. destruct Hframe as (_ & _ & _ & _ & _ & _ & _ & Hr & _).
    unfold bind, writeFile. rewrite write_accepted; [reflexivity |].
    rewrite Hr. exact Hok.
Qed.

(** Whatever members [fs] has, the exception leaves [emergencyDump] when
    the disk refuses every write: the full record is not written, because
    [fs.writeJson] is missing or because the disk refuses it, and the text
    record is not written either, for the same two reasons. *)
Lemma emergencyDump_through_throws
    (fs : Namespace) (r : ResourceManager) (reason : string)
    (additionalData : option any) (inp : DumpInputs) :
  (forall path, refuses r path = true) ->
  exists e,
    emergencyDump_through fs reason additionalData inp r = (r, inr e).
Proof.
  intros Hdead. unfold emergencyDump_through, bind at 1, read.
  cbv beta iota zeta. unfold try_catch, bind at 1.
  assert (Hfull : exists e,
             fs_call fs WriteJson
               (writeJson
                  (path_join (emergencyDumpDirectory r)
                     (("emergency_" ++ string_of_Z (dumpNow inp) ++ "_"
                       ++ dumpSuffix inp) ++ ".json"))
                  (emergencyData
                     ("emergency_" ++ string_of_Z (dumpNow inp) ++ "_"
                      ++ dumpSuffix inp) reason additionalData inp)) r
             = (r, inr e)).
  { unfold fs_call. destruct (fs WriteJson); [| eexists; reflexivity].
    apply writeJson_refused, Hdead. }
  destruct Hfull as [e ->].
  unfold bind, fs_call. destruct (fs WriteFile); [| eexists; reflexivity].
  unfold writeFile. rewrite write_refused by apply Hdead.
  eexists. reflexivity.
Qed.

Lemma write_throws path c (r r' : ResourceManager) (e : Error) :
  write path c r = (r', inr e) -> e = IOError path.
Proof.
  unfold write, bind, read, throw, modify.
  destruct (refuses r path); [now intros [= _ <-] | discriminate].
Qed.

Lemma copy_throws src dst (r r' : ResourceManager) (e : Error) :
  copy src dst r = (r', inr e) -> exists path, e = IOError path.
Proof.
  unfold copy, bind at 1, read.
  destruct (files r !! src).
  - intros H. apply write_throws in H. eauto.
  - intros [= _ <-]. eauto.
Qed.

(** With every member bound and additional data that can be serialized,
    [emergencyDump_through] is [emergencyDump]. *)
Lemma emergencyDump_through_commonjs
    (reason : string) (additionalData : option any) (inp : DumpInputs)
    (r : ResourceManager) :
  additionalData <> Some Cyclic ->
  emergencyDump_through commonjs reason additionalData inp r
  = emergencyDump reason additionalData inp r.
Proof.
  intros Hdata.
  assert (Hok : exists data,
             emergencyData
               ("emergency_" ++ string_of_Z (dumpNow inp) ++ "_"
                ++ dumpSuffix inp) reason additionalData inp = inl data).
  { unfold emergencyData.
    destruct additionalData as [[j |] |]; eauto. now contradiction Hdata. }
  destruct Hok as [data Edata].
  cbv [emergencyDump_through emergencyDump fs_call commonjs try_catch bind
       read ret writeJson writeFile lift].
  rewrite Edata.
  destruct (write _ (JsonFile data) r) as [r1 [[] | e1]] eqn:Ewrite.
  - destruct (copy _ _ r1) as [r2 [[] | e2]] eqn:Ecopy; [reflexivity |].
    apply copy_throws in Ecopy. destruct Ecopy as [path ->]. reflexivity.
  - apply write_throws in Ewrite. subst e1. reflexivity.
Qed.

(** ** Checkpoints *)

Lemma append_inj_l (a b c : string) : (a ++ b)%string = (a ++ c)%string -> b = c.
Proof.
  induction a as [| x a IH]; simpl; [trivial |].
  intros [= H]. now apply IH.
Qed.

(** The versioned record and the quick-lookup pointer are different files. *)
Lemma checkpoint_path_not_quick_path (r : ResourceManager) taskId now taskId' :
  checkpoint_path r (checkpoint_id taskId now) <> quick_path r taskId'.
Proof.
  unfold checkpoint_path, quick_path, path_join, checkpoint_id.
  intros H. apply append_inj_l in H. simpl in H. discriminate H.
Qed.

Lemma checkpointData_fields c checkpointId savedAt data :
  checkpointData c checkpointId savedAt = inl data ->
  data <> JNull
  /\ field "taskId" data = Some (JStr (TaskCheckpoint.taskId c))
  /\ field "status" data = Some (JStr (TaskCheckpoint.status c))
  /\ field "progress" data
     = Some (json_of_number (TaskCheckpoint.progress c)).
Proof.
  unfold checkpointData.
  destruct (stringify_any (TaskCheckpoint.context c)); [| discriminate].
  destruct (stringify_all (TaskCheckpoint.intermediateResults c));
    [| discriminate].
  destruct (stringify_any (TaskCheckpoint.modelState c)); [| discriminate].
  destruct (stringify_any (TaskCheckpoint.memorySnapshot c)); [| discriminate].
  intros [= <-]. repeat split. discriminate.
Qed.

(** With [writeJson] missing, [saveTaskCheckpoint] throws at its first
    statement that touches the disk and has written nothing. *)
Lemma saveTaskCheckpoint_missing fs c now savedAt (r : ResourceManager) :
  fs WriteJson = false ->
  saveTaskCheckpoint fs c now savedAt r
  = (r, inr (TypeError "fs.writeJson is not a function")).
Proof.
  intros H. unfold saveTaskCheckpoint, bind at 1, read. cbv beta iota zeta.
  unfold bind at 1. now rewrite fs_call_missing by exact H.
Qed.

(** With [readJson] missing, [loadTaskCheckpoint] returns [null] whatever
    the disk holds. *)
Lemma loadTaskCheckpoint_missing fs descriptor taskId (r : ResourceManager) :
  fs ReadJson = false ->
  loadTaskCheckpoint fs descriptor taskId r = (r, inl JNull).
Proof.
  intros H. unfold loadTaskCheckpoint, try_catch, bind at 1, read.
  cbv beta iota zeta. unfold bind at 1, fs_call at 1.
  destruct (fs PathExists); [| reflexivity].
  unfold pathExists, bind at 1, read, ret at 1.
  destruct (files r !! quick_path r taskId); [| reflexivity].
  unfold bind at 1. now rewrite fs_call_missing by exact H.
Qed.

(** What a call of [saveTaskCheckpoint] that returns has written. *)
Lemma saveTaskCheckpoint_returns fs c now savedAt (r r' : ResourceManager) id :
  saveTaskCheckpoint fs c now savedAt r = (r', inl id) ->
  let taskId := TaskCheckpoint.taskId c in
  fs WriteJson = true
  /\ id = checkpoint_id taskId now
  /\ checkpointDirectory r' = checkpointDirectory r
  /\ exists data,
       checkpointData c id savedAt = inl data
       /\ files r' !! checkpoint_path r id = Some (JsonFile data)
       /\ exists quick,
            files r' !! quick_path r taskId = Some (JsonFile quick)
            /\ field "checkpointPath" quick
               = Some (JStr (checkpoint_path r id)).
Proof.
  intros Hsave taskId.
  destruct (fs WriteJson) eqn:Hbound.
  2: { rewrite saveTaskCheckpoint_missing in Hsave by exact Hbound.
       discriminate Hsave. }
  split; [reflexivity |].
  unfold saveTaskCheckpoint, bind at 1, read in Hsave. cbv beta iota in Hsave.
  rewrite !fs_call_bound in Hsave by exact Hbound.
  fold taskId in Hsave.
  set (cid := checkpoint_id taskId now) in *.
  unfold bind at 1 in Hsave. unfold writeJson at 1, bind at 1, lift in Hsave.
  destruct (checkpointData c cid savedAt) as [data | e] eqn:Hdata;
    [| discriminate Hsave].
  unfold ret at 1 in Hsave.
  unfold write at 1, bind at 1, read, throw, modify in Hsave.
  destruct (refuses r (checkpoint_path r cid)); [discriminate Hsave |].
  unfold bind at 1 in Hsave. unfold writeJson, bind at 1, lift, ret at 1 in Hsave.
  unfold write, bind, read, throw, modify in Hsave.
  cbn [refuses set_files] in Hsave.
  destruct (refuses r (quick_path r taskId)); [discriminate Hsave |].
  unfold ret in Hsave. injection Hsave as <- <-.
  split; [reflexivity |]. split; [reflexivity |].
  exists data. split; [exact Hdata |]. cbn [files set_files]. split.
  - rewrite lookup_insert_ne; [apply lookup_insert_eq |].
    intros H. symmetry in H. revert H. apply checkpoint_path_not_quick_path.
  - eexists. split; [apply lookup_insert_eq | reflexivity].
Qed.

(** What [loadTaskCheckpoint] returns when [pathExists] and [readJson] are
    bound and the pointer and the record are on the disk. *)
Lemma loadTaskCheckpoint_reads fs descriptor (r : ResourceManager) taskId
    quick path data :
  fs PathExists = true ->
  fs ReadJson = true ->
  files r !! quick_path r taskId = Some (JsonFile quick) ->
  field "checkpointPath" quick = Some (JStr path) ->
  files r !! path = Some (JsonFile data) ->
  outcome (loadTaskCheckpoint fs descriptor taskId) r = inl data.
Proof.
  intros Hexists Hread Hquick Hfield Hdata.
  assert (Hq : quick <> JNull) by (intros ->; discriminate Hfield).
  cbv [loadTaskCheckpoint outcome try_catch bind read fs_call pathExists
       readJson readJson_at ret throw snd].
  repeat (first [rewrite Hexists | rewrite Hread | rewrite Hquick];
          cbv beta iota).
  destruct quick; try contradiction;
    repeat (first [rewrite Hread | rewrite Hfield | rewrite Hdata];
            cbv beta iota);
    reflexivity.
Qed.

(** C9.  As the repository is configured, no checkpoint is ever saved and
    none is ever loaded.  [fs.writeJson] and [fs.readJson] are not functions
    of the object [fs]: for every checkpoint [saveTaskCheckpoint] throws a
    [TypeError] and writes nothing, for every task [loadTaskCheckpoint]
    returns [null], and so the round trip fails on every input. *)
Theorem checkpoint_is_never_saved
    (fs : Namespace) (descriptor : Q -> result json) (c : TaskCheckpoint.t)
    (now savedAt : Z) (r : ResourceManager) :
  as_configured fs ->
  saveTaskCheckpoint fs c now savedAt r
  = (r, inr (TypeError "fs.writeJson is not a function"))
  /\ (forall taskId r',
        loadTaskCheckpoint fs descriptor taskId r' = (r', inl JNull))
  /\ ~ checkpoint_roundtrip_as_claimed fs descriptor c now savedAt r.
Proof.
  intros (Hwrite & Hread & _).
  split; [now apply saveTaskCheckpoint_missing |].
  split; [intros taskId r'; now apply loadTaskCheckpoint_missing |].
  intros (j & Hload & Hnull & _).
  unfold outcome in Hload.
  rewrite loadTaskCheckpoint_missing in Hload by exact Hread.
  injection Hload as <-. now apply Hnull.
Qed.

Lemma checkpoint_is_never_saved_witness :
  saveTaskCheckpoint Sample.loaded (Sample.checkpoint (Finite (1 # 2))) 1000
    1001 Sample.manager
  = (Sample.manager, inr (TypeError "fs.writeJson is not a function"))
  /\ (forall taskId r',
        loadTaskCheckpoint Sample.loaded Sample.no_descriptor taskId r'
        = (r', inl JNull))
  /\ ~ checkpoint_roundtrip_as_claimed Sample.loaded Sample.no_descriptor
         (Sample.checkpoint (Finite (1 # 2))) 1000 1001 Sample.manager.
Proof.
  apply (checkpoint_is_never_saved Sample.loaded Sample.no_descriptor
           (Sample.checkpoint (Finite (1 # 2))) 1000 1001 Sample.manager).
  repeat split.
Defined.

(** With the three members bound, as in a build to CommonJS, a checkpoint
    whose progress is a finite number is read back: once
    [saveTaskCheckpoint] has returned, and as long as the pointer file and
    the record file of that task are as the call left them,
    [loadTaskCheckpoint] of the task id returns a record that is not [null]
    and whose task id, status and progress are those of the checkpoint. *)
Lemma checkpoint_roundtrip_when_bound
    (fs : Namespace) (descriptor : Q -> result json)
    (c : TaskCheckpoint.t) (now savedAt : Z) (q : Q)
    (r r' r'' : ResourceManager) (id : string) :
  fs PathExists = true ->
  fs ReadJson = true ->
  TaskCheckpoint.progress c = Finite q ->
  saveTaskCheckpoint fs c now savedAt r = (r', inl id) ->
  checkpointDirectory r'' = checkpointDirectory r' ->
  files r'' !! quick_path r' (TaskCheckpoint.taskId c)
    = files r' !! quick_path r' (TaskCheckpoint.taskId c) ->
  files r'' !! checkpoint_path r' id = files r' !! checkpoint_path r' id ->
  exists j,
    outcome (loadTaskCheckpoint fs descriptor (TaskCheckpoint.taskId c)) r''
    = inl j
    /\ j <> JNull
    /\ field "taskId" j = Some (JStr (TaskCheckpoint.taskId c))
    /\ field "status" j = Some (JStr (TaskCheckpoint.status c))
    /\ (field "progress" j ≫= number_of_json)
       = Some (TaskCheckpoint.progress c).
Proof.
  intros Hexists Hread Hfinite Hsave Hdir Hsame_quick Hsame_record.
  destruct (saveTaskCheckpoint_returns _ _ _ _ _ _ _ Hsave)
    as (_ & _ & Hdir' & data & Hdata & Hfile & quick & Hquick & Hpath).
  assert (Hq : forall t, quick_path r' t = quick_path r t)
    by (intros t; unfold quick_path; now rewrite Hdir').
  assert (Hq' : forall t, quick_path r'' t = quick_path r t)
    by (intros t; unfold quick_path; now rewrite Hdir, Hdir').
  assert (Hc : checkpoint_path r' id = checkpoint_path r id)
    by (unfold checkpoint_path; now rewrite Hdir').
  rewrite Hq in Hsame_quick. rewrite Hc in Hsame_record.
  rewrite <- Hsame_quick in Hquick. rewrite <- Hsame_record in Hfile.
  rewrite <- Hq' in Hquick.
  exists data. split.
  - exact (loadTaskCheckpoint_reads fs descriptor r'' _ quick _ data Hexists
             Hread Hquick Hpath Hfile).
  - apply checkpointData_fields in Hdata.
    destruct Hdata as (Hnull & Htask & Hstatus & Hprogress).
    repeat split; try assumption.
    rewrite Hprogress, Hfinite. reflexivity.
Qed.

(** Even then a progress that is not finite is lost: [Infinity] is written
    as JSON [null], and the record loaded afterwards has [null]. *)
Example infinite_progress_is_lost_when_bound :
  ~ checkpoint_roundtrip_as_claimed commonjs Sample.no_descriptor
      (Sample.checkpoint PosInfinity) 1000 1001 Sample.manager.
Proof.
  intros (j & Hload & _ & _ & _ & Hprogress).
  vm_compute in Hload. injection Hload as <-.
  vm_compute in Hprogress. discriminate Hprogress.
Qed.

Example finite_progress_is_kept_when_bound :
  checkpoint_roundtrip_as_claimed commonjs Sample.no_descriptor
    (Sample.checkpoint (Finite (1 # 2))) 1000 1001 Sample.manager.
Proof.
  eexists. split; [vm_compute; reflexivity |].
  split; [discriminate |]. repeat split.
Qed.

(** ** Callbacks of the resource manager *)

Lemma only_registered_called_refl (r : ResourceManager) :
  only_registered_called r r.
Proof. repeat split. intros c Hc. now left. Qed.

Lemma only_registered_called_trans (a b c : ResourceManager) :
  only_registered_called a b -> only_registered_called b c ->
  only_registered_called a c.
Proof.
  intros (He & Hp & Hr & Hi) (He' & Hp' & Hr' & Hi').
  repeat split; try congruence.
  intros x Hx. destruct (Hi' x Hx) as [H | [H | H]].
  - apply Hi, H.
  - right. left. congruence.
  - right. right. congruence.
Qed.

Lemma only_files_change_registered (r r' : ResourceManager) :
  only_files_change r r' -> only_registered_called r r'.
Proof.
  intros (_ & _ & _ & _ & He & Hp & Hr & _ & Hi).
  repeat split; try assumption. intros c Hc. left. congruence.
Qed.

(** A guarded call records the callback and never throws. *)
Lemma call_guarded_run (callback : Callback) (r : ResourceManager) :
  call_guarded callback r
  = (set_invoked (invoked r ++ [callback]) r, inl tt).
Proof.
  unfold call_guarded, call, try_catch, bind, modify, throw, ret.
  destruct (callback_rejects callback); reflexivity.
Qed.

Lemma for_each_call_guarded (l : list Callback) (r : ResourceManager) :
  (forall c, In c l -> In c (emergencyCallbacks r) \/ In c (pauseCallbacks r)) ->
  only_registered_called r (exec (for_each l call_guarded) r).
Proof.
  revert r. induction l as [| x l IH]; intros r Hl; simpl.
  - apply only_registered_called_refl.
  - rewrite exec_bind, call_guarded_run.
    eapply only_registered_called_trans; [| apply IH].
    + repeat split. cbn [invoked set_invoked]. intros c Hc.
      apply in_app_or in Hc. destruct Hc as [Hc | [<- | []]].
      * now left.
      * right. apply Hl. now left.
    + intros c Hc. apply Hl. now right.
Qed.

Lemma handleCriticalRAMUsage_registered fs metrics inp :
  preserves only_registered_called (handleCriticalRAMUsage fs metrics inp).
Proof.
  unfold handleCriticalRAMUsage.
  apply preserves_bind; [exact only_registered_called_trans | |].
  - intros r. apply only_files_change_registered, emergencyDump_through_frame.
  - intros _. apply preserves_read. intros r.
    apply for_each_call_guarded. intros c Hc. now left.
Qed.

Lemma handleWarningRAMUsage_registered metrics :
  preserves only_registered_called (handleWarningRAMUsage metrics).
Proof.
  unfold handleWarningRAMUsage. apply preserves_read. intros r.
  apply for_each_call_guarded. intros c Hc. now right.
Qed.

Lemma checkResourcePressure_registered fs metrics inp :
  preserves only_registered_called (checkResourcePressure fs metrics inp).
Proof.
  unfold checkResourcePressure. apply preserves_read_all. intros r.
  apply preserves_bind; [exact only_registered_called_trans | |].
  - destruct (geq _ _); [apply handleCriticalRAMUsage_registered |].
    destruct (geq _ _); [apply handleWarningRAMUsage_registered |].
    apply preserves_ret, only_registered_called_refl.
  - intros _.
    destruct (geq _ _); [apply preserves_ret, only_registered_called_refl |].
    destruct (geq _ _); apply preserves_ret, only_registered_called_refl.
Qed.

(** Every call but the registrations of emergency and pause callbacks keeps
    the two lists and invokes only what they hold. *)
Lemma perform_registered fs (c : RmCall) :
  match c with
  | OnEmergency _ | OnPause _ | OnResume _ => True
  | _ => preserves only_registered_called (perform fs c)
  end.
Proof.
  assert (Hframe : forall A (m : RM A),
             preserves only_files_change (m ;; ret tt) ->
             preserves only_registered_called (m ;; ret tt)).
  { intros A m H r. apply only_files_change_registered, H. }
  destruct c; simpl; trivial.
  - intros r. repeat split. intros c Hc. now left.
  - intros r. unfold startMonitoring, exec, bind, read.
    destruct (isMonitoring r); simpl; repeat split; intros c Hc; now left.
  - intros r. repeat split. intros c Hc. now left.
  - apply checkResourcePressure_registered.
  - apply Hframe. frame.
  - apply Hframe. frame.
  - apply Hframe. frame.
  - apply Hframe. frame.
Qed.

Lemma perform_keeps_clean fs (cb : Callback) (c : RmCall)
    (r : ResourceManager) :
  (forall x, c = OnEmergency x \/ c = OnPause x ->
     callback_id x <> callback_id cb) ->
  not_called_nor_armed cb r ->
  not_called_nor_armed cb (exec (perform fs c) r).
Proof.
  intros Hc Hclean.
  pose proof (perform_registered fs c) as Hreg.
  destruct c;
    try (destruct (Hreg r) as (He & Hp & _ & Hi);
         intros x [Hx | [Hx | Hx]];
         [ destruct (Hi x Hx) as [H | [H | H]]; apply Hclean; auto
         | apply Hclean; right; left; congruence
         | apply Hclean; right; right; congruence ]).
  - intros x [Hx | [Hx | Hx]]; cbn in Hx.
    + apply Hclean. now left.
    + apply in_app_or in Hx. destruct Hx as [Hx | [<- | []]].
      * apply Hclean. right. now left.
      * apply Hc. now left.
    + apply Hclean. right. now right.
  - intros x [Hx | [Hx | Hx]]; cbn in Hx.
    + apply Hclean. now left.
    + apply Hclean. right. now left.
    + apply in_app_or in Hx. destruct Hx as [Hx | [<- | []]].
      * apply Hclean. right. now right.
      * apply Hc. now right.
  - intros x [Hx | [Hx | Hx]]; cbn in Hx; apply Hclean; auto.
Qed.

Lemma perform_all_keeps_clean fs (cb : Callback) (calls : list RmCall)
    (r : ResourceManager) :
  (forall x, In (OnEmergency x) calls \/ In (OnPause x) calls ->
     callback_id x <> callback_id cb) ->
  not_called_nor_armed cb r ->
  not_called_nor_armed cb (perform_all fs calls r).
Proof.
  revert r. induction calls as [| c calls IH]; intros r Hc Hclean; simpl.
  - exact Hclean.
  - apply IH.
    + intros x [Hx | Hx]; apply Hc; [left | right]; now right.
    + apply perform_keeps_clean; [| exact Hclean].
      intros x [-> | ->]; apply Hc; [left | right]; now left.
Qed.

Lemma perform_keeps_resume fs (cb : Callback) (c : RmCall)
    (r : ResourceManager) :
  In cb (resumeCallbacks r) \/ c = OnResume cb ->
  In cb (resumeCallbacks (exec (perform fs c) r)).
Proof.
  intros H. pose proof (perform_registered fs c) as Hreg.
  destruct c;
    try (destruct (Hreg r) as (_ & _ & Hr & _); rewrite Hr;
         destruct H as [H | H]; [exact H | discriminate H]);
    cbn; destruct H as [H | H]; try discriminate H; try exact H.
  - apply in_or_app. now left.
  - injection H as ->. apply in_or_app. right. now left.
Qed.

Lemma perform_all_keeps_resume fs (cb : Callback) (calls : list RmCall)
    (r : ResourceManager) :
  In cb (resumeCallbacks r) \/ In (OnResume cb) calls ->
  In cb (resumeCallbacks (perform_all fs calls r)).
Proof.
  revert r. induction calls as [| c calls IH]; intros r H; simpl.
  - destruct H as [H | []]. exact H.
  - apply IH. destruct H as [H | [H | H]].
    + left. apply perform_keeps_resume. now left.
    + left. apply perform_keeps_resume. right. now symmetry.
    + now right.
Qed.

(** C10, counterexample.  The claim as stated fails for a function that is
    registered through [onResume] and through [onPause] as well: at the
    first sample between the warning and the critical threshold it is
    called, as a pause callback. *)
Lemma resume_callback_registered_to_pause_is_invoked :
  ~ resume_never_invoked_as_claimed Sample.loaded Sample.double_registration
      Sample.manager.
Proof.
  intros H.
  apply (H Sample.resume_hook (or_introl eq_refl) Sample.resume_hook);
    [| reflexivity].
  vm_compute. now left.
Qed.

(** C10, amended.  Over every sequence of calls on a fresh resource manager
    (registrations, threshold changes, monitoring samples with their RAM and
    VRAM handlers, checkpoints, dumps and recoveries), however [fs-extra] is
    bound, a callback registered through [onResume] is stored in
    [resumeCallbacks], and a callback that is not also registered through
    [onEmergency] or [onPause] is never invoked. *)
Theorem resume_callbacks_never_invoked
    (fs : Namespace) (calls : list RmCall) (workingDirectory : string)
    (disk : gmap string FileContent) (refuses : string -> bool)
    (cb : Callback) :
  (forall x, In (OnEmergency x) calls \/ In (OnPause x) calls ->
     callback_id x <> callback_id cb) ->
  let r :=
    perform_all fs calls (new_ResourceManager workingDirectory disk refuses) in
  (In (OnResume cb) calls -> In cb (resumeCallbacks r))
  /\ forall c, In c (invoked r) -> callback_id c <> callback_id cb.
Proof.
  intros Hother r. split.
  - intros Hin. apply perform_all_keeps_resume. now right.
  - intros c Hc.
    apply (perform_all_keeps_clean fs cb calls
             (new_ResourceManager workingDirectory disk refuses) Hother).
    + intros x [[] | [[] | []]].
    + left. exact Hc.
Qed.

Lemma resume_callbacks_never_invoked_witness :
  let r := perform_all Sample.loaded Sample.session Sample.manager in
  (In (OnResume Sample.resume_hook) Sample.session ->
   In Sample.resume_hook (resumeCallbacks r))
  /\ forall c, In c (invoked r) ->
       callback_id c <> callback_id Sample.resume_hook.
Proof.
  apply (resume_callbacks_never_invoked Sample.loaded Sample.session
           "/srv/work" ∅ (fun _ => false) Sample.resume_hook).
  intros x [H | H]; simpl in H;
    repeat (destruct H as [H | H]; try discriminate H);
    try contradiction; injection H as <-; discriminate.
Defined.

(** In that session the pause callback runs at the first sample.  At the
    second, which is critical, the emergency callback runs in a build to
    CommonJS; as the repository is configured the dump throws first and the
    emergency callback is not called. *)
Example session_invokes_the_other_callbacks :
  invoked (perform_all commonjs Sample.session Sample.manager)
  = [Sample.pause_hook; Sample.emergency_hook]
  /\ invoked (perform_all Sample.loaded Sample.session Sample.manager)
     = [Sample.pause_hook].
Proof. vm_compute. split; reflexivity. Qed.

(** ** Messages *)

(** A message is queued by [sendMessage] and handled at once; the queue
    keeps it, and the next tick hands it to its handler a second time. *)
Example heartbeat_handled_twice :
  let sent := exec (sendMessage Sample.heartbeat "m1" 500) Sample.one_agent in
  let ticked := exec (orchestratorTick Sample.strategies Sample.inputs) sent in
  handled sent = ["m1"]
  /\ map AgentMessage.id (messageQueue sent) = ["m1"]
  /\ handled ticked = ["m1"; "m1"]
  /\ messageQueue ticked = [].
Proof. vm_compute. repeat split. Qed.

(** The second handling is visible: the [lastActiveAt] that the message set
    at the time it was sent is set again at the time of the tick. *)
Example second_handling_overwrites_lastActiveAt :
  let sent := exec (sendMessage Sample.heartbeat "m1" 500) Sample.one_agent in
  let ticked := exec (orchestratorTick Sample.strategies Sample.inputs) sent in
  (Performance.lastActiveAt ∘ AgentState.performance <$> getAgentStatus "a1" sent)
  = Some 500
  /\ (Performance.lastActiveAt ∘ AgentState.performance
      <$> getAgentStatus "a1" ticked) = Some 1000.
Proof. vm_compute. split; reflexivity. Qed.

(** The handler of a message, by its type. *)
Lemma processMessage_run (o : Orchestrator) message now target :
  JsMap.get (AgentMessage.toAgentId message) (agentStates o) = Some target ->
  processMessage message now o
  = match AgentMessage.type message with
    | task_assignment => handleTaskAssignmentMessage message
    | task_result => handleTaskResultMessage message
    | collaboration_request => handleCollaborationRequestMessage message
    | status_update => handleStatusUpdateMessage message now
    | error_report => handleErrorReportMessage message
    end (set_handled (handled o ++ [AgentMessage.id message]) o).
Proof.
  intros H. unfold processMessage, bind, read, modify. cbv beta iota.
  rewrite H. reflexivity.
Qed.

Lemma sendMessage_exec (o : Orchestrator) message messageId now :
  exec (sendMessage message messageId now) o
  = exec (processMessage (AgentMessage.mk messageId now message) now)
      (set_messageQueue
         (messageQueue o ++ [AgentMessage.mk messageId now message]) o).
Proof.
  unfold sendMessage, exec, bind, modify. cbv beta iota.
  destruct (processMessage _ _ _) as [s [[] | e]]; reflexivity.
Qed.

Lemma handleTaskResultMessage_run (o : Orchestrator) message taskId task :
  Content.taskId (AgentMessage.content message) = Some taskId ->
  taskId <> "" ->
  JsMap.get taskId (tasks o) = Some task ->
  handleTaskResultMessage message o
  = (set_tasks
       (JsMap.set taskId
          (Task.with_status completed
             (Task.with_result (Content.result (AgentMessage.content message))
                task)) (tasks o)) o, inl tt).
Proof.
  intros Hid Hne Hget.
  unfold handleTaskResultMessage, bind, read, store_task, modify.
  cbv beta iota. rewrite Hid. cbn [default truthy]. unfold id.
  unfold JsMap.has. rewrite Hget.
  assert (Ht : truthy_string taskId = true).
  { unfold truthy_string. apply negb_true_iff. now apply String.eqb_neq. }
  rewrite Ht. reflexivity.
Qed.

Lemma handleErrorReportMessage_run (o : Orchestrator) message taskId task :
  Content.taskId (AgentMessage.content message) = Some taskId ->
  taskId <> "" ->
  JsMap.get taskId (tasks o) = Some task ->
  handleErrorReportMessage message o
  = (set_tasks
       (JsMap.set taskId
          (Task.with_error (Content.error (AgentMessage.content message))
             (Task.with_status failed task)) (tasks o)) o, inl tt).
Proof.
  intros Hid Hne Hget.
  unfold handleErrorReportMessage, bind, read, store_task, modify.
  cbv beta iota. rewrite Hid. cbn [default truthy]. unfold id.
  unfold JsMap.has. rewrite Hget.
  assert (Ht : truthy_string taskId = true).
  { unfold truthy_string. apply negb_true_iff. now apply String.eqb_neq. }
  rewrite Ht. reflexivity.
Qed.

(** C4.  A [task_result] or [error_report] message for a task that sits in
    the queue of an agent makes the task terminal and leaves it in the
    queue. *)
Theorem report_leaves_terminal_task_queued
    (o : Orchestrator) (message : Envelope.t) (messageId : string) (now : Z)
    (taskId agentId : string) (task : Task.t) (agentState target : AgentState.t) :
  Envelope.type message = task_result \/ Envelope.type message = error_report ->
  Content.taskId (Envelope.content message) = Some taskId ->
  taskId <> "" ->
  JsMap.get (Envelope.toAgentId message) (agentStates o) = Some target ->
  JsMap.get taskId (tasks o) = Some task ->
  JsMap.get agentId (agentStates o) = Some agentState ->
  In taskId (AgentState.taskQueue agentState) ->
  let o' := exec (sendMessage message messageId now) o in
  exists task',
    JsMap.get taskId (tasks o') = Some task'
    /\ is_terminal (Task.status task') = true
    /\ JsMap.get agentId (agentStates o') = Some agentState
    /\ queue_free_of_terminal o' agentState = false.
Proof.
  intros Htype Hid Hne Htarget Htask Hagent Hin o'.
  assert (Hq : forall task',
             JsMap.get taskId (tasks o') = Some task' ->
             is_terminal (Task.status task') = true ->
             queue_free_of_terminal o' agentState = false).
  { intros task' Hget Hterm. unfold queue_free_of_terminal.
    apply not_true_iff_false. intros Hall.
    rewrite forallb_forall in Hall. specialize (Hall taskId Hin).
    rewrite Hget, Hterm in Hall. discriminate Hall. }
  assert (Hrun : exists task',
             is_terminal (Task.status task') = true
             /\ tasks o' = JsMap.set taskId task' (tasks o)
             /\ agentStates o' = agentStates o).
  { unfold o'. rewrite sendMessage_exec. unfold exec.
    rewrite (processMessage_run _ _ _ target) by exact Htarget.
    change (AgentMessage.type (AgentMessage.mk messageId now message))
      with (Envelope.type message).
    destruct Htype as [-> | ->].
    - rewrite (handleTaskResultMessage_run _ _ taskId task)
        by (assumption || exact Hid).
      eexists. split; [| split; reflexivity]. reflexivity.
    - rewrite (handleErrorReportMessage_run _ _ taskId task)
        by (assumption || exact Hid).
      eexists. split; [| split; reflexivity]. reflexivity. }
  destruct Hrun as (task' & Hterm & Htasks & Hstates).
  exists task'.
  assert (Hget : JsMap.get taskId (tasks o') = Some task')
    by (rewrite Htasks; apply get_set_eq).
  split; [exact Hget |]. split; [exact Hterm |].
  split; [now rewrite Hstates |]. now apply (Hq task').
Qed.

Lemma report_leaves_terminal_task_queued_witness :
  let o' := exec (sendMessage Sample.result_report "m1" 500)
              Sample.one_assigned in
  queues_free_of_terminal Sample.one_assigned = true
  /\ queues_free_of_terminal o' = false
  /\ exists task' agentState,
       JsMap.get "t1" (tasks o') = Some task'
       /\ is_terminal (Task.status task') = true
       /\ JsMap.get "a1" (agentStates o') = Some agentState
       /\ queue_free_of_terminal o' agentState = false.
Proof.
  split; [vm_compute; reflexivity |]. split; [vm_compute; reflexivity |].
  destruct (report_leaves_terminal_task_queued Sample.one_assigned
              Sample.result_report "m1" 500 "t1" "a1")
    with (task := default Sample.a_coding_task
                    (JsMap.get "t1" (tasks Sample.one_assigned)))
         (agentState := default (initialState Sample.coder 0)
                          (JsMap.get "a1" (agentStates Sample.one_assigned)))
         (target := default (initialState Sample.coder 0)
                      (JsMap.get "a1" (agentStates Sample.one_assigned)))
    as (task' & H).
  - now left.
  - reflexivity.
  - discriminate.
  - vm_compute. reflexivity.
  - vm_compute. reflexivity.
  - vm_compute. reflexivity.
  - vm_compute. now left.
  - exists task'. eexists. exact H.
Defined.

(** ** Status transitions *)

(** A task whose status was terminal and is now another one has not moved
    forward. *)
Lemma terminal_status_changed (o o' : Orchestrator) taskId task task' :
  JsMap.get taskId (tasks o) = Some task ->
  is_terminal (Task.status task) = true ->
  JsMap.get taskId (tasks o') = Some task' ->
  Task.status task' <> Task.status task ->
  ~ tasks_forward o o'.
Proof.
  intros Hget Hterm Hget' Hne Hforward.
  destruct (Hforward taskId task Hget) as (t' & Ht' & Hf).
  rewrite Hget' in Ht'. injection Ht' as <-.
  destruct Hf as [Heq | Hlt]; [congruence |].
  destruct (Task.status task); try discriminate Hterm;
    destruct (Task.status task'); simpl in Hlt; lia.
Qed.

(** C2.  No method that writes a terminal status looks at the status the
    task has.  For every task that exists and is terminal: a [task_result]
    message that names it makes it completed and an [error_report] message
    makes it failed, at once, when [sendMessage] hands the message to its
    handler; and a call of [executeTask] that was suspended at its strategy
    while the task became terminal (cancelled by [handleTimeouts], by
    [removeAgent], or reported) makes it completed when the strategy
    returns and failed when it throws.  Whenever the status written is not
    the one the task had, a terminal status has changed. *)
Theorem terminal_status_is_overwritten
    (o : Orchestrator) (taskId : string) (task : Task.t) :
  JsMap.get taskId (tasks o) = Some task ->
  is_terminal (Task.status task) = true ->
  (forall (message : Envelope.t) (messageId : string) (now : Z)
          (target : AgentState.t) (status' : TaskStatus),
     Envelope.type message = task_result /\ status' = completed
     \/ Envelope.type message = error_report /\ status' = failed ->
     Content.taskId (Envelope.content message) = Some taskId ->
     taskId <> "" ->
     JsMap.get (Envelope.toAgentId message) (agentStates o) = Some target ->
     let o' := exec (sendMessage message messageId now) o in
     (Task.status <$> getTaskStatus taskId o') = Some status'
     /\ (Task.status task <> status' -> ~ tasks_forward o o'))
  /\ (forall (clock : Clock) (agentState : AgentState.t)
             (settled : result any) (status' : TaskStatus),
        status' = match settled with inl _ => completed | inr _ => failed end ->
        let o' :=
          exec (executeTask_settle taskId clock task agentState settled) o in
        (Task.status <$> getTaskStatus taskId o') = Some status'
        /\ (Task.status task <> status' -> ~ tasks_forward o o')).
Proof.
  intros Hget Hterm. split.
  - intros message messageId now target status' Htype Hid Hne Htarget o'.
    assert (Hrun : exists task',
               Task.status task' = status'
               /\ tasks o' = JsMap.set taskId task' (tasks o)).
    { unfold o'. rewrite sendMessage_exec. unfold exec.
      rewrite (processMessage_run _ _ _ target) by exact Htarget.
      change (AgentMessage.type (AgentMessage.mk messageId now message))
        with (Envelope.type message).
      destruct Htype as [[-> ->] | [-> ->]].
      - rewrite (handleTaskResultMessage_run _ _ taskId task)
          by (assumption || exact Hid).
        eexists. split; [| reflexivity]. reflexivity.
      - rewrite (handleErrorReportMessage_run _ _ taskId task)
          by (assumption || exact Hid).
        eexists. split; [| reflexivity]. reflexivity. }
    destruct Hrun as (task' & Hstatus & Htasks).
    assert (Hget' : JsMap.get taskId (tasks o') = Some task')
      by (rewrite Htasks; apply get_set_eq).
    split.
    + unfold getTaskStatus. rewrite Hget'. simpl. now rewrite Hstatus.
    + intros Hchanged.
      apply (terminal_status_changed o o' taskId task task' Hget Hterm Hget').
      congruence.
  - intros clock agentState settled status' -> o'.
    assert (Hrun : exists task',
               Task.status task'
               = match settled with inl _ => completed | inr _ => failed end
               /\ JsMap.get taskId (tasks o') = Some task').
    { unfold o', executeTask_settle, exec, bind, store_task, store_agentState,
        modify, ret, throw.
      destruct settled as [r | e]; cbn [fst tasks set_tasks set_agentStates].
      - eexists. split; [| apply get_set_eq].
        unfold task_completed. cbn.
        destruct (Task.startedAt task); reflexivity.
      - eexists. split; [| apply get_set_eq]. reflexivity. }
    destruct Hrun as (task' & Hstatus & Hget').
    split.
    + unfold getTaskStatus. rewrite Hget'. simpl. now rewrite Hstatus.
    + intros Hchanged.
      apply (terminal_status_changed o o' taskId task task' Hget Hterm Hget').
      congruence.
Qed.

(** The task [t1] has been executed and is completed; an [error_report]
    message that names it makes it failed. *)
Lemma terminal_status_is_overwritten_witness :
  let o' := exec (sendMessage Sample.failure_report "m1" 500)
              Sample.one_completed in
  (Task.status <$> getTaskStatus "t1" Sample.one_completed) = Some completed
  /\ (Task.status <$> getTaskStatus "t1" o') = Some failed
  /\ ~ tasks_forward Sample.one_completed o'.
Proof.
  intros o'. split; [vm_compute; reflexivity |].
  destruct (proj1 (terminal_status_is_overwritten Sample.one_completed "t1"
                     (Sample.held_task Sample.one_completed) eq_refl eq_refl)
              Sample.failure_report "m1" 500
              (Sample.held_state Sample.one_completed) failed)
    as [Hstatus Hchanged].
  - right. split; reflexivity.
  - reflexivity.
  - discriminate.
  - reflexivity.
  - split; [exact Hstatus |]. apply Hchanged. discriminate.
Defined.

(** The task [t1] is being executed when a tick finds it late and cancels
    it; when the strategy returns, the suspended call makes it completed. *)
Example timed_out_task_is_completed_afterwards :
  let o := Sample.timed_out_meanwhile in
  let o' :=
    exec (executeTask_settle "t1" Sample.clock (Sample.held_task o)
            (Sample.held_state o) (inl Sample.coding_result)) o in
  (Task.status <$> getTaskStatus "t1" Sample.one_suspended) = Some in_progress
  /\ (Task.status <$> getTaskStatus "t1" o) = Some cancelled
  /\ (Task.status <$> getTaskStatus "t1" o') = Some completed.
Proof. vm_compute. repeat split. Qed.

Lemma forward_refl (a : TaskStatus) : forward a a.
Proof. now left. Qed.

Lemma forward_trans (a b c : TaskStatus) :
  forward a b -> forward b c -> forward a c.
Proof. unfold forward. intros [-> | H1] [-> | H2]; auto. right. lia. Qed.

(** A terminal status can only stay. *)
Lemma forward_terminal (a b : TaskStatus) :
  is_terminal a = true -> forward a b -> b = a.
Proof.
  intros Ht [<- | Hlt]; [reflexivity |].
  destruct a; try discriminate Ht; destruct b; simpl in Hlt; lia.
Qed.

Lemma forward_to_terminal (a b : TaskStatus) :
  is_terminal a = false -> is_terminal b = true -> forward a b.
Proof.
  intros Ha Hb. right.
  destruct a; try discriminate Ha; destruct b; try discriminate Hb;
    simpl; lia.
Qed.

Lemma tasks_forward_refl (o : Orchestrator) : tasks_forward o o.
Proof. intros k t H. exists t. split; [exact H | apply forward_refl]. Qed.

Lemma tasks_forward_trans (a b c : Orchestrator) :
  tasks_forward a b -> tasks_forward b c -> tasks_forward a c.
Proof.
  intros Hab Hbc k t H.
  destruct (Hab k t H) as (t1 & H1 & F1).
  destruct (Hbc k t1 H1) as (t2 & H2 & F2).
  exists t2. split; [exact H2 | eapply forward_trans; eauto].
Qed.

Lemma tasks_forward_same (o o' : Orchestrator) :
  tasks o' = tasks o -> tasks_forward o o'.
Proof. intros H k t Hk. exists t. rewrite H. split; [exact Hk | apply forward_refl]. Qed.

(** Writing one task: the others stay, the written one must move forward. *)
Lemma tasks_forward_set (o o' : Orchestrator) k t' :
  tasks o' = JsMap.set k t' (tasks o) ->
  (forall t, JsMap.get k (tasks o) = Some t ->
     forward (Task.status t) (Task.status t')) ->
  tasks_forward o o'.
Proof.
  intros Hset Hforward k0 t0 H0. rewrite Hset, get_set.
  destruct (String.eqb k0 k) eqn:E.
  - apply String.eqb_eq in E. subst k0. exists t'. split; [reflexivity |].
    now apply Hforward.
  - exists t0. split; [exact H0 | apply forward_refl].
Qed.

(** Walking through the combinators of the monad with a reflexive and
    transitive relation; [leaf] closes what is left. *)
Ltac walk refl trans leaf :=
  cbv beta;
  lazymatch goal with
  | |- preserves _ (ret _) => apply preserves_ret; exact refl
  | |- preserves _ (throw _) => apply preserves_throw; exact refl
  | |- preserves _ (bind read _) =>
      apply preserves_read_all; intros ?; walk refl trans leaf
  | |- preserves _ (bind _ _) =>
      apply preserves_bind;
      [exact trans | walk refl trans leaf | intros ?; walk refl trans leaf]
  | |- preserves _ (try_catch _ _) =>
      apply preserves_try_catch;
      [exact trans | walk refl trans leaf | intros ?; walk refl trans leaf]
  | |- preserves _ (swallow _) => unfold swallow; walk refl trans leaf
  | |- preserves _ (for_each _ _) =>
      apply preserves_for_each;
      [exact refl | exact trans | intros ?; walk refl trans leaf]
  | |- preserves _ (match ?x with _ => _ end) =>
      destruct x; walk refl trans leaf
  | |- _ => leaf
  end.

Create HintDb order.

Ltac in_order :=
  walk tasks_forward_refl tasks_forward_trans
    ltac:(try solve [auto with order]).

(** Writes that leave the tasks alone. *)
Lemma store_agentState_order agentId a :
  preserves tasks_forward (store_agentState agentId a).
Proof. intros o. now apply tasks_forward_same. Qed.

Lemma addCollaborationLink_order a b :
  preserves tasks_forward (modify (addCollaborationLink a b)).
Proof. intros o. now apply tasks_forward_same. Qed.

Lemma set_handled_order (f : Orchestrator -> list string) :
  preserves tasks_forward (modify (fun o => set_handled (f o) o)).
Proof. intros o. now apply tasks_forward_same. Qed.

Lemma set_messageQueue_order (f : Orchestrator -> list AgentMessage.t) :
  preserves tasks_forward (modify (fun o => set_messageQueue (f o) o)).
Proof. intros o. now apply tasks_forward_same. Qed.

Lemma findBestAgent_order task : preserves tasks_forward (findBestAgent task).
Proof. intros o. rewrite findBestAgent_pure. apply tasks_forward_refl. Qed.

#[local] Hint Resolve store_agentState_order addCollaborationLink_order
  set_handled_order set_messageQueue_order findBestAgent_order : order.

Lemma createAgent_order config now :
  preserves tasks_forward (createAgent config now).
Proof.
  unfold createAgent, validateAgentConfig. in_order;
    intros o; now apply tasks_forward_same.
Qed.

Lemma createCollaboration_order agentIds collaborationId :
  preserves tasks_forward (createCollaboration agentIds collaborationId).
Proof. unfold createCollaboration. in_order. Qed.

#[local] Hint Resolve createAgent_order createCollaboration_order : order.

Lemma createTask_order taskConfig taskId now (o : Orchestrator) :
  JsMap.get taskId (tasks o) = None ->
  tasks_forward o (exec (createTask taskConfig taskId now) o).
Proof.
  intros Hfresh. eapply tasks_forward_set; [reflexivity |].
  intros t Ht. congruence.
Qed.

Lemma resolveAgent_order task agentId :
  preserves tasks_forward (resolveAgent task agentId).
Proof. intros o. rewrite resolveAgent_pure. apply tasks_forward_refl. Qed.

(** [assignTask] writes the status of a pending task only. *)
Lemma assignTask_order taskId agentId :
  preserves tasks_forward (assignTask taskId agentId).
Proof.
  intros o. unfold assignTask. rewrite exec_bind. unfold read.
  destruct (JsMap.get taskId (tasks o)) as [task |] eqn:Hget;
    [| apply tasks_forward_refl].
  destruct (TaskStatus_eqb (Task.status task) pending) eqn:Hst;
    [| apply tasks_forward_refl].
  apply TaskStatus_eqb_eq in Hst. cbn [negb]. rewrite exec_bind.
  pose proof (resolveAgent_pure task agentId o) as Hp. unfold exec in Hp.
  destruct (resolveAgent task agentId o) as [o1 [a | e]]; simpl in Hp;
    subst o1; [| apply tasks_forward_refl].
  destruct (JsMap.get a (agentStates o)); [| apply tasks_forward_refl].
  destruct (0 <? length (checkTaskDependencies task o))%nat;
    [apply tasks_forward_refl |].
  eapply tasks_forward_set; [reflexivity |].
  intros old Hold. rewrite Hget in Hold. injection Hold as <-.
  rewrite Hst. right. simpl. lia.
Qed.

#[local] Hint Resolve resolveAgent_order assignTask_order : order.

Lemma truthy_string_ne (s : string) : truthy_string s = true <-> s <> "".
Proof.
  unfold truthy_string. rewrite negb_true_iff. apply String.eqb_neq.
Qed.

Lemma tasks_forward_set_twice (o o' : Orchestrator) k t1 t2 :
  tasks o' = JsMap.set k t2 (JsMap.set k t1 (tasks o)) ->
  (forall t, JsMap.get k (tasks o) = Some t ->
     forward (Task.status t) (Task.status t2)) ->
  tasks_forward o o'.
Proof.
  intros Hset Hforward k0 t0 H0. rewrite Hset, !get_set.
  destruct (String.eqb k0 k) eqn:E.
  - apply String.eqb_eq in E. subst k0. exists t2. split; [reflexivity |].
    now apply Hforward.
  - exists t0. split; [exact H0 | apply forward_refl].
Qed.

(** [executeTask] takes a task that is not terminal to completed or failed,
    and leaves the other tasks alone. *)
Lemma executeTask_order strategies taskId clock (o : Orchestrator) :
  not_yet_terminal taskId o ->
  tasks_forward o (exec (executeTask strategies taskId clock) o).
Proof.
  intros Hnt.
  destruct (JsMap.get taskId (tasks o)) as [task |] eqn:Hget.
  2: { unfold executeTask, exec, bind, read. cbv beta iota. rewrite Hget.
       apply tasks_forward_refl. }
  destruct (Task.assignedAgentId task) as [agentId |] eqn:Hassigned.
  2: { unfold executeTask, exec, bind, read. cbv beta iota.
       rewrite Hget, Hassigned. apply tasks_forward_refl. }
  destruct (truthy_string agentId) eqn:Htruthy.
  2: { unfold executeTask, exec, bind, read. cbv beta iota.
       rewrite Hget, Hassigned. cbn [truthy]. rewrite Htruthy.
       apply tasks_forward_refl. }
  apply truthy_string_ne in Htruthy.
  destruct (JsMap.get agentId (agentStates o)) as [agentState |] eqn:Hstate.
  2: { unfold executeTask, exec, bind, read. cbv beta iota.
       rewrite Hget, Hassigned. cbn [truthy default]. unfold id.
       apply truthy_string_ne in Htruthy. rewrite Htruthy. cbn [negb].
       rewrite Hstate. apply tasks_forward_refl. }
  unfold exec.
  rewrite (executeTask_run strategies o taskId clock task agentId agentState
             Hget Hassigned Htruthy Hstate).
  cbv zeta.
  destruct (outcome (executeTaskByType strategies (task_started clock task)) o)
    as [r | e]; cbn [fst];
    (eapply tasks_forward_set_twice; [reflexivity |]);
    intros old Hold; rewrite Hget in Hold; injection Hold as <-;
    apply forward_to_terminal; try (now apply Hnt).
  - unfold task_completed, task_started. cbn. reflexivity.
  - reflexivity.
Qed.

Lemma cancelTask_tasks taskId now (o : Orchestrator) :
  tasks (exec (cancelTask taskId now) o)
  = match JsMap.get taskId (tasks o) with
    | Some task =>
        JsMap.set taskId
          (Task.with_completedAt (Some now) (Task.with_status cancelled task))
          (tasks o)
    | None => tasks o
    end.
Proof.
  unfold cancelTask, exec, bind, read, store_task, store_agentState, modify,
    ret. cbv beta iota.
  destruct (JsMap.get taskId (tasks o)) as [task |]; [| reflexivity].
  cbn [Task.assignedAgentId Task.with_completedAt Task.with_status].
  destruct (truthy (Task.assignedAgentId task)); [| reflexivity].
  cbn [agentStates set_tasks].
  destruct (JsMap.get _ (agentStates o)); reflexivity.
Qed.

(** [cancelTask] takes a task that is not terminal to cancelled. *)
Lemma cancelTask_order taskId now (o : Orchestrator) :
  not_yet_terminal taskId o ->
  tasks_forward o (exec (cancelTask taskId now) o).
Proof.
  intros Hnt. pose proof (cancelTask_tasks taskId now o) as Htasks.
  destruct (JsMap.get taskId (tasks o)) as [task |] eqn:Hget.
  - eapply tasks_forward_set; [exact Htasks |].
    intros old Hold. rewrite Hget in Hold. injection Hold as <-.
    apply forward_to_terminal; [now apply Hnt | reflexivity].
  - now apply tasks_forward_same.
Qed.

Lemma removeAgent_order agentId now (o : Orchestrator) :
  (forall a c, JsMap.get agentId (agentStates o) = Some a ->
     AgentState.currentTask a = Some c -> not_yet_terminal c o) ->
  tasks_forward o (exec (removeAgent agentId now) o).
Proof.
  intros Hcur. unfold removeAgent. rewrite exec_bind. unfold read.
  destruct (JsMap.has agentId (agents o)); cbn [negb];
    [| apply tasks_forward_refl].
  apply reach_bind.
  - destruct (JsMap.get agentId (agentStates o)) as [a |] eqn:Ha;
      [| apply tasks_forward_refl].
    destruct (AgentState.currentTask a) as [c |] eqn:Hc;
      [| apply tasks_forward_refl].
    cbn [truthy default]. unfold id.
    destruct (truthy_string c); [| apply tasks_forward_refl].
    apply reach_bind.
    + apply cancelTask_order. exact (Hcur a c eq_refl Hc).
    + intros _ s Hs. exact Hs.
  - intros _ s Hs. eapply tasks_forward_trans; [exact Hs |].
    now apply tasks_forward_same.
Qed.

Lemma processPendingTasks_order : preserves tasks_forward processPendingTasks.
Proof. unfold processPendingTasks. in_order. Qed.

(** A message whose type writes no status of its own is handled in order. *)
Lemma processMessage_order message now :
  writes_no_status (AgentMessage.type message) = true ->
  preserves tasks_forward (processMessage message now).
Proof.
  intros Htype. unfold processMessage. in_order.
  all: try discriminate Htype.
  - unfold handleTaskAssignmentMessage. in_order.
  - unfold handleCollaborationRequestMessage. in_order.
  - unfold handleStatusUpdateMessage. in_order.
Qed.

Lemma sendMessage_order message messageId now :
  writes_no_status (Envelope.type message) = true ->
  preserves tasks_forward (sendMessage message messageId now).
Proof.
  intros Htype. unfold sendMessage. in_order.
  now apply processMessage_order.
Qed.

Lemma for_each_order {A} (xs : list A) (body : A -> OM unit) :
  (forall x, In x xs -> preserves tasks_forward (body x)) ->
  preserves tasks_forward (for_each xs body).
Proof.
  induction xs as [| x xs IH]; intros Hb; simpl.
  - apply preserves_ret, tasks_forward_refl.
  - apply preserves_bind; [exact tasks_forward_trans | |].
    + apply Hb. now left.
    + intros _. apply IH. intros y Hy. apply Hb. now right.
Qed.

Lemma processMessageQueue_order now (o : Orchestrator) :
  queue_writes_no_status o ->
  tasks_forward o (exec (processMessageQueue now) o).
Proof.
  intros Hq. unfold processMessageQueue. rewrite exec_bind. unfold read.
  apply reach_bind.
  - now apply tasks_forward_same.
  - intros _ s Hs. eapply tasks_forward_trans; [exact Hs |].
    apply for_each_order. intros m Hm. unfold swallow.
    in_order. apply processMessage_order. now apply Hq.
Qed.

Lemma exec_swallow {A} (m : OM A) (o : Orchestrator) :
  exec (swallow m) o = exec m o.
Proof. apply exec_try_catch_ret. Qed.

Lemma updateAgentStates_order strategies inp :
  preserves tasks_forward (updateAgentStates strategies inp).
Proof.
  unfold updateAgentStates. apply preserves_read_all. intros o0.
  apply preserves_for_each;
    [exact tasks_forward_refl | exact tasks_forward_trans |].
  intros agentId. apply preserves_read. intros o.
  destruct (JsMap.get agentId (agentStates o)) as [state |];
    [| apply tasks_forward_refl].
  unfold store_agentState. rewrite exec_modify_bind.
  set (o1 := set_agentStates _ o).
  assert (H1 : tasks_forward o o1) by now apply tasks_forward_same.
  cbn [AgentState.status AgentState.with_resources AgentState.taskQueue].
  destruct (AgentStatus_eqb (AgentState.status state) idle); [| exact H1].
  destruct (AgentState.taskQueue state) as [| nextTaskId rest]; [exact H1 |].
  destruct (JsMap.get nextTaskId (tasks o)) as [task |] eqn:Hget;
    [| exact H1].
  destruct (TaskStatus_eqb (Task.status task) assigned) eqn:Hst; [| exact H1].
  apply TaskStatus_eqb_eq in Hst.
  eapply tasks_forward_trans; [exact H1 |].
  rewrite exec_swallow. apply executeTask_order.
  intros t Ht. change (tasks o1) with (tasks o) in Ht.
  rewrite Hget in Ht. injection Ht as <-. now rewrite Hst.
Qed.

Lemma handleTimeouts_order inp : preserves tasks_forward (handleTimeouts inp).
Proof.
  unfold handleTimeouts. apply preserves_read_all. intros o0.
  apply preserves_for_each;
    [exact tasks_forward_refl | exact tasks_forward_trans |].
  intros taskId. apply preserves_read. intros o.
  destruct (JsMap.get taskId (tasks o)) as [task |] eqn:Hget;
    [| apply tasks_forward_refl].
  destruct (TaskStatus_eqb (Task.status task) in_progress) eqn:Hst;
    [| apply tasks_forward_refl].
  apply TaskStatus_eqb_eq in Hst.
  destruct (Task.startedAt task); [| apply tasks_forward_refl].
  match goal with |- context [if ?c then _ else _] => destruct c end;
    [| apply tasks_forward_refl].
  apply reach_bind; [| intros _ s Hs; exact Hs].
  apply cancelTask_order. intros t Ht.
  rewrite Hget in Ht. injection Ht as <-. now rewrite Hst.
Qed.

Lemma move_task_order k a (o1 o2 : Orchestrator) :
  tasks o2 = tasks o1 ->
  tasks_forward o1
    (exec
       match JsMap.get k (tasks o1) with
       | Some task => store_task k (Task.with_assignedAgentId a task)
       | None => ret tt
       end o2).
Proof.
  intros H2.
  destruct (JsMap.get k (tasks o1)) as [task |] eqn:Hget;
    [| now apply tasks_forward_same].
  eapply tasks_forward_set.
  - cbn [exec store_task modify fst tasks set_tasks]. rewrite H2.
    reflexivity.
  - intros old Hold. rewrite Hget in Hold. injection Hold as <-.
    apply forward_refl.
Qed.

(** The rebalancing pass rewrites [assignedAgentId], never a status. *)
Lemma optimizeTaskDistribution_order :
  preserves tasks_forward optimizeTaskDistribution.
Proof.
  unfold optimizeTaskDistribution. apply preserves_read. intros o.
  destruct (sort lighter _) as [| lightestAgent [| second rest]];
    try apply tasks_forward_refl.
  destruct (rev _) as [| heaviestAgent others]; [apply tasks_forward_refl |].
  match goal with |- context [if ?c then _ else _] => destruct c end;
    [| apply tasks_forward_refl].
  unfold store_agentState at 1. rewrite exec_modify_bind.
  set (o1 := set_agentStates _ o).
  assert (H1 : tasks_forward o o1) by now apply tasks_forward_same.
  destruct (truthy_string _); [| exact H1].
  eapply tasks_forward_trans; [exact H1 |].
  rewrite exec_bind. unfold read.
  destruct (JsMap.get _ (agentStates o1)) as [lightestState |].
  - unfold store_agentState. rewrite exec_modify_bind.
    now apply move_task_order.
  - rewrite exec_bind. unfold ret at 1. now apply move_task_order.
Qed.

#[local] Hint Resolve processPendingTasks_order updateAgentStates_order
  handleTimeouts_order optimizeTaskDistribution_order : order.

(** The assignment pass leaves the message queue alone. *)
Lemma assignTask_messageQueue taskId agentId :
  preserves (fun o o' => messageQueue o' = messageQueue o)
    (assignTask taskId agentId).
Proof.
  intros o. unfold assignTask. rewrite exec_bind. unfold read.
  destruct (JsMap.get taskId (tasks o)) as [task |]; [| reflexivity].
  destruct (negb _); [reflexivity |].
  rewrite exec_bind.
  pose proof (resolveAgent_pure task agentId o) as Hp. unfold exec in Hp.
  destruct (resolveAgent task agentId o) as [o1 [a | e]]; simpl in Hp;
    subst o1; [| reflexivity].
  destruct (JsMap.get a (agentStates o)); [| reflexivity].
  destruct (0 <? _)%nat; reflexivity.
Qed.

Lemma processPendingTasks_messageQueue (o : Orchestrator) :
  messageQueue (exec processPendingTasks o) = messageQueue o.
Proof.
  revert o. change (preserves (fun o o' => messageQueue o' = messageQueue o)
                      processPendingTasks).
  unfold processPendingTasks.
  walk (fun o : Orchestrator => eq_refl (messageQueue o))
       (fun (a b c : Orchestrator) (H1 : messageQueue b = messageQueue a)
            (H2 : messageQueue c = messageQueue b) => eq_trans H2 H1)
       ltac:(try apply assignTask_messageQueue).
Qed.

Lemma orchestratorTick_order strategies inp (o : Orchestrator) :
  queue_writes_no_status o ->
  tasks_forward o (exec (orchestratorTick strategies inp) o).
Proof.
  intros Hq. unfold orchestratorTick. rewrite exec_swallow.
  rewrite exec_bind_outcome.
  pose proof (processPendingTasks_order o) as H1.
  pose proof (processPendingTasks_messageQueue o) as Hq1.
  destruct (outcome processPendingTasks o); [| exact H1].
  eapply tasks_forward_trans; [exact H1 |].
  apply reach_bind.
  - apply processMessageQueue_order. intros m Hm. apply Hq.
    now rewrite <- Hq1.
  - intros _ s Hs. eapply tasks_forward_trans; [exact Hs |].
    clear. revert s.
    change (preserves tasks_forward
              (updateAgentStates strategies inp ;;
               handleTimeouts inp ;; optimizeTaskDistribution)).
    in_order.
Qed.

(** Every call in order moves the status of every task forward. *)
Lemma make_order strategies (c : Call) (o : Orchestrator) :
  in_order c o -> tasks_forward o (exec (make strategies c) o).
Proof.
  destruct c; simpl; intros Hc.
  - apply reach_bind; [apply createAgent_order | intros _ s Hs; exact Hs].
  - apply reach_bind; [now apply removeAgent_order | intros _ s Hs; exact Hs].
  - apply reach_bind; [now apply createTask_order | intros _ s Hs; exact Hs].
  - apply reach_bind; [apply assignTask_order | intros _ s Hs; exact Hs].
  - apply reach_bind; [now apply executeTask_order | intros _ s Hs; exact Hs].
  - apply reach_bind; [now apply cancelTask_order | intros _ s Hs; exact Hs].
  - apply reach_bind; [apply createCollaboration_order
                      | intros _ s Hs; exact Hs].
  - apply reach_bind; [now apply sendMessage_order | intros _ s Hs; exact Hs].
  - apply processPendingTasks_order.
  - now apply processMessageQueue_order.
  - apply updateAgentStates_order.
  - apply handleTimeouts_order.
  - apply optimizeTaskDistribution_order.
  - now apply orchestratorTick_order.
Qed.

(** When every call runs to its end before the next one begins, so that
    no call runs while an [executeTask] is suspended, and the calls are in
    order (createTask with a fresh id; no [task_result] or [error_report]
    message; executeTask, cancelTask and removeAgent applied to tasks that
    are not yet terminal), the status of every task only moves forward
    along pending, assigned, in_progress, terminal; and [cancelTask] makes
    every existing task cancelled. *)
Lemma status_moves_forward_in_order (strategies : Strategies) :
  (forall o calls o',
     reaches_in_order strategies o calls o' ->
     tasks_forward o o'
     /\ forall k t, JsMap.get k (tasks o) = Some t ->
          is_terminal (Task.status t) = true ->
          Task.status <$> JsMap.get k (tasks o') = Some (Task.status t))
  /\ (forall o taskId now t,
        JsMap.get taskId (tasks o) = Some t ->
        Task.status <$> JsMap.get taskId (tasks (exec (cancelTask taskId now) o))
        = Some cancelled).
Proof.
  split.
  - assert (Hforward : forall o calls o',
               reaches_in_order strategies o calls o' -> tasks_forward o o').
    { intros o calls o' Hrun. induction Hrun as [o | o c calls o' Hc Hrun IH].
      - apply tasks_forward_refl.
      - eapply tasks_forward_trans; [| exact IH]. now apply make_order. }
    intros o calls o' Hrun. split; [now apply (Hforward o calls) |].
    intros k t Hget Hterm.
    destruct (Hforward o calls o' Hrun k t Hget) as (t' & Hget' & Hf).
    rewrite Hget'. simpl. f_equal. now apply forward_terminal.
  - intros o taskId now t Hget. rewrite cancelTask_tasks, Hget, get_set_eq.
    reflexivity.
Qed.

(** In such a run the task goes from pending to completed. *)
Example run_in_order_completes_the_task :
  (Task.status <$> getTaskStatus "t1" Sample.one_task) = Some pending
  /\ (Task.status
      <$> getTaskStatus "t1"
            (exec (make Sample.strategies (Tick Sample.inputs))
               (exec (make Sample.strategies (AssignTask "t1" None))
                  Sample.one_task))) = Some completed.
Proof. vm_compute. split; reflexivity. Qed.

(** ** The registry invariant *)

Lemma keeps_refl (P : Orchestrator -> Prop) (o : Orchestrator) : keeps P o o.
Proof. intros H. exact H. Qed.

Lemma keeps_trans (P : Orchestrator -> Prop) (a b c : Orchestrator) :
  keeps P a b -> keeps P b c -> keeps P a c.
Proof. unfold keeps. auto. Qed.

Lemma registry_ok_same (o o' : Orchestrator) :
  agents o' = agents o -> agentStates o' = agentStates o ->
  keeps registry_ok o o'.
Proof. unfold keeps, registry_ok. intros -> ->. trivial. Qed.

(** Writing the state of a registered agent, with consistent counters. *)
Lemma registry_ok_update (o o' : Orchestrator) k a a' :
  agents o' = agents o ->
  JsMap.get k (agentStates o) = Some a ->
  agentStates o' = JsMap.set k a' (agentStates o) ->
  (perf_ok a -> perf_ok a') ->
  keeps registry_ok o o'.
Proof.
  intros Hag Hget Hst Hperf [Hnd Hreg]. split.
  - rewrite Hst. now apply NoDup_keys_set.
  - intros id state Hin. rewrite Hst in Hin. unfold JsMap.entries in Hin.
    apply In_set_inv in Hin. rewrite Hag.
    destruct Hin as [[= -> ->] | Hin].
    + destruct (Hreg k a (get_In _ _ _ Hget)) as (Hne & Hc & Hp).
      split; [exact Hne |]. split; [exact Hc | now apply Hperf].
    + now apply Hreg.
Qed.

Ltac keep_ok :=
  walk (keeps_refl registry_ok) (keeps_trans registry_ok)
    ltac:(try solve [auto with registry]).

Create HintDb registry.

Lemma store_task_keeps taskId task :
  preserves (keeps registry_ok) (store_task taskId task).
Proof. intros o. now apply registry_ok_same. Qed.

Lemma addCollaborationLink_keeps a b :
  preserves (keeps registry_ok) (modify (addCollaborationLink a b)).
Proof. intros o. now apply registry_ok_same. Qed.

Lemma set_handled_keeps (f : Orchestrator -> list string) :
  preserves (keeps registry_ok) (modify (fun o => set_handled (f o) o)).
Proof. intros o. now apply registry_ok_same. Qed.

Lemma set_messageQueue_keeps (f : Orchestrator -> list AgentMessage.t) :
  preserves (keeps registry_ok) (modify (fun o => set_messageQueue (f o) o)).
Proof. intros o. now apply registry_ok_same. Qed.

Lemma clear_messageQueue_keeps :
  preserves (keeps registry_ok) (modify (set_messageQueue [])).
Proof. intros o. now apply registry_ok_same. Qed.

Lemma findBestAgent_keeps task :
  preserves (keeps registry_ok) (findBestAgent task).
Proof. intros o. rewrite findBestAgent_pure. apply keeps_refl. Qed.

#[local] Hint Resolve store_task_keeps addCollaborationLink_keeps
  set_handled_keeps set_messageQueue_keeps clear_messageQueue_keeps
  findBestAgent_keeps : registry.

(** Writing back a state read from the same place, counters untouched. *)
Lemma store_agentState_keeps (o : Orchestrator) k a a' :
  JsMap.get k (agentStates o) = Some a ->
  (perf_ok a -> perf_ok a') ->
  keeps registry_ok o (exec (store_agentState k a') o).
Proof.
  intros Hget Hperf.
  now apply (registry_ok_update o _ k a a').
Qed.

Lemma createTask_keeps taskConfig taskId now :
  preserves (keeps registry_ok) (createTask taskConfig taskId now).
Proof. intros o. now apply registry_ok_same. Qed.

Lemma createCollaboration_keeps agentIds collaborationId :
  preserves (keeps registry_ok) (createCollaboration agentIds collaborationId).
Proof. unfold createCollaboration. keep_ok. Qed.

Lemma assignTask_keeps taskId agentId :
  preserves (keeps registry_ok) (assignTask taskId agentId).
Proof.
  intros o. unfold assignTask. rewrite exec_bind. unfold read.
  destruct (JsMap.get taskId (tasks o)) as [task |] eqn:Hget;
    [| apply keeps_refl].
  destruct (negb _); [apply keeps_refl |].
  rewrite exec_bind.
  pose proof (resolveAgent_pure task agentId o) as Hp. unfold exec in Hp.
  destruct (resolveAgent task agentId o) as [o1 [a | e]]; simpl in Hp;
    subst o1; [| apply keeps_refl].
  destruct (JsMap.get a (agentStates o)) as [st |] eqn:Hst;
    [| apply keeps_refl].
  destruct (0 <? _)%nat; [apply keeps_refl |].
  apply (registry_ok_update o _ a st
           (AgentState.with_taskQueue (AgentState.taskQueue st ++ [taskId]) st));
    trivial.
Qed.

Lemma executeTask_keeps strategies taskId clock :
  preserves (keeps registry_ok) (executeTask strategies taskId clock).
Proof.
  intros o.
  destruct (JsMap.get taskId (tasks o)) as [task |] eqn:Hget.
  2: { unfold executeTask, exec, bind, read. cbv beta iota. rewrite Hget.
       apply keeps_refl. }
  destruct (Task.assignedAgentId task) as [agentId |] eqn:Hassigned.
  2: { unfold executeTask, exec, bind, read. cbv beta iota.
       rewrite Hget, Hassigned. apply keeps_refl. }
  destruct (truthy_string agentId) eqn:Htruthy.
  2: { unfold executeTask, exec, bind, read. cbv beta iota.
       rewrite Hget, Hassigned. cbn [truthy]. rewrite Htruthy.
       apply keeps_refl. }
  apply truthy_string_ne in Htruthy.
  destruct (JsMap.get agentId (agentStates o)) as [agentState |] eqn:Hstate.
  2: { unfold executeTask, exec, bind, read. cbv beta iota.
       rewrite Hget, Hassigned. cbn [truthy default]. unfold id.
       apply truthy_string_ne in Htruthy. rewrite Htruthy. cbn [negb].
       rewrite Hstate. apply keeps_refl. }
  unfold exec.
  rewrite (executeTask_run strategies o taskId clock task agentId agentState
             Hget Hassigned Htruthy Hstate).
  cbv zeta.
  set (o1 := set_agentStates
               (JsMap.set agentId (agent_started taskId agentState)
                  (agentStates o)) o).
  assert (H1 : keeps registry_ok o o1).
  { apply (registry_ok_update o o1 agentId agentState
             (agent_started taskId agentState)); trivial. }
  destruct (outcome (executeTaskByType strategies (task_started clock task)) o)
    as [r | e]; cbn [fst];
    (eapply keeps_trans; [exact H1 |]);
    eapply (registry_ok_update o1 _ agentId (agent_started taskId agentState));
    try reflexivity; try apply get_set_eq;
    unfold perf_ok; cbn; lia.
Qed.

Lemma cancelTask_keeps taskId now :
  preserves (keeps registry_ok) (cancelTask taskId now).
Proof.
  intros o. unfold cancelTask. rewrite exec_bind. unfold read.
  destruct (JsMap.get taskId (tasks o)) as [task |]; [| apply keeps_refl].
  unfold store_task at 1. rewrite exec_modify_bind.
  set (o1 := set_tasks _ o).
  assert (H1 : keeps registry_ok o o1) by now apply registry_ok_same.
  eapply keeps_trans; [exact H1 |].
  apply reach_bind; [| intros _ s Hs; exact Hs].
  destruct (truthy _); [| apply keeps_refl].
  destruct (JsMap.get _ (agentStates o)) as [agentState |] eqn:Hstate;
    [| apply keeps_refl].
  eapply store_agentState_keeps; [exact Hstate |].
  destruct (AgentState.currentTask _) as [c |]; [| trivial].
  destruct (String.eqb c taskId); trivial.
Qed.

#[local] Hint Resolve createTask_keeps createCollaboration_keeps
  assignTask_keeps executeTask_keeps cancelTask_keeps : registry.

Lemma handleStatusUpdateMessage_keeps message now :
  preserves (keeps registry_ok) (handleStatusUpdateMessage message now).
Proof.
  intros o. unfold handleStatusUpdateMessage. rewrite exec_bind. unfold read.
  destruct (JsMap.get _ (agentStates o)) as [agentState |] eqn:Hstate;
    [| apply keeps_refl].
  eapply store_agentState_keeps; [exact Hstate | trivial].
Qed.

#[local] Hint Resolve handleStatusUpdateMessage_keeps : registry.

Lemma processMessage_keeps message now :
  preserves (keeps registry_ok) (processMessage message now).
Proof.
  unfold processMessage, handleTaskAssignmentMessage, handleTaskResultMessage,
    handleCollaborationRequestMessage, handleErrorReportMessage.
  keep_ok.
Qed.

#[local] Hint Resolve processMessage_keeps : registry.

Lemma sendMessage_keeps message messageId now :
  preserves (keeps registry_ok) (sendMessage message messageId now).
Proof. unfold sendMessage. keep_ok. Qed.

Lemma processPendingTasks_keeps :
  preserves (keeps registry_ok) processPendingTasks.
Proof. unfold processPendingTasks. keep_ok. Qed.

Lemma processMessageQueue_keeps now :
  preserves (keeps registry_ok) (processMessageQueue now).
Proof. unfold processMessageQueue. keep_ok. Qed.

Lemma handleTimeouts_keeps inp :
  preserves (keeps registry_ok) (handleTimeouts inp).
Proof. unfold handleTimeouts. keep_ok. Qed.

Lemma updateAgentStates_keeps strategies inp :
  preserves (keeps registry_ok) (updateAgentStates strategies inp).
Proof.
  unfold updateAgentStates. apply preserves_read_all. intros o0.
  apply preserves_for_each; [apply keeps_refl | apply keeps_trans |].
  intros agentId. apply preserves_read. intros o.
  destruct (JsMap.get agentId (agentStates o)) as [state |] eqn:Hstate;
    [| apply keeps_refl].
  apply reach_bind.
  - eapply store_agentState_keeps; [exact Hstate | trivial].
  - intros _ s Hs. eapply keeps_trans; [exact Hs |]. clear Hs. revert s.
    match goal with |- forall s, keeps _ s (exec ?m s) =>
      change (preserves (keeps registry_ok) m) end.
    keep_ok.
Qed.

Section SortMembers.
Context {A : Type} (before : A -> A -> bool).

Lemma sort_insert_In (x y : A) (l : list A) :
  In y (sort_insert before x l) -> y = x \/ In y l.
Proof.
  induction l as [| z l IH]; simpl.
  - intros [<- | []]. now left.
  - destruct (before z x); simpl.
    + intros [<- | H]; [right; now left |].
      destruct (IH H); [now left | right; now right].
    + intros [<- | H]; [now left | now right].
Qed.

Lemma sort_In (y : A) (l : list A) : In y (sort before l) -> In y l.
Proof.
  induction l as [| x l IH]; simpl; [trivial |].
  intros H. apply sort_insert_In in H. destruct H as [-> | H]; auto.
Qed.
End SortMembers.

Lemma optimizeTaskDistribution_keeps :
  preserves (keeps registry_ok) optimizeTaskDistribution.
Proof.
  unfold optimizeTaskDistribution. apply preserves_read. intros o Hok.
  pose proof Hok as [Hnd _]. revert Hok.
  match goal with |- registry_ok _ -> registry_ok ?x =>
    change (keeps registry_ok o x) end.
  destruct (sort lighter _) as [| lightestAgent [| second rest]] eqn:Hsort;
    try apply keeps_refl.
  destruct (rev (lightestAgent :: second :: rest))
    as [| heaviestAgent others] eqn:Hrev; [apply keeps_refl |].
  assert (Hheavy : JsMap.get (fst heaviestAgent) (agentStates o)
                   = Some (snd heaviestAgent)).
  { apply In_get; [exact Hnd |].
    assert (Hin : In heaviestAgent (rev (lightestAgent :: second :: rest)))
      by (rewrite Hrev; now left).
    apply in_rev in Hin. rewrite <- Hsort in Hin. apply sort_In in Hin.
    apply filter_In in Hin. destruct heaviestAgent. apply Hin. }
  match goal with |- context [if ?c then _ else _] => destruct c end;
    [| apply keeps_refl].
  apply reach_bind.
  - eapply store_agentState_keeps; [exact Hheavy | trivial].
  - intros _ s Hs. destruct (truthy_string _); [| exact Hs].
    eapply keeps_trans; [exact Hs |]. clear Hs.
    rewrite exec_bind. unfold read.
    apply reach_bind.
    + destruct (JsMap.get _ (agentStates s)) as [lightestState |] eqn:Hlight;
        [| apply keeps_refl].
      eapply store_agentState_keeps; [exact Hlight | trivial].
    + intros _ s' Hs'. eapply keeps_trans; [exact Hs' |].
      destruct (JsMap.get _ (tasks s)); [apply store_task_keeps |].
      apply keeps_refl.
Qed.

#[local] Hint Resolve sendMessage_keeps processPendingTasks_keeps
  processMessageQueue_keeps handleTimeouts_keeps updateAgentStates_keeps
  optimizeTaskDistribution_keeps : registry.

Lemma orchestratorTick_keeps strategies inp :
  preserves (keeps registry_ok) (orchestratorTick strategies inp).
Proof. unfold orchestratorTick. keep_ok. Qed.

Lemma registry_ok_register (o : Orchestrator) config now :
  truthy_string (AgentConfig.id config) = true ->
  keeps registry_ok o
    (set_agentStates
       (JsMap.set (AgentConfig.id config) (initialState config now)
          (agentStates o))
       (set_agents (JsMap.set (AgentConfig.id config) config (agents o)) o)).
Proof.
  intros Hid [Hnd Hreg]. split.
  - now apply NoDup_keys_set.
  - intros id state Hin. cbn [agentStates agents set_agentStates set_agents]
      in *. unfold JsMap.entries in Hin. apply In_set_inv in Hin.
    rewrite get_set.
    destruct Hin as [[= -> ->] | Hin].
    + split; [now apply truthy_string_ne |].
      rewrite String.eqb_refl. split; [eauto |]. unfold perf_ok. simpl. lia.
    + destruct (Hreg id state Hin) as (Hne & Hc & Hp).
      split; [exact Hne |]. split; [| exact Hp].
      destruct (String.eqb id (AgentConfig.id config)); eauto.
Qed.

Lemma createAgent_keeps config now :
  preserves (keeps registry_ok) (createAgent config now).
Proof.
  intros o. unfold createAgent. rewrite exec_bind. unfold read.
  destruct (JsMap.has _ (agents o)); [apply keeps_refl |].
  unfold validateAgentConfig.
  destruct (truthy_string (AgentConfig.id config)) eqn:Hid;
    [| apply keeps_refl].
  cbn [negb orb].
  destruct (_ || _)%bool; [apply keeps_refl |].
  destruct (Nat.eqb _ 0); [apply keeps_refl |].
  destruct (negb _); [apply keeps_refl |].
  rewrite exec_bind. unfold ret at 1.
  rewrite !exec_modify_bind.
  eapply keeps_trans; [now apply (registry_ok_register o config now) |].
  apply reach_bind; [| intros _ s Hs; exact Hs].
  destruct (truthy _); [| apply keeps_refl].
  now apply registry_ok_same.
Qed.

Lemma registry_ok_unregister (o : Orchestrator) agentId g :
  keeps registry_ok o
    (set_agentStates (JsMap.delete agentId (agentStates o))
       (set_agents (JsMap.delete agentId (agents o))
          (set_collaborationGraph g o))).
Proof.
  intros [Hnd Hreg]. split.
  - now apply NoDup_keys_delete.
  - intros id state Hin.
    cbn [agentStates agents set_agentStates set_agents set_collaborationGraph]
      in *.
    unfold JsMap.entries in Hin. apply In_delete_inv in Hin.
    destruct Hin as [Hin Hne]. rewrite get_delete_ne by exact Hne.
    now apply Hreg.
Qed.

Lemma removeAgent_keeps agentId now :
  preserves (keeps registry_ok) (removeAgent agentId now).
Proof.
  intros o. unfold removeAgent. rewrite exec_bind. unfold read.
  destruct (negb _); [apply keeps_refl |].
  apply reach_bind.
  - destruct (JsMap.get agentId (agentStates o)) as [a |];
      [| apply keeps_refl].
    destruct (truthy _); [| apply keeps_refl].
    apply reach_bind; [apply cancelTask_keeps | intros _ s Hs; exact Hs].
  - intros _ s Hs. eapply keeps_trans; [exact Hs |].
    rewrite !exec_modify_bind.
    exact (registry_ok_unregister s agentId _).
Qed.

(** Every call keeps the registry well formed. *)
Lemma make_keeps strategies (c : Call) :
  preserves (keeps registry_ok) (make strategies c).
Proof.
  destruct c; simpl; try keep_ok.
  - apply createAgent_keeps.
  - apply removeAgent_keeps.
  - apply orchestratorTick_keeps.
Qed.

Lemma registry_ok_new : registry_ok new_orchestrator.
Proof. split; [constructor | intros id state []]. Qed.

(** The registry is well formed in every state the calls reach when each
    of them runs to its end before the next one begins.  (A [removeAgent]
    that runs while an [executeTask] is suspended breaks it: see
    [settled_execution_restores_removed_agent].) *)
Lemma registry_ok_reached strategies (calls : list Call) (o : Orchestrator) :
  registry_ok o -> registry_ok (run_calls strategies calls o).
Proof.
  revert o. induction calls as [| c calls IH]; intros o Hok; simpl.
  - exact Hok.
  - apply IH. now apply make_keeps.
Qed.

(** ** A message is handled twice *)

Lemma grow_refl (o : Orchestrator) : agents_and_history_grow o o.
Proof. split; auto. Qed.

Lemma grow_trans (a b c : Orchestrator) :
  agents_and_history_grow a b -> agents_and_history_grow b c ->
  agents_and_history_grow a c.
Proof.
  intros [H1 H2] [H3 H4]. split; [auto |].
  intros id. specialize (H2 id). specialize (H4 id). lia.
Qed.

Lemma grow_same (o o' : Orchestrator) :
  agentStates o' = agentStates o -> handled o' = handled o ->
  agents_and_history_grow o o'.
Proof.
  intros Hs Hh. unfold agents_and_history_grow, times_handled.
  rewrite Hs, Hh. split; auto.
Qed.

Lemma has_set {V} (m : JsMap.t V) k v k0 :
  JsMap.has k0 m = true -> JsMap.has k0 (JsMap.set k v m) = true.
Proof.
  unfold JsMap.has. rewrite get_set.
  destruct (String.eqb k0 k); [reflexivity | trivial].
Qed.

Create HintDb grow.

Ltac growing :=
  walk grow_refl grow_trans ltac:(try solve [auto with grow]).

Lemma store_task_grows taskId task :
  preserves agents_and_history_grow (store_task taskId task).
Proof. intros o. now apply grow_same. Qed.

Lemma store_agentState_grows agentId a :
  preserves agents_and_history_grow (store_agentState agentId a).
Proof.
  intros o. split; [| auto]. intros k Hk. now apply has_set.
Qed.

Lemma addCollaborationLink_grows a b :
  preserves agents_and_history_grow (modify (addCollaborationLink a b)).
Proof. intros o. now apply grow_same. Qed.

Lemma findBestAgent_grows task :
  preserves agents_and_history_grow (findBestAgent task).
Proof. intros o. rewrite findBestAgent_pure. apply grow_refl. Qed.

#[local] Hint Resolve store_task_grows store_agentState_grows
  addCollaborationLink_grows findBestAgent_grows : grow.

Lemma assignTask_grows taskId agentId :
  preserves agents_and_history_grow (assignTask taskId agentId).
Proof.
  intros o. unfold assignTask. rewrite exec_bind. unfold read.
  destruct (JsMap.get taskId (tasks o)) as [task |]; [| apply grow_refl].
  destruct (negb _); [apply grow_refl |].
  rewrite exec_bind.
  pose proof (resolveAgent_pure task agentId o) as Hp. unfold exec in Hp.
  destruct (resolveAgent task agentId o) as [o1 [a | e]]; simpl in Hp;
    subst o1; [| apply grow_refl].
  destruct (JsMap.get a (agentStates o)); [| apply grow_refl].
  destruct (0 <? _)%nat; [apply grow_refl |].
  split; [| auto]. intros k Hk. now apply has_set.
Qed.

Lemma createCollaboration_grows agentIds collaborationId :
  preserves agents_and_history_grow
    (createCollaboration agentIds collaborationId).
Proof. unfold createCollaboration. growing. Qed.

#[local] Hint Resolve assignTask_grows createCollaboration_grows : grow.

Lemma times_handled_append id x (o : Orchestrator) :
  times_handled id (set_handled (handled o ++ [x]) o)
  = (times_handled id o + (if string_dec x id then 1 else 0))%nat.
Proof.
  unfold times_handled. cbn [handled set_handled].
  rewrite count_occ_app. simpl. destruct (string_dec x id); reflexivity.
Qed.

Lemma record_handling_grows x :
  preserves agents_and_history_grow
    (modify (fun o => set_handled (handled o ++ [x]) o)).
Proof.
  intros o. split; [auto |]. intros id.
  change (exec (modify (fun o => set_handled (handled o ++ [x]) o)) o)
    with (set_handled (handled o ++ [x]) o).
  rewrite times_handled_append. lia.
Qed.

#[local] Hint Resolve record_handling_grows : grow.

Lemma processMessage_grows message now :
  preserves agents_and_history_grow (processMessage message now).
Proof.
  unfold processMessage, handleTaskAssignmentMessage, handleTaskResultMessage,
    handleCollaborationRequestMessage, handleStatusUpdateMessage,
    handleErrorReportMessage.
  growing.
Qed.

(** Handling a message whose target agent exists counts once more. *)
Lemma processMessage_counts message now (o : Orchestrator) :
  JsMap.has (AgentMessage.toAgentId message) (agentStates o) = true ->
  (times_handled (AgentMessage.id message) o + 1
   <= times_handled (AgentMessage.id message)
        (exec (processMessage message now) o))%nat.
Proof.
  unfold JsMap.has.
  destruct (JsMap.get _ (agentStates o)) as [target |] eqn:Htarget;
    [intros _ | discriminate].
  unfold exec. rewrite (processMessage_run o message now target Htarget).
  set (o1 := set_handled (handled o ++ [AgentMessage.id message]) o).
  assert (H1 : times_handled (AgentMessage.id message) o1
               = (times_handled (AgentMessage.id message) o + 1)%nat).
  { unfold o1. rewrite times_handled_append.
    destruct (string_dec _ _); [reflexivity | congruence]. }
  rewrite <- H1.
  assert (Hgrow : forall m : OM unit,
             preserves agents_and_history_grow m ->
             (times_handled (AgentMessage.id message) o1
              <= times_handled (AgentMessage.id message) (fst (m o1)))%nat).
  { intros m Hm. apply (Hm o1). }
  apply Hgrow.
  unfold handleTaskAssignmentMessage, handleTaskResultMessage,
    handleCollaborationRequestMessage, handleStatusUpdateMessage,
    handleErrorReportMessage.
  growing.
Qed.

(** Draining a queue that holds the message handles it once more. *)
Lemma drain_counts message now (queue : list AgentMessage.t)
    (o : Orchestrator) :
  In message queue ->
  JsMap.has (AgentMessage.toAgentId message) (agentStates o) = true ->
  (times_handled (AgentMessage.id message) o + 1
   <= times_handled (AgentMessage.id message)
        (exec (for_each queue (fun m => swallow (processMessage m now))) o))%nat.
Proof.
  revert o. induction queue as [| m queue IH]; intros o Hin Hhas; [easy |].
  assert (Hnever : outcome (swallow (processMessage m now)) o = inl tt).
  { unfold swallow, outcome, try_catch, bind, ret.
    destruct (processMessage m now o) as [s [[] | e']]; reflexivity. }
  simpl for_each. rewrite exec_bind_outcome, Hnever.
  assert (Hstep : agents_and_history_grow o
                    (exec (swallow (processMessage m now)) o)).
  { rewrite exec_swallow. apply processMessage_grows. }
  assert (Hrest : forall s,
             agents_and_history_grow s
               (exec (for_each queue
                        (fun m => swallow (processMessage m now))) s)).
  { apply preserves_for_each; [exact grow_refl | exact grow_trans |].
    intros x s. rewrite exec_swallow. apply processMessage_grows. }
  destruct Hin as [-> | Hin].
  - pose proof (processMessage_counts message now o Hhas) as Hcount.
    rewrite <- exec_swallow in Hcount.
    destruct (Hrest (exec (swallow (processMessage message now)) o))
      as [_ Hmore].
    specialize (Hmore (AgentMessage.id message)). lia.
  - destruct Hstep as [Hkeys Hhist].
    etransitivity; [| apply IH; [exact Hin | now apply Hkeys]].
    specialize (Hhist (AgentMessage.id message)). lia.
Qed.

Ltac same_queue :=
  walk (fun o : Orchestrator => eq_refl (messageQueue o))
       (fun (a b c : Orchestrator) (H1 : messageQueue b = messageQueue a)
            (H2 : messageQueue c = messageQueue b) => eq_trans H2 H1)
       ltac:(try solve [apply assignTask_messageQueue
                       | intros ?; reflexivity]).

(** The handlers leave the message queue alone. *)
Lemma processMessage_messageQueue message now (o : Orchestrator) :
  messageQueue (exec (processMessage message now) o) = messageQueue o.
Proof.
  revert o.
  change (preserves (fun o o' => messageQueue o' = messageQueue o)
            (processMessage message now)).
  unfold processMessage, handleTaskAssignmentMessage, handleTaskResultMessage,
    handleCollaborationRequestMessage, handleStatusUpdateMessage,
    handleErrorReportMessage, createCollaboration.
  same_queue.
Qed.

Lemma for_each_swallow_returns {A B} (xs : list A) (body : A -> OM B)
    (o : Orchestrator) :
  outcome (for_each xs (fun x => swallow (body x))) o = inl tt.
Proof.
  revert o. induction xs as [| x xs IH]; intros o; [reflexivity |].
  simpl for_each. rewrite outcome_bind.
  unfold swallow at 1, try_catch, bind, ret.
  destruct (body x o) as [s [b | e]]; apply IH.
Qed.

Lemma processPendingTasks_returns (o : Orchestrator) :
  outcome processPendingTasks o = inl tt.
Proof.
  unfold processPendingTasks. rewrite outcome_bind. unfold read.
  apply for_each_swallow_returns.
Qed.

Lemma processMessageQueue_returns now (o : Orchestrator) :
  outcome (processMessageQueue now) o = inl tt.
Proof.
  unfold processMessageQueue. rewrite outcome_bind. unfold read.
  rewrite outcome_bind. unfold modify.
  apply for_each_swallow_returns.
Qed.

Lemma executeTaskByType_grows strategies task :
  preserves agents_and_history_grow (executeTaskByType strategies task).
Proof. intros o. rewrite executeTaskByType_pure. apply grow_refl. Qed.

#[local] Hint Resolve executeTaskByType_grows : grow.

Lemma processPendingTasks_grows :
  preserves agents_and_history_grow processPendingTasks.
Proof. unfold processPendingTasks. growing. Qed.

Lemma after_the_queue_grows strategies inp :
  preserves agents_and_history_grow
    (updateAgentStates strategies inp ;;
     handleTimeouts inp ;; optimizeTaskDistribution).
Proof.
  unfold updateAgentStates, handleTimeouts, optimizeTaskDistribution,
    executeTask, cancelTask.
  growing.
Qed.

(** The pass over the queue handles once more a message that waits in the
    queue and whose target agent exists. *)
Lemma processMessageQueue_counts message now (o : Orchestrator) :
  In message (messageQueue o) ->
  JsMap.has (AgentMessage.toAgentId message) (agentStates o) = true ->
  (times_handled (AgentMessage.id message) o + 1
   <= times_handled (AgentMessage.id message)
        (exec (processMessageQueue now) o))%nat.
Proof.
  intros Hin Hhas. unfold processMessageQueue.
  rewrite exec_bind. unfold read. rewrite exec_modify_bind.
  exact (drain_counts message now (messageQueue o) (set_messageQueue [] o)
           Hin Hhas).
Qed.

(** C1.  Whenever the target agent of a message exists, [sendMessage] hands
    the message to its handler and leaves it in the queue, and the next
    tick hands it to its handler again: after the two calls the message has
    been handled at least twice more than before. *)
Theorem sendMessage_then_tick_handles_twice
    (strategies : Strategies) (o : Orchestrator) (message : Envelope.t)
    (messageId : string) (now : Z) (inp : Inputs) (target : AgentState.t) :
  JsMap.get (Envelope.toAgentId message) (agentStates o) = Some target ->
  let sent := exec (sendMessage message messageId now) o in
  let ticked := exec (orchestratorTick strategies inp) sent in
  (times_handled messageId o + 1 <= times_handled messageId sent)%nat
  /\ (times_handled messageId sent + 1 <= times_handled messageId ticked)%nat.
Proof.
  intros Htarget sent ticked.
  set (full := AgentMessage.mk messageId now message).
  set (o0 := set_messageQueue (messageQueue o ++ [full]) o).
  assert (Hsent : sent = exec (processMessage full now) o0)
    by apply sendMessage_exec.
  assert (Hhas0 : JsMap.has (AgentMessage.toAgentId full) (agentStates o0)
                  = true).
  { unfold JsMap.has.
    change (AgentMessage.toAgentId full) with (Envelope.toAgentId message).
    change (agentStates o0) with (agentStates o). now rewrite Htarget. }
  assert (Hqueue : In full (messageQueue sent)).
  { rewrite Hsent, processMessage_messageQueue.
    change (messageQueue o0) with (messageQueue o ++ [full]).
    apply in_or_app. right. now left. }
  assert (Hhas : JsMap.has (AgentMessage.toAgentId full) (agentStates sent)
                 = true).
  { rewrite Hsent. now apply (processMessage_grows full now o0). }
  split.
  - rewrite Hsent. exact (processMessage_counts full now o0 Hhas0).
  - unfold ticked, orchestratorTick. rewrite exec_swallow.
    rewrite exec_bind_outcome, processPendingTasks_returns.
    set (s1 := exec processPendingTasks sent).
    assert (H1 : agents_and_history_grow sent s1)
      by apply processPendingTasks_grows.
    assert (Hq1 : In full (messageQueue s1)).
    { unfold s1. now rewrite processPendingTasks_messageQueue. }
    rewrite exec_bind_outcome, processMessageQueue_returns.
    set (s2 := exec (processMessageQueue (tickTime inp)) s1).
    assert (H2 : (times_handled messageId s1 + 1
                  <= times_handled messageId s2)%nat).
    { apply (processMessageQueue_counts full (tickTime inp) s1 Hq1).
      now apply H1. }
    pose proof (after_the_queue_grows strategies inp s2) as [_ H3].
    destruct H1 as [_ H1].
    specialize (H1 messageId). specialize (H3 messageId). lia.
Qed.

Lemma sendMessage_then_tick_handles_twice_witness :
  let sent := exec (sendMessage Sample.heartbeat "m1" 500) Sample.one_agent in
  let ticked := exec (orchestratorTick Sample.strategies Sample.inputs) sent in
  (times_handled "m1" Sample.one_agent + 1 <= times_handled "m1" sent)%nat
  /\ (times_handled "m1" sent + 1 <= times_handled "m1" ticked)%nat.
Proof.
  apply (sendMessage_then_tick_handles_twice Sample.strategies
           Sample.one_agent Sample.heartbeat "m1" 500 Sample.inputs
           (initialState Sample.coder 0)).
  reflexivity.
Defined.

(** * Further properties *)

(** ** Creating agents *)

Lemma validateAgentConfig_run (config : AgentConfig.t) (o : Orchestrator) :
  exec (validateAgentConfig config) o = o
  /\ (outcome (validateAgentConfig config) o = inl tt <-> valid_config config).
Proof.
  unfold validateAgentConfig, valid_config.
  destruct (truthy_string (AgentConfig.id config)) eqn:Hid;
  destruct (truthy_string (AgentConfig.name config)) eqn:Hname;
  destruct (truthy_string (AgentConfig.role config)) eqn:Hrole;
  destruct (AgentConfig.capabilities config) as [| c cs] eqn:Hcaps;
  destruct (truthy_string (AgentConfig.systemPrompt config)) eqn:Hprompt;
  cbn; (split; [reflexivity |]);
  rewrite <- ?truthy_string_ne, ?Hid, ?Hname, ?Hrole, ?Hprompt;
  (split; [intros H; try discriminate H | intros (? & ? & ? & ? & ?)]);
  try discriminate; try congruence; try reflexivity.
  repeat split; discriminate.
Qed.

Lemma createAgent_run (config : AgentConfig.t) (now : Z) (o : Orchestrator) :
  JsMap.has (AgentConfig.id config) (agents o) = false ->
  valid_config config ->
  createAgent config now o
  = ((if truthy (AgentConfig.parentAgentId config)
      then addCollaborationLink
             (default "" (AgentConfig.parentAgentId config))
             (AgentConfig.id config)
      else fun o => o)
       (set_agentStates
          (JsMap.set (AgentConfig.id config) (initialState config now)
             (agentStates o))
          (set_agents (JsMap.set (AgentConfig.id config) config (agents o))
             o)),
     inl (AgentConfig.id config)).
Proof.
  intros Hnew Hvalid.
  destruct (validateAgentConfig_run config o) as [Hexec Hout].
  apply Hout in Hvalid.
  unfold createAgent, bind at 1, read. rewrite Hnew.
  unfold bind at 1. unfold exec in Hexec. unfold outcome in Hvalid.
  destruct (validateAgentConfig config o) as [o1 r]. simpl in *. subst.
  unfold bind, modify, ret. destruct (truthy _); reflexivity.
Qed.

Lemma createAgent_rejected (config : AgentConfig.t) (now : Z)
    (o : Orchestrator) (e : Error) :
  outcome (createAgent config now) o = inr e ->
  exec (createAgent config now) o = o
  /\ (JsMap.has (AgentConfig.id config) (agents o) = true
      \/ ~ valid_config config).
Proof.
  intros Hout.
  destruct (JsMap.has (AgentConfig.id config) (agents o)) eqn:Hhas.
  - split; [| now left]. unfold createAgent, exec, bind, read.
    now rewrite Hhas.
  - destruct (validateAgentConfig_run config o) as [Hexec Hvalid].
    destruct (outcome (validateAgentConfig config) o) as [[] | e'] eqn:Hv.
    + exfalso. assert (Hok : valid_config config) by now apply Hvalid.
      unfold outcome in Hout.
      rewrite (createAgent_run config now o Hhas Hok) in Hout. discriminate.
    + split.
      * unfold createAgent, exec, bind at 1, read. rewrite Hhas.
        unfold bind at 1. unfold exec in Hexec. unfold outcome in Hv.
        destruct (validateAgentConfig config o) as [o1 r]. simpl in *.
        now subst.
      * right. intros Hok. apply Hvalid in Hok. discriminate.
Qed.

Lemma addCollaborationLink_frame (a b : string) (o : Orchestrator) :
  agents (addCollaborationLink a b o) = agents o
  /\ agentStates (addCollaborationLink a b o) = agentStates o
  /\ tasks (addCollaborationLink a b o) = tasks o
  /\ messageQueue (addCollaborationLink a b o) = messageQueue o.
Proof. repeat split. Qed.

(** X1.  [createAgent] returns the id of the configuration exactly when no
    agent has that id yet and the id, name, role and system prompt are not
    empty and there is at least one capability; a second agent with the same
    id is refused with "already exists"; a refused call changes nothing; an
    accepted call stores the configuration and an idle state with an empty
    queue and zero counters under the id, and leaves every other agent and
    every task as it was. *)
Theorem createAgent_registers_or_rejects
    (config : AgentConfig.t) (now : Z) (o : Orchestrator) :
  let id := AgentConfig.id config in
  let o' := exec (createAgent config now) o in
  (outcome (createAgent config now) o = inl id
   <-> JsMap.has id (agents o) = false /\ valid_config config)
  /\ (JsMap.has id (agents o) = true ->
      outcome (createAgent config now) o = inr (AgentExists id))
  /\ (forall e, outcome (createAgent config now) o = inr e -> o' = o)
  /\ (outcome (createAgent config now) o = inl id ->
      JsMap.get id (agents o') = Some config
      /\ getAgentStatus id o' = Some (initialState config now)
      /\ AgentState.status (initialState config now) = idle
      /\ AgentState.taskQueue (initialState config now) = []
      /\ (forall k, k <> id ->
            JsMap.get k (agents o') = JsMap.get k (agents o)
            /\ getAgentStatus k o' = getAgentStatus k o)
      /\ tasks o' = tasks o).
Proof.
  intros id o'.
  assert (Hiff : outcome (createAgent config now) o = inl id
                 <-> JsMap.has id (agents o) = false /\ valid_config config).
  { split.
    - intros Hout. destruct (JsMap.has id (agents o)) eqn:Hhas.
      + unfold createAgent, outcome, bind, read in Hout. fold id in Hout.
        rewrite Hhas in Hout. discriminate.
      + split; [reflexivity |].
        destruct (validateAgentConfig_run config o) as [Hexec Hvalid].
        apply Hvalid.
        unfold createAgent, outcome, bind at 1, read in Hout. fold id in Hout.
        rewrite Hhas in Hout. unfold bind at 1 in Hout. unfold outcome.
        destruct (validateAgentConfig config o) as [o1 [[] | e]];
          [reflexivity | discriminate].
    - intros [Hnew Hvalid]. unfold outcome.
      now rewrite (createAgent_run config now o Hnew Hvalid). }
  split; [exact Hiff |]. split.
  { intros Hhas. unfold createAgent, outcome, bind, read. fold id.
    now rewrite Hhas. }
  split.
  { intros e He. now apply (createAgent_rejected config now o e). }
  intros Hout. apply Hiff in Hout. destruct Hout as [Hnew Hvalid].
  subst o'. unfold exec, getAgentStatus.
  rewrite (createAgent_run config now o Hnew Hvalid). cbn [fst]. fold id.
  set (o1 := set_agentStates _ _).
  assert (Hframe :
    agents ((if truthy (AgentConfig.parentAgentId config)
             then addCollaborationLink
                    (default "" (AgentConfig.parentAgentId config)) id
             else fun o => o) o1) = agents o1
    /\ agentStates ((if truthy (AgentConfig.parentAgentId config)
             then addCollaborationLink
                    (default "" (AgentConfig.parentAgentId config)) id
             else fun o => o) o1) = agentStates o1
    /\ tasks ((if truthy (AgentConfig.parentAgentId config)
             then addCollaborationLink
                    (default "" (AgentConfig.parentAgentId config)) id
             else fun o => o) o1) = tasks o1).
  { destruct (truthy _); repeat split. }
  destruct Hframe as (-> & -> & ->). subst o1.
  cbn [agents agentStates tasks set_agents set_agentStates].
  rewrite !get_set_eq. repeat split; try reflexivity.
  - apply get_set_ne. congruence.
  - apply get_set_ne. congruence.
Qed.

Lemma or_else_nonempty (o : option string) (d : string) :
  d <> "" -> or_else o d <> "".
Proof.
  intros Hd. destruct o as [s |]; simpl; [| exact Hd].
  destruct (truthy_string s) eqn:E; [| exact Hd].
  now apply truthy_string_ne.
Qed.

Lemma append_nonempty_r (a b : string) : b <> "" -> (a ++ b)%string <> "".
Proof. destruct a; simpl; [trivial | discriminate]. Qed.

Lemma append_nonempty_l (a b : string) : a <> "" -> (a ++ b)%string <> "".
Proof. destruct a; simpl; [congruence | discriminate]. Qed.

Lemma subAgentId_of_nonempty parentAgentId now suffix :
  subAgentId_of parentAgentId now suffix <> "".
Proof. unfold subAgentId_of. apply append_nonempty_r. discriminate. Qed.

Lemma subAgentConfig_of_valid parentAgentId parentAgent subAgentConfig id :
  id <> "" ->
  default (AgentConfig.capabilities parentAgent)
    (PartialAgentConfig.capabilities subAgentConfig) <> [] ->
  valid_config (subAgentConfig_of parentAgentId parentAgent subAgentConfig id).
Proof.
  intros Hid Hcaps. unfold valid_config, subAgentConfig_of. cbn.
  repeat split; trivial.
  - apply or_else_nonempty, append_nonempty_r. discriminate.
  - apply or_else_nonempty, append_nonempty_l. discriminate.
  - apply or_else_nonempty. unfold generateSubAgentPrompt. cbn.
    discriminate.
Qed.

Lemma linked_after_link (a b : string) (o : Orchestrator) :
  linked a b (addCollaborationLink a b o).
Proof.
  unfold linked, addCollaborationLink. cbn [collaborationGraph
    set_collaborationGraph]. rewrite get_set_eq. eexists. split; [reflexivity |].
  destruct (includes _ b) eqn:E.
  - unfold includes in E. apply existsb_exists in E.
    destruct E as (x & Hx & Heq). apply String.eqb_eq in Heq. now subst.
  - apply in_or_app. right. now left.
Qed.

(** X2.  [createSubAgent] on a registered parent whose id is not empty,
    for a generated identifier that is not taken and capabilities
    (given, or else the parent's) that are not empty, returns the generated
    identifier, registers the completed configuration with an idle state,
    records the parent in it, and makes the sub-agent a collaborator of the
    parent. *)
Theorem createSubAgent_registers_and_links
    (parentAgentId : string) (parentAgent : AgentConfig.t)
    (subAgentConfig : PartialAgentConfig.t) (now : Z) (suffix : string)
    (createdAt : Z) (o : Orchestrator) :
  JsMap.get parentAgentId (agents o) = Some parentAgent ->
  parentAgentId <> "" ->
  JsMap.has (subAgentId_of parentAgentId now suffix) (agents o) = false ->
  default (AgentConfig.capabilities parentAgent)
    (PartialAgentConfig.capabilities subAgentConfig) <> [] ->
  let id := subAgentId_of parentAgentId now suffix in
  let config := subAgentConfig_of parentAgentId parentAgent subAgentConfig id in
  let o' :=
    exec (createSubAgent parentAgentId subAgentConfig now suffix createdAt) o in
  outcome (createSubAgent parentAgentId subAgentConfig now suffix createdAt) o
  = inl id
  /\ JsMap.get id (agents o') = Some config
  /\ AgentConfig.parentAgentId config = Some parentAgentId
  /\ getAgentStatus id o' = Some (initialState config createdAt)
  /\ linked parentAgentId id o'.
Proof.
  intros Hparent Hne Hnew Hcaps id config o'.
  assert (Hvalid : valid_config config)
    by (apply subAgentConfig_of_valid;
        [apply subAgentId_of_nonempty | exact Hcaps]).
  assert (Hrun : createSubAgent parentAgentId subAgentConfig now suffix
                   createdAt o = createAgent config createdAt o).
  { unfold createSubAgent, bind, read. now rewrite Hparent. }
  subst o'. unfold exec, outcome, getAgentStatus. rewrite Hrun.
  rewrite (createAgent_run config createdAt o Hnew Hvalid).
  cbn [fst snd]. change (AgentConfig.id config) with id.
  change (AgentConfig.parentAgentId config) with (Some parentAgentId).
  cbn [truthy default]. unfold id at 1.
  apply truthy_string_ne in Hne. rewrite Hne.
  split; [reflexivity |].
  cbn [agents agentStates addCollaborationLink set_collaborationGraph
       set_agents set_agentStates].
  rewrite !get_set_eq. repeat split.
  apply linked_after_link.
Qed.

Lemma createSubAgent_registers_and_links_witness :
  linked "a1" (subAgentId_of "a1" 7 "x1y2z3")
    (exec (createSubAgent "a1" PartialAgentConfig.empty 7 "x1y2z3" 8)
       Sample.one_agent).
Proof.
  refine (proj2 (proj2 (proj2 (proj2
    (createSubAgent_registers_and_links "a1" Sample.coder
       PartialAgentConfig.empty 7 "x1y2z3" 8 Sample.one_agent _ _ _ _))))).
  - reflexivity.
  - discriminate.
  - vm_compute. reflexivity.
  - discriminate.
Defined.

(** X3.  [createSubAgent] for a parent that is not registered throws
    "Parent agent ... not found"; every refused call, whatever the reason,
    leaves the orchestrator as it was; and a configuration that gives an
    empty list of capabilities is refused with "Agent must have at least one
    capability", because the empty list does not fall back to the
    capabilities of the parent. *)
Theorem createSubAgent_rejections
    (parentAgentId : string) (subAgentConfig : PartialAgentConfig.t)
    (now : Z) (suffix : string) (createdAt : Z) (o : Orchestrator) :
  let call :=
    createSubAgent parentAgentId subAgentConfig now suffix createdAt in
  (JsMap.get parentAgentId (agents o) = None ->
   call o = (o, inr (ParentNotFound parentAgentId)))
  /\ (forall e, outcome call o = inr e -> exec call o = o)
  /\ (forall parentAgent,
        JsMap.get parentAgentId (agents o) = Some parentAgent ->
        JsMap.has (subAgentId_of parentAgentId now suffix) (agents o) = false ->
        PartialAgentConfig.capabilities subAgentConfig = Some [] ->
        call o
        = (o, inr (InvalidAgent "Agent must have at least one capability"))).
Proof.
  intros call. subst call. split.
  { intros Hnone. unfold createSubAgent, bind, read. now rewrite Hnone. }
  split.
  { intros e. unfold createSubAgent, outcome, exec, bind, read. cbv beta iota.
    destruct (JsMap.get parentAgentId (agents o)) as [parentAgent |];
      [| reflexivity].
    intros He. now apply (createAgent_rejected _ _ _ e). }
  intros parentAgent Hparent Hnew Hcaps.
  unfold createSubAgent, bind at 1, read. rewrite Hparent.
  unfold createAgent, bind at 1, read.
  change (AgentConfig.id (subAgentConfig_of _ _ _ ?i)) with i.
  rewrite Hnew. unfold bind at 1, validateAgentConfig.
  change (AgentConfig.id (subAgentConfig_of _ _ _ ?i)) with i.
  cbn [AgentConfig.name AgentConfig.role AgentConfig.capabilities
       subAgentConfig_of].
  rewrite Hcaps. cbn [default length Nat.eqb].
  assert (H1 : truthy_string (subAgentId_of parentAgentId now suffix) = true)
    by apply truthy_string_ne, subAgentId_of_nonempty.
  assert (H2 : truthy_string
                 (or_else (PartialAgentConfig.name subAgentConfig)
                    (AgentConfig.name parentAgent ++ " Sub-Agent")) = true).
  { apply truthy_string_ne, or_else_nonempty, append_nonempty_r.
    discriminate. }
  assert (H3 : truthy_string
                 (or_else (PartialAgentConfig.role subAgentConfig)
                    ("Sub-" ++ AgentConfig.role parentAgent)) = true).
  { apply truthy_string_ne, or_else_nonempty, append_nonempty_l.
    discriminate. }
  rewrite H1, H2, H3. reflexivity.
Qed.

(** ** Assigning and cancelling tasks *)

Lemma resolveAgent_run task agentId (o : Orchestrator) :
  resolveAgent task agentId o = (o, outcome (resolveAgent task agentId) o).
Proof.
  pose proof (resolveAgent_pure task agentId o) as H. unfold exec in H.
  unfold outcome. destruct (resolveAgent task agentId o). simpl in H.
  now subst.
Qed.

Lemma assignTask_run taskId agentId (o : Orchestrator) :
  assignTask taskId agentId o
  = match JsMap.get taskId (tasks o) with
    | None => (o, inr (TaskNotFound taskId))
    | Some task =>
        if negb (TaskStatus_eqb (Task.status task) pending)
        then (o, inr (TaskNotPending taskId))
        else
          match outcome (resolveAgent task agentId) o with
          | inr e => (o, inr e)
          | inl agent =>
              match JsMap.get agent (agentStates o) with
              | None => (o, inr (AgentNotFound agent))
              | Some agentState =>
                  if (0 <? length (checkTaskDependencies task o))%nat
                  then (o, inr (UnmetDependencies
                                  (checkTaskDependencies task o)))
                  else
                    (set_agentStates
                       (JsMap.set agent
                          (AgentState.with_taskQueue
                             (AgentState.taskQueue agentState ++ [taskId])
                             agentState)
                          (agentStates o))
                       (set_tasks
                          (JsMap.set taskId
                             (Task.with_status assigned
                                (Task.with_assignedAgentId (Some agent) task))
                             (tasks o)) o),
                     inl true)
              end
          end
    end.
Proof.
  unfold assignTask, bind at 1, read.
  destruct (JsMap.get taskId (tasks o)) as [task |]; [| reflexivity].
  destruct (negb _); [reflexivity |].
  unfold bind at 1. rewrite (resolveAgent_run task agentId o).
  destruct (outcome (resolveAgent task agentId) o) as [agent | e];
    [| reflexivity].
  destruct (JsMap.get agent (agentStates o)); [| reflexivity].
  destruct (0 <? _)%nat; reflexivity.
Qed.

(** The agent [assignTask] resolves: the given one when it is given, the
    one [findBestAgent] returns otherwise. *)
Lemma resolveAgent_returns task agentId (o : Orchestrator) agent :
  outcome (resolveAgent task agentId) o = inl agent ->
  (truthy agentId = true /\ agentId = Some agent)
  \/ (truthy agentId = false
      /\ outcome (findBestAgent task) o = inl (Some agent)).
Proof.
  unfold resolveAgent. destruct (truthy agentId) eqn:Hgiven.
  - destruct agentId as [a |]; [| discriminate Hgiven].
    intros [= <-]. left. now split.
  - rewrite outcome_bind. unfold outcome.
    destruct (findBestAgent task o) as [o' [found | e]]; [| discriminate].
    cbn [snd]. destruct found as [a |]; [| discriminate].
    destruct (truthy (Some a)); [| discriminate].
    intros [= <-]. right. now split.
Qed.

(** X4.  [assignTask] validates before it writes: a call that throws leaves
    the orchestrator as it was.  An unknown task gives "not found" and a task
    that is not pending gives "not in pending status", whatever the agent.
    A call that returns (it returns [true]) found the task pending with no
    unmet dependency, and resolved an agent that has a state: the agent the
    caller gave, or, when the caller gave none, the agent [findBestAgent]
    returns for the task.  It marks the task assigned to that agent and
    appends the task id to the end of that agent's queue; no other task and
    no other agent state is touched, and the configurations, the messages
    and the links are as they were. *)
Theorem assignTask_assigns_or_changes_nothing
    (taskId : string) (agentId : option string) (o : Orchestrator) :
  let o' := exec (assignTask taskId agentId) o in
  (forall e, outcome (assignTask taskId agentId) o = inr e -> o' = o)
  /\ (JsMap.get taskId (tasks o) = None ->
      outcome (assignTask taskId agentId) o = inr (TaskNotFound taskId))
  /\ (forall task,
        JsMap.get taskId (tasks o) = Some task ->
        Task.status task <> pending ->
        outcome (assignTask taskId agentId) o = inr (TaskNotPending taskId))
  /\ (forall b, outcome (assignTask taskId agentId) o = inl b ->
      b = true
      /\ exists task agent agentState,
           JsMap.get taskId (tasks o) = Some task
           /\ Task.status task = pending
           /\ checkTaskDependencies task o = []
           /\ (truthy agentId = true -> agentId = Some agent)
           /\ (truthy agentId = false ->
               outcome (findBestAgent task) o = inl (Some agent))
           /\ JsMap.get agent (agentStates o) = Some agentState
           /\ getTaskStatus taskId o'
              = Some (Task.with_status assigned
                        (Task.with_assignedAgentId (Some agent) task))
           /\ getAgentStatus agent o'
              = Some (AgentState.with_taskQueue
                        (AgentState.taskQueue agentState ++ [taskId])
                        agentState)
           /\ (forall k, k <> taskId ->
                 getTaskStatus k o' = getTaskStatus k o)
           /\ (forall k, k <> agent ->
                 getAgentStatus k o' = getAgentStatus k o)
           /\ agents o' = agents o
           /\ messageQueue o' = messageQueue o
           /\ collaborationGraph o' = collaborationGraph o
           /\ handled o' = handled o).
Proof.
  intros o'. subst o'. unfold exec, outcome, getTaskStatus, getAgentStatus.
  rewrite assignTask_run.
  destruct (JsMap.get taskId (tasks o)) as [task |] eqn:Hget.
  2: { repeat split; intros; try discriminate; congruence. }
  destruct (TaskStatus_eqb (Task.status task) pending) eqn:Hst; cbn [negb].
  2: { repeat split; intros; try discriminate; congruence. }
  apply TaskStatus_eqb_eq in Hst.
  pose proof (resolveAgent_returns task agentId o) as Hresolved.
  unfold outcome in Hresolved at 1.
  fold (outcome (resolveAgent task agentId) o).
  destruct (outcome (resolveAgent task agentId) o) as [agent | e] eqn:Hres.
  2: { repeat split; intros; try discriminate; congruence. }
  unfold outcome in Hres. specialize (Hresolved agent Hres).
  destruct (JsMap.get agent (agentStates o)) as [agentState |] eqn:Hstate.
  2: { repeat split; intros; try discriminate; congruence. }
  destruct (checkTaskDependencies task o) as [| d deps] eqn:Hdeps;
    cbn [length Nat.ltb Nat.leb].
  2: { repeat split; intros; try discriminate; congruence. }
  cbn [fst snd]. split; [discriminate |]. split; [discriminate |].
  split; [intros t [= <-] Hn; contradiction |].
  intros b [= <-]. split; [reflexivity |].
  exists task, agent, agentState.
  cbn [tasks agentStates agents messageQueue collaborationGraph handled
       set_tasks set_agentStates].
  rewrite !get_set_eq.
  split; [reflexivity |]. split; [exact Hst |]. split; [exact Hdeps |].
  split.
  { intros Hgiven. destruct Hresolved as [[_ H] | [H _]]; congruence. }
  split.
  { intros Hgiven. destruct Hresolved as [[H _] | [_ H]]; [congruence |].
    exact H. }
  repeat split; trivial.
  - intros k Hk. apply get_set_ne. congruence.
  - intros k Hk. apply get_set_ne. congruence.
Qed.

(** The agent state [cancelTask] writes back for the agent of the task. *)
Lemma cancelTask_run taskId now (o : Orchestrator) :
  cancelTask taskId now o
  = match JsMap.get taskId (tasks o) with
    | None => (o, inl false)
    | Some task =>
        let o1 :=
          set_tasks
            (JsMap.set taskId
               (Task.with_completedAt (Some now)
                  (Task.with_status cancelled task)) (tasks o)) o in
        (match Task.assignedAgentId task with
         | Some agentId =>
             if truthy_string agentId
             then
               match JsMap.get agentId (agentStates o) with
               | Some agentState =>
                   let queued :=
                     AgentState.with_taskQueue
                       (remove_first taskId (AgentState.taskQueue agentState))
                       agentState in
                   set_agentStates
                     (JsMap.set agentId
                        (match AgentState.currentTask agentState with
                         | Some c =>
                             if String.eqb c taskId
                             then AgentState.with_status idle
                                    (AgentState.with_currentTask None queued)
                             else queued
                         | None => queued
                         end) (agentStates o)) o1
               | None => o1
               end
             else o1
         | None => o1
         end, inl true)
    end.
Proof.
  unfold cancelTask, bind at 1, read.
  destruct (JsMap.get taskId (tasks o)) as [task |]; [| reflexivity].
  cbv zeta. unfold store_task, bind, modify, ret.
  cbn [Task.assignedAgentId Task.with_completedAt Task.with_status].
  destruct (Task.assignedAgentId task) as [agentId |]; [| reflexivity].
  cbn [truthy default]. unfold id.
  destruct (truthy_string agentId); [| reflexivity].
  destruct (JsMap.get agentId (agentStates o)) as [agentState |];
    [| reflexivity].
  unfold store_agentState, modify.
  cbn [AgentState.currentTask AgentState.with_taskQueue].
  destruct (AgentState.currentTask agentState) as [c |]; [| reflexivity].
  destruct (String.eqb c taskId); reflexivity.
Qed.

(** X5.  [cancelTask] never throws.  For an unknown task it returns [false]
    and changes nothing.  For a known task, whatever its status, it returns
    [true], sets the status to cancelled and [completedAt] to the time of
    the call and leaves every other task alone.  When the task has an agent
    whose state exists, the first occurrence of the task leaves that agent's
    queue, the agent becomes idle without a current task if the task was its
    current one and keeps its status and current task otherwise, the other
    fields of its state stay, and no other agent state is touched; when the
    task has no agent, or its agent has no state, the agent states are as
    they were.  The configurations, the messages, the links, the running
    flag and the history are as they were in every case. *)
Theorem cancelTask_effect (taskId : string) (now : Z) (o : Orchestrator) :
  let o' := exec (cancelTask taskId now) o in
  match JsMap.get taskId (tasks o) with
  | None => cancelTask taskId now o = (o, inl false)
  | Some task =>
      outcome (cancelTask taskId now) o = inl true
      /\ getTaskStatus taskId o'
         = Some (Task.with_completedAt (Some now)
                   (Task.with_status cancelled task))
      /\ (forall k, k <> taskId -> getTaskStatus k o' = getTaskStatus k o)
      /\ agents o' = agents o
      /\ messageQueue o' = messageQueue o
      /\ collaborationGraph o' = collaborationGraph o
      /\ isRunning o' = isRunning o
      /\ handled o' = handled o
      /\ (truthy (Task.assignedAgentId task) = false
          \/ JsMap.get (default "" (Task.assignedAgentId task)) (agentStates o)
             = None ->
          agentStates o' = agentStates o)
      /\ forall agentId agentState,
           Task.assignedAgentId task = Some agentId ->
           agentId <> "" ->
           JsMap.get agentId (agentStates o) = Some agentState ->
           (exists agentState',
              getAgentStatus agentId o' = Some agentState'
              /\ AgentState.taskQueue agentState'
                 = remove_first taskId (AgentState.taskQueue agentState)
              /\ (AgentState.currentTask agentState = Some taskId ->
                  AgentState.status agentState' = idle
                  /\ AgentState.currentTask agentState' = None)
              /\ (AgentState.currentTask agentState <> Some taskId ->
                  AgentState.status agentState' = AgentState.status agentState
                  /\ AgentState.currentTask agentState'
                     = AgentState.currentTask agentState)
              /\ AgentState.id agentState' = AgentState.id agentState
              /\ AgentState.performance agentState'
                 = AgentState.performance agentState
              /\ AgentState.resources agentState'
                 = AgentState.resources agentState
              /\ AgentState.capabilities agentState'
                 = AgentState.capabilities agentState
              /\ AgentState.specializations agentState'
                 = AgentState.specializations agentState)
           /\ forall k, k <> agentId ->
                getAgentStatus k o' = getAgentStatus k o
  end.
Proof.
  intros o'. subst o'. unfold exec, outcome, getTaskStatus, getAgentStatus.
  rewrite cancelTask_run.
  destruct (JsMap.get taskId (tasks o)) as [task |] eqn:Hget;
    [| reflexivity].
  cbv zeta. cbn [fst snd]. split; [reflexivity |].
  destruct (Task.assignedAgentId task) as [a |] eqn:Ha.
  2: { cbn [tasks agents messageQueue collaborationGraph isRunning handled
            agentStates set_tasks]. rewrite get_set_eq.
       split; [reflexivity |]. split.
       { intros k Hk. apply get_set_ne. congruence. }
       repeat split; try discriminate. }
  destruct (truthy_string a) eqn:Ht.
  2: { cbn [tasks agents messageQueue collaborationGraph isRunning handled
            agentStates set_tasks]. rewrite get_set_eq.
       split; [reflexivity |]. split.
       { intros k Hk. apply get_set_ne. congruence. }
       do 6 (split; [reflexivity |]).
       intros agentId agentState [= <-] Hne. apply truthy_string_ne in Hne.
       congruence. }
  destruct (JsMap.get a (agentStates o)) as [st |] eqn:Hst.
  2: { cbn [tasks agents messageQueue collaborationGraph isRunning handled
            agentStates set_tasks]. rewrite get_set_eq.
       split; [reflexivity |]. split.
       { intros k Hk. apply get_set_ne. congruence. }
       do 6 (split; [reflexivity |]).
       intros agentId agentState [= <-] Hne. congruence. }
  cbn [tasks agents messageQueue collaborationGraph isRunning handled
       agentStates set_tasks set_agentStates].
  rewrite get_set_eq. split; [reflexivity |]. split.
  { intros k Hk. apply get_set_ne. congruence. }
  do 5 (split; [reflexivity |]).
  split.
  { cbn [truthy default]. unfold id. rewrite Ht, Hst.
    intros [H | H]; discriminate H. }
  intros agentId agentState [= <-] Hne Hstate.
  rewrite Hst in Hstate. injection Hstate as <-.
  rewrite get_set_eq. split.
  - eexists. split; [reflexivity |].
    destruct (AgentState.currentTask st) as [c |] eqn:Hc.
    + destruct (String.eqb c taskId) eqn:E.
      * apply String.eqb_eq in E. subst c. cbn.
        repeat split; intros; trivial; congruence.
      * apply String.eqb_neq in E. cbn.
        repeat split; intros; trivial; congruence.
    + cbn. repeat split; intros; trivial; discriminate.
  - intros k Hk. apply get_set_ne. congruence.
Qed.

(** ** Collaboration links *)

Lemma includes_In (l : list string) (x : string) :
  includes l x = true <-> In x l.
Proof.
  unfold includes. rewrite existsb_exists. split.
  - intros (y & Hy & E). apply String.eqb_eq in E. now subst.
  - intros H. exists x. split; [exact H | apply String.eqb_refl].
Qed.

Lemma linked_add_mono (a b x y : string) (o : Orchestrator) :
  linked a b o -> linked a b (addCollaborationLink x y o).
Proof.
  intros (l & Hl & Hin). unfold linked, addCollaborationLink.
  cbn [collaborationGraph set_collaborationGraph]. rewrite get_set.
  destruct (String.eqb a x) eqn:E.
  - apply String.eqb_eq in E. subst x. rewrite Hl. eexists.
    split; [reflexivity |].
    destruct (includes l y); [exact Hin | apply in_or_app; now left].
  - now exists l.
Qed.

Lemma linked_add_inv (a b x y : string) (o : Orchestrator) :
  linked a b (addCollaborationLink x y o) ->
  linked a b o \/ (a = x /\ b = y).
Proof.
  unfold linked, addCollaborationLink.
  cbn [collaborationGraph set_collaborationGraph]. rewrite get_set.
  destruct (String.eqb a x) eqn:E.
  - apply String.eqb_eq in E. subst x. intros (l & [= <-] & Hin).
    destruct (JsMap.get a (collaborationGraph o)) as [l0 |].
    + destruct (includes l0 y); [left; now exists l0 |].
      apply in_app_or in Hin. destruct Hin as [Hin | [<- | []]].
      * left. now exists l0.
      * now right.
    + simpl in Hin. destruct Hin as [<- | []]. now right.
  - intros H. now left.
Qed.

Lemma link_loop (pairs : list (string * string)) (o : Orchestrator) :
  let body := fun p : string * string =>
    modify (addCollaborationLink (fst p) (snd p)) ;;
    modify (addCollaborationLink (snd p) (fst p)) in
  let o' := exec (for_each pairs body) o in
  outcome (for_each pairs body) o = inl tt
  /\ (forall a b, In (a, b) pairs -> linked a b o' /\ linked b a o')
  /\ (forall a b, linked a b o -> linked a b o')
  /\ (forall a b, linked a b o' ->
        linked a b o \/ In (a, b) pairs \/ In (b, a) pairs)
  /\ agents o' = agents o /\ agentStates o' = agentStates o
  /\ tasks o' = tasks o /\ messageQueue o' = messageQueue o.
Proof.
  intros body. revert o. induction pairs as [| [x y] pairs IH]; intros o.
  - cbn. split; [reflexivity |]. split; [intros a b [] |].
    split; [auto |]. split; [auto |]. repeat split.
  - cbn zeta.
    assert (Hstep : for_each ((x, y) :: pairs) body o
                    = for_each pairs body
                        (addCollaborationLink y x (addCollaborationLink x y o)))
      by reflexivity.
    unfold exec, outcome. rewrite Hstep.
    set (o1 := addCollaborationLink y x (addCollaborationLink x y o)).
    destruct (IH o1) as (Hout & Hall & Hmono & Hinv & Hag & Hst & Htk & Hmq).
    unfold exec, outcome in *. split; [exact Hout |].
    split.
    { intros a b [[= <- <-] | Hin]; [| now apply Hall].
      split; apply Hmono; subst o1.
      - apply linked_add_mono, linked_after_link.
      - apply linked_after_link. }
    split.
    { intros a b H. apply Hmono. subst o1. now do 2 apply linked_add_mono. }
    split.
    { intros a b H. destruct (Hinv a b H) as [H1 | [H1 | H1]].
      - subst o1. apply linked_add_inv in H1. destruct H1 as [H1 | [-> ->]].
        + apply linked_add_inv in H1. destruct H1 as [H1 | [-> ->]].
          * now left.
          * right. left. now left.
        + right. right. now left.
      - right. left. now right.
      - right. right. now right. }
    rewrite Hag, Hst, Htk, Hmq. subst o1. repeat split.
Qed.

Lemma link_pairs_In (l1 l2 l3 : list string) (a b : string) :
  In (a, b) (link_pairs (l1 ++ a :: l2 ++ b :: l3)).
Proof.
  induction l1 as [| x l1 IH]; simpl.
  - apply in_or_app. left. apply in_map. apply in_or_app. right. now left.
  - apply in_or_app. right. exact IH.
Qed.

Lemma link_pairs_members (l : list string) (a b : string) :
  In (a, b) (link_pairs l) -> In a l /\ In b l.
Proof.
  induction l as [| x l IH]; simpl; [tauto |].
  intros H. apply in_app_or in H. destruct H as [H | H].
  - apply in_map_iff in H. destruct H as (y & [= <- <-] & Hy). auto.
  - destruct (IH H). auto.
Qed.

(** X6.  [createCollaboration] checks every listed agent before it writes a
    link: if some listed id is not registered the call throws "Agent ... not
    found" for the first such id and changes nothing.  Otherwise it returns
    the collaboration id, and any two agents at different positions of the
    list are collaborators of each other afterwards; links that existed
    stay, every new link joins two listed agents, and agents, agent states,
    tasks and the message queue are untouched. *)
Theorem createCollaboration_links_every_pair
    (agentIds : list string) (collaborationId : string) (o : Orchestrator) :
  let o' := exec (createCollaboration agentIds collaborationId) o in
  match List.find (fun a => negb (JsMap.has a (agents o))) agentIds with
  | Some missing =>
      createCollaboration agentIds collaborationId o
      = (o, inr (AgentNotFound missing))
  | None =>
      outcome (createCollaboration agentIds collaborationId) o
      = inl collaborationId
      /\ (forall l1 a l2 b l3, agentIds = l1 ++ a :: l2 ++ b :: l3 ->
            linked a b o' /\ linked b a o')
      /\ (forall a b, linked a b o -> linked a b o')
      /\ (forall a b, linked a b o' ->
            linked a b o \/ (In a agentIds /\ In b agentIds))
      /\ agents o' = agents o /\ agentStates o' = agentStates o
      /\ tasks o' = tasks o /\ messageQueue o' = messageQueue o
  end.
Proof.
  intros o'. subst o'.
  assert (Hrun :
    createCollaboration agentIds collaborationId o
    = match List.find (fun a => negb (JsMap.has a (agents o))) agentIds with
      | Some a => (o, inr (AgentNotFound a))
      | None =>
          match for_each (link_pairs agentIds)
                  (fun p =>
                     modify (addCollaborationLink (fst p) (snd p)) ;;
                     modify (addCollaborationLink (snd p) (fst p))) o with
          | (o1, inl _) => (o1, inl collaborationId)
          | (o1, inr e) => (o1, inr e)
          end
      end).
  { unfold createCollaboration, bind at 1, read.
    destruct (List.find _ agentIds); reflexivity. }
  unfold exec, outcome. rewrite Hrun. clear Hrun.
  destruct (List.find _ agentIds) as [missing |]; [reflexivity |].
  destruct (link_loop (link_pairs agentIds) o)
    as (Hout & Hall & Hmono & Hinv & Hag & Hst & Htk & Hmq).
  cbv zeta in *. unfold exec, outcome in *.
  destruct (for_each (link_pairs agentIds) _ o) as [o1 [[] | e]];
    [| discriminate]. cbn [fst snd] in *.
  split; [reflexivity |]. split.
  { intros l1 a l2 b l3 ->. apply Hall, link_pairs_In. }
  split; [exact Hmono |]. split; [| auto].
  intros a b H. destruct (Hinv a b H) as [H1 | [H1 | H1]]; [now left | |];
    right; apply link_pairs_members in H1; tauto.
Qed.

(** ** Removing an agent *)

Lemma cancelTask_returns taskId now (o : Orchestrator) :
  exists b, outcome (cancelTask taskId now) o = inl b.
Proof.
  unfold outcome. rewrite cancelTask_run.
  destruct (JsMap.get taskId (tasks o)); eexists; reflexivity.
Qed.

Lemma cancelTask_frame taskId now (o : Orchestrator) :
  agents (exec (cancelTask taskId now) o) = agents o
  /\ collaborationGraph (exec (cancelTask taskId now) o) = collaborationGraph o
  /\ messageQueue (exec (cancelTask taskId now) o) = messageQueue o.
Proof.
  unfold exec. rewrite cancelTask_run.
  destruct (JsMap.get taskId (tasks o)) as [task |]; [| now repeat split].
  cbv zeta. cbn [fst].
  destruct (Task.assignedAgentId task) as [a |]; [| now repeat split].
  destruct (truthy_string a); [| now repeat split].
  destruct (JsMap.get a (agentStates o)); now repeat split.
Qed.

Lemma removeAgent_run agentId now (o : Orchestrator) :
  removeAgent agentId now o
  = if negb (JsMap.has agentId (agents o)) then (o, inl false)
    else
      let o1 :=
        match JsMap.get agentId (agentStates o) with
        | Some agentState =>
            if truthy (AgentState.currentTask agentState)
            then exec (cancelTask
                         (default "" (AgentState.currentTask agentState)) now) o
            else o
        | None => o
        end in
      (set_agentStates (JsMap.delete agentId (agentStates o1))
         (set_agents (JsMap.delete agentId (agents o1))
            (set_collaborationGraph
               (map (fun e => (fst e, remove_first agentId (snd e)))
                  (JsMap.delete agentId (collaborationGraph o1))) o1)),
       inl true).
Proof.
  unfold removeAgent, bind at 1, read.
  destruct (negb _); [reflexivity |].
  destruct (JsMap.get agentId (agentStates o)) as [agentState |];
    [| reflexivity].
  destruct (truthy (AgentState.currentTask agentState)); [| reflexivity].
  cbv zeta. unfold bind at 1. unfold bind at 1.
  destruct (cancelTask_returns
              (default "" (AgentState.currentTask agentState)) now o)
    as [b Hb].
  unfold outcome in Hb. unfold exec.
  destruct (cancelTask _ now o) as [o1 r]. simpl in Hb. subst r.
  reflexivity.
Qed.

Section JsMapMore.
Context {V : Type}.
Implicit Types (m : JsMap.t V) (k : string) (v : V).

Lemma get_delete_eq m k : JsMap.get k (JsMap.delete k m) = None.
Proof.
  induction m as [| [k' v'] m IH]; simpl; [reflexivity |].
  destruct (String.eqb k k') eqn:E; [exact IH |]. simpl. now rewrite E.
Qed.

Lemma get_map_values (f : V -> V) m k :
  JsMap.get k (map (fun e => (fst e, f (snd e))) m)
  = option_map f (JsMap.get k m).
Proof.
  induction m as [| [k' v'] m IH]; simpl; [reflexivity |].
  destruct (String.eqb k k'); [reflexivity | exact IH].
Qed.

Lemma has_get m k :
  JsMap.has k m = true <-> exists v, JsMap.get k m = Some v.
Proof.
  unfold JsMap.has. destruct (JsMap.get k m) as [v |]; split;
    try discriminate; eauto. intros [v Hv]. discriminate.
Qed.

Lemma has_false m k : JsMap.has k m = false <-> JsMap.get k m = None.
Proof.
  unfold JsMap.has. destruct (JsMap.get k m); split; congruence.
Qed.
End JsMapMore.

Lemma In_remove_first (x y : string) (l : list string) :
  In y (remove_first x l) -> In y l.
Proof.
  induction l as [| z l IH]; simpl; [trivial |].
  destruct (String.eqb x z); [now right |].
  intros [H | H]; [now left | right; now apply IH].
Qed.

(** X7.  [removeAgent] returns [false] and changes nothing for an agent
    that is not registered.  For a registered agent it returns [true]; the
    agent then has no configuration, no state and no list of collaborators,
    the other configurations are untouched, no link is added, and if the
    lists of collaborators were free of duplicates the agent is nobody's
    collaborator any more.  Its current task, if it exists, is cancelled;
    every other task, the tasks waiting in the queue of the agent included,
    is left exactly as it was. *)
Theorem removeAgent_effect (agentId : string) (now : Z) (o : Orchestrator) :
  let o' := exec (removeAgent agentId now) o in
  (JsMap.has agentId (agents o) = false ->
   removeAgent agentId now o = (o, inl false))
  /\ (JsMap.has agentId (agents o) = true ->
      outcome (removeAgent agentId now) o = inl true
      /\ JsMap.get agentId (agents o') = None
      /\ getAgentStatus agentId o' = None
      /\ JsMap.get agentId (collaborationGraph o') = None
      /\ (forall k, k <> agentId ->
            JsMap.get k (agents o') = JsMap.get k (agents o))
      /\ (forall a b, linked a b o' -> linked a b o /\ a <> agentId)
      /\ (collaborators_unique o -> forall a, ~ linked a agentId o')
      /\ (forall agentState k,
            JsMap.get agentId (agentStates o) = Some agentState ->
            AgentState.currentTask agentState <> Some k ->
            getTaskStatus k o' = getTaskStatus k o)
      /\ (forall agentState c t,
            JsMap.get agentId (agentStates o) = Some agentState ->
            AgentState.currentTask agentState = Some c ->
            c <> "" ->
            JsMap.get c (tasks o) = Some t ->
            getTaskStatus c o'
            = Some (Task.with_completedAt (Some now)
                      (Task.with_status cancelled t)))).
Proof.
  intros o'. subst o'. unfold exec, outcome, getAgentStatus, getTaskStatus.
  rewrite removeAgent_run. split.
  { intros ->. reflexivity. }
  intros ->. cbn [negb]. cbv zeta. cbn [fst snd].
  set (o1 := match JsMap.get agentId (agentStates o) with
             | Some agentState => _
             | None => o
             end).
  assert (Hframe : agents o1 = agents o
                   /\ collaborationGraph o1 = collaborationGraph o).
  { subst o1. destruct (JsMap.get agentId (agentStates o)) as [st |];
      [| now split].
    destruct (truthy _); [| now split].
    destruct (cancelTask_frame (default "" (AgentState.currentTask st)) now o)
      as (H1 & H2 & _). now split. }
  destruct Hframe as [Hag Hg].
  cbn [agents agentStates tasks collaborationGraph set_agents set_agentStates
       set_collaborationGraph].
  rewrite Hag, Hg. rewrite !get_delete_eq.
  rewrite get_map_values, get_delete_eq.
  split; [reflexivity |]. split; [reflexivity |]. split; [reflexivity |].
  split; [reflexivity |]. split.
  { intros k Hk. now apply get_delete_ne. }
  assert (Hlink : forall a b,
            linked a b
              (set_agentStates (JsMap.delete agentId (agentStates o1))
                 (set_agents (JsMap.delete agentId (agents o))
                    (set_collaborationGraph
                       (map (fun e => (fst e, remove_first agentId (snd e)))
                          (JsMap.delete agentId (collaborationGraph o))) o1)))
            -> a <> agentId
               /\ exists l0, JsMap.get a (collaborationGraph o) = Some l0
                             /\ In b (remove_first agentId l0)).
  { intros a b (l & Hl & Hin).
    cbn [collaborationGraph set_agentStates set_agents set_collaborationGraph]
      in Hl.
    rewrite get_map_values in Hl.
    destruct (String.eqb a agentId) eqn:E.
    - apply String.eqb_eq in E. subst a. rewrite get_delete_eq in Hl.
      discriminate.
    - apply String.eqb_neq in E. rewrite get_delete_ne in Hl by exact E.
      split; [exact E |].
      destruct (JsMap.get a (collaborationGraph o)) as [l0 |];
        [| discriminate].
      simpl in Hl. injection Hl as <-. now exists l0. }
  split.
  { intros a b H. destruct (Hlink a b H) as (Hne & l0 & Hl0 & Hin).
    split; [| exact Hne]. exists l0. split; [exact Hl0 |].
    now apply In_remove_first in Hin. }
  split.
  { intros Huniq a H. destruct (Hlink a agentId H) as (Hne & l0 & Hl0 & Hin).
    apply (remove_first_NoDup agentId l0); [| exact Hin].
    apply (Huniq a l0). now apply get_In. }
  split.
  - intros agentState k Hstate Hcur. subst o1. rewrite Hstate.
    destruct (AgentState.currentTask agentState) as [c |] eqn:Hc;
      [| reflexivity].
    cbn [truthy default]. unfold id.
    destruct (truthy_string c); [| reflexivity].
    fold (exec (cancelTask c now) o). rewrite cancelTask_tasks.
    destruct (JsMap.get c (tasks o)); [| reflexivity].
    apply get_set_ne. congruence.
  - intros agentState c t Hstate Hcur Hne Ht. subst o1.
    rewrite Hstate, Hcur. cbn [truthy default]. unfold id.
    apply truthy_string_ne in Hne. rewrite Hne.
    fold (exec (cancelTask c now) o). rewrite cancelTask_tasks, Ht.
    apply get_set_eq.
Qed.

(** ** The orchestrator stays consistent *)

Lemma tasks_kept_refl (o : Orchestrator) : tasks_kept o o.
Proof. intros k H. exact H. Qed.

Lemma tasks_kept_trans (a b c : Orchestrator) :
  tasks_kept a b -> tasks_kept b c -> tasks_kept a c.
Proof. unfold tasks_kept. auto. Qed.

Lemma tasks_kept_same (o o' : Orchestrator) :
  tasks o' = tasks o -> tasks_kept o o'.
Proof. intros H k. now rewrite H. Qed.

Lemma tasks_kept_set (o o' : Orchestrator) k t :
  tasks o' = JsMap.set k t (tasks o) -> tasks_kept o o'.
Proof. intros H k0 Hk0. rewrite H. now apply has_set. Qed.

Lemma consistent_same (o o' : Orchestrator) :
  agents o' = agents o -> agentStates o' = agentStates o ->
  collaborationGraph o' = collaborationGraph o -> tasks_kept o o' ->
  keeps consistent o o'.
Proof.
  intros Hag Hst Hg Hkept (Hkeys & Hnd & Hreg & Hq & Hu & Hr).
  unfold consistent, queues_name_tasks, collaborators_unique,
    collaborators_registered.
  rewrite Hag, Hst, Hg.
  split; [exact Hkeys |]. split; [exact Hnd |]. split; [exact Hreg |].
  split; [| split; [exact Hu | exact Hr]].
  intros id a Hin t Ht. apply Hkept. now apply (Hq id a).
Qed.

(** Writing back the state of a registered agent: same id and capabilities,
    and a queue made of old entries and of tasks that exist. *)
Lemma consistent_update (o o' : Orchestrator) k a a' :
  agents o' = agents o ->
  collaborationGraph o' = collaborationGraph o ->
  tasks_kept o o' ->
  JsMap.get k (agentStates o) = Some a ->
  agentStates o' = JsMap.set k a' (agentStates o) ->
  AgentState.id a' = AgentState.id a ->
  AgentState.capabilities a' = AgentState.capabilities a ->
  (forall t, In t (AgentState.taskQueue a') ->
     In t (AgentState.taskQueue a) \/ JsMap.has t (tasks o') = true) ->
  keeps consistent o o'.
Proof.
  intros Hag Hg Hkept Hget Hst Hid Hcaps Hqueue
    (Hkeys & Hnd & Hreg & Hq & Hu & Hr).
  unfold consistent, queues_name_tasks, collaborators_unique,
    collaborators_registered.
  rewrite Hag, Hst, Hg.
  assert (Hka : In (k, a) (JsMap.entries (agentStates o)))
    by now apply get_In.
  split; [| split; [exact Hnd | split; [| split; [| now split]]]].
  - now rewrite (keys_set_present _ k a' a Hget).
  - intros id x Hin. unfold JsMap.entries in Hin. apply In_set_inv in Hin.
    destruct Hin as [[= -> ->] | Hin]; [| now apply Hreg].
    destruct (Hreg k a Hka) as (Hida & config & Hc & Hcid & Hccaps & Hv).
    split; [congruence |]. exists config.
    split; [exact Hc |]. split; [exact Hcid |].
    split; [congruence | exact Hv].
  - intros id x Hin t Ht. unfold JsMap.entries in Hin.
    apply In_set_inv in Hin. destruct Hin as [[= -> ->] | Hin].
    + destruct (Hqueue t Ht) as [Hold | Hnew]; [| exact Hnew].
      apply Hkept. now apply (Hq k a).
    + apply Hkept. now apply (Hq id x).
Qed.

Lemma consistent_link (a b : string) (o : Orchestrator) :
  JsMap.has b (agents o) = true ->
  keeps consistent o (addCollaborationLink a b o).
Proof.
  intros Hb (Hkeys & Hnd & Hreg & Hq & Hu & Hr).
  split; [exact Hkeys |]. split; [exact Hnd |]. split; [exact Hreg |].
  split; [exact Hq |]. split.
  - intros x l Hin. unfold addCollaborationLink, JsMap.entries in Hin.
    cbn [collaborationGraph set_collaborationGraph] in Hin.
    apply In_set_inv in Hin. destruct Hin as [[= -> ->] | Hin];
      [| now apply (Hu x l)].
    destruct (JsMap.get a (collaborationGraph o)) as [l0 |] eqn:Hl0.
    + assert (Hnd0 : List.NoDup l0) by (apply (Hu a l0); now apply get_In).
      destruct (includes l0 b) eqn:E; [exact Hnd0 |].
      apply List.NoDup_app; [exact Hnd0 | repeat constructor; simpl; tauto |].
      intros x Hx [<- | []]. apply includes_In in Hx. congruence.
    + simpl. repeat constructor. simpl. tauto.
  - intros x l Hin c Hc. unfold addCollaborationLink, JsMap.entries in Hin.
    cbn [collaborationGraph set_collaborationGraph] in Hin.
    change (agents (addCollaborationLink a b o)) with (agents o).
    apply In_set_inv in Hin. destruct Hin as [[= -> ->] | Hin];
      [| now apply (Hr x l)].
    destruct (JsMap.get a (collaborationGraph o)) as [l0 |] eqn:Hl0.
    + assert (Hr0 : forall c, In c l0 -> JsMap.has c (agents o) = true)
        by (apply (Hr a l0); now apply get_In).
      destruct (includes l0 b); [now apply Hr0 |].
      apply in_app_or in Hc. destruct Hc as [Hc | [<- | []]];
        [now apply Hr0 | exact Hb].
    + simpl in Hc. destruct Hc as [<- | []]. exact Hb.
Qed.

Create HintDb consistency.

Ltac keep_consistent :=
  walk (keeps_refl consistent) (keeps_trans consistent)
    ltac:(try solve
            [ auto with consistency
            | let o := fresh "o" in
              intros o; apply consistent_same;
              [reflexivity | reflexivity | reflexivity
              | first [ apply tasks_kept_same; reflexivity
                      | eapply tasks_kept_set; reflexivity ] ] ]).

Lemma findBestAgent_consistent task :
  preserves (keeps consistent) (findBestAgent task).
Proof. intros o. rewrite findBestAgent_pure. apply keeps_refl. Qed.

Lemma resolveAgent_consistent task agentId :
  preserves (keeps consistent) (resolveAgent task agentId).
Proof. intros o. rewrite resolveAgent_pure. apply keeps_refl. Qed.

#[local] Hint Resolve findBestAgent_consistent resolveAgent_consistent
  : consistency.

Lemma createTask_consistent taskConfig taskId now :
  preserves (keeps consistent) (createTask taskConfig taskId now).
Proof. unfold createTask. keep_consistent. Qed.

Lemma link_loop_consistent (pairs : list (string * string))
    (o : Orchestrator) :
  (forall a b, In (a, b) pairs ->
     JsMap.has a (agents o) = true /\ JsMap.has b (agents o) = true) ->
  keeps consistent o
    (exec (for_each pairs
             (fun p =>
                modify (addCollaborationLink (fst p) (snd p)) ;;
                modify (addCollaborationLink (snd p) (fst p)))) o).
Proof.
  revert o. induction pairs as [| [x y] pairs IH]; intros o Hreg.
  - apply keeps_refl.
  - destruct (Hreg x y (or_introl eq_refl)) as [Hx Hy].
    change (keeps consistent o
              (exec (for_each pairs
                       (fun p =>
                          modify (addCollaborationLink (fst p) (snd p)) ;;
                          modify (addCollaborationLink (snd p) (fst p))))
                 (addCollaborationLink y x (addCollaborationLink x y o)))).
    eapply keeps_trans; [now apply (consistent_link x y) |].
    eapply keeps_trans; [now apply (consistent_link y x) |].
    apply IH. intros a b Hin. apply Hreg. now right.
Qed.

Lemma createCollaboration_consistent agentIds collaborationId :
  preserves (keeps consistent) (createCollaboration agentIds collaborationId).
Proof.
  unfold createCollaboration. apply preserves_read. intros o.
  destruct (List.find _ agentIds) eqn:Hfind; [apply keeps_refl |].
  apply reach_bind; [| intros _ s Hs; exact Hs].
  apply link_loop_consistent. intros a b Hin.
  apply link_pairs_members in Hin. destruct Hin as [Ha Hb].
  pose proof (find_none _ _ Hfind) as Hall.
  split; [apply (Hall a) in Ha | apply (Hall b) in Hb];
    now apply negb_false_iff.
Qed.

#[local] Hint Resolve createTask_consistent createCollaboration_consistent
  : consistency.

Lemma assignTask_consistent taskId agentId :
  preserves (keeps consistent) (assignTask taskId agentId).
Proof.
  intros o. unfold exec. rewrite assignTask_run.
  destruct (JsMap.get taskId (tasks o)) as [task |] eqn:Hget;
    [| apply keeps_refl].
  destruct (negb _); [apply keeps_refl |].
  destruct (outcome (resolveAgent task agentId) o) as [agent | e];
    [| apply keeps_refl].
  destruct (JsMap.get agent (agentStates o)) as [st |] eqn:Hst;
    [| apply keeps_refl].
  destruct (0 <? _)%nat; [apply keeps_refl |]. cbn [fst].
  eapply (consistent_update o _ agent st); try reflexivity.
  - eapply tasks_kept_set. reflexivity.
  - exact Hst.
  - intros t Ht. cbn in Ht. apply in_app_or in Ht.
    destruct Ht as [Ht | [<- | []]]; [now left |]. right.
    cbn [tasks set_agentStates set_tasks]. apply has_get. eexists.
    apply get_set_eq.
Qed.

Lemma executeTask_consistent strategies taskId clock :
  preserves (keeps consistent) (executeTask strategies taskId clock).
Proof.
  intros o.
  destruct (JsMap.get taskId (tasks o)) as [task |] eqn:Hget.
  2: { unfold executeTask, exec, bind, read. cbv beta iota. rewrite Hget.
       apply keeps_refl. }
  destruct (Task.assignedAgentId task) as [agentId |] eqn:Hassigned.
  2: { unfold executeTask, exec, bind, read. cbv beta iota.
       rewrite Hget, Hassigned. apply keeps_refl. }
  destruct (truthy_string agentId) eqn:Htruthy.
  2: { unfold executeTask, exec, bind, read. cbv beta iota.
       rewrite Hget, Hassigned. cbn [truthy]. rewrite Htruthy.
       apply keeps_refl. }
  apply truthy_string_ne in Htruthy.
  destruct (JsMap.get agentId (agentStates o)) as [agentState |] eqn:Hstate.
  2: { unfold executeTask, exec, bind, read. cbv beta iota.
       rewrite Hget, Hassigned. cbn [truthy default]. unfold id.
       apply truthy_string_ne in Htruthy. rewrite Htruthy. cbn [negb].
       rewrite Hstate. apply keeps_refl. }
  unfold exec.
  rewrite (executeTask_run strategies o taskId clock task agentId agentState
             Hget Hassigned Htruthy Hstate).
  cbv zeta.
  set (o1 := set_agentStates
               (JsMap.set agentId (agent_started taskId agentState)
                  (agentStates o))
               (set_tasks
                  (JsMap.set taskId (task_started clock task) (tasks o)) o)).
  assert (H1 : keeps consistent o o1).
  { apply (consistent_update o o1 agentId agentState
             (agent_started taskId agentState)); try reflexivity.
    - eapply tasks_kept_set. reflexivity.
    - exact Hstate.
    - intros t Ht. now left. }
  destruct (outcome (executeTaskByType strategies (task_started clock task)) o)
    as [r | e]; cbn [fst];
    (eapply keeps_trans; [exact H1 |]);
    eapply (consistent_update o1 _ agentId (agent_started taskId agentState));
    try reflexivity; try apply get_set_eq;
    try (eapply tasks_kept_set; reflexivity);
    intros t Ht; left; cbn in Ht |- *; now apply In_remove_first in Ht.
Qed.

Lemma cancelTask_consistent taskId now :
  preserves (keeps consistent) (cancelTask taskId now).
Proof.
  intros o. unfold exec. rewrite cancelTask_run.
  destruct (JsMap.get taskId (tasks o)) as [task |] eqn:Hget;
    [| apply keeps_refl].
  cbv zeta. cbn [fst].
  assert (H1 : keeps consistent o
                 (set_tasks
                    (JsMap.set taskId
                       (Task.with_completedAt (Some now)
                          (Task.with_status cancelled task)) (tasks o)) o)).
  { apply consistent_same; try reflexivity.
    eapply tasks_kept_set. reflexivity. }
  destruct (Task.assignedAgentId task) as [a |]; [| exact H1].
  destruct (truthy_string a); [| exact H1].
  destruct (JsMap.get a (agentStates o)) as [st |] eqn:Hst; [| exact H1].
  eapply (consistent_update o _ a st); try reflexivity.
  - eapply tasks_kept_set. reflexivity.
  - exact Hst.
  - destruct (AgentState.currentTask st) as [c |];
      [destruct (String.eqb c taskId) |]; reflexivity.
  - destruct (AgentState.currentTask st) as [c |];
      [destruct (String.eqb c taskId) |]; reflexivity.
  - intros t Ht. left.
    destruct (AgentState.currentTask st) as [c |];
      [destruct (String.eqb c taskId) |]; cbn in Ht;
      now apply In_remove_first in Ht.
Qed.

Lemma store_agentState_consistent (o : Orchestrator) k a a' :
  JsMap.get k (agentStates o) = Some a ->
  AgentState.id a' = AgentState.id a ->
  AgentState.capabilities a' = AgentState.capabilities a ->
  (forall t, In t (AgentState.taskQueue a') ->
     In t (AgentState.taskQueue a) \/ JsMap.has t (tasks o) = true) ->
  keeps consistent o (exec (store_agentState k a') o).
Proof.
  intros Hget Hid Hcaps Hq.
  apply (consistent_update o _ k a a'); trivial; try reflexivity.
  now apply tasks_kept_same.
Qed.

Lemma handleStatusUpdateMessage_consistent message now :
  preserves (keeps consistent) (handleStatusUpdateMessage message now).
Proof.
  intros o. unfold handleStatusUpdateMessage. rewrite exec_bind. unfold read.
  destruct (JsMap.get _ (agentStates o)) as [agentState |] eqn:Hstate;
    [| apply keeps_refl].
  eapply store_agentState_consistent; [exact Hstate | reflexivity ..|].
  intros t Ht. now left.
Qed.

#[local] Hint Resolve assignTask_consistent executeTask_consistent
  cancelTask_consistent handleStatusUpdateMessage_consistent : consistency.

Lemma processMessage_consistent message now :
  preserves (keeps consistent) (processMessage message now).
Proof.
  unfold processMessage, handleTaskAssignmentMessage, handleTaskResultMessage,
    handleCollaborationRequestMessage, handleErrorReportMessage, store_task.
  keep_consistent.
Qed.

#[local] Hint Resolve processMessage_consistent : consistency.

Lemma sendMessage_consistent message messageId now :
  preserves (keeps consistent) (sendMessage message messageId now).
Proof. unfold sendMessage. keep_consistent. Qed.

Lemma processPendingTasks_consistent :
  preserves (keeps consistent) processPendingTasks.
Proof. unfold processPendingTasks. keep_consistent. Qed.

Lemma processMessageQueue_consistent now :
  preserves (keeps consistent) (processMessageQueue now).
Proof. unfold processMessageQueue. keep_consistent. Qed.

Lemma handleTimeouts_consistent inp :
  preserves (keeps consistent) (handleTimeouts inp).
Proof. unfold handleTimeouts. keep_consistent. Qed.

Lemma updateAgentStates_consistent strategies inp :
  preserves (keeps consistent) (updateAgentStates strategies inp).
Proof.
  unfold updateAgentStates. apply preserves_read_all. intros o0.
  apply preserves_for_each; [apply keeps_refl | apply keeps_trans |].
  intros agentId. apply preserves_read. intros o.
  destruct (JsMap.get agentId (agentStates o)) as [state |] eqn:Hstate;
    [| apply keeps_refl].
  apply reach_bind.
  - eapply store_agentState_consistent; [exact Hstate | reflexivity ..|].
    intros t Ht. now left.
  - intros _ s Hs. eapply keeps_trans; [exact Hs |]. clear Hs. revert s.
    match goal with |- forall s, keeps _ s (exec ?m s) =>
      change (preserves (keeps consistent) m) end.
    keep_consistent.
Qed.

Lemma In_removelast {A} (x : A) (l : list A) :
  In x (List.removelast l) -> In x l.
Proof.
  induction l as [| y l IH]; simpl; [trivial |].
  destruct l as [| z l]; [intros [] |].
  intros [H | H]; [now left | right; now apply IH].
Qed.

Lemma last_In (l : list string) :
  List.last l "" <> "" -> In (List.last l "") l.
Proof.
  induction l as [| x l IH]; simpl; [congruence |].
  destruct l as [| y l]; [now left |]. intros H. right. now apply IH.
Qed.

Lemma optimizeTaskDistribution_consistent :
  preserves (keeps consistent) optimizeTaskDistribution.
Proof.
  unfold optimizeTaskDistribution. apply preserves_read. intros o Hok.
  pose proof Hok as (Hkeys & Hnd & _ & Hq & _). revert Hok.
  match goal with |- consistent _ -> consistent ?x =>
    change (keeps consistent o x) end.
  destruct (sort lighter _) as [| lightestAgent [| second rest]] eqn:Hsort;
    try apply keeps_refl.
  destruct (rev (lightestAgent :: second :: rest))
    as [| heaviestAgent others] eqn:Hrev; [apply keeps_refl |].
  assert (Hin : In heaviestAgent (JsMap.entries (agentStates o))).
  { assert (Hin : In heaviestAgent (rev (lightestAgent :: second :: rest)))
      by (rewrite Hrev; now left).
    apply in_rev in Hin. rewrite <- Hsort in Hin. apply sort_In in Hin.
    apply filter_In in Hin. apply Hin. }
  assert (Hheavy : JsMap.get (fst heaviestAgent) (agentStates o)
                   = Some (snd heaviestAgent)).
  { apply In_get; [now rewrite Hkeys |]. now destruct heaviestAgent. }
  match goal with |- context [if ?c then _ else _] => destruct c end;
    [| apply keeps_refl].
  unfold store_agentState at 1. rewrite exec_modify_bind.
  set (s1 := set_agentStates _ o).
  assert (H1 : keeps consistent o s1).
  { apply (consistent_update o s1 (fst heaviestAgent) (snd heaviestAgent)
             (AgentState.with_taskQueue
                (List.removelast (AgentState.taskQueue (snd heaviestAgent)))
                (snd heaviestAgent))); try reflexivity.
    - now apply tasks_kept_same.
    - exact Hheavy.
    - intros t Ht. left. cbn in Ht. now apply In_removelast in Ht. }
  eapply keeps_trans; [exact H1 |].
  destruct (truthy_string _) eqn:Hmove; [| apply keeps_refl].
  apply truthy_string_ne in Hmove.
  assert (Hexists : JsMap.has
                      (List.last (AgentState.taskQueue (snd heaviestAgent)) "")
                      (tasks s1) = true).
  { apply (Hq (fst heaviestAgent) (snd heaviestAgent)).
    - now destruct heaviestAgent.
    - now apply last_In. }
  rewrite exec_bind. unfold read.
  apply reach_bind.
  - destruct (JsMap.get _ (agentStates s1)) as [lightestState |] eqn:Hlight;
      [| apply keeps_refl].
    eapply store_agentState_consistent; [exact Hlight | reflexivity ..|].
    intros t Ht. cbn in Ht. apply in_app_or in Ht.
    destruct Ht as [Ht | [<- | []]]; [now left | now right].
  - intros _ s' Hs'. eapply keeps_trans; [exact Hs' |].
    destruct (JsMap.get _ (tasks s1)); [| apply keeps_refl].
    unfold store_task. intros Hc. revert Hc.
    apply consistent_same; try reflexivity.
    eapply tasks_kept_set. reflexivity.
Qed.

#[local] Hint Resolve sendMessage_consistent processPendingTasks_consistent
  processMessageQueue_consistent handleTimeouts_consistent
  updateAgentStates_consistent optimizeTaskDistribution_consistent
  : consistency.

Lemma orchestratorTick_consistent strategies inp :
  preserves (keeps consistent) (orchestratorTick strategies inp).
Proof. unfold orchestratorTick. keep_consistent. Qed.

Lemma get_None_keys {V} (m : JsMap.t V) k :
  JsMap.get k m = None <-> ~ In k (JsMap.keys m).
Proof.
  split.
  - intros Hnone Hin. apply In_keys_get in Hin. destruct Hin. congruence.
  - intros Hnotin. destruct (JsMap.get k m) as [v |] eqn:E; [| reflexivity].
    exfalso. apply Hnotin. now apply (get_In_keys m k v).
Qed.

Lemma keys_delete {V} (m : JsMap.t V) k :
  JsMap.keys (JsMap.delete k m)
  = List.filter (fun x => negb (String.eqb k x)) (JsMap.keys m).
Proof.
  induction m as [| [k' v'] m IH]; simpl; [reflexivity |].
  destruct (String.eqb k k'); simpl; [exact IH | now rewrite IH].
Qed.

Lemma NoDup_remove_first (x : string) (l : list string) :
  List.NoDup l -> List.NoDup (remove_first x l).
Proof.
  induction l as [| y l IH]; simpl; [trivial |].
  intros Hnd. inversion Hnd as [| ? ? Hnotin Hnd']; subst.
  destruct (String.eqb x y); [exact Hnd' |].
  constructor; [| now apply IH].
  intros Hin. apply Hnotin. now apply In_remove_first in Hin.
Qed.

Lemma consistent_register (o : Orchestrator) config now :
  JsMap.has (AgentConfig.id config) (agents o) = false ->
  valid_config config ->
  keeps consistent o
    (set_agentStates
       (JsMap.set (AgentConfig.id config) (initialState config now)
          (agentStates o))
       (set_agents (JsMap.set (AgentConfig.id config) config (agents o)) o)).
Proof.
  intros Hnew Hvalid (Hkeys & Hnd & Hreg & Hq & Hu & Hr).
  apply has_false in Hnew.
  assert (Hnone : JsMap.get (AgentConfig.id config) (agentStates o) = None).
  { apply get_None_keys. rewrite Hkeys. now apply get_None_keys. }
  unfold consistent, queues_name_tasks, collaborators_unique,
    collaborators_registered.
  cbn [agents agentStates tasks collaborationGraph set_agents
       set_agentStates].
  split; [| split; [| split; [| split; [| split; [exact Hu |]]]]].
  5: { intros a l Hin b Hb. apply has_set. now apply (Hr a l). }
  - rewrite !keys_set_absent by assumption. now rewrite Hkeys.
  - now apply NoDup_keys_set.
  - intros id a Hin. unfold JsMap.entries in Hin. apply In_set_inv in Hin.
    destruct Hin as [[= -> ->] | Hin].
    + split; [reflexivity |]. exists config. rewrite get_set_eq.
      repeat split; trivial. all: apply Hvalid.
    + destruct (Hreg id a Hin) as (Hid & c & Hc & Hrest).
      split; [exact Hid |]. exists c. split; [| exact Hrest].
      rewrite get_set_ne; [exact Hc |]. congruence.
  - intros id a Hin t Ht. unfold JsMap.entries in Hin.
    apply In_set_inv in Hin. destruct Hin as [[= -> ->] | Hin].
    + destruct Ht.
    + now apply (Hq id a).
Qed.

Lemma createAgent_consistent config now :
  preserves (keeps consistent) (createAgent config now).
Proof.
  intros o.
  destruct (outcome (createAgent config now) o) as [id | e] eqn:Hout.
  2: { destruct (createAgent_rejected config now o e Hout) as [-> _].
       apply keeps_refl. }
  destruct (JsMap.has (AgentConfig.id config) (agents o)) eqn:Hhas.
  { unfold createAgent, outcome, bind, read in Hout. rewrite Hhas in Hout.
    discriminate. }
  assert (Hvalid : valid_config config).
  { destruct (validateAgentConfig_run config o) as [_ Hv]. apply Hv.
    unfold createAgent, outcome, bind at 1, read in Hout.
    rewrite Hhas in Hout. unfold bind at 1 in Hout. unfold outcome.
    destruct (validateAgentConfig config o) as [o1 [[] | e]];
      [reflexivity | discriminate]. }
  unfold exec. rewrite (createAgent_run config now o Hhas Hvalid). cbn [fst].
  eapply keeps_trans; [now apply (consistent_register o config now) |].
  destruct (truthy _); [| apply keeps_refl].
  apply consistent_link. cbn [agents set_agents set_agentStates].
  apply has_get. eexists. apply get_set_eq.
Qed.

Lemma consistent_unregister (o : Orchestrator) agentId :
  keeps consistent o
    (set_agentStates (JsMap.delete agentId (agentStates o))
       (set_agents (JsMap.delete agentId (agents o))
          (set_collaborationGraph
             (map (fun e => (fst e, remove_first agentId (snd e)))
                (JsMap.delete agentId (collaborationGraph o))) o))).
Proof.
  intros (Hkeys & Hnd & Hreg & Hq & Hu & Hr).
  unfold consistent, queues_name_tasks, collaborators_unique,
    collaborators_registered.
  cbn [agents agentStates tasks collaborationGraph set_agents
       set_agentStates set_collaborationGraph].
  split; [| split; [| split; [| split; [| split]]]].
  6: { intros a l Hin b Hb. unfold JsMap.entries in Hin.
       apply in_map_iff in Hin.
       destruct Hin as ([a0 l0] & [= <- <-] & Hin0).
       apply In_delete_inv in Hin0. destruct Hin0 as [Hin0 _].
       cbn [snd] in Hb.
       assert (Hne : b <> agentId).
       { intros ->. apply (remove_first_NoDup agentId l0); [| exact Hb].
         now apply (Hu a0 l0). }
       apply has_get. rewrite get_delete_ne by exact Hne. apply has_get.
       apply (Hr a0 l0 Hin0). now apply In_remove_first in Hb. }
  - rewrite !keys_delete. now rewrite Hkeys.
  - now apply NoDup_keys_delete.
  - intros id a Hin. unfold JsMap.entries in Hin. apply In_delete_inv in Hin.
    destruct Hin as [Hin Hne]. rewrite get_delete_ne by exact Hne.
    now apply Hreg.
  - intros id a Hin t Ht. unfold JsMap.entries in Hin.
    apply In_delete_inv in Hin. destruct Hin as [Hin _].
    now apply (Hq id a).
  - intros a l Hin. unfold JsMap.entries in Hin. apply in_map_iff in Hin.
    destruct Hin as ([a0 l0] & [= <- <-] & Hin0).
    apply In_delete_inv in Hin0. destruct Hin0 as [Hin0 _].
    apply NoDup_remove_first. now apply (Hu a0 l0).
Qed.

Lemma removeAgent_consistent agentId now :
  preserves (keeps consistent) (removeAgent agentId now).
Proof.
  intros o. unfold exec. rewrite removeAgent_run.
  destruct (negb _); [apply keeps_refl |]. cbv zeta. cbn [fst].
  set (o1 := match JsMap.get agentId (agentStates o) with
             | Some agentState => _
             | None => o
             end).
  assert (H1 : keeps consistent o o1).
  { subst o1. destruct (JsMap.get agentId (agentStates o)) as [st |];
      [| apply keeps_refl].
    destruct (truthy _); [apply cancelTask_consistent | apply keeps_refl]. }
  eapply keeps_trans; [exact H1 |]. apply consistent_unregister.
Qed.

Lemma make_consistent strategies (c : Call) :
  preserves (keeps consistent) (make strategies c).
Proof.
  destruct c; simpl; try keep_consistent.
  - apply createAgent_consistent.
  - apply removeAgent_consistent.
  - apply orchestratorTick_consistent.
Qed.

(** The combinators of a method with a local variable. *)
Section Local.
Context {L : Type} (R : Orchestrator -> Orchestrator -> Prop).
Context (R_refl : forall o, R o o).
Context (R_trans : forall a b c, R a b -> R b c -> R a c).

Lemma on_fst_refl (s : Orchestrator * L) : on_fst R s s.
Proof using R_refl. apply R_refl. Qed.

Lemma on_fst_trans (a b c : Orchestrator * L) :
  on_fst R a b -> on_fst R b c -> on_fst R a c.
Proof using R_trans. unfold on_fst. apply R_trans. Qed.

Lemma preserves_with_local {A} (m : OM A) :
  preserves R m -> preserves (@on_fst L R) (with_local m).
Proof.
  intros H s. specialize (H (fst s)). unfold exec, on_fst, with_local in *.
  destruct (m (fst s)) as [o' r]. exact H.
Qed.

Lemma preserves_local_write (f : Orchestrator * L -> L) :
  preserves (@on_fst L R) (modify (fun s => (fst s, f s))).
Proof using R_refl. intros s. apply R_refl. Qed.

Lemma preserves_finally {A} (m : M (Orchestrator * L) A)
    (c : M (Orchestrator * L) unit) :
  preserves (@on_fst L R) m -> preserves (@on_fst L R) c ->
  preserves (@on_fst L R) (finally m c).
Proof using R_trans.
  intros Hm Hc s. specialize (Hm s). unfold exec, finally in *.
  destruct (m s) as [s' r]. specialize (Hc s'). unfold exec in Hc.
  destruct (c s') as [s'' [[] | e]]; cbn [fst] in *;
    eapply on_fst_trans; eassumption.
Qed.

Lemma preserves_local {A} (m : M (Orchestrator * L) A) (l0 : L) :
  preserves (@on_fst L R) m ->
  preserves R (fun o => match m (o, l0) with (s, r) => (fst s, r) end).
Proof.
  intros H o. specialize (H (o, l0)). unfold exec, on_fst in *.
  destruct (m (o, l0)) as [s r]. exact H.
Qed.
End Local.

Lemma createSubAgent_consistent parentAgentId subAgentConfig now suffix
    createdAt :
  preserves (keeps consistent)
    (createSubAgent parentAgentId subAgentConfig now suffix createdAt).
Proof.
  unfold createSubAgent. apply preserves_read_all. intros o.
  destruct (JsMap.get parentAgentId (agents o));
    [apply createAgent_consistent |].
  apply preserves_throw. apply keeps_refl.
Qed.

Lemma createSubtasks_consistent mainTaskId inputs :
  preserves (keeps consistent) (createSubtasks mainTaskId inputs).
Proof.
  induction inputs as [| i inputs IH]; simpl.
  - apply preserves_ret. apply keeps_refl.
  - apply preserves_bind; [apply keeps_trans | apply createTask_consistent |].
    intros id. apply preserves_bind; [apply keeps_trans | exact IH |].
    intros ids. apply preserves_ret. apply keeps_refl.
Qed.

#[local] Hint Resolve createSubAgent_consistent createSubtasks_consistent
  createAgent_consistent removeAgent_consistent : consistency.

Lemma createTaskWithSubtasks_consistent mainTaskConfig taskId now inputs :
  preserves (keeps consistent)
    (createTaskWithSubtasks mainTaskConfig taskId now inputs).
Proof. unfold createTaskWithSubtasks, store_task. keep_consistent. Qed.

Lemma executeTaskWithSubAgents_consistent strategies taskId subAgentConfigs
    inp :
  preserves (keeps consistent)
    (executeTaskWithSubAgents strategies taskId subAgentConfigs inp).
Proof.
  unfold executeTaskWithSubAgents. apply preserves_read_all. intros o.
  destruct (JsMap.get taskId (tasks o)) as [task |];
    [| apply preserves_throw, keeps_refl].
  destruct (negb _); [apply preserves_throw, keeps_refl |].
  apply preserves_local.
  apply preserves_finally; [apply keeps_trans | |];
    walk (@on_fst_refl (list string) _ (keeps_refl consistent))
         (@on_fst_trans (list string) _ (keeps_trans consistent))
         ltac:(first
                 [ apply preserves_with_local; solve [auto with consistency]
                 | apply preserves_local_write; apply keeps_refl ]).
Qed.

Lemma apply_op_consistent strategies (op : Op) :
  preserves (keeps consistent) (apply_op strategies op).
Proof.
  destruct op; simpl.
  - apply make_consistent.
  - keep_consistent.
  - apply preserves_bind;
      [apply keeps_trans | apply createTaskWithSubtasks_consistent |].
    intros ?. apply preserves_ret, keeps_refl.
  - apply preserves_bind;
      [apply keeps_trans | apply executeTaskWithSubAgents_consistent |].
    intros ?. apply preserves_ret, keeps_refl.
Qed.

Lemma consistent_new : consistent new_orchestrator.
Proof.
  split; [reflexivity |]. split; [constructor |].
  split; [intros id a [] |]. split; [intros id a [] |].
  split; intros a l [].
Qed.

(** Consistency is kept along operations that each run to their end before
    the next one begins. *)
Lemma consistent_reached strategies (ops : list Op) (o : Orchestrator) :
  consistent o -> consistent (run_ops strategies ops o).
Proof.
  revert o. induction ops as [| op ops IH]; intros o Hok; simpl.
  - exact Hok.
  - apply IH. now apply apply_op_consistent.
Qed.

(** ** No task is ever deleted *)

Create HintDb kept.

Ltac keep_tasks :=
  cbv zeta;
  walk tasks_kept_refl tasks_kept_trans
    ltac:(try solve
            [ auto with kept
            | let o := fresh "o" in
              intros o;
              first [ apply tasks_kept_same; reflexivity
                    | eapply tasks_kept_set; reflexivity ] ]).

Lemma findBestAgent_kept task : preserves tasks_kept (findBestAgent task).
Proof. intros o. rewrite findBestAgent_pure. apply tasks_kept_refl. Qed.

#[local] Hint Resolve findBestAgent_kept : kept.

Lemma createAgent_kept config now :
  preserves tasks_kept (createAgent config now).
Proof. unfold createAgent, validateAgentConfig. keep_tasks. Qed.

Lemma createTask_kept taskConfig taskId now :
  preserves tasks_kept (createTask taskConfig taskId now).
Proof. unfold createTask. keep_tasks. Qed.

Lemma assignTask_kept taskId agentId :
  preserves tasks_kept (assignTask taskId agentId).
Proof. unfold assignTask, resolveAgent. keep_tasks. Qed.

Lemma executeTask_kept strategies taskId clock :
  preserves tasks_kept (executeTask strategies taskId clock).
Proof.
  unfold executeTask, executeTaskByType, store_task, store_agentState.
  keep_tasks.
Qed.

Lemma cancelTask_kept taskId now :
  preserves tasks_kept (cancelTask taskId now).
Proof. unfold cancelTask, store_task, store_agentState. keep_tasks. Qed.

Lemma createCollaboration_kept agentIds collaborationId :
  preserves tasks_kept (createCollaboration agentIds collaborationId).
Proof. unfold createCollaboration. keep_tasks. Qed.

#[local] Hint Resolve createAgent_kept createTask_kept assignTask_kept
  executeTask_kept cancelTask_kept createCollaboration_kept : kept.

Lemma removeAgent_kept agentId now :
  preserves tasks_kept (removeAgent agentId now).
Proof. unfold removeAgent. keep_tasks. Qed.

Lemma processMessage_kept message now :
  preserves tasks_kept (processMessage message now).
Proof.
  unfold processMessage, handleTaskAssignmentMessage, handleTaskResultMessage,
    handleCollaborationRequestMessage, handleStatusUpdateMessage,
    handleErrorReportMessage, store_task, store_agentState.
  keep_tasks.
Qed.

#[local] Hint Resolve removeAgent_kept processMessage_kept : kept.

Lemma orchestratorTick_kept strategies inp :
  preserves tasks_kept (orchestratorTick strategies inp).
Proof.
  unfold orchestratorTick, processPendingTasks, processMessageQueue,
    updateAgentStates, handleTimeouts, optimizeTaskDistribution, store_task,
    store_agentState.
  keep_tasks.
Qed.

Lemma make_kept strategies (c : Call) :
  preserves tasks_kept (make strategies c).
Proof.
  destruct c; simpl;
    unfold sendMessage, processPendingTasks, processMessageQueue,
      updateAgentStates, handleTimeouts, optimizeTaskDistribution, store_task,
      store_agentState;
    try keep_tasks.
  apply orchestratorTick_kept.
Qed.

Lemma createSubAgent_kept parentAgentId subAgentConfig now suffix createdAt :
  preserves tasks_kept
    (createSubAgent parentAgentId subAgentConfig now suffix createdAt).
Proof. unfold createSubAgent. keep_tasks. Qed.

Lemma createSubtasks_kept mainTaskId inputs :
  preserves tasks_kept (createSubtasks mainTaskId inputs).
Proof.
  induction inputs as [| i inputs IH]; simpl.
  - apply preserves_ret, tasks_kept_refl.
  - apply preserves_bind; [apply tasks_kept_trans | apply createTask_kept |].
    intros id. apply preserves_bind; [apply tasks_kept_trans | exact IH |].
    intros ids. apply preserves_ret, tasks_kept_refl.
Qed.

#[local] Hint Resolve createSubAgent_kept createSubtasks_kept : kept.

Lemma apply_op_kept strategies (op : Op) :
  preserves tasks_kept (apply_op strategies op).
Proof.
  destruct op; simpl.
  - apply make_kept.
  - keep_tasks.
  - unfold createTaskWithSubtasks, store_task. keep_tasks.
  - apply preserves_bind; [apply tasks_kept_trans | |];
      [| intros ?; apply preserves_ret, tasks_kept_refl].
    unfold executeTaskWithSubAgents. apply preserves_read_all. intros o.
    destruct (JsMap.get taskId (tasks o)) as [task |];
      [| apply preserves_throw, tasks_kept_refl].
    destruct (negb _); [apply preserves_throw, tasks_kept_refl |].
    apply preserves_local.
    apply preserves_finally; [apply tasks_kept_trans | |];
      walk (@on_fst_refl (list string) _ tasks_kept_refl)
           (@on_fst_trans (list string) _ tasks_kept_trans)
           ltac:(first
                   [ apply preserves_with_local; solve [auto with kept]
                   | apply preserves_local_write; apply tasks_kept_refl ]).
Qed.

Lemma tasks_kept_reached strategies (ops : list Op) (o : Orchestrator) :
  tasks_kept o (run_ops strategies ops o).
Proof.
  revert o. induction ops as [| op ops IH]; intros o; simpl.
  - apply tasks_kept_refl.
  - eapply tasks_kept_trans; [apply apply_op_kept | apply IH].
Qed.

Lemma In_set_eq {V} (m : JsMap.t V) k v : In (k, v) (JsMap.set k v m).
Proof.
  induction m as [| [k' v'] m IH]; simpl; [now left |].
  destruct (String.eqb k k') eqn:E; [now left | now right].
Qed.

(** X8.  An agent removed during an execution comes back without a
    configuration.  [executeTask] holds the state of its agent while it
    waits for the strategy; when [removeAgent] has removed the agent in the
    meantime, the call, once the strategy settles, stores that state again
    under the agent's id, idle and without a current task, whatever the
    strategy gave.  The agent then has a state and no configuration:
    [findBestAgent] throws a [TypeError] for every task, so [assignTask]
    without an agent fails for every pending task, and [removeAgent] of
    that id returns [false] and leaves the state where it is. *)
Theorem settled_execution_restores_removed_agent
    (o : Orchestrator) (taskId agentId : string) (clock : Clock)
    (task : Task.t) (agentState : AgentState.t) (settled : result any) :
  Task.assignedAgentId task = Some agentId ->
  JsMap.has agentId (agents o) = false ->
  let o' :=
    exec (executeTask_settle taskId clock task agentState settled) o in
  (exists state',
     getAgentStatus agentId o' = Some state'
     /\ AgentState.status state' = idle
     /\ AgentState.currentTask state' = None)
  /\ agents o' = agents o
  /\ JsMap.has agentId (agents o') = false
  /\ (forall task',
        findBestAgent task' o'
        = (o', inr (TypeError "Cannot read properties of undefined")))
  /\ (forall t task',
        JsMap.get t (tasks o') = Some task' ->
        Task.status task' = pending ->
        outcome (assignTask t None) o'
        = inr (TypeError "Cannot read properties of undefined"))
  /\ (forall now, removeAgent agentId now o' = (o', inl false)).
Proof.
  intros Hassigned Hgone o'.
  assert (Hrun : exists state',
             AgentState.status state' = idle
             /\ AgentState.currentTask state' = None
             /\ agentStates o' = JsMap.set agentId state' (agentStates o)
             /\ agents o' = agents o).
  { unfold o', executeTask_settle, exec, bind, store_task, store_agentState,
      modify, ret, throw.
    rewrite Hassigned. cbn [default]. unfold id.
    destruct settled as [r | e];
      cbn [fst agents agentStates set_tasks set_agentStates];
      eexists; (split; [| split; [| split; reflexivity]]); reflexivity. }
  destruct Hrun as (state' & Hidle & Hcurrent & Hstates & Hagents).
  assert (Horphan : JsMap.get agentId (agents o') = None)
    by (rewrite Hagents; now apply has_false).
  assert (Hfind : forall task',
             findBestAgent task' o'
             = (o', inr (TypeError "Cannot read properties of undefined"))).
  { intros task'.
    apply (findBestAgent_orphan_throws task' o' agentId state');
      [| exact Hidle | exact Horphan].
    unfold JsMap.entries. rewrite Hstates. apply In_set_eq. }
  split.
  { exists state'. unfold getAgentStatus. rewrite Hstates, get_set_eq.
    now repeat split. }
  split; [exact Hagents |].
  split; [now rewrite Hagents |].
  split; [exact Hfind |].
  split.
  - intros t task' Hget Hpending.
    rewrite (assignTask_pending_outcome o' t None task' Hget Hpending).
    unfold resolveAgent. cbn [truthy]. rewrite outcome_bind.
    now rewrite Hfind.
  - intros now. rewrite removeAgent_run.
    now rewrite Hagents, Hgone.
Qed.

(** The agent [a1] is removed while it executes [t1].  When the strategy
    returns, [a1] has a state again and no configuration. *)
Lemma settled_execution_restores_removed_agent_witness :
  let held := Sample.held_state
                (exec (cancelTask "t1" 120) Sample.one_suspended) in
  let o := Sample.removed_meanwhile in
  let o' :=
    exec (executeTask_settle "t1" Sample.clock (Sample.held_task o) held
            (inl Sample.coding_result)) o in
  getAgentStatus "a1" o = None
  /\ (exists state',
        getAgentStatus "a1" o' = Some state'
        /\ AgentState.status state' = idle
        /\ AgentState.currentTask state' = None)
  /\ JsMap.has "a1" (agents o') = false
  /\ forall task',
       findBestAgent task' o'
       = (o', inr (TypeError "Cannot read properties of undefined")).
Proof.
  intros held o o'. split; [reflexivity |].
  destruct (settled_execution_restores_removed_agent o "t1" "a1" Sample.clock
              (Sample.held_task o) held (inl Sample.coding_result)
              eq_refl eq_refl)
    as (Hstate & _ & Hgone & Hfind & _).
  split; [exact Hstate |]. split; [exact Hgone | exact Hfind].
Defined.

(** X9.  Tasks are never deleted and queues never dangle: over any sequence
    of operations a task that exists keeps existing, and in every state
    reached from a new orchestrator each entry of each agent's task queue is
    the id of a task the orchestrator holds. *)
Theorem queues_name_existing_tasks (strategies : Strategies) (ops : list Op) :
  (forall (o : Orchestrator) taskId task,
     getTaskStatus taskId o = Some task ->
     exists task', getTaskStatus taskId (run_ops strategies ops o) = Some task')
  /\ let o := run_ops strategies ops new_orchestrator in
     forall agentId state taskId,
       getAgentStatus agentId o = Some state ->
       In taskId (AgentState.taskQueue state) ->
       exists task, getTaskStatus taskId o = Some task.
Proof.
  split.
  - intros o taskId task Hget. apply has_get.
    apply (tasks_kept_reached strategies ops o). apply has_get. eauto.
  - intros o agentId state taskId Hget Hin.
    assert (Hok : consistent o)
      by (apply consistent_reached, consistent_new).
    destruct Hok as (_ & _ & _ & Hq & _). apply has_get.
    apply (Hq agentId state); [now apply get_In | exact Hin].
Qed.

(** X10.  In every state reached from a new orchestrator by any sequence of
    operations, a list of collaborators holds no agent twice and holds
    registered agents only: when an agent is removed it leaves every list.
    (The owner of a list need not be registered: [createAgent] links a new
    agent to the parent its configuration names without looking the parent
    up.) *)
Theorem collaborators_are_registered_once
    (strategies : Strategies) (ops : list Op) :
  let o := run_ops strategies ops new_orchestrator in
  (forall a l, JsMap.get a (collaborationGraph o) = Some l -> List.NoDup l)
  /\ (forall a b, linked a b o -> JsMap.has b (agents o) = true)
  /\ forall agentId now a,
       ~ linked a agentId (exec (removeAgent agentId now) o).
Proof.
  intros o.
  assert (Hok : consistent o)
    by (apply consistent_reached, consistent_new).
  assert (Hok' : forall agentId now,
            consistent (exec (removeAgent agentId now) o)).
  { intros agentId now. now apply removeAgent_consistent. }
  destruct Hok as (_ & _ & _ & _ & Hu & Hr).
  split; [| split].
  - intros a l Hget. apply (Hu a l). now apply get_In.
  - intros a b (l & Hl & Hin). apply (Hr a l); [now apply get_In | exact Hin].
  - intros agentId now a Hlinked.
    destruct (Hok' agentId now) as (_ & _ & _ & _ & _ & Hr').
    destruct Hlinked as (l & Hl & Hin).
    assert (Hhas : JsMap.has agentId
                     (agents (exec (removeAgent agentId now) o)) = true)
      by (apply (Hr' a l); [now apply get_In | exact Hin]).
    unfold exec in Hhas. rewrite removeAgent_run in Hhas.
    destruct (JsMap.has agentId (agents o)) eqn:Hreg; cbn [negb fst] in Hhas.
    + cbv zeta in Hhas. cbn [agents set_agents set_agentStates] in Hhas.
      apply has_get in Hhas. destruct Hhas as [v Hv].
      rewrite get_delete_eq in Hv. discriminate.
    + congruence.
Qed.

Example collaborator_list_of_an_unregistered_parent :
  let o :=
    exec (createAgent
            (AgentConfig.mk "a9" "Helper" "helper" ["coding"] "You help."
               None None None (Some "ghost") low None) 0) new_orchestrator in
  linked "ghost" "a9" o /\ JsMap.has "ghost" (agents o) = false.
Proof. vm_compute. split; [| reflexivity]. eexists. split; [reflexivity |]. now left. Qed.

(** ** Draining the message queue *)

Lemma handler_frame_refl (o : Orchestrator) : handler_frame o o.
Proof. repeat split. Qed.

Lemma handler_frame_trans (a b c : Orchestrator) :
  handler_frame a b -> handler_frame b c -> handler_frame a c.
Proof.
  intros (H1 & H2 & H3) (H4 & H5 & H6). split; [congruence |].
  split; [congruence |]. intros k. now rewrite H6.
Qed.

Lemma has_set_present {V} (m : JsMap.t V) k v v0 k' :
  JsMap.get k m = Some v0 ->
  JsMap.has k' (JsMap.set k v m) = JsMap.has k' m.
Proof.
  intros Hget. unfold JsMap.has. rewrite get_set.
  destruct (String.eqb k' k) eqn:E; [| reflexivity].
  apply String.eqb_eq in E. subst. now rewrite Hget.
Qed.

Lemma assignTask_handler_frame taskId agentId :
  preserves handler_frame (assignTask taskId agentId).
Proof.
  intros o. unfold exec. rewrite assignTask_run.
  destruct (JsMap.get taskId (tasks o)) as [task |];
    [| apply handler_frame_refl].
  destruct (negb _); [apply handler_frame_refl |].
  destruct (outcome (resolveAgent task agentId) o) as [agent | e];
    [| apply handler_frame_refl].
  destruct (JsMap.get agent (agentStates o)) as [st |] eqn:Hst;
    [| apply handler_frame_refl].
  destruct (0 <? _)%nat; [apply handler_frame_refl |]. cbn [fst].
  split; [reflexivity |]. split; [reflexivity |]. intros k.
  cbn [agentStates set_agentStates set_tasks].
  now apply (has_set_present _ agent _ st).
Qed.

Lemma handleStatusUpdateMessage_handler_frame message now :
  preserves handler_frame (handleStatusUpdateMessage message now).
Proof.
  intros o. unfold handleStatusUpdateMessage. rewrite exec_bind. unfold read.
  destruct (JsMap.get _ (agentStates o)) as [agentState |] eqn:Hstate;
    [| apply handler_frame_refl].
  split; [reflexivity |]. split; [reflexivity |]. intros k.
  apply (has_set_present _ _ _ agentState). exact Hstate.
Qed.

Lemma handlers_frame (message : AgentMessage.t) (now : Z) :
  preserves handler_frame
    (match AgentMessage.type message with
     | task_assignment => handleTaskAssignmentMessage message
     | task_result => handleTaskResultMessage message
     | collaboration_request => handleCollaborationRequestMessage message
     | status_update => handleStatusUpdateMessage message now
     | error_report => handleErrorReportMessage message
     end).
Proof.
  unfold handleTaskAssignmentMessage, handleTaskResultMessage,
    handleCollaborationRequestMessage, handleErrorReportMessage,
    createCollaboration, store_task.
  walk handler_frame_refl handler_frame_trans
    ltac:(try solve
            [ apply assignTask_handler_frame
            | apply handleStatusUpdateMessage_handler_frame
            | intros ?; repeat split ]).
Qed.

(** One message: handled if it has a target, and nothing else recorded. *)
Lemma processMessage_records message now (o : Orchestrator) :
  let o' := exec (processMessage message now) o in
  messageQueue o' = messageQueue o
  /\ handled o'
     = handled o ++ (if has_target o message then [AgentMessage.id message]
                     else [])
  /\ forall k, JsMap.has k (agentStates o') = JsMap.has k (agentStates o).
Proof.
  intros o'. subst o'. unfold has_target, JsMap.has.
  destruct (JsMap.get (AgentMessage.toAgentId message) (agentStates o))
    as [target |] eqn:Htarget.
  - unfold exec. rewrite (processMessage_run o message now target Htarget).
    destruct (handlers_frame message now
                (set_handled (handled o ++ [AgentMessage.id message]) o))
      as (H1 & H2 & H3).
    split; [exact H1 |]. split; [exact H2 |]. intros k. exact (H3 k).
  - unfold processMessage, exec, bind, read. rewrite Htarget. cbn.
    rewrite app_nil_r. repeat split.
Qed.

Lemma drain_records now (queue : list AgentMessage.t) (o : Orchestrator) :
  let o' := exec (for_each queue (fun m => swallow (processMessage m now))) o in
  messageQueue o' = messageQueue o
  /\ handled o'
     = handled o ++ map AgentMessage.id (List.filter (has_target o) queue)
  /\ forall k, JsMap.has k (agentStates o') = JsMap.has k (agentStates o).
Proof.
  revert o. induction queue as [| m queue IH]; intros o; cbn zeta.
  - cbn. rewrite app_nil_r. repeat split.
  - assert (Hstep :
      exec (for_each (m :: queue) (fun m => swallow (processMessage m now))) o
      = exec (for_each queue (fun m => swallow (processMessage m now)))
          (exec (processMessage m now) o)).
    { cbn [for_each]. rewrite exec_bind_outcome.
      assert (Hnever : outcome (swallow (processMessage m now)) o = inl tt).
      { unfold swallow, outcome, try_catch, bind, ret.
        destruct (processMessage m now o) as [s [[] | e]]; reflexivity. }
      rewrite Hnever. now rewrite exec_swallow. }
    rewrite Hstep.
    destruct (processMessage_records m now o) as (H1 & H2 & H3).
    destruct (IH (exec (processMessage m now) o)) as (H4 & H5 & H6).
    cbv zeta in *. rewrite H4, H5, H1, H2.
    split; [reflexivity |]. split.
    + assert (Hsame : forall x,
                has_target (exec (processMessage m now) o) x = has_target o x)
        by (intros x; apply H3).
      rewrite (filter_ext _ _ Hsame). cbn [List.filter].
      destruct (has_target o m); cbn [map]; now rewrite <- app_assoc.
    + intros k. now rewrite H6.
Qed.

(** X11.  [processMessageQueue] never throws, whatever the handlers do, and
    leaves the queue empty.  One drain hands each queued message whose
    target agent has a state to the handler of its type exactly once, in
    queue order, and hands over no other message; the set of agents with a
    state is the same afterwards. *)
Theorem processMessageQueue_drains_in_order (now : Z) (o : Orchestrator) :
  let o' := exec (processMessageQueue now) o in
  outcome (processMessageQueue now) o = inl tt
  /\ messageQueue o' = []
  /\ handled o'
     = handled o
       ++ map AgentMessage.id (List.filter (has_target o) (messageQueue o))
  /\ forall k, JsMap.has k (agentStates o') = JsMap.has k (agentStates o).
Proof.
  intros o'. split; [apply processMessageQueue_returns |].
  subst o'. unfold processMessageQueue. rewrite exec_bind. unfold read.
  rewrite exec_modify_bind.
  exact (drain_records now (messageQueue o) (set_messageQueue [] o)).
Qed.

(** ** Sub-agents are cleaned up *)

Lemma createAgent_accepted config now (o : Orchestrator) id :
  outcome (createAgent config now) o = inl id ->
  id = AgentConfig.id config
  /\ JsMap.has (AgentConfig.id config) (agents o) = false
  /\ valid_config config.
Proof.
  intros Hout.
  destruct (JsMap.has (AgentConfig.id config) (agents o)) eqn:Hhas.
  { unfold createAgent, outcome, bind, read in Hout. rewrite Hhas in Hout.
    discriminate. }
  assert (Hvalid : valid_config config).
  { destruct (validateAgentConfig_run config o) as [_ Hv]. apply Hv.
    unfold createAgent, outcome, bind at 1, read in Hout.
    rewrite Hhas in Hout. unfold bind at 1 in Hout. unfold outcome.
    destruct (validateAgentConfig config o) as [o1 [[] | e]];
      [reflexivity | discriminate]. }
  unfold outcome in Hout.
  rewrite (createAgent_run config now o Hhas Hvalid) in Hout.
  injection Hout as <-. auto.
Qed.

Section JsMapLists.
Context {V : Type}.
Implicit Types (m : JsMap.t V) (k : string) (v : V).

Lemma set_absent m k v :
  JsMap.get k m = None -> JsMap.set k v m = m ++ [(k, v)].
Proof.
  induction m as [| [k' v'] m IH]; simpl; [reflexivity |].
  destruct (String.eqb k k'); [discriminate |].
  intros H. now rewrite IH.
Qed.

Lemma delete_app m1 m2 k :
  JsMap.delete k (m1 ++ m2) = JsMap.delete k m1 ++ JsMap.delete k m2.
Proof.
  induction m1 as [| [k' v'] m1 IH]; simpl; [reflexivity |].
  destruct (String.eqb k k'); [exact IH | simpl; now rewrite IH].
Qed.

Lemma delete_absent m k : ~ In k (JsMap.keys m) -> JsMap.delete k m = m.
Proof.
  induction m as [| [k' v'] m IH]; simpl; [reflexivity |].
  intros Hnotin. destruct (String.eqb k k') eqn:E.
  - apply String.eqb_eq in E. subst. tauto.
  - rewrite IH; [reflexivity | tauto].
Qed.

Lemma get_app_None m1 m2 k :
  JsMap.get k (m1 ++ m2) = None
  <-> JsMap.get k m1 = None /\ JsMap.get k m2 = None.
Proof.
  induction m1 as [| [k' v'] m1 IH]; simpl; [tauto |].
  destruct (String.eqb k k'); [| exact IH].
  split; [discriminate | intros [H _]; discriminate].
Qed.
End JsMapLists.

(** What one round of the creation loop does to the configurations. *)
Lemma createSubAgent_agents parentAgentId subAgentConfig now suffix createdAt
    (o : Orchestrator) :
  match outcome
          (createSubAgent parentAgentId subAgentConfig now suffix createdAt) o
  with
  | inl id =>
      JsMap.get id (agents o) = None
      /\ exists config,
           agents (exec (createSubAgent parentAgentId subAgentConfig now
                           suffix createdAt) o)
           = agents o ++ [(id, config)]
  | inr _ =>
      exec (createSubAgent parentAgentId subAgentConfig now suffix createdAt) o
      = o
  end.
Proof.
  unfold createSubAgent, outcome, exec, bind, read. cbv beta iota.
  destruct (JsMap.get parentAgentId (agents o)) as [parentAgent |];
    [| reflexivity].
  set (config := subAgentConfig_of _ _ _ _).
  destruct (snd (createAgent config createdAt o)) as [id | e] eqn:Hout.
  - destruct (createAgent_accepted config createdAt o id Hout)
      as (-> & Hnew & Hvalid).
    rewrite (createAgent_run config createdAt o Hnew Hvalid). cbn [fst].
    apply has_false in Hnew. split; [exact Hnew |]. exists config.
    rewrite <- (set_absent _ _ config Hnew).
    destruct (truthy _); reflexivity.
  - now destruct (createAgent_rejected config createdAt o e Hout).
Qed.

Lemma removeAgent_agents agentId now (o : Orchestrator) :
  agents (exec (removeAgent agentId now) o) = JsMap.delete agentId (agents o)
  /\ exists b, outcome (removeAgent agentId now) o = inl b.
Proof.
  unfold exec, outcome. rewrite removeAgent_run.
  destruct (JsMap.has agentId (agents o)) eqn:Hhas; cbn [negb fst snd].
  - cbv zeta. cbn [agents set_agentStates set_agents]. split; [| eauto].
    destruct (JsMap.get agentId (agentStates o)) as [st |]; [| reflexivity].
    destruct (truthy _); [| reflexivity].
    now destruct (cancelTask_frame (default "" (AgentState.currentTask st))
                    now o) as (-> & _).
  - split; [| eauto]. symmetry. apply delete_absent.
    apply get_None_keys. now apply has_false.
Qed.

Lemma exec_finally {S A} (m : M S A) (c : M S unit) (s : S) :
  exec (finally m c) s = exec c (exec m s).
Proof.
  unfold exec, finally. destruct (m s) as [s' r]. cbn [fst].
  destruct (c s') as [s'' [[] | e]]; reflexivity.
Qed.

Lemma same_agents_walk_createCollaboration agentIds collaborationId :
  preserves (fun o o' => agents o' = agents o)
    (createCollaboration agentIds collaborationId).
Proof.
  unfold createCollaboration.
  walk (fun o : Orchestrator => eq_refl (agents o))
       (fun (a b c : Orchestrator) (H1 : agents b = agents a)
            (H2 : agents c = agents b) => eq_trans H2 H1)
       ltac:(try solve [intros ?; reflexivity]).
Qed.

Lemma same_agents_walk_executeTask strategies taskId clock :
  preserves (fun o o' => agents o' = agents o)
    (executeTask strategies taskId clock).
Proof.
  unfold executeTask, executeTaskByType, store_task, store_agentState.
  cbv zeta.
  walk (fun o : Orchestrator => eq_refl (agents o))
       (fun (a b c : Orchestrator) (H1 : agents b = agents a)
            (H2 : agents c = agents b) => eq_trans H2 H1)
       ltac:(try solve [intros ?; reflexivity]).
Qed.

Lemma creation_round (o0 : Orchestrator) parentAgentId (i : SubAgentInput)
    (s : Orchestrator * list string) :
  grown_by o0 s ->
  grown_by o0
    (exec (let* subAgentId :=
             with_local
               (createSubAgent parentAgentId (subConfig i) (subNow i)
                  (subSuffix i) (subCreatedAt i)) in
           modify (fun s => (fst s, snd s ++ [subAgentId]))) s).
Proof.
  intros (E & Hag & Hids & Hnd & Hnew).
  pose proof (createSubAgent_agents parentAgentId (subConfig i) (subNow i)
                (subSuffix i) (subCreatedAt i) (fst s)) as Hround.
  unfold exec, outcome, bind, with_local, modify in *.
  destruct (createSubAgent parentAgentId (subConfig i) (subNow i)
              (subSuffix i) (subCreatedAt i) (fst s)) as [o1 [id | e]];
    cbn [fst snd] in *.
  - destruct Hround as (Hnone & config & Hag1).
    rewrite Hag in Hnone. apply get_app_None in Hnone.
    destruct Hnone as [HnoneA HnoneE].
    assert (Hnotin : ~ In id (snd s)).
    { rewrite <- Hids. change (map fst E) with (JsMap.keys E).
      now apply get_None_keys. }
    exists (E ++ [(id, config)]). cbn [fst snd].
    split; [now rewrite Hag1, Hag, app_assoc |].
    split; [now rewrite map_app, Hids |]. split.
    + apply List.NoDup_app; [exact Hnd | repeat constructor; simpl; tauto |].
      intros x Hx [<- | []]. contradiction.
    + intros k Hk. apply in_app_or in Hk.
      destruct Hk as [Hk | [<- | []]]; [now apply Hnew | exact HnoneA].
  - subst o1. exists E. auto.
Qed.

Lemma cleanup_agents (E : list (string * AgentConfig.t))
    (A : JsMap.t AgentConfig.t) (t : string -> Z) (o : Orchestrator)
    (l : list string) :
  agents o = A ++ E ->
  List.NoDup (map fst E) ->
  (forall k, In k (map fst E) -> JsMap.get k A = None) ->
  agents
    (fst (exec (for_each (map fst E)
                  (fun subAgentId =>
                     with_local (removeAgent subAgentId (t subAgentId)) ;;
                     ret tt)) (o, l))) = A.
Proof.
  revert o. induction E as [| [k c] E IH]; intros o Hag Hnd Hnew.
  - cbn. now rewrite Hag, app_nil_r.
  - cbn [map fst for_each]. rewrite exec_bind.
    destruct (removeAgent_agents k (t k) o) as [Hdel [b Hb]].
    unfold exec, outcome, bind, with_local, ret in *. cbn [fst snd].
    destruct (removeAgent k (t k) o) as [o1 r]. cbn [fst snd] in *.
    subst r. cbn [fst].
    inversion Hnd as [| ? ? Hnotin Hnd']; subst.
    apply IH; [| exact Hnd' |].
    + rewrite Hdel, Hag, delete_app. cbn [JsMap.delete].
      rewrite String.eqb_refl.
      rewrite (delete_absent A k), (delete_absent E k); [reflexivity | |].
      * exact Hnotin.
      * apply get_None_keys. apply Hnew. now left.
    + intros k0 Hk0. apply Hnew. now right.
Qed.

Lemma with_local_grown (o0 : Orchestrator) {A} (m : OM A) :
  preserves (fun o o' => agents o' = agents o) m ->
  preserves (fun s s' : Orchestrator * list string =>
               grown_by o0 s -> grown_by o0 s') (with_local m).
Proof.
  intros Hm s (E & Hag & Hrest). specialize (Hm (fst s)).
  unfold exec, with_local in *. destruct (m (fst s)) as [o1 r].
  cbn [fst snd] in *. exists E. cbn [fst snd].
  split; [congruence | exact Hrest].
Qed.

Lemma executeTaskWithSubAgents_agents strategies taskId subAgentConfigs inp
    (o : Orchestrator) :
  agents (exec (executeTaskWithSubAgents strategies taskId subAgentConfigs inp)
            o) = agents o.
Proof.
  unfold executeTaskWithSubAgents. rewrite exec_bind. unfold read at 1.
  cbv beta iota.
  destruct (JsMap.get taskId (tasks o)) as [task |]; [| reflexivity].
  destruct (negb _); [reflexivity |]. unfold exec. cbv zeta.
  match goal with
  | |- context [finally ?B ?C (o, [])] =>
      set (body := B); set (cleanup := C)
  end.
  pose proof (exec_finally body cleanup (o, [])) as Hf. unfold exec in Hf at 1.
  destruct (finally body cleanup (o, [])) as [s r]. cbn [fst] in *. subst s.
  assert (Hbody : preserves (fun s s' : Orchestrator * list string =>
                               grown_by o s -> grown_by o s') body).
  { subst body.
    apply preserves_bind; [auto | |].
    - apply preserves_for_each; [auto | auto |]. intros i s.
      apply creation_round.
    - intros _.
      walk (fun (s : Orchestrator * list string) (H : grown_by o s) => H)
           (fun (a b c : Orchestrator * list string)
                (H1 : grown_by o a -> grown_by o b)
                (H2 : grown_by o b -> grown_by o c) (H : grown_by o a) =>
              H2 (H1 H))
           ltac:(first
                   [ apply with_local_grown;
                     first [ apply same_agents_walk_createCollaboration
                           | apply same_agents_walk_executeTask ] ]). }
  assert (Hgrown : grown_by o (exec body (o, []))).
  { apply Hbody. exists []. cbn. rewrite app_nil_r.
    repeat split; [constructor | intros k []]. }
  destruct Hgrown as (E & Hag & Hids & Hnd & Hnew).
  subst cleanup. rewrite exec_bind. unfold read at 1. cbv beta iota.
  rewrite <- Hids.
  destruct (exec body (o, [])) as [o2 l2]. cbn [fst snd] in *.
  apply (cleanup_agents E (agents o) (removedAt inp) o2 l2 Hag).
  - now rewrite Hids.
  - intros k Hk. apply Hnew. now rewrite <- Hids.
Qed.

(** X12.  [executeTaskWithSubAgents] cleans up after itself whether it
    returns or throws, and wherever it throws: after the call the registered
    configurations are exactly those registered before it, in the same order.
    In a state reached from a new orchestrator the agent states are again
    those of the same agents: no sub-agent created by the call survives
    it. *)
Theorem executeTaskWithSubAgents_removes_its_sub_agents
    (strategies : Strategies) (taskId : string)
    (subAgentConfigs : list SubAgentInput) (inp : SubAgentRun)
    (ops : list Op) :
  (forall o : Orchestrator,
     agents (exec (executeTaskWithSubAgents strategies taskId subAgentConfigs
                     inp) o) = agents o)
  /\ let o := run_ops strategies ops new_orchestrator in
     JsMap.keys
       (agentStates
          (exec (executeTaskWithSubAgents strategies taskId subAgentConfigs
                   inp) o))
     = JsMap.keys (agentStates o).
Proof.
  split; [apply executeTaskWithSubAgents_agents |].
  intros o.
  assert (Hok : consistent o)
    by (apply consistent_reached, consistent_new).
  assert (Hok' : consistent
            (exec (executeTaskWithSubAgents strategies taskId subAgentConfigs
                     inp) o))
    by now apply executeTaskWithSubAgents_consistent.
  destruct Hok as (Hkeys & _). destruct Hok' as (Hkeys' & _).
  now rewrite Hkeys', Hkeys, executeTaskWithSubAgents_agents.
Qed.

Example sub_agents_are_used_and_removed :
  let call :=
    executeTaskWithSubAgents Sample.strategies "t1"
      [mkSubAgentInput PartialAgentConfig.empty 7 "x1y2z3" 8;
       mkSubAgentInput PartialAgentConfig.empty 9 "q4r5s6" 10]
      (mkSubAgentRun "c1" Sample.clock (fun _ => 20)) in
  option_map subAgentsUsed
    (match outcome call Sample.one_assigned with
     | inl r => Some r
     | inr _ => None
     end)
  = Some ["a1_sub_7_x1y2z3"; "a1_sub_9_q4r5s6"]
  /\ JsMap.keys (agents (exec call Sample.one_assigned)) = ["a1"]
  /\ option_map Task.status (getTaskStatus "t1" (exec call Sample.one_assigned))
     = Some completed.
Proof. vm_compute. repeat split. Qed.

(** ** A task with subtasks *)

Lemma createSubtasks_run mainTaskId (inputs : list SubtaskInput)
    (o : Orchestrator) :
  createSubtasks mainTaskId inputs o
  = (set_tasks
       (fold_left
          (fun m i =>
             JsMap.set (subtaskId i)
               (task_of_config (under_parent mainTaskId (subtaskConfig i))
                  (subtaskId i) (subtaskNow i)) m)
          inputs (tasks o)) o,
     inl (map subtaskId inputs)).
Proof.
  revert o. induction inputs as [| i inputs IH]; intros o.
  - destruct o. reflexivity.
  - cbn [createSubtasks fold_left map]. unfold bind at 1.
    unfold createTask at 1, bind at 1, modify, ret. unfold bind at 1.
    rewrite IH. reflexivity.
Qed.

Lemma fold_set_other {V} (key : SubtaskInput -> string)
    (val : SubtaskInput -> V) (inputs : list SubtaskInput)
    (m : JsMap.t V) (k : string) :
  ~ In k (map key inputs) ->
  JsMap.get k (fold_left (fun m i => JsMap.set (key i) (val i) m) inputs m)
  = JsMap.get k m.
Proof.
  revert m. induction inputs as [| i inputs IH]; intros m Hnotin;
    [reflexivity |].
  cbn [fold_left]. rewrite IH by (simpl in Hnotin; tauto).
  apply get_set_ne. simpl in Hnotin. intros Heq. apply Hnotin. now left.
Qed.

Lemma fold_set_member {V} (key : SubtaskInput -> string)
    (val : SubtaskInput -> V) (inputs : list SubtaskInput)
    (m : JsMap.t V) (i : SubtaskInput) :
  List.NoDup (map key inputs) -> In i inputs ->
  JsMap.get (key i)
    (fold_left (fun m i => JsMap.set (key i) (val i) m) inputs m)
  = Some (val i).
Proof.
  revert m. induction inputs as [| j inputs IH]; intros m Hnd Hin;
    [destruct Hin |].
  cbn [fold_left map] in *. inversion Hnd as [| ? ? Hnotin Hnd']; subst.
  destruct Hin as [-> | Hin].
  - rewrite fold_set_other by exact Hnotin. apply get_set_eq.
  - now apply IH.
Qed.

(** X13.  When the generated ids are all different,
    [createTaskWithSubtasks] returns the id of the main task with the ids of
    the subtasks in the order of the configurations; the main task is stored
    as [createTask] stores it, with [subtasks] set to the ids of the
    subtasks whatever its configuration said; every subtask is stored as
    [createTask] stores it with [parentTaskId] set to the main task,
    whatever parent its configuration named; no other task and no agent is
    touched. *)
Theorem createTaskWithSubtasks_links_parent_and_children
    (mainTaskConfig : PartialTask.t) (taskId : string) (now : Z)
    (subtaskConfigs : list SubtaskInput) (o : Orchestrator) :
  List.NoDup (taskId :: map subtaskId subtaskConfigs) ->
  let call :=
    createTaskWithSubtasks mainTaskConfig taskId now subtaskConfigs in
  let o' := exec call o in
  let ids := map subtaskId subtaskConfigs in
  outcome call o = inl (taskId, ids)
  /\ getTaskStatus taskId o'
     = Some (Task.with_subtasks ids (task_of_config mainTaskConfig taskId now))
  /\ (forall i, In i subtaskConfigs ->
        exists t,
          getTaskStatus (subtaskId i) o' = Some t
          /\ t = task_of_config (under_parent taskId (subtaskConfig i))
                   (subtaskId i) (subtaskNow i)
          /\ Task.parentTaskId t = Some taskId)
  /\ (forall k, k <> taskId -> ~ In k ids ->
        getTaskStatus k o' = getTaskStatus k o)
  /\ agents o' = agents o /\ agentStates o' = agentStates o.
Proof.
  intros Hnd call o' ids. inversion Hnd as [| ? ? Hmain Hsubs]; subst.
  assert (Hrun :
    call o
    = (set_tasks
         (JsMap.set taskId
            (Task.with_subtasks ids (task_of_config mainTaskConfig taskId now))
            (fold_left
               (fun m i =>
                  JsMap.set (subtaskId i)
                    (task_of_config (under_parent taskId (subtaskConfig i))
                       (subtaskId i) (subtaskNow i)) m)
               subtaskConfigs
               (JsMap.set taskId (task_of_config mainTaskConfig taskId now)
                  (tasks o)))) o,
       inl (taskId, ids))).
  { subst call. unfold createTaskWithSubtasks, bind at 1.
    unfold createTask at 1, bind at 1, modify, ret. unfold bind at 1.
    rewrite createSubtasks_run. unfold bind at 1, read.
    cbn [tasks set_tasks].
    rewrite fold_set_other by exact Hmain. rewrite get_set_eq.
    reflexivity. }
  subst o'. unfold exec, outcome, getTaskStatus. rewrite Hrun.
  cbn [fst snd tasks agents agentStates set_tasks].
  split; [reflexivity |]. split; [apply get_set_eq |]. split.
  { intros i Hi.
    exists (task_of_config (under_parent taskId (subtaskConfig i))
              (subtaskId i) (subtaskNow i)).
    split; [| split; reflexivity].
    rewrite get_set_ne.
    - now apply (fold_set_member subtaskId
                   (fun i => task_of_config
                               (under_parent taskId (subtaskConfig i))
                               (subtaskId i) (subtaskNow i))
                   subtaskConfigs).
    - intros Heq. apply Hmain. rewrite Heq. now apply in_map. }
  split; [| now split].
  intros k Hk Hnotin. rewrite get_set_ne by congruence.
  rewrite fold_set_other by exact Hnotin. apply get_set_ne. congruence.
Qed.

Lemma createTaskWithSubtasks_links_parent_and_children_witness :
  outcome
    (createTaskWithSubtasks Sample.coding_task "t1" 1
       [mkSubtaskInput Sample.plain_testing_task "t2" 2;
        mkSubtaskInput Sample.coding_task "t3" 3]) new_orchestrator
  = inl ("t1", ["t2"; "t3"]).
Proof.
  refine (proj1
    (createTaskWithSubtasks_links_parent_and_children Sample.coding_task
       "t1" 1
       [mkSubtaskInput Sample.plain_testing_task "t2" 2;
        mkSubtaskInput Sample.coding_task "t3" 3] new_orchestrator _)).
  repeat constructor; simpl; intuition discriminate.
Defined.

(** ** System metrics *)

Lemma count_agents_by_status (l : list AgentState.t) :
  let n s :=
    count_where (fun a => AgentStatus_eqb (AgentState.status a) s) l in
  (n idle + n busy + n error + n offline = length l)%nat.
Proof.
  unfold count_where. induction l as [| a l IH]; simpl; [reflexivity |].
  destruct (AgentState.status a); simpl in *; lia.
Qed.

Lemma count_tasks_by_status (l : list Task.t) :
  let n s := count_where (fun t => TaskStatus_eqb (Task.status t) s) l in
  (n pending + n assigned + n in_progress + n completed + n failed
   + n cancelled = length l)%nat.
Proof.
  unfold count_where. induction l as [| t l IH]; simpl; [reflexivity |].
  destruct (Task.status t); simpl in *; lia.
Qed.

Lemma count_where_le {A} (p : A -> bool) (l : list A) :
  (count_where p l <= length l)%nat.
Proof. unfold count_where. apply filter_length_le. Qed.

Lemma ratio_in_unit (c n : nat) :
  (c <= n)%nat -> (0 < n)%nat ->
  (0 <= inject_Z (Z.of_nat c) / inject_Z (Z.of_nat n)
   /\ inject_Z (Z.of_nat c) / inject_Z (Z.of_nat n) <= 1)%Q.
Proof.
  intros Hle Hpos.
  assert (Hn : (0 < inject_Z (Z.of_nat n))%Q).
  { change 0%Q with (inject_Z 0). rewrite <- Zlt_Qlt. lia. }
  split.
  - apply Qle_shift_div_l; [exact Hn |]. rewrite Qmult_0_l.
    change 0%Q with (inject_Z 0). rewrite <- Zle_Qle. lia.
  - apply Qle_shift_div_r; [exact Hn |]. rewrite Qmult_1_l.
    rewrite <- Zle_Qle. lia.
Qed.

(** X14.  In the object [getSystemMetrics] returns, for every state of the
    orchestrator, the four agent counts add up to the number of agents and
    the six task counts add up to the number of tasks;
    [totalTasksCompleted] is the count of completed tasks; the success rate
    lies between 0 and 1, it is 0 when there is no task, and the average
    duration is 0 when no task has a duration. *)
Theorem getSystemMetrics_adds_up (o : Orchestrator) :
  let m := getSystemMetrics o in
  let a := SystemMetrics.of_agents m in
  let t := SystemMetrics.of_tasks m in
  let p := SystemMetrics.of_performance m in
  (SystemMetrics.agents_idle a + SystemMetrics.agents_busy a
   + SystemMetrics.agents_error a + SystemMetrics.agents_offline a
   = SystemMetrics.agents_total a)%nat
  /\ SystemMetrics.agents_total a = length (JsMap.keys (agentStates o))
  /\ (SystemMetrics.tasks_pending t + SystemMetrics.tasks_assigned t
      + SystemMetrics.tasks_in_progress t + SystemMetrics.tasks_completed t
      + SystemMetrics.tasks_failed t + SystemMetrics.tasks_cancelled t
      = SystemMetrics.tasks_total t)%nat
  /\ SystemMetrics.tasks_total t = length (JsMap.keys (tasks o))
  /\ SystemMetrics.totalTasksCompleted p = SystemMetrics.tasks_completed t
  /\ (0 <= SystemMetrics.successRate p /\ SystemMetrics.successRate p <= 1)%Q
  /\ (tasks o = [] -> SystemMetrics.successRate p = 0%Q)
  /\ ((forall task, In task (getAllTasks o) -> has_duration task = false) ->
      SystemMetrics.averageTaskDuration p = 0%Q).
Proof.
  cbv zeta. unfold getSystemMetrics. cbv zeta.
  cbn [SystemMetrics.of_agents SystemMetrics.of_tasks
       SystemMetrics.of_performance SystemMetrics.agents_idle
       SystemMetrics.agents_busy SystemMetrics.agents_error
       SystemMetrics.agents_offline SystemMetrics.agents_total
       SystemMetrics.tasks_pending SystemMetrics.tasks_assigned
       SystemMetrics.tasks_in_progress SystemMetrics.tasks_completed
       SystemMetrics.tasks_failed SystemMetrics.tasks_cancelled
       SystemMetrics.tasks_total SystemMetrics.totalTasksCompleted
       SystemMetrics.successRate SystemMetrics.averageTaskDuration].
  split; [apply count_agents_by_status |].
  split; [unfold JsMap.values, JsMap.keys; now rewrite !length_map |].
  split; [apply count_tasks_by_status |].
  split; [unfold JsMap.values, JsMap.keys; now rewrite !length_map |].
  split; [reflexivity |]. split; [| split].
  - destruct (0 <? length (JsMap.values (tasks o)))%nat eqn:E.
    + apply Nat.ltb_lt in E. apply ratio_in_unit; [| exact E].
      apply count_where_le.
    + split; [apply Qle_refl | discriminate].
  - intros ->. reflexivity.
  - intros Hnone.
    assert (Hempty : List.filter has_duration (JsMap.values (tasks o)) = []).
    { unfold getAllTasks in Hnone. induction (JsMap.values (tasks o))
        as [| task l IH]; [reflexivity |].
      simpl. rewrite (Hnone task) by now left.
      apply IH. intros t0 Ht0. apply Hnone. now right. }
    now rewrite Hempty.
Qed.

(** ** Timeouts *)

(** One round of the loop of [handleTimeouts]. *)
Lemma handleTimeouts_round (inp : Inputs) (taskId : string)
    (s : Orchestrator) :
  let round :=
    let* o := read in
    match JsMap.get taskId (tasks o) with
    | None => ret tt
    | Some task =>
        match TaskStatus_eqb (Task.status task) in_progress,
              Task.startedAt task with
        | true, Some startTime =>
            let agent :=
              match Task.assignedAgentId task with
              | Some a => JsMap.get a (agents o)
              | None => None
              end in
            let timeout :=
              match agent with
              | Some a =>
                  match AgentConfig.timeout a with
                  | Some t => if (t =? 0)%Z then 300000 else t
                  | None => 300000
                  end
              | None => 300000
              end in
            if (timeout <? tickTime inp - startTime)%Z
            then cancelTask taskId (tickTime inp) ;; ret tt
            else ret tt
        | _, _ => ret tt
        end
    end in
  outcome round s = inl tt
  /\ agents (exec round s) = agents s
  /\ tasks (exec round s)
     = match JsMap.get taskId (tasks s) with
       | Some task =>
           if timed_out s (tickTime inp) task
           then JsMap.set taskId (cancelled_at (tickTime inp) task) (tasks s)
           else tasks s
       | None => tasks s
       end.
Proof.
  cbv zeta. unfold exec, outcome, bind at 1 3 5, read. cbv beta iota.
  destruct (JsMap.get taskId (tasks s)) as [task |] eqn:Hget;
    [| repeat split].
  unfold timed_out, timeout_of.
  destruct (Task.status task) eqn:Hst; cbn [TaskStatus_eqb];
    try (repeat split; fail).
  destruct (Task.startedAt task) as [startTime |]; [| repeat split].
  assert (Hsame :
    match
      match Task.assignedAgentId task with
      | Some a => JsMap.get a (agents s)
      | None => None
      end
    with
    | Some a =>
        match AgentConfig.timeout a with
        | Some t => if (t =? 0)%Z then 300000 else t
        | None => 300000
        end
    | None => 300000
    end
    = match Task.assignedAgentId task with
      | Some a =>
          match JsMap.get a (agents s) with
          | Some config =>
              match AgentConfig.timeout config with
              | Some t => if (t =? 0)%Z then 300000 else t
              | None => 300000
              end
          | None => 300000
          end
      | None => 300000
      end).
  { destruct (Task.assignedAgentId task); reflexivity. }
  rewrite Hsame.
  match goal with |- context [if ?c then _ else _] => destruct c end;
    [| repeat split].
  destruct (cancelTask_returns taskId (tickTime inp) s) as [b Hb].
  destruct (cancelTask_frame taskId (tickTime inp) s) as (Hag & _).
  pose proof (cancelTask_tasks taskId (tickTime inp) s) as Htasks.
  unfold exec, outcome, bind, ret in *.
  destruct (cancelTask taskId (tickTime inp) s) as [s1 r]. cbn [fst snd] in *.
  subst r. cbn [fst snd]. rewrite Hget in Htasks. auto.
Qed.

Lemma timed_out_same_agents (s o : Orchestrator) now task :
  agents s = agents o -> timed_out s now task = timed_out o now task.
Proof. intros H. unfold timed_out, timeout_of. now rewrite H. Qed.

Lemma timed_out_cancelled (o : Orchestrator) now now' task :
  timed_out o now (cancelled_at now' task) = false.
Proof. reflexivity. Qed.

Lemma handleTimeouts_loop (inp : Inputs) (o0 : Orchestrator)
    (keys done : list string) (s : Orchestrator) :
  let now := tickTime inp in
  let final t := if timed_out o0 now t then cancelled_at now t else t in
  let body := fun taskId : string =>
    let* o := read in
    match JsMap.get taskId (tasks o) with
    | None => ret tt
    | Some task =>
        match TaskStatus_eqb (Task.status task) in_progress,
              Task.startedAt task with
        | true, Some startTime =>
            let agent :=
              match Task.assignedAgentId task with
              | Some a => JsMap.get a (agents o)
              | None => None
              end in
            let timeout :=
              match agent with
              | Some a =>
                  match AgentConfig.timeout a with
                  | Some t => if (t =? 0)%Z then 300000 else t
                  | None => 300000
                  end
              | None => 300000
              end in
            if (timeout <? tickTime inp - startTime)%Z
            then cancelTask taskId (tickTime inp) ;; ret tt
            else ret tt
        | _, _ => ret tt
        end
    end in
  agents s = agents o0 ->
  (forall k t, JsMap.get k (tasks o0) = Some t ->
     JsMap.get k (tasks s) = Some t \/ JsMap.get k (tasks s) = Some (final t)) ->
  (forall k t, In k done -> JsMap.get k (tasks o0) = Some t ->
     JsMap.get k (tasks s) = Some (final t)) ->
  (forall k, JsMap.get k (tasks o0) = None -> JsMap.get k (tasks s) = None) ->
  let s' := exec (for_each keys body) s in
  outcome (for_each keys body) s = inl tt
  /\ agents s' = agents o0
  /\ (forall k t, In k (done ++ keys) -> JsMap.get k (tasks o0) = Some t ->
        JsMap.get k (tasks s') = Some (final t))
  /\ (forall k, JsMap.get k (tasks o0) = None -> JsMap.get k (tasks s') = None).
Proof.
  intros now final body. revert done s.
  induction keys as [| key keys IH]; intros done s Hag Hany Hdone Hnone s'.
  - subst s'. cbn. rewrite app_nil_r. auto.
  - assert (Hround :
      outcome (body key) s = inl tt
      /\ agents (exec (body key) s) = agents s
      /\ tasks (exec (body key) s)
         = match JsMap.get key (tasks s) with
           | Some task =>
               if timed_out s (tickTime inp) task
               then JsMap.set key (cancelled_at (tickTime inp) task) (tasks s)
               else tasks s
           | None => tasks s
           end)
      by exact (handleTimeouts_round inp key s).
    destruct Hround as (Hout & Hag1 & Htasks). subst s'.
    assert (Hstep : for_each (key :: keys) body s
                    = for_each keys body (exec (body key) s)).
    { change (for_each (key :: keys) body s)
        with (bind (body key) (fun _ => for_each keys body) s).
      unfold bind at 1. unfold exec. unfold outcome in Hout.
      destruct (body key s) as [s1 r]. cbn [fst snd] in *. now subst r. }
    unfold exec, outcome. rewrite Hstep. set (s1 := exec (body key) s) in *.
    assert (Hcases : forall k t, JsMap.get k (tasks o0) = Some t ->
              (JsMap.get k (tasks s1) = Some t
               \/ JsMap.get k (tasks s1) = Some (final t))
              /\ (k = key -> JsMap.get k (tasks s1) = Some (final t))
              /\ (In k done -> JsMap.get k (tasks s1) = Some (final t))).
    { intros k t Ht. rewrite Htasks.
      destruct (JsMap.get key (tasks s)) as [x |] eqn:Hx.
      - destruct (String.eqb k key) eqn:E.
        + apply String.eqb_eq in E. subst k.
          assert (Hfinal :
            JsMap.get key
              (if timed_out s (tickTime inp) x
               then JsMap.set key (cancelled_at (tickTime inp) x) (tasks s)
               else tasks s) = Some (final t)).
          { destruct (Hany key t Ht) as [H | H]; rewrite Hx in H;
              injection H as ->.
            - rewrite (timed_out_same_agents s o0) by exact Hag. subst final.
              cbv beta. fold now.
              destruct (timed_out o0 now t); [apply get_set_eq | exact Hx].
            - subst final. cbv beta in *.
              destruct (timed_out o0 now t) eqn:Eto.
              + rewrite timed_out_cancelled. exact Hx.
              + rewrite (timed_out_same_agents s o0) by exact Hag.
                fold now. rewrite Eto. exact Hx. }
          split; [now right |]. split; [intros _; exact Hfinal |].
          intros _. exact Hfinal.
        + apply String.eqb_neq in E.
          assert (Hsame :
            JsMap.get k
              (if timed_out s (tickTime inp) x
               then JsMap.set key (cancelled_at (tickTime inp) x) (tasks s)
               else tasks s) = JsMap.get k (tasks s)).
          { destruct (timed_out s (tickTime inp) x); [| reflexivity].
            apply get_set_ne. congruence. }
          rewrite Hsame. split; [now apply Hany |].
          split; [intros ->; congruence |]. intros Hin. now apply Hdone.
      - split; [now apply Hany |]. split.
        + intros ->. destruct (Hany key t Ht) as [H | H]; congruence.
        + intros Hin. now apply Hdone. }
    assert (Hnone1 : forall k, JsMap.get k (tasks o0) = None ->
                       JsMap.get k (tasks s1) = None).
    { intros k Hk. rewrite Htasks.
      destruct (JsMap.get key (tasks s)) as [x |] eqn:Hx; [| now apply Hnone].
      destruct (timed_out s (tickTime inp) x); [| now apply Hnone].
      rewrite get_set_ne; [now apply Hnone |].
      intros ->. rewrite (Hnone k Hk) in Hx. discriminate. }
    destruct (IH (done ++ [key]) s1) as (H1 & H2 & H3 & H4).
    + now rewrite Hag1.
    + intros k t Ht. now apply Hcases.
    + intros k t Hin Ht. destruct (Hcases k t Ht) as (_ & Hkey & Hd).
      apply in_app_or in Hin.
      destruct Hin as [Hin | [Heq | []]];
        [now apply Hd | apply Hkey; now symmetry].
    + exact Hnone1.
    + unfold exec, outcome in *. split; [exact H1 |]. split; [exact H2 |].
      split; [| exact H4].
      intros k t Hin Ht. apply (H3 k t); [| exact Ht].
      rewrite <- app_assoc. exact Hin.
Qed.

(** X15.  [handleTimeouts] never throws and cancels exactly the late tasks:
    a task that is in progress, has a start time and started more than its
    timeout before the time of the pass ends as [cancelTask] leaves it,
    cancelled and completed at that time; every other task is returned
    unchanged.  The timeout is the one of the configuration of the task's
    agent, and five minutes when there is no such configuration or it sets
    no timeout or [0]; a task that started exactly its timeout ago is not
    late.  No configuration changes. *)
Theorem handleTimeouts_cancels_exactly_the_late_tasks
    (inp : Inputs) (o : Orchestrator) :
  let o' := exec (handleTimeouts inp) o in
  let now := tickTime inp in
  outcome (handleTimeouts inp) o = inl tt
  /\ agents o' = agents o
  /\ forall k,
       getTaskStatus k o'
       = option_map
           (fun t => if timed_out o now t then cancelled_at now t else t)
           (getTaskStatus k o).
Proof.
  intros o' now. subst o'. unfold handleTimeouts, getTaskStatus.
  unfold exec, outcome, bind at 1 3 5, read. cbv beta iota.
  destruct (handleTimeouts_loop inp o (JsMap.keys (tasks o)) [] o)
    as (H1 & H2 & H3 & H4); auto.
  { intros k t []. }
  cbv zeta in H1, H2, H3, H4. unfold exec, outcome in *.
  split; [exact H1 |]. split; [exact H2 |]. intros k.
  destruct (JsMap.get k (tasks o)) as [t |] eqn:Ht; cbn [option_map].
  - apply (H3 k t); [| exact Ht]. cbn [app]. now apply (get_In_keys _ k t).
  - now apply H4.
Qed.

(** ** Reading and writing the state *)

Lemma exec_read_bind {S B} (k : S -> M S B) (s : S) :
  exec (bind read k) s = exec (k s) s.
Proof. reflexivity. Qed.

Lemma run_read_bind {S B} (k : S -> M S B) (s : S) : bind read k s = k s s.
Proof. reflexivity. Qed.

Lemma run_modify_bind {S B} (f : S -> S) (k : unit -> M S B) (s : S) :
  bind (modify f) k s = k tt (f s).
Proof. reflexivity. Qed.

(** ** Pending tasks *)

Lemma only_assigns_refl (o : Orchestrator) : only_assigns o o.
Proof.
  repeat split. intros taskId.
  destruct (JsMap.get taskId (tasks o)); [now left | reflexivity].
Qed.

(** Which dependencies are completed does not change. *)
Lemma only_assigns_dependencies (a b : Orchestrator) (task : Task.t) :
  only_assigns a b ->
  checkTaskDependencies task b = checkTaskDependencies task a.
Proof.
  intros (_ & _ & _ & _ & Htasks). unfold checkTaskDependencies.
  apply filter_ext. intros depId. specialize (Htasks depId).
  destruct (JsMap.get depId (tasks a)) as [dep |].
  - destruct Htasks as [-> | (Hpending & _ & agent & ->)]; [reflexivity |].
    cbn [Task.status Task.with_status]. now rewrite Hpending.
  - now rewrite Htasks.
Qed.

Lemma only_assigns_trans (a b c : Orchestrator) :
  only_assigns a b -> only_assigns b c -> only_assigns a c.
Proof.
  intros Hab Hbc.
  pose proof (fun task => only_assigns_dependencies a b task Hab) as Hdeps.
  destruct Hab as (H1 & H2 & H3 & H4 & Hab).
  destruct Hbc as (H1' & H2' & H3' & H4' & Hbc).
  split; [congruence |]. split; [congruence |]. split; [congruence |].
  split; [congruence |].
  intros taskId. specialize (Hab taskId). specialize (Hbc taskId).
  destruct (JsMap.get taskId (tasks a)) as [task |].
  - destruct Hab as [Hab | (Hpending & Hready & agent & Hab)];
      rewrite Hab in Hbc.
    + destruct Hbc as [Hbc | (Hpending & Hready & agent & Hbc)];
        [now left |].
      right. split; [exact Hpending |]. split; [| eauto].
      now rewrite <- Hdeps.
    + destruct Hbc as [Hbc | (Hpending' & _)].
      * right. split; [exact Hpending |]. split; [exact Hready |]. eauto.
      * discriminate Hpending'.
  - now rewrite Hab in Hbc.
Qed.

Lemma assignTask_only_assigns taskId agentId :
  preserves only_assigns (assignTask taskId agentId).
Proof.
  intros o. unfold exec. rewrite assignTask_run.
  destruct (JsMap.get taskId (tasks o)) as [task |] eqn:Etask;
    [| apply only_assigns_refl].
  destruct (TaskStatus_eqb (Task.status task) pending) eqn:Estatus;
    cbn [negb]; [| apply only_assigns_refl].
  destruct (outcome (resolveAgent task agentId) o) as [agent | e];
    [| apply only_assigns_refl].
  destruct (JsMap.get agent (agentStates o)) as [agentState |] eqn:Eagent;
    [| apply only_assigns_refl].
  destruct (0 <? length (checkTaskDependencies task o))%nat eqn:Edeps;
    [apply only_assigns_refl |].
  cbn [fst]. unfold only_assigns.
  cbn [agents agentStates tasks messageQueue collaborationGraph
       set_agentStates set_tasks].
  split; [reflexivity |].
  split; [apply (keys_set_present _ _ _ _ Eagent) |].
  split; [reflexivity |]. split; [reflexivity |].
  intros k. rewrite get_set. destruct (String.eqb k taskId) eqn:E.
  - apply String.eqb_eq in E. subst k. rewrite Etask. right.
    split; [now apply TaskStatus_eqb_eq |]. split; [| eauto].
    apply Nat.ltb_ge in Edeps.
    destruct (checkTaskDependencies task o); [reflexivity |].
    cbn in Edeps. lia.
  - destruct (JsMap.get k (tasks o)); [now left | reflexivity].
Qed.

Lemma processPendingTasks_only_assigns :
  preserves only_assigns processPendingTasks.
Proof.
  unfold processPendingTasks. apply preserves_read_all. intros o0.
  apply preserves_for_each;
    [exact only_assigns_refl | exact only_assigns_trans |].
  intros task. unfold swallow.
  apply preserves_try_catch; [exact only_assigns_trans | |].
  - apply preserves_bind; [exact only_assigns_trans | |].
    + apply preserves_read_all. intros o1.
      destruct (Nat.eqb _ 0).
      * apply preserves_bind; [exact only_assigns_trans | |].
        -- apply assignTask_only_assigns.
        -- intros _. apply preserves_ret. exact only_assigns_refl.
      * apply preserves_ret. exact only_assigns_refl.
    + intros _. apply preserves_ret. exact only_assigns_refl.
  - intros _. apply preserves_ret. exact only_assigns_refl.
Qed.

(** X29.  The pass over the pending tasks assigns only tasks that are
    ready.  [processPendingTasks] never throws.  It adds and removes no
    task; every task is left as it was, or it was pending with all its
    dependencies completed and is now assigned to an agent, with no other
    field changed.  So a task that is not pending, and a pending task with
    a dependency that is missing or not completed, is left exactly as it
    was.  Configurations, the message queue and the collaboration links are
    untouched and no agent state appears or disappears. *)
Theorem processPendingTasks_assigns_only_ready_tasks (o : Orchestrator) :
  let o' := exec processPendingTasks o in
  outcome processPendingTasks o = inl tt
  /\ (forall taskId,
        match JsMap.get taskId (tasks o) with
        | None => JsMap.get taskId (tasks o') = None
        | Some task =>
            JsMap.get taskId (tasks o') = Some task
            \/ (Task.status task = pending
                /\ checkTaskDependencies task o = []
                /\ exists agent,
                     JsMap.get taskId (tasks o')
                     = Some (Task.with_status assigned
                               (Task.with_assignedAgentId (Some agent) task)))
        end)
  /\ (forall taskId task,
        JsMap.get taskId (tasks o) = Some task ->
        Task.status task <> pending \/ checkTaskDependencies task o <> [] ->
        JsMap.get taskId (tasks o') = Some task)
  /\ agents o' = agents o
  /\ JsMap.keys (agentStates o') = JsMap.keys (agentStates o)
  /\ messageQueue o' = messageQueue o
  /\ collaborationGraph o' = collaborationGraph o.
Proof.
  intros o'.
  destruct (processPendingTasks_only_assigns o) as (H1 & H2 & H3 & H4 & Htasks).
  fold o' in H1, H2, H3, H4, Htasks.
  split; [apply processPendingTasks_returns |].
  split; [exact Htasks |].
  split; [| now repeat split].
  intros taskId task Hget Hnot. specialize (Htasks taskId).
  rewrite Hget in Htasks.
  destruct Htasks as [Hsame | (Hpending & Hready & _)]; [exact Hsame |].
  destruct Hnot as [Hnot | Hnot]; contradiction.
Qed.

(** A pending task whose dependency is absent stays pending through the
    pass, although an agent is idle. *)
Example blocked_task_is_not_assigned :
  let o := exec (createAgent Sample.tester 0) Sample.blocked_task in
  option_map Task.status
    (JsMap.get "t2" (tasks (exec processPendingTasks o)))
  = Some pending.
Proof. vm_compute. reflexivity. Qed.

(** ** Load balancing *)

Section SortByLoad.
Let load (e : string * AgentState.t) : nat :=
  length (AgentState.taskQueue (snd e)).
Let lighter_or_equal (a b : string * AgentState.t) : Prop :=
  (load a <= load b)%nat.

Lemma In_sort_insert {A} (before : A -> A -> bool) (x y : A) (l : list A) :
  y = x \/ In y l -> In y (sort_insert before x l).
Proof.
  induction l as [| z l IH]; simpl.
  - intros [-> | []]. now left.
  - destruct (before z x); simpl.
    + intros [-> | [-> | H]]; [right; apply IH; now left | now left |].
      right. apply IH. now right.
    + intros [-> | H]; [now left | now right].
Qed.

Lemma In_sort {A} (before : A -> A -> bool) (y : A) (l : list A) :
  In y l -> In y (sort before l).
Proof.
  induction l as [| x l IH]; simpl; [trivial |].
  intros [-> | H]; apply In_sort_insert; [now left | right; now apply IH].
Qed.

Lemma sort_insert_by_load (x : string * AgentState.t)
    (l : list (string * AgentState.t)) :
  StronglySorted lighter_or_equal l ->
  StronglySorted lighter_or_equal (sort_insert lighter x l).
Proof.
  induction l as [| y l IH]; intros Hs; simpl.
  - constructor; constructor.
  - inversion Hs as [| ? ? Hs' Hall]; subst.
    unfold lighter at 1. fold (load y) (load x).
    destruct (load y <? load x)%nat eqn:E.
    + apply Nat.ltb_lt in E. constructor; [now apply IH |].
      apply List.Forall_forall. intros z Hz. apply sort_insert_In in Hz.
      destruct Hz as [-> | Hz].
      * unfold lighter_or_equal. lia.
      * rewrite List.Forall_forall in Hall. now apply Hall.
    + apply Nat.ltb_ge in E. constructor; [exact Hs |].
      constructor; [exact E |].
      rewrite List.Forall_forall in Hall |- *. intros z Hz.
      specialize (Hall z Hz). unfold lighter_or_equal in *. lia.
Qed.

Lemma sort_by_load (l : list (string * AgentState.t)) :
  StronglySorted lighter_or_equal (sort lighter l).
Proof.
  induction l as [| x l IH]; simpl; [constructor |].
  now apply sort_insert_by_load.
Qed.

Lemma sorted_last_is_heaviest (l : list (string * AgentState.t)) h rest :
  StronglySorted lighter_or_equal l ->
  rev l = h :: rest ->
  forall x, In x l -> lighter_or_equal x h.
Proof.
  revert h rest. induction l as [| a l IH]; intros h rest Hs Hrev x Hx;
    [destruct Hx |].
  inversion Hs as [| ? ? Hs' Hall]; subst. cbn [rev] in Hrev.
  destruct (rev l) as [| h' r'] eqn:El.
  - cbn in Hrev. injection Hrev as <- <-.
    assert (l = []) by (rewrite <- (rev_involutive l), El; reflexivity).
    subst l. destruct Hx as [<- | []]. unfold lighter_or_equal. lia.
  - cbn in Hrev. injection Hrev as <- <-.
    assert (Hh : In h' l) by (apply in_rev; rewrite El; now left).
    destruct Hx as [<- | Hx].
    + rewrite List.Forall_forall in Hall. now apply Hall.
    + now apply (IH h' r').
Qed.

(** The two ends of the sorted loads: the first is a lightest and the last
    a heaviest of the agents that are not offline. *)
Lemma ends_of_the_loads (o : Orchestrator) lightest second rest heaviest
    others :
  sort lighter
    (List.filter
       (fun e => negb (AgentStatus_eqb (AgentState.status (snd e)) offline))
       (JsMap.entries (agentStates o)))
  = lightest :: second :: rest ->
  rev (lightest :: second :: rest) = heaviest :: others ->
  In lightest (JsMap.entries (agentStates o))
  /\ In heaviest (JsMap.entries (agentStates o))
  /\ AgentState.status (snd lightest) <> offline
  /\ AgentState.status (snd heaviest) <> offline
  /\ forall agentId state,
       In (agentId, state) (JsMap.entries (agentStates o)) ->
       AgentState.status state <> offline ->
       (length (AgentState.taskQueue (snd lightest))
        <= length (AgentState.taskQueue state)
        <= length (AgentState.taskQueue (snd heaviest)))%nat.
Proof.
  intros Hsort Hrev.
  pose proof (sort_by_load
                (List.filter
                   (fun e =>
                      negb (AgentStatus_eqb (AgentState.status (snd e))
                              offline))
                   (JsMap.entries (agentStates o)))) as Hsorted.
  rewrite Hsort in Hsorted.
  assert (Hmember : forall e,
             In e (lightest :: second :: rest) ->
             In e (JsMap.entries (agentStates o))
             /\ AgentState.status (snd e) <> offline).
  { intros e He. rewrite <- Hsort in He. apply sort_In in He.
    apply filter_In in He. destruct He as [He Hon]. split; [exact He |].
    intros Hoff. rewrite Hoff in Hon. discriminate Hon. }
  assert (Hheavy : In heaviest (lightest :: second :: rest))
    by (apply in_rev; rewrite Hrev; now left).
  destruct (Hmember lightest (or_introl eq_refl)) as [Hl1 Hl2].
  destruct (Hmember heaviest Hheavy) as [Hh1 Hh2].
  split; [exact Hl1 |]. split; [exact Hh1 |]. split; [exact Hl2 |].
  split; [exact Hh2 |].
  intros agentId state Hin Hon.
  assert (Hsorted_in : In (agentId, state) (lightest :: second :: rest)).
  { rewrite <- Hsort. apply In_sort. apply filter_In. split; [exact Hin |].
    cbn [snd]. destruct (AgentState.status state); try reflexivity.
    now contradiction Hon. }
  split.
  - destruct Hsorted_in as [Heq | Hrest]; [rewrite Heq; cbn [snd]; lia |].
    inversion Hsorted as [| ? ? _ Hall].
    rewrite List.Forall_forall in Hall. exact (Hall _ Hrest).
  - exact (sorted_last_is_heaviest _ _ _ Hsorted Hrev _ Hsorted_in).
Qed.
End SortByLoad.

(** X30.  One pass of load balancing moves at most one task, from the end
    of a longest queue to the end of a shortest one.  [optimizeTaskDistribution]
    never throws.  Either it changes nothing, or among the agents that are
    not offline there are a lightest and a heaviest one whose queues differ
    in length by more than 3; then the last task of the heaviest queue is
    taken off it, is appended to the lightest queue and, if the task
    exists, is reassigned to the lightest agent with no other field
    changed; no other agent state and no other task is touched.  (An empty
    task id is taken off the heaviest queue and goes nowhere.) *)
Theorem optimizeTaskDistribution_moves_one_task (o : Orchestrator) :
  List.NoDup (JsMap.keys (agentStates o)) ->
  let o' := exec optimizeTaskDistribution o in
  outcome optimizeTaskDistribution o = inl tt
  /\ (o' = o
      \/ exists lightest heaviest lightestState heaviestState,
           JsMap.get lightest (agentStates o) = Some lightestState
           /\ JsMap.get heaviest (agentStates o) = Some heaviestState
           /\ AgentState.status lightestState <> offline
           /\ AgentState.status heaviestState <> offline
           /\ (length (AgentState.taskQueue lightestState) + 3
               < length (AgentState.taskQueue heaviestState))%nat
           /\ (forall agentId state,
                 JsMap.get agentId (agentStates o) = Some state ->
                 AgentState.status state <> offline ->
                 (length (AgentState.taskQueue lightestState)
                  <= length (AgentState.taskQueue state)
                  <= length (AgentState.taskQueue heaviestState))%nat)
           /\ let taskToMove :=
                List.last (AgentState.taskQueue heaviestState) "" in
              agents o' = agents o
              /\ messageQueue o' = messageQueue o
              /\ collaborationGraph o' = collaborationGraph o
              /\ JsMap.get heaviest (agentStates o')
                 = Some (AgentState.with_taskQueue
                           (List.removelast
                              (AgentState.taskQueue heaviestState))
                           heaviestState)
              /\ (forall agentId,
                    agentId <> lightest -> agentId <> heaviest ->
                    JsMap.get agentId (agentStates o')
                    = JsMap.get agentId (agentStates o))
              /\ (if truthy_string taskToMove
                  then
                    JsMap.get lightest (agentStates o')
                    = Some (AgentState.with_taskQueue
                              (AgentState.taskQueue lightestState
                               ++ [taskToMove])
                              lightestState)
                    /\ forall taskId,
                         JsMap.get taskId (tasks o')
                         = if String.eqb taskId taskToMove
                           then option_map
                                  (Task.with_assignedAgentId (Some lightest))
                                  (JsMap.get taskToMove (tasks o))
                           else JsMap.get taskId (tasks o)
                  else
                    JsMap.get lightest (agentStates o') = Some lightestState
                    /\ tasks o' = tasks o)).
Proof.
  intros Hnd o'. subst o'. unfold exec, outcome.
  destruct (optimizeTaskDistribution o) as [o' r] eqn:Hrun. cbn [fst snd].
  unfold optimizeTaskDistribution in Hrun. rewrite run_read_bind in Hrun.
  cbv zeta in Hrun.
  destruct (sort lighter _) as [| lightestAgent [| second rest]] eqn:Hsort;
    try (injection Hrun as <- <-; split; [reflexivity | now left]).
  destruct (rev (lightestAgent :: second :: rest))
    as [| heaviestAgent others] eqn:Hrev;
    [injection Hrun as <- <-; split; [reflexivity | now left] |].
  destruct (ends_of_the_loads o _ _ _ _ _ Hsort Hrev)
    as (Hlight_in & Hheavy_in & Hlight_on & Hheavy_on & Hends).
  destruct lightestAgent as [lightest lightestState].
  destruct heaviestAgent as [heaviest heaviestState].
  cbn [fst snd] in *.
  assert (Hlight : JsMap.get lightest (agentStates o) = Some lightestState)
    by now apply In_get.
  assert (Hheavy : JsMap.get heaviest (agentStates o) = Some heaviestState)
    by now apply In_get.
  destruct (3 <? _)%Z eqn:Eload;
    [| injection Hrun as <- <-; split; [reflexivity | now left]].
  apply Z.ltb_lt in Eload.
  assert (Hne : lightest <> heaviest).
  { intros ->. rewrite Hlight in Hheavy. injection Hheavy as ->. lia. }
  assert (Hload : (length (AgentState.taskQueue lightestState) + 3
                   < length (AgentState.taskQueue heaviestState))%nat) by lia.
  assert (Hbetween : forall agentId state,
             JsMap.get agentId (agentStates o) = Some state ->
             AgentState.status state <> offline ->
             (length (AgentState.taskQueue lightestState)
              <= length (AgentState.taskQueue state)
              <= length (AgentState.taskQueue heaviestState))%nat).
  { intros agentId state Hget. apply (Hends agentId state).
    now apply get_In. }
  unfold store_agentState at 1 in Hrun. rewrite run_modify_bind in Hrun.
  set (s1 := set_agentStates _ o) in Hrun.
  assert (Hlight1 : JsMap.get lightest (agentStates s1) = Some lightestState).
  { subst s1. cbn [agentStates set_agentStates].
    rewrite get_set_ne by congruence. exact Hlight. }
  assert (Hheavy1 : JsMap.get heaviest (agentStates s1)
                    = Some (AgentState.with_taskQueue
                              (List.removelast
                                 (AgentState.taskQueue heaviestState))
                              heaviestState))
    by apply get_set_eq.
  assert (Hothers1 : forall agentId,
             agentId <> heaviest ->
             JsMap.get agentId (agentStates s1)
             = JsMap.get agentId (agentStates o)).
  { intros agentId Hh. subst s1. cbn [agentStates set_agentStates].
    now rewrite get_set_ne by congruence. }
  destruct (truthy_string _) eqn:Emove.
  - rewrite run_read_bind in Hrun. cbv beta in Hrun.
    rewrite Hlight1 in Hrun.
    unfold store_agentState in Hrun. rewrite run_modify_bind in Hrun.
    set (s2 := set_agentStates _ s1) in Hrun.
    change (tasks s1) with (tasks o) in Hrun.
    assert (Hstates :
              JsMap.get heaviest (agentStates s2)
              = Some (AgentState.with_taskQueue
                        (List.removelast (AgentState.taskQueue heaviestState))
                        heaviestState)
              /\ JsMap.get lightest (agentStates s2)
                 = Some (AgentState.with_taskQueue
                           (AgentState.taskQueue lightestState
                            ++ [List.last (AgentState.taskQueue heaviestState)
                                  ""])
                           lightestState)
              /\ forall agentId,
                   agentId <> lightest -> agentId <> heaviest ->
                   JsMap.get agentId (agentStates s2)
                   = JsMap.get agentId (agentStates o)).
    { subst s2. cbn [agentStates set_agentStates].
      split; [rewrite get_set_ne by congruence; exact Hheavy1 |].
      split; [apply get_set_eq |].
      intros agentId Hl Hh. rewrite get_set_ne by congruence.
      now apply Hothers1. }
    destruct Hstates as (Hheavy2 & Hlight2 & Hothers2).
    destruct (JsMap.get _ (tasks o)) as [task |] eqn:Etask;
      unfold store_task, modify, ret in Hrun; injection Hrun as <- <-;
      (split; [reflexivity |]); right;
      exists lightest, heaviest, lightestState, heaviestState;
      do 6 (split; [assumption |]); cbv zeta; rewrite Emove;
      do 3 (split; [reflexivity |]);
      (split; [exact Hheavy2 |]); (split; [exact Hothers2 |]);
      (split; [exact Hlight2 |]); intros taskId; rewrite Etask.
    + cbn [tasks set_tasks option_map]. rewrite get_set.
      now destruct (String.eqb taskId _).
    + cbn [option_map]. destruct (String.eqb taskId _) eqn:E; [| reflexivity].
      apply String.eqb_eq in E. now subst taskId.
  - unfold ret in Hrun. injection Hrun as <- <-.
    split; [reflexivity |]. right.
    exists lightest, heaviest, lightestState, heaviestState.
    do 6 (split; [assumption |]). cbv zeta. rewrite Emove.
    do 3 (split; [reflexivity |]).
    split; [exact Hheavy1 |].
    split; [| split; [exact Hlight1 | reflexivity]].
    intros agentId Hl Hh. now apply Hothers1.
Qed.

Lemma optimizeTaskDistribution_moves_one_task_witness :
  let o := Sample.four_tasks_on_a1 in
  let o' := exec optimizeTaskDistribution o in
  outcome optimizeTaskDistribution o = inl tt
  /\ (o' = o
      \/ exists lightest heaviest lightestState heaviestState,
           JsMap.get lightest (agentStates o) = Some lightestState
           /\ JsMap.get heaviest (agentStates o) = Some heaviestState
           /\ AgentState.status lightestState <> offline
           /\ AgentState.status heaviestState <> offline
           /\ (length (AgentState.taskQueue lightestState) + 3
               < length (AgentState.taskQueue heaviestState))%nat
           /\ (forall agentId state,
                 JsMap.get agentId (agentStates o) = Some state ->
                 AgentState.status state <> offline ->
                 (length (AgentState.taskQueue lightestState)
                  <= length (AgentState.taskQueue state)
                  <= length (AgentState.taskQueue heaviestState))%nat)
           /\ let taskToMove :=
                List.last (AgentState.taskQueue heaviestState) "" in
              agents o' = agents o
              /\ messageQueue o' = messageQueue o
              /\ collaborationGraph o' = collaborationGraph o
              /\ JsMap.get heaviest (agentStates o')
                 = Some (AgentState.with_taskQueue
                           (List.removelast
                              (AgentState.taskQueue heaviestState))
                           heaviestState)
              /\ (forall agentId,
                    agentId <> lightest -> agentId <> heaviest ->
                    JsMap.get agentId (agentStates o')
                    = JsMap.get agentId (agentStates o))
              /\ (if truthy_string taskToMove
                  then
                    JsMap.get lightest (agentStates o')
                    = Some (AgentState.with_taskQueue
                              (AgentState.taskQueue lightestState
                               ++ [taskToMove])
                              lightestState)
                    /\ forall taskId,
                         JsMap.get taskId (tasks o')
                         = if String.eqb taskId taskToMove
                           then option_map
                                  (Task.with_assignedAgentId (Some lightest))
                                  (JsMap.get taskToMove (tasks o))
                           else JsMap.get taskId (tasks o)
                  else
                    JsMap.get lightest (agentStates o') = Some lightestState
                    /\ tasks o' = tasks o)).
Proof.
  apply (optimizeTaskDistribution_moves_one_task Sample.four_tasks_on_a1).
  vm_compute. repeat constructor; simpl; intuition discriminate.
Defined.

(** With four tasks queued on [a1] and none on [a2], one pass moves the
    last task to [a2]. *)
Example the_last_task_moves_to_the_idle_agent :
  let o' := exec optimizeTaskDistribution Sample.four_tasks_on_a1 in
  option_map AgentState.taskQueue (JsMap.get "a1" (agentStates o'))
  = Some ["t1"; "t2"; "t3"]
  /\ option_map AgentState.taskQueue (JsMap.get "a2" (agentStates o'))
     = Some ["t4"]
  /\ (JsMap.get "t4" (tasks o') ≫= Task.assignedAgentId) = Some "a2".
Proof. vm_compute. repeat split. Qed.

(** * Further properties of the resource manager *)

(** ** Pressure levels *)

Lemma for_each_call_guarded_run (l : list Callback) (r : ResourceManager) :
  for_each l call_guarded r = (set_invoked (invoked r ++ l) r, inl tt).
Proof.
  revert r. induction l as [| c l IH]; intros r.
  - cbn. rewrite app_nil_r. now destruct r.
  - cbn [for_each]. unfold bind. rewrite call_guarded_run, IH.
    cbn [invoked set_invoked]. rewrite <- app_assoc. reflexivity.
Qed.

Lemma geq_true (a b : Q) : geq a b = true <-> (b <= a)%Q.
Proof. unfold geq. apply Qle_bool_iff. Qed.

Lemma geq_false (a b : Q) : geq a b = false <-> (a < b)%Q.
Proof.
  unfold geq. split.
  - intros H. apply Qnot_le_lt. intros Hle. apply Qle_bool_iff in Hle.
    congruence.
  - intros H. destruct (Qle_bool b a) eqn:E; [| reflexivity].
    apply Qle_bool_iff in E. exfalso. now apply (Qlt_not_le a b).
Qed.

Lemma vram_handlers_do_nothing (metrics : ResourceMetrics.t)
    (th : Thresholds.t) (r : ResourceManager) :
  (if geq (ResourceMetrics.vramUtilization metrics) (Thresholds.vramCritical th)
   then handleCriticalVRAMUsage metrics
   else if geq (ResourceMetrics.vramUtilization metrics)
             (Thresholds.vramWarning th)
   then handleWarningVRAMUsage metrics
   else ret tt) r = (r, inl tt).
Proof. destruct (geq _ _); [reflexivity |]. destruct (geq _ _); reflexivity. Qed.

Lemma checkResourcePressure_run (fs : Namespace) (metrics : ResourceMetrics.t)
    (inp : DumpInputs) (r : ResourceManager) :
  checkResourcePressure fs metrics inp r
  = if geq (ResourceMetrics.ramUtilization metrics)
         (Thresholds.ramCritical (resourceThresholds r))
    then
      match emergencyDump_through fs "critical-ram-usage"
              (Some (Plain (JObj [("metrics", metrics_json metrics)])))
              inp r with
      | (r1, inl _) =>
          (set_invoked (invoked r1 ++ emergencyCallbacks r1) r1, inl tt)
      | (r1, inr e) => (r1, inr e)
      end
    else if geq (ResourceMetrics.ramUtilization metrics)
              (Thresholds.ramWarning (resourceThresholds r))
    then (set_invoked (invoked r ++ pauseCallbacks r) r, inl tt)
    else (r, inl tt).
Proof.
  unfold checkResourcePressure, bind at 1, read. cbv beta iota zeta.
  destruct (geq _ (Thresholds.ramCritical _)).
  - unfold bind at 1, handleCriticalRAMUsage, bind at 1.
    destruct (emergencyDump_through _ _ _ inp r) as [r1 [id | e]];
      [| reflexivity].
    unfold bind at 1, read. rewrite for_each_call_guarded_run.
    now rewrite vram_handlers_do_nothing.
  - destruct (geq _ (Thresholds.ramWarning _)).
    + unfold bind at 1, handleWarningRAMUsage, bind at 1, read.
      rewrite for_each_call_guarded_run.
      now rewrite vram_handlers_do_nothing.
    + unfold bind, ret. now rewrite vram_handlers_do_nothing.
Qed.

(** With [writeJson] and [writeFile] missing, [emergencyDump] throws
    whatever it is given and whatever the disk accepts: the call of
    [fs.writeJson] throws inside the [try] block, and the call of
    [fs.writeFile] throws inside the [catch] block. *)
Lemma emergencyDump_through_missing (fs : Namespace) (reason : string)
    (additionalData : option any) (inp : DumpInputs) (r : ResourceManager) :
  fs WriteJson = false ->
  fs WriteFile = false ->
  emergencyDump_through fs reason additionalData inp r
  = (r, inr (TypeError "fs.writeFile is not a function")).
Proof.
  intros Hjson Hfile.
  unfold emergencyDump_through, bind at 1, read. cbv beta iota zeta.
  unfold try_catch, bind at 1.
  rewrite fs_call_missing by exact Hjson. unfold throw at 1.
  unfold bind at 1. now rewrite fs_call_missing by exact Hfile.
Qed.

(** X16.  One check of the resource pressure, by the RAM utilization its
    sample reports.  Below the warning threshold (and below the critical
    one) the check changes nothing.  From the warning threshold up to the
    critical one it calls every pause callback once, in registration order,
    and nothing else, also when callbacks reject.  From the critical
    threshold on it attempts the emergency dump first: if the dump returns,
    every emergency callback is called once, in registration order, and no
    pause callback; if the dump throws, the check throws the same error and
    no callback at all is called.  As the repository is configured, with
    [fs.writeJson] and [fs.writeFile] missing, the dump always throws: a
    critical sample makes the check throw a [TypeError], nothing is written
    and no emergency callback is ever called.  The VRAM level has no effect
    on the state. *)
Theorem checkResourcePressure_by_level
    (fs : Namespace) (metrics : ResourceMetrics.t) (inp : DumpInputs)
    (r : ResourceManager) :
  let ram := ResourceMetrics.ramUtilization metrics in
  let th := resourceThresholds r in
  let dump :=
    emergencyDump_through fs "critical-ram-usage"
      (Some (Plain (JObj [("metrics", metrics_json metrics)]))) inp in
  ((ram < Thresholds.ramCritical th)%Q -> (ram < Thresholds.ramWarning th)%Q ->
   checkResourcePressure fs metrics inp r = (r, inl tt))
  /\ ((ram < Thresholds.ramCritical th)%Q ->
      (Thresholds.ramWarning th <= ram)%Q ->
      checkResourcePressure fs metrics inp r
      = (set_invoked (invoked r ++ pauseCallbacks r) r, inl tt))
  /\ ((Thresholds.ramCritical th <= ram)%Q ->
      match outcome dump r with
      | inl _ =>
          checkResourcePressure fs metrics inp r
          = (set_invoked (invoked r ++ emergencyCallbacks r) (exec dump r),
             inl tt)
      | inr e =>
          checkResourcePressure fs metrics inp r = (exec dump r, inr e)
          /\ invoked (exec dump r) = invoked r
      end)
  /\ ((Thresholds.ramCritical th <= ram)%Q ->
      fs WriteJson = false -> fs WriteFile = false ->
      checkResourcePressure fs metrics inp r
      = (r, inr (TypeError "fs.writeFile is not a function"))).
Proof.
  intros ram th dump.
  assert (Hframe : only_files_change r (exec dump r))
    by apply emergencyDump_through_frame.
  rewrite checkResourcePressure_run. subst ram th dump.
  split; [| split; [| split]].
  - intros Hc Hw. apply geq_false in Hc, Hw. now rewrite Hc, Hw.
  - intros Hc Hw. apply geq_false in Hc. apply geq_true in Hw.
    now rewrite Hc, Hw.
  - intros Hc. apply geq_true in Hc. rewrite Hc.
    unfold exec, outcome in *.
    destruct (emergencyDump_through _ _ _ inp r) as [r1 [id | e]];
      cbn [fst snd] in *.
    + destruct Hframe as (_ & _ & _ & _ & -> & _ & _ & _ & ->).
      reflexivity.
    + split; [reflexivity |]. apply Hframe.
  - intros Hc Hjson Hfile. apply geq_true in Hc. rewrite Hc.
    now rewrite emergencyDump_through_missing by assumption.
Qed.

(** With the warning threshold set to 57, a sample of 570 bytes used of
    1000 reports the double [(570 / 1000) * 100], which is 57 - 2^-47 and
    under the threshold: no pause callback is called.  A critical sample, as
    the repository is configured, calls no emergency callback. *)
Example pressure_checks_that_call_nothing :
  let armed :=
    perform_all Sample.loaded
      [OnPause Sample.pause_hook; OnEmergency Sample.emergency_hook;
       SetThresholds (Thresholds.mkPartial None (Some 57%Q) None None)]
      Sample.manager in
  checkResourcePressure Sample.loaded
    (Sample.sample 430 (8022036836253695 # 140737488355328))
    (Sample.dump_inputs 1000 430) armed
  = (armed, inl tt)
  /\ checkResourcePressure Sample.loaded (Sample.sample 10 99)
       (Sample.dump_inputs 1000 10) armed
     = (armed, inr (TypeError "fs.writeFile is not a function")).
Proof. vm_compute. split; reflexivity. Qed.

(** ** Dumps and recovery *)

(** What [emergencyDump] does when [writeJson] and [copy] are bound and both
    writes are accepted. *)
Lemma emergencyDump_through_written (fs : Namespace) (reason : string)
    (additionalData : option any) (inp : DumpInputs) (r : ResourceManager)
    (data : json) :
  fs WriteJson = true ->
  fs Copy = true ->
  emergencyData (dump_id inp) reason additionalData inp = inl data ->
  refuses r (dump_path r (dump_id inp)) = false ->
  refuses r (latest_dump_path r) = false ->
  emergencyDump_through fs reason additionalData inp r
  = (set_files
       (<[latest_dump_path r := JsonFile data]>
          (<[dump_path r (dump_id inp) := JsonFile data]> (files r))) r,
     inl (dump_id inp)).
Proof.
  intros Hjson Hcopy Hdata Hdump Hlatest.
  unfold emergencyDump_through, bind at 1, read. cbv beta iota zeta.
  fold (dump_id inp). fold (dump_path r (dump_id inp)).
  fold (latest_dump_path r).
  unfold try_catch, bind at 1. rewrite fs_call_bound by exact Hjson.
  unfold writeJson, bind at 1. rewrite Hdata.
  cbn [lift]. unfold ret at 1. rewrite write_accepted by exact Hdump.
  unfold bind at 1. rewrite fs_call_bound by exact Hcopy.
  unfold copy, bind at 1, read. cbn [files set_files].
  rewrite lookup_insert_eq. rewrite write_accepted by exact Hlatest.
  reflexivity.
Qed.

(** What [recoverFromDump] returns when [pathExists] and [readJson] are
    bound and the file it looks for holds a JSON value other than [null]. *)
Lemma recoverFromDump_reads (fs : Namespace) (dumpId : option string)
    (r : ResourceManager) (data : json) :
  fs PathExists = true ->
  fs ReadJson = true ->
  files r !! (if truthy dumpId then dump_path r (default "" dumpId)
              else latest_dump_path r)
  = Some (JsonFile data) ->
  data <> JNull ->
  recoverFromDump fs dumpId r = (r, inl (field "systemState" data)).
Proof.
  intros Hexists Hread Hfile Hdata.
  unfold recoverFromDump, try_catch, bind at 1, read. cbv beta iota zeta.
  unfold bind at 1. rewrite fs_call_bound by exact Hexists.
  unfold pathExists, bind at 1, read, ret at 1. rewrite Hfile.
  unfold bind at 1. rewrite fs_call_bound by exact Hread.
  unfold readJson, bind at 1, read. rewrite Hfile.
  unfold ret at 1. destruct data; try reflexivity. contradiction.
Qed.

(** With [pathExists] bound and no file of that name, the result is
    [null]. *)
Lemma recoverFromDump_no_file (fs : Namespace) (dumpId : option string)
    (r : ResourceManager) :
  files r !! (if truthy dumpId then dump_path r (default "" dumpId)
              else latest_dump_path r)
  = None ->
  recoverFromDump fs dumpId r = (r, inl (Some JNull)).
Proof.
  intros Hfile.
  unfold recoverFromDump, try_catch, bind at 1, read. cbv beta iota zeta.
  unfold bind at 1, fs_call. destruct (fs PathExists); [| reflexivity].
  unfold pathExists, bind at 1, read, ret at 1. now rewrite Hfile.
Qed.

(** With [pathExists] or [readJson] missing, the result is [null] whatever
    the disk holds. *)
Lemma recoverFromDump_missing (fs : Namespace) (dumpId : option string)
    (r : ResourceManager) :
  fs PathExists = false \/ fs ReadJson = false ->
  recoverFromDump fs dumpId r = (r, inl (Some JNull)).
Proof.
  intros H.
  unfold recoverFromDump, try_catch, bind at 1, read. cbv beta iota zeta.
  unfold bind at 1, fs_call at 1.
  destruct (fs PathExists) eqn:Hexists; [| reflexivity].
  destruct H as [H | Hread]; [discriminate H |].
  unfold pathExists, bind at 1, read, ret at 1.
  destruct (files r !! _); [| reflexivity].
  unfold bind at 1. now rewrite fs_call_missing by exact Hread.
Qed.


Lemma emergencyData_fields dumpId reason additionalData inp data :
  emergencyData dumpId reason additionalData inp = inl data ->
  data <> JNull
  /\ field "dumpId" data = Some (JStr dumpId)
  /\ field "reason" data = Some (JStr reason)
  /\ exists systemState,
       field "systemState" data = Some systemState
       /\ field "resourceMetrics" systemState
          = Some (metrics_json (getResourceMetrics (dumpOs inp)))
       /\ field "timestamp" systemState
          = Some (JNum (inject_Z (dumpNow inp))).
Proof.
  unfold emergencyData. destruct additionalData as [a |].
  - destruct (stringify_any a); [| discriminate]. intros [= <-].
    split; [discriminate |]. split; [reflexivity |].
    split; [reflexivity |]. eexists. split; [reflexivity |]. now split.
  - intros [= <-].
    split; [discriminate |]. split; [reflexivity |].
    split; [reflexivity |]. eexists. split; [reflexivity |]. now split.
Qed.

Lemma dump_id_truthy (inp : DumpInputs) : truthy (Some (dump_id inp)) = true.
Proof. reflexivity. Qed.

Lemma latest_is_not_a_dump (r : ResourceManager) (inp : DumpInputs) :
  latest_dump_path r <> dump_path r (dump_id inp).
Proof.
  unfold latest_dump_path, dump_path, path_join, dump_id. intros H.
  apply append_inj_l in H. discriminate H.
Qed.

(** X17.  [emergencyDump] followed by [recoverFromDump], by the way
    [fs-extra] is bound.  As the repository is configured, with
    [fs.writeJson], [fs.readJson] and [fs.writeFile] missing, no dump is
    ever written and none is ever recovered: [emergencyDump] throws a
    [TypeError] and leaves the disk as it was, whatever it is given, and
    [recoverFromDump] returns [null] whatever the disk holds.  With
    [writeJson], [copy], [pathExists] and [readJson] bound, a dump that was
    written can be recovered: when the additional data can be serialized
    and the disk accepts the dump file and the copy named
    [latest_emergency_dump.json], [emergencyDump] returns the dump
    identifier, and afterwards [recoverFromDump] returns the system state
    written in that dump, with its timestamp, both for this identifier and
    for no identifier at all. *)
Theorem emergencyDump_then_recoverFromDump
    (fs : Namespace) (reason : string) (additionalData : option any)
    (inp : DumpInputs) (r : ResourceManager) :
  let dump := emergencyDump_through fs reason additionalData inp in
  let r' := exec dump r in
  (as_configured fs ->
   dump r = (r, inr (TypeError "fs.writeFile is not a function"))
   /\ forall dumpId r0, recoverFromDump fs dumpId r0 = (r0, inl (Some JNull)))
  /\ (fs WriteJson = true -> fs Copy = true ->
      fs PathExists = true -> fs ReadJson = true ->
      additionalData <> Some Cyclic ->
      refuses r (dump_path r (dump_id inp)) = false ->
      refuses r (latest_dump_path r) = false ->
      outcome dump r = inl (dump_id inp)
      /\ exists data systemState,
           emergencyData (dump_id inp) reason additionalData inp = inl data
           /\ field "systemState" data = Some systemState
           /\ field "timestamp" systemState
              = Some (JNum (inject_Z (dumpNow inp)))
           /\ recoverFromDump fs (Some (dump_id inp)) r'
              = (r', inl (Some systemState))
           /\ recoverFromDump fs None r' = (r', inl (Some systemState))).
Proof.
  intros dump r'. split.
  - intros (Hjson & Hread & Hfile). split.
    + now apply emergencyDump_through_missing.
    + intros dumpId r0. apply recoverFromDump_missing. now right.
  - intros Hjson Hcopy Hexists Hread Hdata Hdump Hlatest.
    destruct (emergencyData (dump_id inp) reason additionalData inp)
      as [data | e] eqn:Edata.
    2: { unfold emergencyData in Edata.
         destruct additionalData as [[j |] |]; try discriminate Edata.
         now contradiction Hdata. }
    pose proof (emergencyDump_through_written fs _ _ _ _ _ Hjson Hcopy Edata
                  Hdump Hlatest) as Hrun.
    destruct (emergencyData_fields _ _ _ _ _ Edata)
      as (Hnull & _ & _ & st & Hst & _ & Htime).
    subst r' dump. unfold exec, outcome. rewrite Hrun. cbn [fst snd].
    split; [reflexivity |]. exists data, st.
    split; [reflexivity |]. split; [exact Hst |]. split; [exact Htime |].
    split.
    + rewrite <- Hst.
      apply recoverFromDump_reads; [assumption | assumption | | exact Hnull].
      rewrite dump_id_truthy. cbn [default files set_files].
      unfold dump_path at 1. cbn [emergencyDumpDirectory set_files].
      fold (dump_path r (dump_id inp)).
      rewrite lookup_insert_ne by apply latest_is_not_a_dump.
      apply lookup_insert_eq.
    + rewrite <- Hst.
      apply recoverFromDump_reads; [assumption | assumption | | exact Hnull].
      cbn [truthy files set_files].
      unfold latest_dump_path at 1. cbn [emergencyDumpDirectory set_files].
      apply lookup_insert_eq.
Qed.

Lemma emergencyDump_then_recoverFromDump_witness :
  let inp := Sample.dump_inputs 1000 10 in
  (emergencyDump_through Sample.loaded "manual" None inp Sample.manager
   = (Sample.manager, inr (TypeError "fs.writeFile is not a function"))
   /\ forall dumpId r0,
        recoverFromDump Sample.loaded dumpId r0 = (r0, inl (Some JNull)))
  /\ let r' := exec (emergencyDump_through commonjs "manual" None inp)
                 Sample.manager in
     outcome (emergencyDump_through commonjs "manual" None inp) Sample.manager
     = inl (dump_id inp)
     /\ exists data systemState,
          emergencyData (dump_id inp) "manual" None inp = inl data
          /\ field "systemState" data = Some systemState
          /\ field "timestamp" systemState
             = Some (JNum (inject_Z (dumpNow inp)))
          /\ recoverFromDump commonjs (Some (dump_id inp)) r'
             = (r', inl (Some systemState))
          /\ recoverFromDump commonjs None r' = (r', inl (Some systemState)).
Proof.
  intros inp. split.
  - apply (proj1 (emergencyDump_then_recoverFromDump Sample.loaded "manual"
                    None inp Sample.manager)).
    repeat split.
  - apply (proj2 (emergencyDump_then_recoverFromDump commonjs "manual"
                    None inp Sample.manager));
      [reflexivity | reflexivity | reflexivity | reflexivity | discriminate
      | reflexivity | reflexivity].
Defined.

Lemma basic_is_not_a_dump (r : ResourceManager) (a : string)
    (b : DumpInputs) :
  basic_dump_path r a <> dump_path r (dump_id b).
Proof.
  unfold basic_dump_path, dump_path, path_join, dump_id. intros H.
  apply append_inj_l in H. discriminate H.
Qed.

(** X18.  The fallback of [emergencyDump], by the way [fs.writeFile] is
    bound.  The full record is not written when [fs.writeJson] is missing,
    when the disk refuses the dump file, and when the additional data
    cannot be serialized.  As the repository is configured [fs.writeJson]
    is missing, so the fallback is taken on every call, and [fs.writeFile]
    is missing too: the fallback throws a [TypeError], which leaves
    [emergencyDump], and nothing is written.  With [writeFile] bound, and
    when the disk accepts the text record [basic_<id>.txt] and holds no file
    of the dump's name, [emergencyDump] returns the dump identifier as if
    the dump had been written, it has written the text record and no dump
    file, and [recoverFromDump] of the returned identifier gives [null]. *)
Theorem failed_dump_is_not_recoverable
    (fs : Namespace) (reason : string) (additionalData : option any)
    (inp : DumpInputs) (r : ResourceManager) :
  fs WriteJson = false
  \/ refuses r (dump_path r (dump_id inp)) = true
  \/ additionalData = Some Cyclic ->
  let dump := emergencyDump_through fs reason additionalData inp in
  let r' := exec dump r in
  (fs WriteFile = false ->
   dump r = (r, inr (TypeError "fs.writeFile is not a function")))
  /\ (fs WriteFile = true ->
      refuses r (basic_dump_path r (dump_id inp)) = false ->
      files r !! dump_path r (dump_id inp) = None ->
      outcome dump r = inl (dump_id inp)
      /\ (exists text,
            files r' !! basic_dump_path r (dump_id inp) = Some (TextFile text))
      /\ files r' !! dump_path r (dump_id inp) = None
      /\ recoverFromDump fs (Some (dump_id inp)) r' = (r', inl (Some JNull))).
Proof.
  intros Hfail dump r'.
  assert (Hwrite : exists e,
             fs_call fs WriteJson
               (writeJson (dump_path r (dump_id inp))
                  (emergencyData (dump_id inp) reason additionalData inp)) r
             = (r, inr e)).
  { unfold fs_call. destruct (fs WriteJson) eqn:Hjson; [| eexists; reflexivity].
    destruct Hfail as [Hmissing | [Hrefused | ->]].
    - discriminate Hmissing.
    - now apply writeJson_refused.
    - eexists. reflexivity. }
  destruct Hwrite as [e Hwrite].
  assert (Hrun : dump r
                 = (fs_call fs WriteFile
                      (writeFile (basic_dump_path r (dump_id inp))
                         ("Emergency Dump: " ++ dump_id inp ++ nl
                          ++ "Reason: " ++ reason ++ nl
                          ++ "Timestamp: " ++ string_of_Z (dumpNow inp) ++ nl
                          ++ "Error: " ++ error_text e ++ nl)%string) ;;
                    ret (dump_id inp)) r).
  { subst dump. unfold emergencyDump_through, bind at 1, read.
    cbv beta iota zeta.
    fold (dump_id inp). fold (dump_path r (dump_id inp)).
    fold (basic_dump_path r (dump_id inp)).
    unfold try_catch, bind at 1. rewrite Hwrite. reflexivity. }
  split.
  - intros Hfile. rewrite Hrun. unfold bind.
    now rewrite fs_call_missing by exact Hfile.
  - intros Hfile Hbasic Hnone.
    rewrite fs_call_bound in Hrun by exact Hfile.
    unfold bind, writeFile in Hrun.
    rewrite write_accepted in Hrun by exact Hbasic.
    unfold ret in Hrun.
    assert (Hfiles : files r' !! dump_path r (dump_id inp) = None).
    { subst r'. unfold exec. rewrite Hrun. cbn [fst files set_files].
      rewrite lookup_insert_ne by apply basic_is_not_a_dump. exact Hnone. }
    split; [unfold outcome; now rewrite Hrun |].
    split.
    + eexists. subst r'. unfold exec. rewrite Hrun.
      cbn [fst files set_files]. apply lookup_insert_eq.
    + split; [exact Hfiles |]. apply recoverFromDump_no_file.
      rewrite dump_id_truthy. cbn [default]. unfold id.
      replace (dump_path r' (dump_id inp)) with (dump_path r (dump_id inp));
        [exact Hfiles |].
      subst r'. unfold exec. now rewrite Hrun.
Qed.

Lemma failed_dump_is_not_recoverable_witness :
  let inp := Sample.dump_inputs 1000 10 in
  emergencyDump_through Sample.loaded "manual" None inp Sample.manager
  = (Sample.manager, inr (TypeError "fs.writeFile is not a function"))
  /\ let r' := exec (emergencyDump_through commonjs "manual" (Some Cyclic) inp)
                 Sample.manager in
     outcome (emergencyDump_through commonjs "manual" (Some Cyclic) inp)
       Sample.manager
     = inl (dump_id inp)
     /\ (exists text,
           files r' !! basic_dump_path Sample.manager (dump_id inp)
           = Some (TextFile text))
     /\ files r' !! dump_path Sample.manager (dump_id inp) = None
     /\ recoverFromDump commonjs (Some (dump_id inp)) r'
        = (r', inl (Some JNull)).
Proof.
  intros inp. split.
  - apply (proj1 (failed_dump_is_not_recoverable Sample.loaded "manual" None
                    inp Sample.manager (or_introl eq_refl))).
    reflexivity.
  - apply (proj2 (failed_dump_is_not_recoverable commonjs "manual"
                    (Some Cyclic) inp Sample.manager
                    (or_intror (or_intror eq_refl))));
      reflexivity.
Defined.


(** A pointer file whose [checkpointPath] is the number 3 makes
    [loadTaskCheckpoint] return what file descriptor 3 holds. *)
Example a_numeric_path_reads_a_descriptor :
  let r :=
    new_ResourceManager "/srv/work"
      {[ "/srv/work/.checkpoints/quick_t1.json"
         := JsonFile (JObj [("taskId", JStr "t1"); ("checkpointPath", JNum 3)]) ]}
      (fun _ => false) in
  outcome
    (loadTaskCheckpoint commonjs (fun _ => inl (JStr "from descriptor 3")) "t1")
    r
  = inl (JStr "from descriptor 3").
Proof. vm_compute. reflexivity. Qed.

(** ** Metrics *)

(** X20.  The figures of one sample are coherent.  When the operating
    system reports a positive total and a free amount between zero and the
    total, used and free memory add up to the total, for RAM and for the
    estimated VRAM, the RAM utilization is a percentage between 0 and 100,
    and the CPU usage is at most 100. *)
Theorem getResourceMetrics_is_coherent (os : OsReading) :
  (0 < totalmem os)%Z -> (0 <= freemem os <= totalmem os)%Z ->
  let m := getResourceMetrics os in
  (ResourceMetrics.usedRAM m + ResourceMetrics.freeRAM m
   = ResourceMetrics.totalRAM m)%Z
  /\ (0 <= ResourceMetrics.usedRAM m)%Z
  /\ (ResourceMetrics.usedVRAM m + ResourceMetrics.freeVRAM m
      = ResourceMetrics.totalVRAM m)%Z
  /\ (0 <= ResourceMetrics.ramUtilization m)%Q
  /\ (ResourceMetrics.ramUtilization m <= 100)%Q
  /\ (ResourceMetrics.cpuUsage m <= 100)%Q.
Proof.
  intros Htotal Hfree m. subst m. unfold getResourceMetrics. cbv zeta.
  cbn [ResourceMetrics.usedRAM ResourceMetrics.freeRAM ResourceMetrics.totalRAM
       ResourceMetrics.usedVRAM ResourceMetrics.freeVRAM
       ResourceMetrics.totalVRAM ResourceMetrics.cpuUsage
       ResourceMetrics.ramUtilization].
  split; [lia |]. split; [lia |].
  split; [unfold estimateVRAMUsage; lia |].
  assert (Hram : (0 <= inject_Z (totalmem os - freemem os)
                       / inject_Z (totalmem os) * 100)%Q
                 /\ (inject_Z (totalmem os - freemem os)
                     / inject_Z (totalmem os) * 100 <= 100)%Q).
  { destruct (totalmem os) as [| p | p]; try lia.
    unfold Qle, Qdiv, Qmult, Qinv, inject_Z. cbn [Qnum Qden].
    split; nia. }
  split; [apply Hram |]. split; [apply Hram |].
  unfold getCPUUsage. cbv zeta.
  destruct (Qle_bool _ 100) eqn:E; [now apply Qle_bool_iff | apply Qle_refl].
Qed.

Lemma getResourceMetrics_is_coherent_witness :
  let m := getResourceMetrics (Sample.reading 1000 100) in
  (ResourceMetrics.usedRAM m + ResourceMetrics.freeRAM m
   = ResourceMetrics.totalRAM m)%Z
  /\ (0 <= ResourceMetrics.usedRAM m)%Z
  /\ (ResourceMetrics.usedVRAM m + ResourceMetrics.freeVRAM m
      = ResourceMetrics.totalVRAM m)%Z
  /\ (0 <= ResourceMetrics.ramUtilization m)%Q
  /\ (ResourceMetrics.ramUtilization m <= 100)%Q
  /\ (ResourceMetrics.cpuUsage m <= 100)%Q.
Proof.
  apply (getResourceMetrics_is_coherent (Sample.reading 1000 100));
    simpl; lia.
Defined.

(** * Further properties of the knowledge graph *)

(** ** The maps *)

Section JsMapGraph.
Context {V : Type}.
Implicit Types (m : JsMap.t V) (k : string) (v : V).

Lemma has_set_or m k k' v :
  JsMap.has k' (JsMap.set k v m)
  = (String.eqb k' k || JsMap.has k' m)%bool.
Proof.
  unfold JsMap.has. rewrite get_set.
  destruct (String.eqb k' k); reflexivity.
Qed.

Lemma set_app_absent m1 m2 k v :
  JsMap.get k m1 = None -> JsMap.set k v (m1 ++ m2) = m1 ++ JsMap.set k v m2.
Proof.
  induction m1 as [| [k' v'] m1 IH]; simpl; [reflexivity |].
  destruct (String.eqb k k'); [discriminate |].
  intros H. now rewrite IH.
Qed.

Lemma keys_map_values (f : V -> V) m :
  JsMap.keys (map (fun e => (fst e, f (snd e))) m) = JsMap.keys m.
Proof.
  unfold JsMap.keys. rewrite map_map. reflexivity.
Qed.

Lemma get_delete m k k' :
  JsMap.get k' (JsMap.delete k m)
  = if String.eqb k' k then None else JsMap.get k' m.
Proof.
  destruct (String.eqb k' k) eqn:E.
  - apply String.eqb_eq in E. subst. apply get_delete_eq.
  - apply String.eqb_neq in E. now apply get_delete_ne.
Qed.

Lemma get_keys_eq {W} m (m' : JsMap.t W) k :
  JsMap.keys m = JsMap.keys m' ->
  JsMap.get k m = None <-> JsMap.get k m' = None.
Proof.
  intros Hkeys. rewrite !get_None_keys. now rewrite Hkeys.
Qed.
End JsMapGraph.

(** ** Running the loops *)

(** What the inner loop of [handleDeleteEntities] leaves: every list of
    relations filtered, in place. *)
Lemma removeRelationsTo_loop (entityName : string)
    (post pre : JsMap.t (list Relation.t)) (s : Server) :
  let keep := fun rel => negb (String.eqb (Relation.to rel) entityName) in
  let F := fun e : string * list Relation.t =>
             (fst e, List.filter keep (snd e)) in
  entityRelations s = map F pre ++ post ->
  List.NoDup (JsMap.keys (pre ++ post)) ->
  for_each post
    (fun '(fromEntity, relations) =>
       modify (set_entityRelations
                 (JsMap.set fromEntity (List.filter keep relations)))) s
  = (set_entityRelations (fun _ => map F (pre ++ post)) s, inl tt).
Proof.
  intros keep F. revert pre s.
  induction post as [| [k rels] post IH]; intros pre s Hs Hnd.
  - cbn [for_each]. unfold ret. rewrite app_nil_r in *.
    destruct s; cbn in *. now subst.
  - cbn [for_each]. rewrite run_modify_bind.
    assert (Hk : JsMap.get k (map F pre) = None).
    { apply get_None_keys. unfold JsMap.keys in *.
      rewrite map_map. cbn [F fst]. rewrite map_app in Hnd.
      apply List.NoDup_remove_2 in Hnd. intros Hin. apply Hnd.
      apply in_or_app. now left. }
    rewrite (IH (pre ++ [(k, rels)])).
    + f_equal. destruct s; cbn. now rewrite <- app_assoc.
    + cbn [entityRelations set_entityRelations]. rewrite Hs.
      rewrite set_app_absent by exact Hk. cbn [JsMap.set].
      rewrite String.eqb_refl, map_app. cbn [map F fst snd].
      now rewrite <- app_assoc.
    + now rewrite <- app_assoc.
Qed.

Lemma removeRelationsTo_run (entityName : string) (s : Server) :
  List.NoDup (JsMap.keys (entityRelations s)) ->
  removeRelationsTo entityName s
  = (set_entityRelations
       (map (fun e =>
               (fst e,
                List.filter
                  (fun rel => negb (String.eqb (Relation.to rel) entityName))
                  (snd e))))
       s,
     inl tt).
Proof.
  intros Hnd. unfold removeRelationsTo. rewrite run_read_bind.
  unfold JsMap.entries.
  rewrite (removeRelationsTo_loop entityName (entityRelations s) [] s);
    [reflexivity | reflexivity | exact Hnd].
Qed.

(** ** The graph stays coherent *)

Lemma matches_key (to relationType : string) (rel : Relation.t) :
  Relation.matches to relationType rel = true
  <-> relation_key rel = (to, relationType).
Proof.
  unfold Relation.matches, relation_key. rewrite andb_true_iff, !String.eqb_eq.
  split; [intros [-> ->]; reflexivity | intros [= -> ->]; now split].
Qed.

Lemma no_match_no_key (to relationType : string) (rels : list Relation.t) :
  existsb (Relation.matches to relationType) rels = false ->
  ~ In (to, relationType) (map relation_key rels).
Proof.
  intros Hnone Hin. apply in_map_iff in Hin. destruct Hin as (rel & Hkey & Hin).
  assert (H : existsb (Relation.matches to relationType) rels = true).
  { apply existsb_exists. exists rel. split; [exact Hin |].
    now apply matches_key. }
  congruence.
Qed.

Lemma NoDup_map_filter {A B} (f : A -> B) (p : A -> bool) (l : list A) :
  List.NoDup (map f l) -> List.NoDup (map f (List.filter p l)).
Proof.
  induction l as [| x l IH]; simpl; [trivial |].
  intros Hnd. inversion Hnd as [| ? ? Hnotin Hnd']; subst.
  destruct (p x); [| now apply IH]. simpl. constructor; [| now apply IH].
  intros Hin. apply Hnotin. apply in_map_iff in Hin.
  destruct Hin as (y & Hy & Hin). apply filter_In in Hin.
  apply in_map_iff. exists y. tauto.
Qed.

Lemma In_firstn {A} (n : nat) (l : list A) (x : A) :
  In x (firstn n l) -> In x l.
Proof.
  revert n. induction l as [| y l IH]; intros [| n]; simpl; try tauto.
  intros [H | H]; [now left | right; now apply (IH n)].
Qed.

Lemma In_skipn {A} (n : nat) (l : list A) (x : A) :
  In x (skipn n l) -> In x l.
Proof.
  revert n. induction l as [| y l IH]; intros [| n]; simpl; try tauto.
  intros H. right. now apply (IH n).
Qed.

Lemma NoDup_map_splice_one {A B} (f : A -> B) (i : nat) (l : list A) :
  List.NoDup (map f l) -> List.NoDup (map f (splice_one i l)).
Proof.
  unfold splice_one. revert i.
  induction l as [| x l IH]; intros i Hnd.
  - destruct i; simpl; constructor.
  - inversion Hnd as [| ? ? Hnotin Hnd']; subst.
    destruct i as [| i]; [exact Hnd' |].
    cbn [firstn skipn app map]. constructor; [| now apply IH].
    intros Hin. apply Hnotin. apply in_map_iff in Hin.
    destruct Hin as (y & Hy & Hin). apply in_map_iff. exists y.
    split; [exact Hy |]. apply in_app_or in Hin.
    destruct Hin as [Hin | Hin].
    + now apply (In_firstn i l).
    + now apply (In_skipn (S i) l).
Qed.

Lemma In_splice_one {A} (i : nat) (l : list A) (x : A) :
  In x (splice_one i l) -> In x l.
Proof.
  unfold splice_one. intros Hin. apply in_app_or in Hin.
  destruct Hin as [Hin | Hin].
  - now apply (In_firstn i l).
  - now apply (In_skipn (S i) l).
Qed.

Lemma coherent_context (f : JsMap.t ContextMemory.t -> JsMap.t ContextMemory.t)
    (s : Server) :
  graph_coherent s -> graph_coherent (set_contextMemory f s).
Proof. intros H. exact H. Qed.

Lemma coherent_create (s : Server) (name : string) (entity : Entity.t) :
  graph_coherent s ->
  JsMap.get name (knowledgeGraph s) = None ->
  Entity.name entity = name ->
  graph_coherent
    (set_entityRelations (JsMap.set name [])
       (set_knowledgeGraph (JsMap.set name entity) s)).
Proof.
  intros (Hkeys & Hnd & Hname & Hrel) Hnone Hentity.
  assert (Hnone' : JsMap.get name (entityRelations s) = None)
    by now apply (get_keys_eq _ (knowledgeGraph s)).
  unfold graph_coherent. cbn [entityRelations knowledgeGraph
    set_entityRelations set_knowledgeGraph].
  split; [| split; [| split]].
  - rewrite !keys_set_absent by assumption. now rewrite Hkeys.
  - now apply NoDup_keys_set.
  - intros n e. rewrite get_set. destruct (String.eqb n name) eqn:E.
    + apply String.eqb_eq in E. intros [= <-]. congruence.
    + apply Hname.
  - intros from rels. rewrite get_set.
    destruct (String.eqb from name) eqn:E.
    + intros [= <-]. split; [constructor | intros rel []].
    + intros Hget. destruct (Hrel from rels Hget) as [Hnodup Hin].
      split; [exact Hnodup |]. intros rel Hrel_in.
      destruct (Hin rel Hrel_in) as [Hfrom Hto]. split; [exact Hfrom |].
      rewrite has_set_or, Hto. apply orb_true_r.
Qed.

Lemma coherent_relate (s : Server) (from to relationType : string)
    (created : Z) :
  graph_coherent s ->
  JsMap.has from (knowledgeGraph s) = true ->
  JsMap.has to (knowledgeGraph s) = true ->
  existsb (Relation.matches to relationType) (relations_of s from) = false ->
  graph_coherent
    (set_entityRelations
       (JsMap.set from
          (relations_of s from
           ++ [Relation.mk from to relationType created])) s).
Proof.
  intros (Hkeys & Hnd & Hname & Hrel) Hfrom Hto Hnew.
  assert (Hsome : exists rels0,
             JsMap.get from (entityRelations s) = Some rels0).
  { destruct (JsMap.get from (entityRelations s)) as [rels0 |] eqn:E;
      [eauto |].
    apply (get_keys_eq _ (knowledgeGraph s)) in E; [| exact Hkeys].
    apply has_false in E. congruence. }
  destruct Hsome as [rels0 Hrels0].
  unfold relations_of in *. rewrite Hrels0 in *. cbn [default] in *.
  unfold graph_coherent. cbn [entityRelations knowledgeGraph
    set_entityRelations].
  split; [| split; [exact Hnd | split; [exact Hname |]]].
  - rewrite (keys_set_present _ _ _ _ Hrels0). exact Hkeys.
  - intros from' rels. rewrite get_set.
    destruct (String.eqb from' from) eqn:E.
    + apply String.eqb_eq in E. subst from'. intros [= <-].
      destruct (Hrel from rels0 Hrels0) as [Hnodup Hin]. split.
      * rewrite map_app. apply List.NoDup_app; [exact Hnodup | |].
        -- cbn. repeat constructor. intros [].
        -- intros key Hkey [<- | []]. revert Hkey.
           now apply no_match_no_key.
      * intros rel Hrel_in. apply in_app_or in Hrel_in.
        destruct Hrel_in as [Hrel_in | [<- | []]]; [now apply Hin |].
        now split.
    + apply Hrel.
Qed.

Lemma coherent_update_entity (s : Server) (name : string)
    (entity entity' : Entity.t) :
  graph_coherent s ->
  JsMap.get name (knowledgeGraph s) = Some entity ->
  Entity.name entity' = name ->
  graph_coherent (set_knowledgeGraph (JsMap.set name entity') s).
Proof.
  intros (Hkeys & Hnd & Hname & Hrel) Hget Hentity.
  unfold graph_coherent. cbn [entityRelations knowledgeGraph
    set_knowledgeGraph].
  rewrite (keys_set_present _ _ _ _ Hget).
  split; [exact Hkeys | split; [exact Hnd | split]].
  - intros n e. rewrite get_set. destruct (String.eqb n name) eqn:E.
    + apply String.eqb_eq in E. intros [= <-]. congruence.
    + apply Hname.
  - intros from rels Hrels. destruct (Hrel from rels Hrels) as [Hnodup Hin].
    split; [exact Hnodup |]. intros rel Hrel_in.
    destruct (Hin rel Hrel_in) as [Hfrom Hto]. split; [exact Hfrom |].
    rewrite has_set_or, Hto. apply orb_true_r.
Qed.

Lemma coherent_shrink (s : Server) (from : string)
    (rels rels' : list Relation.t) :
  graph_coherent s ->
  JsMap.get from (entityRelations s) = Some rels ->
  List.NoDup (map relation_key rels') ->
  (forall rel, In rel rels' -> In rel rels) ->
  graph_coherent (set_entityRelations (JsMap.set from rels') s).
Proof.
  intros (Hkeys & Hnd & Hname & Hrel) Hget Hnodup Hincl.
  unfold graph_coherent. cbn [entityRelations knowledgeGraph
    set_entityRelations].
  rewrite (keys_set_present _ _ _ _ Hget).
  split; [exact Hkeys | split; [exact Hnd | split; [exact Hname |]]].
  intros from' l. rewrite get_set. destruct (String.eqb from' from) eqn:E.
  - apply String.eqb_eq in E. subst from'. intros [= <-].
    split; [exact Hnodup |]. intros rel Hrel_in.
    apply (Hrel from rels Hget). now apply Hincl.
  - apply Hrel.
Qed.

Lemma coherent_delete (s : Server) (entityName : string) :
  graph_coherent s ->
  graph_coherent
    (exec (removeRelationsTo entityName)
       (set_entityRelations (JsMap.delete entityName)
          (set_knowledgeGraph (JsMap.delete entityName) s))).
Proof.
  intros (Hkeys & Hnd & Hname & Hrel).
  unfold exec. rewrite removeRelationsTo_run.
  2: { cbn [entityRelations set_entityRelations set_knowledgeGraph].
       apply NoDup_keys_delete. now rewrite Hkeys. }
  cbn [fst]. unfold graph_coherent.
  cbn [entityRelations knowledgeGraph set_entityRelations set_knowledgeGraph].
  split; [| split; [| split]].
  - rewrite keys_map_values, !keys_delete. now rewrite Hkeys.
  - now apply NoDup_keys_delete.
  - intros n e. rewrite get_delete. destruct (String.eqb n entityName);
      [discriminate | apply Hname].
  - intros from rels. rewrite get_map_values, get_delete.
    destruct (String.eqb from entityName); [discriminate |].
    destruct (JsMap.get from (entityRelations s)) as [rels0 |] eqn:E;
      [| discriminate].
    intros [= <-]. destruct (Hrel from rels0 E) as [Hnodup Hin]. split.
    + now apply NoDup_map_filter.
    + intros rel Hrel_in. apply filter_In in Hrel_in.
      destruct Hrel_in as [Hrel_in Hkeep].
      destruct (Hin rel Hrel_in) as [Hfrom Hto]. split; [exact Hfrom |].
      unfold JsMap.has. rewrite get_delete.
      apply negb_true_iff in Hkeep. rewrite Hkeep. exact Hto.
Qed.

Lemma coherence_kept_refl (s : Server) : coherence_kept s s.
Proof. intros H. exact H. Qed.

Lemma coherence_kept_trans (a b c : Server) :
  coherence_kept a b -> coherence_kept b c -> coherence_kept a c.
Proof. unfold coherence_kept. tauto. Qed.

Lemma handleStoreContext_coherent content type tags inp :
  preserves coherence_kept (handleStoreContext content type tags inp).
Proof. intros s H. exact H. Qed.

Lemma createEntities_each_coherent entities created skipped :
  preserves coherence_kept (createEntities_each entities created skipped).
Proof.
  revert created skipped.
  induction entities as [| entity rest IH]; intros created skipped s Hs;
    [exact Hs |].
  cbn [createEntities_each]. rewrite exec_read_bind.
  destruct (JsMap.has _ _) eqn:Ehas; [now apply IH |].
  rewrite !exec_modify_bind. apply IH.
  apply coherent_create; [exact Hs | now apply has_false | reflexivity].
Qed.

Lemma createRelations_each_coherent relations created skipped :
  preserves coherence_kept (createRelations_each relations created skipped).
Proof.
  revert created skipped.
  induction relations as [| relation rest IH]; intros created skipped s Hs;
    [exact Hs |].
  cbn [createRelations_each]. cbv zeta. rewrite exec_read_bind.
  destruct (JsMap.has (RelationInput.from relation) _) eqn:Efrom;
    cbn [negb]; [| now apply IH].
  destruct (JsMap.has (RelationInput.to relation) _) eqn:Eto;
    cbn [negb]; [| now apply IH].
  destruct (existsb _ _) eqn:Eexists; [now apply IH |].
  rewrite exec_modify_bind. apply IH.
  now apply coherent_relate.
Qed.

Lemma deleteRelations_each_coherent relations deleted notFound :
  preserves coherence_kept (deleteRelations_each relations deleted notFound).
Proof.
  revert deleted notFound.
  induction relations as [| relation rest IH]; intros deleted notFound s Hs;
    [exact Hs |].
  cbn [deleteRelations_each]. cbv zeta. rewrite exec_read_bind.
  destruct (JsMap.get _ (entityRelations s)) as [rels |] eqn:Erels;
    [| now apply IH].
  destruct (findIndex _ rels) as [i |] eqn:Eindex; [| now apply IH].
  rewrite exec_modify_bind. apply IH.
  apply (coherent_shrink s _ rels); [exact Hs | exact Erels | |].
  - apply NoDup_map_splice_one. destruct Hs as (_ & _ & _ & Hrel).
    now apply (Hrel _ _ Erels).
  - intros rel. apply In_splice_one.
Qed.

Lemma addObservations_each_coherent observations added failed :
  preserves coherence_kept (addObservations_each observations added failed).
Proof.
  revert added failed.
  induction observations as [| obs rest IH]; intros added failed s Hs;
    [exact Hs |].
  cbn [addObservations_each]. cbv zeta. rewrite exec_read_bind.
  destruct (JsMap.get _ (knowledgeGraph s)) as [entity |] eqn:Eentity;
    [| now apply IH].
  rewrite exec_modify_bind. apply IH.
  apply (coherent_update_entity s _ entity); [exact Hs | exact Eentity |].
  destruct Hs as (_ & _ & Hname & _). exact (Hname _ _ Eentity).
Qed.

Lemma deleteObservations_each_coherent deletions deleted failed :
  preserves coherence_kept (deleteObservations_each deletions deleted failed).
Proof.
  revert deleted failed.
  induction deletions as [| deletion rest IH]; intros deleted failed s Hs;
    [exact Hs |].
  cbn [deleteObservations_each]. cbv zeta. rewrite exec_read_bind.
  destruct (JsMap.get _ (knowledgeGraph s)) as [entity |] eqn:Eentity;
    [| now apply IH].
  rewrite exec_modify_bind. apply IH.
  apply (coherent_update_entity s _ entity); [exact Hs | exact Eentity |].
  destruct Hs as (_ & _ & Hname & _). exact (Hname _ _ Eentity).
Qed.

(** One round of the loop of [handleDeleteEntities] on an entity that
    exists. *)
Lemma deleteEntities_round (entityName : string) (s : Server) {B}
    (k : unit -> SM B) :
  List.NoDup (JsMap.keys (entityRelations s)) ->
  (modify (set_knowledgeGraph (JsMap.delete entityName)) ;;
   modify (set_entityRelations (JsMap.delete entityName)) ;;
   let* x := removeRelationsTo entityName in k x) s
  = k tt
      (exec (removeRelationsTo entityName)
         (set_entityRelations (JsMap.delete entityName)
            (set_knowledgeGraph (JsMap.delete entityName) s))).
Proof.
  intros Hnd. rewrite !run_modify_bind. unfold bind at 1, exec.
  rewrite removeRelationsTo_run; [reflexivity |].
  cbn [entityRelations set_entityRelations set_knowledgeGraph].
  now apply NoDup_keys_delete.
Qed.

Lemma coherent_relations_NoDup (s : Server) :
  graph_coherent s -> List.NoDup (JsMap.keys (entityRelations s)).
Proof. intros (Hkeys & Hnd & _). now rewrite Hkeys. Qed.

Lemma deleteEntities_each_coherent entityNames deleted notFound :
  preserves coherence_kept (deleteEntities_each entityNames deleted notFound).
Proof.
  revert deleted notFound.
  induction entityNames as [| entityName rest IH];
    intros deleted notFound s Hs; [exact Hs |].
  cbn [deleteEntities_each]. rewrite exec_read_bind.
  destruct (JsMap.has _ _) eqn:Ehas; cbn [negb]; [| now apply IH].
  unfold exec at 1.
  rewrite deleteEntities_round by now apply coherent_relations_NoDup.
  apply IH. now apply coherent_delete.
Qed.

Create HintDb coherence.
#[local] Hint Resolve handleStoreContext_coherent createEntities_each_coherent
  createRelations_each_coherent deleteRelations_each_coherent
  addObservations_each_coherent deleteObservations_each_coherent
  deleteEntities_each_coherent : coherence.

Ltac keep_coherent :=
  walk coherence_kept_refl coherence_kept_trans
    ltac:(try solve [auto with coherence]).

Lemma call_tool_coherent (t : Tool) : preserves coherence_kept (call_tool t).
Proof.
  destruct t; cbn [call_tool];
    unfold handleCreateEntities, handleCreateRelations, handleAddObservations,
      handleDeleteEntities, handleDeleteObservations, handleDeleteRelations,
      handleReadGraph, handleOpenNodes;
    cbv zeta; keep_coherent.
Qed.

Lemma run_tools_coherent (tools : list Tool) (s : Server) :
  graph_coherent s -> graph_coherent (run_tools tools s).
Proof.
  revert s. induction tools as [| t tools IH]; intros s Hs; [exact Hs |].
  cbn [run_tools fold_left]. apply IH. now apply call_tool_coherent.
Qed.

Lemma new_server_coherent : graph_coherent new_server.
Proof.
  unfold graph_coherent, new_server. cbn.
  split; [reflexivity |]. split; [constructor |].
  split; intros; discriminate.
Qed.

(** X21.  The knowledge graph stays coherent.  In every state reached from
    a new server by any sequence of calls of the tools of the knowledge
    graph and of the context store, with any arguments: the relations map
    has an entry for exactly the entities that exist, in the same order;
    every entity is stored under its own name; every relation is stored
    under the entity it starts at and ends at an entity that exists, so
    deleting an entity leaves no relation behind that points to it; and no
    entity has two relations with the same target and type. *)
Theorem knowledge_graph_stays_coherent (tools : list Tool) :
  graph_coherent (run_tools tools new_server).
Proof. apply run_tools_coherent, new_server_coherent. Qed.

(** ** Creating entities *)

Lemma createEntities_each_run (entities : list EntityInput.t) :
  forall created skipped s,
  let s' := exec (createEntities_each entities created skipped) s in
  exists created' skipped',
    createEntities_each entities created skipped s
    = (s', inl (created ++ created', skipped ++ skipped'))
    /\ (length created' + length skipped' = length entities)%nat
    /\ contextMemory s' = contextMemory s
    /\ JsMap.keys (knowledgeGraph s')
       = JsMap.keys (knowledgeGraph s) ++ map Entity.name created'
    /\ (forall name entity,
          JsMap.get name (knowledgeGraph s) = Some entity ->
          JsMap.get name (knowledgeGraph s') = Some entity)
    /\ (forall from,
          JsMap.has from (knowledgeGraph s) = true ->
          JsMap.get from (entityRelations s')
          = JsMap.get from (entityRelations s))
    /\ (forall entity,
          In entity entities ->
          JsMap.has (EntityInput.name entity) (knowledgeGraph s') = true)
    /\ (forall e,
          In e created' ->
          JsMap.get (Entity.name e) (knowledgeGraph s) = None
          /\ JsMap.get (Entity.name e) (knowledgeGraph s') = Some e
          /\ JsMap.get (Entity.name e) (entityRelations s') = Some []
          /\ exists entity, In entity entities /\ e = entityData_of entity)
    /\ (forall k,
          In k skipped' ->
          CreateEntities.reason k = "Entity already exists"
          /\ exists entity,
               In entity entities
               /\ EntityInput.name entity = CreateEntities.name k).
Proof.
  induction entities as [| entity rest IH]; intros created skipped s s'.
  - exists [], []. subst s'. cbn. rewrite !app_nil_r.
    repeat split; intros; try contradiction; trivial.
  - subst s'. cbn [createEntities_each]. rewrite exec_read_bind, run_read_bind.
    destruct (JsMap.has (EntityInput.name entity) (knowledgeGraph s))
      eqn:Ehas.
    + destruct (IH created
                  (skipped
                   ++ [CreateEntities.mkSkipped (EntityInput.name entity)
                         "Entity already exists"]) s)
        as (created' & skipped' & Hrun & Hlen & Hctx & Hkeys & Hkept & Hrels
            & Hall & Hcreated & Hskipped).
      exists created',
        (CreateEntities.mkSkipped (EntityInput.name entity)
           "Entity already exists" :: skipped').
      split; [rewrite Hrun; now rewrite <- app_assoc |].
      split; [cbn [length]; lia |].
      split; [exact Hctx |]. split; [exact Hkeys |].
      split; [exact Hkept |]. split; [exact Hrels |].
      split; [| split].
      * intros i [<- | Hi]; [| now apply Hall].
        apply has_get in Ehas. destruct Ehas as [e He].
        apply has_get. exists e. now apply Hkept.
      * intros e He. destruct (Hcreated e He) as (H1 & H2 & H3 & i & Hi & H4).
        repeat split; trivial. exists i. split; [now right | exact H4].
      * intros k [<- | Hk].
        -- split; [reflexivity |]. exists entity. split; [now left |].
           reflexivity.
        -- destruct (Hskipped k Hk) as (H1 & i & Hi & H2).
           split; [exact H1 |]. exists i. split; [now right | exact H2].
    + rewrite !exec_modify_bind, !run_modify_bind.
      apply has_false in Ehas.
      set (s1 := set_entityRelations (JsMap.set (EntityInput.name entity) [])
                   (set_knowledgeGraph
                      (JsMap.set (EntityInput.name entity)
                         (entityData_of entity)) s)).
      destruct (IH (created ++ [entityData_of entity]) skipped s1)
        as (created' & skipped' & Hrun & Hlen & Hctx & Hkeys & Hkept & Hrels
            & Hall & Hcreated & Hskipped).
      assert (Hstored : JsMap.get (EntityInput.name entity) (knowledgeGraph s1)
                        = Some (entityData_of entity))
        by apply get_set_eq.
      exists (entityData_of entity :: created'), skipped'.
      split; [rewrite Hrun; now rewrite <- app_assoc |].
      split; [cbn [length]; lia |].
      split; [exact Hctx |].
      split.
      { rewrite Hkeys. subst s1.
        cbn [knowledgeGraph set_entityRelations set_knowledgeGraph].
        rewrite keys_set_absent by exact Ehas.
        now rewrite <- app_assoc. }
      split.
      { intros name e He. apply Hkept. subst s1.
        cbn [knowledgeGraph set_entityRelations set_knowledgeGraph].
        rewrite get_set_ne; [exact He |]. intros <-. congruence. }
      split.
      { intros from Hfrom. rewrite Hrels.
        - subst s1.
          cbn [entityRelations set_entityRelations set_knowledgeGraph].
          apply get_set_ne. intros <-. apply has_get in Hfrom.
          destruct Hfrom. congruence.
        - subst s1.
          cbn [knowledgeGraph set_entityRelations set_knowledgeGraph].
          rewrite has_set_or, Hfrom. apply orb_true_r. }
      split; [| split].
      * intros i [<- | Hi]; [| now apply Hall].
        apply has_get. eexists. apply Hkept. exact Hstored.
      * intros e [<- | He].
        -- split; [exact Ehas |]. split; [now apply Hkept |].
           split; [| exists entity; split; [now left | reflexivity]].
           rewrite Hrels.
           ++ subst s1.
              cbn [entityRelations set_entityRelations set_knowledgeGraph].
              apply get_set_eq.
           ++ apply has_get. eauto.
        -- destruct (Hcreated e He) as (H1 & H2 & H3 & i & Hi & H4).
           split.
           { subst s1.
             cbn [knowledgeGraph set_entityRelations set_knowledgeGraph] in H1.
             rewrite get_set in H1.
             destruct (String.eqb _ _); [discriminate | exact H1]. }
           split; [exact H2 |]. split; [exact H3 |].
           exists i. split; [now right | exact H4].
      * intros k Hk. destruct (Hskipped k Hk) as (H1 & i & Hi & H2).
        split; [exact H1 |]. exists i. split; [now right | exact H2].
Qed.

(** A handler ends by storing its result in the context memory. *)
Lemma handleCreateEntities_run entities timestamp store (s s1 : Server)
    created skipped :
  createEntities_each entities [] [] s = (s1, inl (created, skipped)) ->
  exists item,
    handleCreateEntities entities timestamp store s
    = (set_contextMemory (JsMap.set (ContextMemory.id item) item) s1,
       inl (Success
              (CreateEntities.mk created skipped (length (knowledgeGraph s1))
                 timestamp))).
Proof.
  intros Hrun. unfold handleCreateEntities, try_catch, bind at 1.
  rewrite Hrun. eexists (ContextMemory.mk _ _ _ _ _). reflexivity.
Qed.

(** X22.  [create_entities] never overwrites.  The call returns a result
    (no error) in which every requested entity is either created or
    skipped.  Every entity that existed keeps its data and its relations;
    afterwards an entity exists under every requested name.  The new
    entities go to the end of the graph in the order of the request; a
    created entity was absent before, is stored as built from its request
    (without observations when the request gives none), and starts without
    relations.  An entry is skipped with "Entity already exists", also when
    the name was created by an earlier entry of the same request. *)
Theorem handleCreateEntities_never_overwrites
    (entities : list EntityInput.t) (timestamp : Z) (store : StoreInputs)
    (s : Server) :
  let s' := exec (handleCreateEntities entities timestamp store) s in
  exists result,
    outcome (handleCreateEntities entities timestamp store) s
    = inl (Success result)
    /\ (length (CreateEntities.created result)
        + length (CreateEntities.skipped result) = length entities)%nat
    /\ JsMap.keys (knowledgeGraph s')
       = JsMap.keys (knowledgeGraph s)
         ++ map Entity.name (CreateEntities.created result)
    /\ (forall name entity,
          JsMap.get name (knowledgeGraph s) = Some entity ->
          JsMap.get name (knowledgeGraph s') = Some entity)
    /\ (forall from,
          JsMap.has from (knowledgeGraph s) = true ->
          JsMap.get from (entityRelations s')
          = JsMap.get from (entityRelations s))
    /\ (forall entity,
          In entity entities ->
          JsMap.has (EntityInput.name entity) (knowledgeGraph s') = true)
    /\ (forall e,
          In e (CreateEntities.created result) ->
          JsMap.get (Entity.name e) (knowledgeGraph s) = None
          /\ JsMap.get (Entity.name e) (knowledgeGraph s') = Some e
          /\ JsMap.get (Entity.name e) (entityRelations s') = Some []
          /\ exists entity, In entity entities /\ e = entityData_of entity)
    /\ (forall k,
          In k (CreateEntities.skipped result) ->
          CreateEntities.reason k = "Entity already exists"
          /\ exists entity,
               In entity entities
               /\ EntityInput.name entity = CreateEntities.name k).
Proof.
  intros s'.
  destruct (createEntities_each_run entities [] [] s)
    as (created & skipped & Hrun & Hlen & Hctx & Hkeys & Hkept & Hrels
        & Hall & Hcreated & Hskipped).
  cbn [app] in Hrun.
  destruct (handleCreateEntities_run entities timestamp store s _ _ _ Hrun)
    as [item Hcall].
  subst s'. unfold exec at 1 2 3 4 5 6, outcome. rewrite Hcall.
  cbn [fst snd knowledgeGraph entityRelations set_contextMemory].
  eexists. split; [reflexivity |].
  cbn [CreateEntities.created CreateEntities.skipped].
  repeat (split; [assumption |]). assumption.
Qed.

(** ** Deleting entities *)

Lemma includes_cons (x y : string) (l : list string) :
  includes (y :: l) x = (String.eqb x y || includes l x)%bool.
Proof. reflexivity. Qed.

Lemma includes_true (l : list string) (x : string) :
  includes l x = true <-> In x l.
Proof.
  unfold includes. rewrite existsb_exists. split.
  - intros (y & Hy & E). apply String.eqb_eq in E. now subst.
  - intros H. exists x. split; [exact H | apply String.eqb_refl].
Qed.

Lemma filter_filter {A} (p q : A -> bool) (l : list A) :
  List.filter p (List.filter q l) = List.filter (fun x => q x && p x) l.
Proof.
  induction l as [| x l IH]; simpl; [reflexivity |].
  destruct (q x); simpl; [destruct (p x) |]; now rewrite IH.
Qed.

Lemma delete_round_entities (entityName : string) (s : Server) :
  graph_coherent s ->
  let s1 :=
    exec (removeRelationsTo entityName)
      (set_entityRelations (JsMap.delete entityName)
         (set_knowledgeGraph (JsMap.delete entityName) s)) in
  contextMemory s1 = contextMemory s
  /\ knowledgeGraph s1 = JsMap.delete entityName (knowledgeGraph s)
  /\ forall from,
       JsMap.get from (entityRelations s1)
       = if String.eqb from entityName then None
         else option_map
                (List.filter
                   (fun rel => negb (String.eqb (Relation.to rel) entityName)))
                (JsMap.get from (entityRelations s)).
Proof.
  intros Hs s1. subst s1. unfold exec. rewrite removeRelationsTo_run.
  2: { cbn [entityRelations set_entityRelations set_knowledgeGraph].
       now apply NoDup_keys_delete, coherent_relations_NoDup. }
  cbn [fst contextMemory knowledgeGraph entityRelations set_entityRelations
       set_knowledgeGraph].
  split; [reflexivity |]. split; [reflexivity |].
  intros from. rewrite get_map_values, get_delete.
  destruct (String.eqb from entityName); reflexivity.
Qed.

Lemma deleteEntities_each_run (entityNames : list string) :
  forall deleted notFound s,
  graph_coherent s ->
  let s' := exec (deleteEntities_each entityNames deleted notFound) s in
  exists deleted' notFound',
    deleteEntities_each entityNames deleted notFound s
    = (s', inl (deleted ++ deleted', notFound ++ notFound'))
    /\ (length deleted' + length notFound' = length entityNames)%nat
    /\ contextMemory s' = contextMemory s
    /\ (forall name,
          JsMap.get name (knowledgeGraph s')
          = if includes entityNames name then None
            else JsMap.get name (knowledgeGraph s))
    /\ (forall from,
          JsMap.get from (entityRelations s')
          = if includes entityNames from then None
            else option_map
                   (List.filter
                      (fun rel =>
                         negb (includes entityNames (Relation.to rel))))
                   (JsMap.get from (entityRelations s)))
    /\ (forall name,
          In name deleted'
          <-> In name entityNames
              /\ JsMap.has name (knowledgeGraph s) = true)
    /\ (forall name, In name notFound' -> In name entityNames).
Proof.
  induction entityNames as [| entityName rest IH];
    intros deleted notFound s Hs s'.
  - exists [], []. subst s'. cbn. rewrite !app_nil_r.
    split; [reflexivity |]. split; [reflexivity |]. split; [reflexivity |].
    split; [reflexivity |]. split.
    + intros from. destruct (JsMap.get from (entityRelations s)) as [l |];
        [| reflexivity].
      cbn. f_equal. symmetry. apply forallb_filter_id.
      now apply forallb_forall.
    + split; [tauto | intros name []].
  - subst s'. cbn [deleteEntities_each].
    rewrite exec_read_bind, run_read_bind.
    destruct (JsMap.has entityName (knowledgeGraph s)) eqn:Ehas; cbn [negb].
    + (* the entity exists *)
      pose proof (deleteEntities_round entityName s
                    (fun _ =>
                       deleteEntities_each rest (deleted ++ [entityName])
                         notFound)
                    (coherent_relations_NoDup s Hs)) as Hstep.
      destruct (delete_round_entities entityName s Hs)
        as (Hctx1 & Hkg1 & Her1).
      set (s1 := exec (removeRelationsTo entityName) _) in *.
      destruct (IH (deleted ++ [entityName]) notFound s1
                  (coherent_delete s entityName Hs))
        as (deleted' & notFound' & Hrun & Hlen & Hctx & Hkg & Her
            & Hdeleted & Hnot).
      unfold exec in Hrun, Hctx, Hkg, Her |- *. rewrite Hstep.
      exists (entityName :: deleted'), notFound'.
      split; [rewrite Hrun; now rewrite <- app_assoc |].
      split; [cbn [length]; lia |].
      split; [congruence |].
      split; [| split; [| split]].
      * intros name. rewrite Hkg, Hkg1, get_delete, includes_cons.
        destruct (String.eqb name entityName), (includes rest name);
          reflexivity.
      * intros from. rewrite Her, Her1, includes_cons.
        destruct (String.eqb from entityName), (includes rest from);
          try reflexivity.
        destruct (JsMap.get from (entityRelations s)) as [l |];
          [| reflexivity].
        cbn [option_map]. f_equal. rewrite filter_filter.
        apply filter_ext. intros rel. rewrite includes_cons.
        now rewrite negb_orb.
      * intros name. cbn [In]. rewrite Hdeleted, Hkg1. unfold JsMap.has.
        rewrite get_delete. split.
        -- intros [<- | [Hin Hhas]].
           ++ split; [now left | exact Ehas].
           ++ split; [now right |].
              destruct (String.eqb name entityName); [discriminate | exact Hhas].
        -- intros [[<- | Hin] Hhas]; [now left |].
           destruct (String.eqb name entityName) eqn:E.
           ++ apply String.eqb_eq in E. now left.
           ++ right. split; [exact Hin | exact Hhas].
      * intros name Hname. right. now apply Hnot.
    + (* no such entity *)
      destruct (IH deleted (notFound ++ [entityName]) s Hs)
        as (deleted' & notFound' & Hrun & Hlen & Hctx & Hkg & Her
            & Hdeleted & Hnot).
      pose proof Hs as (Hkeys & _ & _ & Hrel).
      apply has_false in Ehas.
      exists deleted', (entityName :: notFound').
      split; [rewrite Hrun; now rewrite <- app_assoc |].
      split; [cbn [length]; lia |].
      split; [exact Hctx |].
      split; [| split; [| split]].
      * intros name. rewrite Hkg, includes_cons.
        destruct (String.eqb name entityName) eqn:E; [| reflexivity].
        apply String.eqb_eq in E. subst name. cbn [orb].
        rewrite Ehas. now destruct (includes rest entityName).
      * intros from. rewrite Her, includes_cons.
        destruct (String.eqb from entityName) eqn:E.
        -- apply String.eqb_eq in E. subst from. cbn [orb].
           assert (Hnone : JsMap.get entityName (entityRelations s) = None)
             by now apply (get_keys_eq _ (knowledgeGraph s)).
           rewrite Hnone. now destruct (includes rest entityName).
        -- cbn [orb]. destruct (includes rest from); [reflexivity |].
           destruct (JsMap.get from (entityRelations s)) as [l |] eqn:El;
             [| reflexivity].
           cbn [option_map]. f_equal. apply filter_ext_in.
           intros rel Hrel_in. rewrite includes_cons.
           destruct (String.eqb (Relation.to rel) entityName) eqn:Eto;
             [| reflexivity].
           apply String.eqb_eq in Eto.
           destruct (Hrel from l El) as [_ Hin].
           destruct (Hin rel Hrel_in) as [_ Hto].
           rewrite Eto in Hto. apply has_get in Hto. destruct Hto. congruence.
      * intros name. rewrite Hdeleted. cbn [In]. split.
        -- intros [Hin Hhas]. split; [now right | exact Hhas].
        -- intros [[<- | Hin] Hhas]; [| now split].
           apply has_get in Hhas. destruct Hhas. congruence.
      * intros name [<- | Hname]; [now left | right; now apply Hnot].
Qed.

Lemma handleDeleteEntities_run entityNames timestamp store (s s1 : Server)
    deleted notFound :
  deleteEntities_each entityNames [] [] s = (s1, inl (deleted, notFound)) ->
  exists item,
    handleDeleteEntities entityNames timestamp store s
    = (set_contextMemory (JsMap.set (ContextMemory.id item) item) s1,
       inl (Success
              (DeleteEntities.mk deleted notFound (length (knowledgeGraph s1))
                 timestamp))).
Proof.
  intros Hrun. unfold handleDeleteEntities, try_catch, bind at 1.
  rewrite Hrun. eexists (ContextMemory.mk _ _ _ _ _). reflexivity.
Qed.

(** X23.  [delete_entities] removes the named entities with every relation
    from or to them, and nothing else.  On a coherent graph the call
    returns a result (no error); afterwards no requested name has an entity
    or a list of relations, every other entity is as it was, and the list of
    relations of every other entity is the list it had without the relations
    that point to a requested name, in the same order.  The names reported
    as deleted are the requested names that had an entity; every requested
    name is reported as deleted or as not found. *)
Theorem handleDeleteEntities_cascades
    (entityNames : list string) (timestamp : Z) (store : StoreInputs)
    (s : Server) :
  graph_coherent s ->
  let s' := exec (handleDeleteEntities entityNames timestamp store) s in
  exists result,
    outcome (handleDeleteEntities entityNames timestamp store) s
    = inl (Success result)
    /\ (forall name,
          JsMap.get name (knowledgeGraph s')
          = if includes entityNames name then None
            else JsMap.get name (knowledgeGraph s))
    /\ (forall from,
          JsMap.get from (entityRelations s')
          = if includes entityNames from then None
            else option_map
                   (List.filter
                      (fun rel =>
                         negb (includes entityNames (Relation.to rel))))
                   (JsMap.get from (entityRelations s)))
    /\ (forall name,
          In name (DeleteEntities.deleted result)
          <-> In name entityNames
              /\ JsMap.has name (knowledgeGraph s) = true)
    /\ (forall name,
          In name (DeleteEntities.notFound result) -> In name entityNames)
    /\ (length (DeleteEntities.deleted result)
        + length (DeleteEntities.notFound result) = length entityNames)%nat.
Proof.
  intros Hs s'.
  destruct (deleteEntities_each_run entityNames [] [] s Hs)
    as (deleted & notFound & Hrun & Hlen & Hctx & Hkg & Her & Hdeleted
        & Hnot).
  cbn [app] in Hrun.
  destruct (handleDeleteEntities_run entityNames timestamp store s _ _ _ Hrun)
    as [item Hcall].
  subst s'. unfold exec at 1 2, outcome. rewrite Hcall.
  cbn [fst snd knowledgeGraph entityRelations set_contextMemory].
  eexists. split; [reflexivity |].
  cbn [DeleteEntities.deleted DeleteEntities.notFound].
  repeat (split; [assumption |]). assumption.
Qed.

(** ** Observations *)

Lemma observations_of_update (s : Server) (name name' : string)
    (l : list string) (now : Z) (entity : Entity.t) :
  observations_of
    (set_knowledgeGraph
       (JsMap.set name (Entity.with_observations l now entity)) s) name'
  = if String.eqb name' name then Some l else observations_of s name'.
Proof.
  unfold observations_of. cbn [knowledgeGraph set_knowledgeGraph].
  rewrite get_set. now destruct (String.eqb name' name).
Qed.

Lemma deleteObservations_each_run (deletions : list DeletionInput.t) :
  forall deleted failed s,
  let s' := exec (deleteObservations_each deletions deleted failed) s in
  exists deleted' failed',
    deleteObservations_each deletions deleted failed s
    = (s', inl (deleted ++ deleted', failed ++ failed'))
    /\ (length deleted' + length failed' = length deletions)%nat
    /\ contextMemory s' = contextMemory s
    /\ entityRelations s' = entityRelations s
    /\ JsMap.keys (knowledgeGraph s') = JsMap.keys (knowledgeGraph s)
    /\ (forall name,
          observations_of s' name
          = option_map
              (List.filter (fun obs => negb (to_delete deletions name obs)))
              (observations_of s name))
    /\ (forall note,
          In note failed' ->
          JsMap.get (EntityNote.entityName note) (knowledgeGraph s) = None
          /\ EntityNote.reason note = "Entity does not exist").
Proof.
  induction deletions as [| deletion rest IH]; intros deleted failed s s'.
  - exists [], []. subst s'. cbn. rewrite !app_nil_r.
    do 5 (split; [reflexivity |]). split; [| intros note []].
    intros name. unfold observations_of.
    destruct (JsMap.get name (knowledgeGraph s)) as [e |]; [| reflexivity].
    cbn. f_equal. symmetry. apply forallb_filter_id. now apply forallb_forall.
  - subst s'. cbn [deleteObservations_each]. cbv zeta.
    rewrite exec_read_bind, run_read_bind.
    destruct (JsMap.get (DeletionInput.entityName deletion) (knowledgeGraph s))
      as [entity |] eqn:Eentity.
    + rewrite exec_modify_bind, run_modify_bind.
      set (s1 := set_knowledgeGraph _ s).
      match goal with
      | |- context [deleteObservations_each rest ?d ?f s1] =>
          destruct (IH d f s1)
            as (deleted' & failed' & Hrun & Hlen & Hctx & Her & Hkeys & Hobs
                & Hfailed)
      end.
      eexists (_ :: deleted'), failed'.
      split; [rewrite Hrun; rewrite <- app_assoc; reflexivity |].
      split; [cbn [length]; lia |].
      split; [exact Hctx |]. split; [exact Her |].
      split.
      { rewrite Hkeys. subst s1. cbn [knowledgeGraph set_knowledgeGraph].
        apply (keys_set_present _ _ _ _ Eentity). }
      split.
      * intros name. rewrite Hobs. subst s1. rewrite observations_of_update.
        unfold to_delete. cbn [existsb].
        rewrite (String.eqb_sym (DeletionInput.entityName deletion) name).
        destruct (String.eqb name (DeletionInput.entityName deletion)) eqn:E.
        -- apply String.eqb_eq in E. subst name. unfold observations_of.
           rewrite Eentity. cbn [option_map andb]. f_equal.
           rewrite filter_filter. apply filter_ext. intros obs.
           now rewrite negb_orb.
        -- reflexivity.
      * intros note Hnote. destruct (Hfailed note Hnote) as [Hnone Hwhy].
        split; [| exact Hwhy]. subst s1.
        cbn [knowledgeGraph set_knowledgeGraph] in Hnone.
        rewrite get_set in Hnone.
        destruct (String.eqb _ _); [discriminate | exact Hnone].
    + match goal with
      | |- context [deleteObservations_each rest ?d ?f s] =>
          destruct (IH d f s)
            as (deleted' & failed' & Hrun & Hlen & Hctx & Her & Hkeys & Hobs
                & Hfailed)
      end.
      eexists deleted', (_ :: failed').
      split; [rewrite Hrun; rewrite <- app_assoc; reflexivity |].
      split; [cbn [length]; lia |].
      split; [exact Hctx |]. split; [exact Her |]. split; [exact Hkeys |].
      split.
      * intros name. rewrite Hobs. unfold to_delete. cbn [existsb].
        rewrite (String.eqb_sym (DeletionInput.entityName deletion) name).
        destruct (String.eqb name (DeletionInput.entityName deletion)) eqn:E;
          [| reflexivity].
        apply String.eqb_eq in E. subst name. unfold observations_of.
        now rewrite Eentity.
      * intros note [<- | Hnote]; [now split | now apply Hfailed].
Qed.

Lemma handleDeleteObservations_run deletions timestamp store (s s1 : Server)
    deleted failed :
  deleteObservations_each deletions [] [] s = (s1, inl (deleted, failed)) ->
  exists item,
    handleDeleteObservations deletions timestamp store s
    = (set_contextMemory (JsMap.set (ContextMemory.id item) item) s1,
       inl (Success (DeleteObservations.mk deleted failed timestamp))).
Proof.
  intros Hrun. unfold handleDeleteObservations, try_catch, bind at 1.
  rewrite Hrun. eexists (ContextMemory.mk _ _ _ _ _). reflexivity.
Qed.

(** X24.  [delete_observations] removes exactly what it is asked to.  The
    call returns a result (no error).  Afterwards the observations of every
    entity are the observations it had without those the request names for
    that entity, in the same order; the entities, their order and the
    relations are as before.  Every entry of the request is reported as
    deleted or as failed, and an entry fails only when no entity has its
    name. *)
Theorem handleDeleteObservations_filters
    (deletions : list DeletionInput.t) (timestamp : Z) (store : StoreInputs)
    (s : Server) :
  let s' := exec (handleDeleteObservations deletions timestamp store) s in
  exists result,
    outcome (handleDeleteObservations deletions timestamp store) s
    = inl (Success result)
    /\ (forall name,
          observations_of s' name
          = option_map
              (List.filter (fun obs => negb (to_delete deletions name obs)))
              (observations_of s name))
    /\ JsMap.keys (knowledgeGraph s') = JsMap.keys (knowledgeGraph s)
    /\ entityRelations s' = entityRelations s
    /\ (length (DeleteObservations.deleted result)
        + length (DeleteObservations.failed result) = length deletions)%nat
    /\ (forall note,
          In note (DeleteObservations.failed result) ->
          JsMap.get (EntityNote.entityName note) (knowledgeGraph s) = None
          /\ EntityNote.reason note = "Entity does not exist").
Proof.
  intros s'.
  destruct (deleteObservations_each_run deletions [] [] s)
    as (deleted & failed & Hrun & Hlen & Hctx & Her & Hkeys & Hobs & Hfailed).
  cbn [app] in Hrun.
  destruct (handleDeleteObservations_run deletions timestamp store s _ _ _
              Hrun) as [item Hcall].
  subst s'. unfold exec at 1 2 3, outcome. rewrite Hcall.
  cbn [fst snd]. eexists. split; [reflexivity |].
  cbn [DeleteObservations.deleted DeleteObservations.failed].
  split; [exact Hobs |]. split; [exact Hkeys |]. split; [exact Her |].
  split; [exact Hlen | exact Hfailed].
Qed.

Lemma addObservations_each_run (observations : list ObservationInput.t) :
  forall added failed s,
  let s' := exec (addObservations_each observations added failed) s in
  exists added' failed',
    addObservations_each observations added failed s
    = (s', inl (added ++ added', failed ++ failed'))
    /\ (length added' + length failed' = length observations)%nat
    /\ contextMemory s' = contextMemory s
    /\ entityRelations s' = entityRelations s
    /\ JsMap.keys (knowledgeGraph s') = JsMap.keys (knowledgeGraph s)
    /\ (forall name,
          match observations_of s name with
          | None => observations_of s' name = None
          | Some l =>
              exists extra,
                observations_of s' name = Some (l ++ extra)
                /\ forall content,
                     In content extra ->
                     ~ In content l
                     /\ exists obs,
                          In obs observations
                          /\ ObservationInput.entityName obs = name
                          /\ In content (ObservationInput.contents obs)
          end)
    /\ (forall obs content,
          In obs observations ->
          In content (ObservationInput.contents obs) ->
          match observations_of s' (ObservationInput.entityName obs) with
          | None => True
          | Some l => In content l
          end)
    /\ (forall note,
          In note failed' ->
          JsMap.get (EntityNote.entityName note) (knowledgeGraph s) = None
          /\ EntityNote.reason note = "Entity does not exist").
Proof.
  induction observations as [| obs rest IH]; intros added failed s s'.
  - exists [], []. subst s'. cbn. rewrite !app_nil_r.
    do 5 (split; [reflexivity |]).
    split; [| split; [intros ? ? [] | intros ? []]].
    intros name. destruct (observations_of s name) as [l |]; [| reflexivity].
    exists []. rewrite app_nil_r. split; [reflexivity | intros ? []].
  - subst s'. cbn [addObservations_each]. cbv zeta.
    rewrite exec_read_bind, run_read_bind.
    destruct (JsMap.get (ObservationInput.entityName obs) (knowledgeGraph s))
      as [entity |] eqn:Eentity.
    + rewrite exec_modify_bind, run_modify_bind.
      set (new := List.filter _ (ObservationInput.contents obs)).
      set (s1 := set_knowledgeGraph _ s).
      match goal with
      | |- context [addObservations_each rest ?a ?f s1] =>
          destruct (IH a f s1)
            as (added' & failed' & Hrun & Hlen & Hctx & Her & Hkeys & Hgrow
                & Hall & Hfailed)
      end.
      assert (Hs1 : forall name,
                 observations_of s1 name
                 = if String.eqb name (ObservationInput.entityName obs)
                   then Some (Entity.observations entity ++ new)
                   else observations_of s name).
      { intros name. subst s1. apply observations_of_update. }
      eexists (_ :: added'), failed'.
      split; [rewrite Hrun; rewrite <- app_assoc; reflexivity |].
      split; [cbn [length]; lia |].
      split; [exact Hctx |]. split; [exact Her |].
      split.
      { rewrite Hkeys. subst s1. cbn [knowledgeGraph set_knowledgeGraph].
        apply (keys_set_present _ _ _ _ Eentity). }
      split; [| split].
      * intros name. specialize (Hgrow name). rewrite Hs1 in Hgrow.
        destruct (String.eqb name (ObservationInput.entityName obs)) eqn:E.
        -- apply String.eqb_eq in E. subst name. unfold observations_of at 1.
           rewrite Eentity. cbn [option_map].
           destruct Hgrow as (extra & Hafter & Hextra).
           exists (new ++ extra). split; [now rewrite app_assoc |].
           intros content Hin. apply in_app_or in Hin.
           destruct Hin as [Hin | Hin].
           ++ subst new. apply filter_In in Hin. destruct Hin as [Hin Hfresh].
              split.
              ** intros Hold. apply includes_true in Hold.
                 rewrite Hold in Hfresh. discriminate.
              ** exists obs. split; [now left |]. now split.
           ++ destruct (Hextra content Hin) as (Hfresh & o & Ho & Hname & Hc).
              split.
              ** intros Hold. apply Hfresh. apply in_or_app. now left.
              ** exists o. split; [now right |]. now split.
        -- destruct (observations_of s name) as [l |]; [| exact Hgrow].
           destruct Hgrow as (extra & Hafter & Hextra).
           exists extra. split; [exact Hafter |].
           intros content Hin.
           destruct (Hextra content Hin) as (Hfresh & o & Ho & Hname & Hc).
           split; [exact Hfresh |]. exists o. split; [now right |]. now split.
      * intros o content [<- | Ho] Hcontent; [| now apply (Hall o)].
        specialize (Hgrow (ObservationInput.entityName obs)).
        rewrite Hs1, String.eqb_refl in Hgrow.
        destruct Hgrow as (extra & -> & _).
        apply in_or_app. left.
        destruct (includes (Entity.observations entity) content) eqn:Eold.
        -- apply in_or_app. left. now apply includes_true.
        -- apply in_or_app. right. subst new. apply filter_In.
           split; [exact Hcontent | now rewrite Eold].
      * intros note Hnote. destruct (Hfailed note Hnote) as [Hnone Hwhy].
        split; [| exact Hwhy]. subst s1.
        cbn [knowledgeGraph set_knowledgeGraph] in Hnone.
        rewrite get_set in Hnone.
        destruct (String.eqb _ _); [discriminate | exact Hnone].
    + match goal with
      | |- context [addObservations_each rest ?a ?f s] =>
          destruct (IH a f s)
            as (added' & failed' & Hrun & Hlen & Hctx & Her & Hkeys & Hgrow
                & Hall & Hfailed)
      end.
      assert (Hnone : forall s2,
                 JsMap.keys (knowledgeGraph s2) = JsMap.keys (knowledgeGraph s) ->
                 observations_of s2 (ObservationInput.entityName obs) = None).
      { intros s2 Hk. unfold observations_of.
        apply (get_keys_eq _ (knowledgeGraph s2)) in Eentity;
          [now rewrite Eentity | now symmetry]. }
      eexists added', (_ :: failed').
      split; [rewrite Hrun; rewrite <- app_assoc; reflexivity |].
      split; [cbn [length]; lia |].
      split; [exact Hctx |]. split; [exact Her |]. split; [exact Hkeys |].
      split; [| split].
      * intros name. specialize (Hgrow name).
        destruct (observations_of s name) as [l |]; [| exact Hgrow].
        destruct Hgrow as (extra & Hafter & Hextra).
        exists extra. split; [exact Hafter |].
        intros content Hin.
        destruct (Hextra content Hin) as (Hfresh & o & Ho & Hname & Hc).
        split; [exact Hfresh |]. exists o. split; [now right |]. now split.
      * intros o content [<- | Ho] Hcontent; [| now apply (Hall o)].
        now rewrite (Hnone _ Hkeys).
      * intros note [<- | Hnote]; [now split | now apply Hfailed].
Qed.

Lemma handleAddObservations_run observations timestamp store (s s1 : Server)
    added failed :
  addObservations_each observations [] [] s = (s1, inl (added, failed)) ->
  exists item,
    handleAddObservations observations timestamp store s
    = (set_contextMemory (JsMap.set (ContextMemory.id item) item) s1,
       inl (Success (AddObservations.mk added failed timestamp))).
Proof.
  intros Hrun. unfold handleAddObservations, try_catch, bind at 1.
  rewrite Hrun. eexists (ContextMemory.mk _ _ _ _ _). reflexivity.
Qed.

Lemma handleAddObservations_state observations timestamp store (s : Server) :
  exists item,
    exec (handleAddObservations observations timestamp store) s
    = set_contextMemory (JsMap.set (ContextMemory.id item) item)
        (exec (addObservations_each observations [] []) s).
Proof.
  destruct (addObservations_each_run observations [] [] s)
    as (added & failed & Hrun & _).
  cbn [app] in Hrun.
  destruct (handleAddObservations_run observations timestamp store s _ _ _
              Hrun) as [item Hcall].
  exists item. unfold exec at 1. now rewrite Hcall.
Qed.

(** X25.  [add_observations] only appends, adds what is missing, and is
    idempotent.  The call returns a result (no error).  Afterwards the
    observations of every entity are the observations it had followed by
    new ones, each of which was not there and comes from an entry of the
    request for that entity; every content of every entry for an existing
    entity is among the observations of the entity; entities, their order
    and the relations are as before; an entry fails only when no entity has
    its name.  Sending the same contents for the same entities again
    changes no observation. *)
Theorem handleAddObservations_appends_what_is_missing
    (observations : list ObservationInput.t) (timestamp : Z)
    (store : StoreInputs) (s : Server) :
  let s' := exec (handleAddObservations observations timestamp store) s in
  exists result,
    outcome (handleAddObservations observations timestamp store) s
    = inl (Success result)
    /\ (forall name,
          match observations_of s name with
          | None => observations_of s' name = None
          | Some l =>
              exists extra,
                observations_of s' name = Some (l ++ extra)
                /\ forall content,
                     In content extra ->
                     ~ In content l
                     /\ exists obs,
                          In obs observations
                          /\ ObservationInput.entityName obs = name
                          /\ In content (ObservationInput.contents obs)
          end)
    /\ (forall obs content,
          In obs observations ->
          In content (ObservationInput.contents obs) ->
          match observations_of s' (ObservationInput.entityName obs) with
          | None => True
          | Some l => In content l
          end)
    /\ JsMap.keys (knowledgeGraph s') = JsMap.keys (knowledgeGraph s)
    /\ entityRelations s' = entityRelations s
    /\ (forall note,
          In note (AddObservations.failed result) ->
          JsMap.get (EntityNote.entityName note) (knowledgeGraph s) = None
          /\ EntityNote.reason note = "Entity does not exist")
    /\ (forall again timestamp' store' name,
          map (fun obs => (ObservationInput.entityName obs,
                           ObservationInput.contents obs)) again
          = map (fun obs => (ObservationInput.entityName obs,
                             ObservationInput.contents obs)) observations ->
          observations_of
            (exec (handleAddObservations again timestamp' store') s') name
          = observations_of s' name).
Proof.
  intros s'.
  destruct (addObservations_each_run observations [] [] s)
    as (added & failed & Hrun & Hlen & Hctx & Her & Hkeys & Hgrow & Hall
        & Hfailed).
  cbn [app] in Hrun.
  destruct (handleAddObservations_run observations timestamp store s _ _ _
              Hrun) as [item Hcall].
  assert (Hs' : s' = set_contextMemory (JsMap.set (ContextMemory.id item) item)
                       (exec (addObservations_each observations [] []) s)).
  { subst s'. unfold exec at 1. now rewrite Hcall. }
  assert (Hobs : forall name,
             observations_of s' name
             = observations_of
                 (exec (addObservations_each observations [] []) s) name)
    by (intros name; now rewrite Hs').
  exists (AddObservations.mk added failed timestamp).
  split; [unfold outcome; now rewrite Hcall |].
  split; [intros name; rewrite Hobs; apply Hgrow |].
  split; [intros obs content; rewrite Hobs; apply Hall |].
  split; [now rewrite Hs' |]. split; [now rewrite Hs' |].
  split; [exact Hfailed |].
  intros again timestamp' store' name Hsame.
  destruct (handleAddObservations_state again timestamp' store' s')
    as [item' ->].
  destruct (addObservations_each_run again [] [] s')
    as (_ & _ & _ & _ & _ & _ & _ & Hgrow' & _).
  specialize (Hgrow' name).
  change (observations_of (set_contextMemory _ ?x) name)
    with (observations_of x name).
  destruct (observations_of s' name) as [l |] eqn:El; [| exact Hgrow'].
  destruct Hgrow' as (extra & -> & Hextra).
  destruct extra as [| content extra]; [now rewrite app_nil_r |].
  exfalso.
  destruct (Hextra content (or_introl eq_refl))
    as (Hfresh & obs' & Hobs' & Hname & Hcontent).
  apply Hfresh.
  assert (Hpair : In (ObservationInput.entityName obs',
                      ObservationInput.contents obs')
                    (map (fun obs => (ObservationInput.entityName obs,
                                      ObservationInput.contents obs))
                       observations)).
  { rewrite <- Hsame.
    exact (in_map (fun obs => (ObservationInput.entityName obs,
                               ObservationInput.contents obs))
             again obs' Hobs'). }
  apply in_map_iff in Hpair. destruct Hpair as (obs & [= Hn Hc] & Hobs_in).
  specialize (Hall obs content Hobs_in). rewrite Hc in Hall.
  specialize (Hall Hcontent). rewrite <- Hobs, Hn, Hname, El in Hall.
  exact Hall.
Qed.

(** ** Relations *)

Lemma relations_of_set (s : Server) (from from' : string)
    (l : list Relation.t) :
  relations_of (set_entityRelations (JsMap.set from l) s) from'
  = if String.eqb from' from then l else relations_of s from'.
Proof.
  unfold relations_of. cbn [entityRelations set_entityRelations].
  rewrite get_set. now destruct (String.eqb from' from).
Qed.

(** The relation [handleCreateRelations] builds from an entry. *)
Lemma createRelations_each_run (relations : list RelationInput.t) :
  forall created skipped s,
  let s' := exec (createRelations_each relations created skipped) s in
  exists created' skipped',
    createRelations_each relations created skipped s
    = (s', inl (created ++ created', skipped ++ skipped'))
    /\ (length created' + length skipped' = length relations)%nat
    /\ contextMemory s' = contextMemory s
    /\ knowledgeGraph s' = knowledgeGraph s
    /\ (forall from,
          exists extra,
            relations_of s' from = relations_of s from ++ extra
            /\ forall rel,
                 In rel extra ->
                 In rel created'
                 /\ Relation.from rel = from
                 /\ existsb (Relation.matches (Relation.to rel)
                               (Relation.relationType rel))
                      (relations_of s from) = false)
    /\ (forall rel,
          In rel created' ->
          In rel (relations_of s' (Relation.from rel))
          /\ JsMap.has (Relation.from rel) (knowledgeGraph s) = true
          /\ JsMap.has (Relation.to rel) (knowledgeGraph s) = true
          /\ exists relation,
               In relation relations
               /\ rel = Relation.mk (RelationInput.from relation)
                          (RelationInput.to relation)
                          (RelationInput.relationType relation)
                          (RelationInput.created relation))
    /\ (forall relation,
          In relation relations ->
          JsMap.has (RelationInput.from relation) (knowledgeGraph s) = true ->
          JsMap.has (RelationInput.to relation) (knowledgeGraph s) = true ->
          existsb (Relation.matches (RelationInput.to relation)
                     (RelationInput.relationType relation))
            (relations_of s' (RelationInput.from relation)) = true).
Proof.
  induction relations as [| relation rest IH]; intros created skipped s s'.
  - exists [], []. subst s'. cbn. rewrite !app_nil_r.
    do 4 (split; [reflexivity |]).
    split; [| split; [intros ? [] | intros ? []]].
    intros from. exists []. rewrite app_nil_r.
    split; [reflexivity | intros ? []].
  - subst s'. cbn [createRelations_each]. cbv zeta.
    rewrite exec_read_bind, run_read_bind.
    set (from := RelationInput.from relation).
    set (to := RelationInput.to relation).
    set (relationType := RelationInput.relationType relation).
    assert (Hskip : forall note,
               let s' := exec (createRelations_each rest created
                                 (skipped ++ [note])) s in
               (JsMap.has from (knowledgeGraph s) = true ->
                JsMap.has to (knowledgeGraph s) = true ->
                existsb (Relation.matches to relationType)
                  (relations_of s from) = true) ->
               exists created' skipped',
                 createRelations_each rest created (skipped ++ [note]) s
                 = (s', inl (created ++ created', skipped ++ skipped'))
                 /\ (length created' + length skipped'
                     = length (relation :: rest))%nat
                 /\ contextMemory s' = contextMemory s
                 /\ knowledgeGraph s' = knowledgeGraph s
                 /\ (forall from,
                       exists extra,
                         relations_of s' from = relations_of s from ++ extra
                         /\ forall rel,
                              In rel extra ->
                              In rel created'
                              /\ Relation.from rel = from
                              /\ existsb (Relation.matches (Relation.to rel)
                                            (Relation.relationType rel))
                                   (relations_of s from) = false)
                 /\ (forall rel,
                       In rel created' ->
                       In rel (relations_of s' (Relation.from rel))
                       /\ JsMap.has (Relation.from rel) (knowledgeGraph s)
                          = true
                       /\ JsMap.has (Relation.to rel) (knowledgeGraph s) = true
                       /\ exists relation0,
                            In relation0 (relation :: rest)
                            /\ rel = Relation.mk (RelationInput.from relation0)
                                       (RelationInput.to relation0)
                                       (RelationInput.relationType relation0)
                                       (RelationInput.created relation0))
                 /\ (forall relation0,
                       In relation0 (relation :: rest) ->
                       JsMap.has (RelationInput.from relation0)
                         (knowledgeGraph s) = true ->
                       JsMap.has (RelationInput.to relation0)
                         (knowledgeGraph s) = true ->
                       existsb (Relation.matches (RelationInput.to relation0)
                                  (RelationInput.relationType relation0))
                         (relations_of s' (RelationInput.from relation0))
                       = true)).
    { intros note s' Hhead. subst s' from to relationType.
      destruct (IH created (skipped ++ [note]) s)
        as (created' & skipped' & Hrun & Hlen & Hctx & Hkg & Hgrow
            & Hcreated & Hall).
      exists created', (note :: skipped').
      split; [rewrite Hrun; now rewrite <- app_assoc |].
      split; [cbn [length]; lia |].
      split; [exact Hctx |]. split; [exact Hkg |]. split; [exact Hgrow |].
      split.
      - intros rel Hrel.
        destruct (Hcreated rel Hrel) as (H1 & H2 & H3 & r & Hr & H4).
        repeat split; trivial. exists r. split; [now right | exact H4].
      - intros r [<- | Hr] Hf Ht; [| now apply Hall].
        destruct (Hgrow (RelationInput.from relation)) as (extra & -> & _).
        rewrite existsb_app, (Hhead Hf Ht). reflexivity. }
    destruct (JsMap.has from (knowledgeGraph s)) eqn:Efrom; cbn [negb];
      [| apply Hskip; discriminate].
    destruct (JsMap.has to (knowledgeGraph s)) eqn:Eto; cbn [negb];
      [| apply Hskip; discriminate].
    change (default [] (JsMap.get from (entityRelations s)))
      with (relations_of s from).
    destruct (existsb (Relation.matches to relationType)
                (relations_of s from)) eqn:Eexists;
      [apply Hskip; trivial |].
    clear Hskip. rewrite exec_modify_bind, run_modify_bind.
    set (relationData :=
           Relation.mk from to relationType (RelationInput.created relation)).
    set (s1 := set_entityRelations _ s).
    destruct (IH (created ++ [relationData]) skipped s1)
      as (created' & skipped' & Hrun & Hlen & Hctx & Hkg & Hgrow
          & Hcreated & Hall).
    assert (Hs1 : forall from',
               relations_of s1 from'
               = if String.eqb from' from
                 then relations_of s from ++ [relationData]
                 else relations_of s from').
    { intros from'. subst s1. apply relations_of_set. }
    exists (relationData :: created'), skipped'.
    split; [rewrite Hrun; now rewrite <- app_assoc |].
    split; [cbn [length]; lia |].
    split; [exact Hctx |]. split; [exact Hkg |].
    split; [| split].
    + intros from'. destruct (Hgrow from') as (extra & Hafter & Hextra).
      rewrite Hs1 in Hafter, Hextra.
      destruct (String.eqb from' from) eqn:E.
      * apply String.eqb_eq in E. subst from'.
        exists (relationData :: extra).
        split; [rewrite Hafter; now rewrite <- app_assoc |].
        intros rel [<- | Hrel].
        -- split; [now left |]. split; [reflexivity | exact Eexists].
        -- destruct (Hextra rel Hrel) as (H1 & H2 & H3).
           split; [now right |]. split; [exact H2 |].
           rewrite existsb_app in H3. now apply orb_false_iff in H3.
      * exists extra. split; [exact Hafter |].
        intros rel Hrel. destruct (Hextra rel Hrel) as (H1 & H2 & H3).
        split; [now right |]. now split.
    + intros rel [<- | Hrel].
      * split.
        -- cbn [Relation.from relationData].
           destruct (Hgrow from) as (extra & -> & _).
           rewrite Hs1, String.eqb_refl. apply in_or_app. left.
           apply in_or_app. right. now left.
        -- split; [exact Efrom |]. split; [exact Eto |].
           exists relation. split; [now left | reflexivity].
      * destruct (Hcreated rel Hrel) as (H1 & H2 & H3 & r & Hr & H4).
        split; [exact H1 |]. split; [exact H2 |]. split; [exact H3 |].
        exists r. split; [now right | exact H4].
    + intros r [<- | Hr] Hf Ht; [| now apply Hall].
      destruct (Hgrow from) as (extra & Hafter & _).
      subst from to relationType. rewrite Hafter, Hs1, String.eqb_refl.
      rewrite !existsb_app. cbn [existsb relationData].
      unfold Relation.matches at 2. cbn [Relation.to Relation.relationType].
      rewrite !String.eqb_refl. cbn. now rewrite orb_true_r.
Qed.

Lemma handleCreateRelations_run relations timestamp store (s s1 : Server)
    created skipped :
  createRelations_each relations [] [] s = (s1, inl (created, skipped)) ->
  exists item,
    handleCreateRelations relations timestamp store s
    = (set_contextMemory (JsMap.set (ContextMemory.id item) item) s1,
       inl (Success
              (CreateRelations.mk created skipped (totalRelations_of s1)
                 timestamp))).
Proof.
  intros Hrun. unfold handleCreateRelations, try_catch, bind at 1.
  rewrite Hrun. eexists (ContextMemory.mk _ _ _ _ _). reflexivity.
Qed.

(** X26.  [create_relations] links existing entities and only appends.  The
    call returns a result (no error) and leaves the entities untouched.  The
    relations of every entity afterwards are those it had followed by new
    ones; each new relation is reported as created, starts at that entity,
    and no relation with its target and type was there before.  A relation
    reported as created joins two entities that exist, is stored in the
    list of its source and was built from an entry of the request.  After
    the call, for every entry whose source and target exist, the source has
    a relation of that type to that target.  Every entry is reported as
    created or as skipped. *)
Theorem handleCreateRelations_links_existing_entities
    (relations : list RelationInput.t) (timestamp : Z) (store : StoreInputs)
    (s : Server) :
  let s' := exec (handleCreateRelations relations timestamp store) s in
  exists result,
    outcome (handleCreateRelations relations timestamp store) s
    = inl (Success result)
    /\ knowledgeGraph s' = knowledgeGraph s
    /\ (forall from,
          exists extra,
            relations_of s' from = relations_of s from ++ extra
            /\ forall rel,
                 In rel extra ->
                 In rel (CreateRelations.created result)
                 /\ Relation.from rel = from
                 /\ existsb (Relation.matches (Relation.to rel)
                               (Relation.relationType rel))
                      (relations_of s from) = false)
    /\ (forall rel,
          In rel (CreateRelations.created result) ->
          In rel (relations_of s' (Relation.from rel))
          /\ JsMap.has (Relation.from rel) (knowledgeGraph s) = true
          /\ JsMap.has (Relation.to rel) (knowledgeGraph s) = true
          /\ exists relation,
               In relation relations
               /\ rel = Relation.mk (RelationInput.from relation)
                          (RelationInput.to relation)
                          (RelationInput.relationType relation)
                          (RelationInput.created relation))
    /\ (forall relation,
          In relation relations ->
          JsMap.has (RelationInput.from relation) (knowledgeGraph s) = true ->
          JsMap.has (RelationInput.to relation) (knowledgeGraph s) = true ->
          existsb (Relation.matches (RelationInput.to relation)
                     (RelationInput.relationType relation))
            (relations_of s' (RelationInput.from relation)) = true)
    /\ (length (CreateRelations.created result)
        + length (CreateRelations.skipped result) = length relations)%nat.
Proof.
  intros s'.
  destruct (createRelations_each_run relations [] [] s)
    as (created & skipped & Hrun & Hlen & Hctx & Hkg & Hgrow & Hcreated
        & Hall).
  cbn [app] in Hrun.
  destruct (handleCreateRelations_run relations timestamp store s _ _ _ Hrun)
    as [item Hcall].
  subst s'. unfold exec at 1 2 3 4, outcome. rewrite Hcall.
  cbn [fst snd]. eexists. split; [reflexivity |].
  cbn [CreateRelations.created CreateRelations.skipped].
  split; [exact Hkg |]. split; [exact Hgrow |]. split; [exact Hcreated |].
  split; [exact Hall | exact Hlen].
Qed.

Lemma findIndex_None {A} (p : A -> bool) (l : list A) :
  findIndex p l = None -> forall x, In x l -> p x = false.
Proof.
  induction l as [| y l IH]; simpl; [intros _ x [] |].
  destruct (p y) eqn:E; [discriminate |].
  destruct (findIndex p l); [discriminate |].
  intros _ x [<- | Hx]; [exact E | now apply IH].
Qed.

Lemma findIndex_Some {A} (p : A -> bool) (l : list A) (i : nat) :
  findIndex p l = Some i -> existsb p l = true.
Proof.
  revert i. induction l as [| y l IH]; intros i; simpl; [discriminate |].
  destruct (p y); [reflexivity |].
  destruct (findIndex p l) as [j |]; [| discriminate].
  intros _. now apply (IH j).
Qed.

(** Where no two relations have the same target and type, removing the
    first match removes every match. *)
Lemma splice_one_found (to relationType : string) (rels : list Relation.t)
    (i : nat) :
  List.NoDup (map relation_key rels) ->
  findIndex (Relation.matches to relationType) rels = Some i ->
  splice_one i rels
  = List.filter (fun rel => negb (Relation.matches to relationType rel)) rels.
Proof.
  unfold splice_one. revert i.
  induction rels as [| rel rels IH]; intros i Hnd; simpl; [discriminate |].
  inversion Hnd as [| ? ? Hnotin Hnd']; subst.
  destruct (Relation.matches to relationType rel) eqn:E.
  - intros [= <-]. cbn. symmetry. apply forallb_filter_id.
    apply forallb_forall. intros x Hx.
    destruct (Relation.matches to relationType x) eqn:Ex; [| reflexivity].
    exfalso. apply Hnotin. apply matches_key in E. apply matches_key in Ex.
    rewrite E, <- Ex. now apply in_map.
  - destruct (findIndex _ rels) as [j |]; [| discriminate].
    intros [= <-]. cbn. f_equal. now apply IH.
Qed.

Lemma deleteRelations_each_run (relations : list RelationRef.t) :
  forall deleted notFound s,
  graph_coherent s ->
  let s' := exec (deleteRelations_each relations deleted notFound) s in
  exists deleted' notFound',
    deleteRelations_each relations deleted notFound s
    = (s', inl (deleted ++ deleted', notFound ++ notFound'))
    /\ (length deleted' + length notFound' = length relations)%nat
    /\ contextMemory s' = contextMemory s
    /\ knowledgeGraph s' = knowledgeGraph s
    /\ JsMap.keys (entityRelations s') = JsMap.keys (entityRelations s)
    /\ (forall from,
          relations_of s' from
          = List.filter (fun rel => negb (to_unlink relations from rel))
              (relations_of s from))
    /\ (forall note,
          In note deleted' ->
          RelationNote.reason note = None
          /\ existsb (Relation.matches (RelationNote.to note)
                        (RelationNote.relationType note))
               (relations_of s (RelationNote.from note)) = true).
Proof.
  induction relations as [| relation rest IH];
    intros deleted notFound s Hs s'.
  - exists [], []. subst s'. cbn. rewrite !app_nil_r.
    do 5 (split; [reflexivity |]). split; [| intros ? []].
    intros from. symmetry. apply forallb_filter_id. now apply forallb_forall.
  - subst s'. cbn [deleteRelations_each]. cbv zeta.
    rewrite exec_read_bind, run_read_bind.
    assert (Hhead : forall from rel,
               to_unlink (relation :: rest) from rel
               = (String.eqb (RelationRef.from relation) from
                  && Relation.matches (RelationRef.to relation)
                       (RelationRef.relationType relation) rel
                  || to_unlink rest from rel)%bool)
      by reflexivity.
    destruct (JsMap.get (RelationRef.from relation) (entityRelations s))
      as [rels |] eqn:Erels.
    + assert (Hrels : relations_of s (RelationRef.from relation) = rels)
        by (unfold relations_of; now rewrite Erels).
      pose proof Hs as (_ & _ & _ & Hrel).
      destruct (Hrel _ _ Erels) as [Hnodup _].
      destruct (findIndex _ rels) as [i |] eqn:Eindex.
      * (* found: the relation is removed *)
        rewrite exec_modify_bind, run_modify_bind.
        set (s1 := set_entityRelations _ s).
        assert (Hs1 : graph_coherent s1).
        { apply (coherent_shrink s _ rels); [exact Hs | exact Erels | |].
          - now apply NoDup_map_splice_one.
          - intros rel. apply In_splice_one. }
        match goal with
        | |- context [deleteRelations_each rest ?d ?n s1] =>
            destruct (IH d n s1 Hs1)
              as (deleted' & notFound' & Hrun & Hlen & Hctx & Hkg & Hkeys
                  & Hafter & Hdeleted)
        end.
        assert (Hof : forall from,
                   relations_of s1 from
                   = List.filter
                       (fun rel =>
                          negb (String.eqb (RelationRef.from relation) from
                                && Relation.matches (RelationRef.to relation)
                                     (RelationRef.relationType relation) rel))
                       (relations_of s from)).
        { intros from. subst s1. rewrite relations_of_set.
          rewrite (String.eqb_sym (RelationRef.from relation) from).
          destruct (String.eqb from (RelationRef.from relation)) eqn:E.
          - apply String.eqb_eq in E. subst from. rewrite Hrels. cbn [andb].
            now apply splice_one_found.
          - cbn [andb negb]. symmetry. apply forallb_filter_id.
            now apply forallb_forall. }
        eexists (_ :: deleted'), notFound'.
        split; [rewrite Hrun; rewrite <- app_assoc; reflexivity |].
        split; [cbn [length]; lia |].
        split; [exact Hctx |]. split; [exact Hkg |].
        split.
        { rewrite Hkeys. subst s1. cbn [entityRelations set_entityRelations].
          apply (keys_set_present _ _ _ _ Erels). }
        split.
        -- intros from. rewrite Hafter, Hof, filter_filter.
           apply filter_ext. intros rel. rewrite Hhead. now rewrite negb_orb.
        -- intros note [<- | Hnote].
           ++ split; [reflexivity |].
              cbn [RelationNote.from RelationNote.to
                   RelationNote.relationType].
              rewrite Hrels. now apply (findIndex_Some _ _ i).
           ++ destruct (Hdeleted note Hnote) as [Hwhy Hthere].
              split; [exact Hwhy |]. rewrite Hof in Hthere.
              apply existsb_exists in Hthere.
              destruct Hthere as (rel & Hin & Hm).
              apply filter_In in Hin. apply existsb_exists.
              exists rel. now split.
      * (* no such relation *)
        match goal with
        | |- context [deleteRelations_each rest ?d ?n s] =>
            destruct (IH d n s Hs)
              as (deleted' & notFound' & Hrun & Hlen & Hctx & Hkg & Hkeys
                  & Hafter & Hdeleted)
        end.
        eexists deleted', (_ :: notFound').
        split; [rewrite Hrun; rewrite <- app_assoc; reflexivity |].
        split; [cbn [length]; lia |].
        split; [exact Hctx |]. split; [exact Hkg |]. split; [exact Hkeys |].
        split; [| exact Hdeleted].
        intros from. rewrite Hafter. apply filter_ext_in.
        intros rel Hin. rewrite Hhead.
        destruct (String.eqb (RelationRef.from relation) from) eqn:E;
          [| reflexivity].
        apply String.eqb_eq in E. subst from. rewrite Hrels in Hin.
        now rewrite (findIndex_None _ _ Eindex rel Hin).
    + (* the source has no list of relations *)
      assert (Hrels : relations_of s (RelationRef.from relation) = [])
        by (unfold relations_of; now rewrite Erels).
      match goal with
      | |- context [deleteRelations_each rest ?d ?n s] =>
          destruct (IH d n s Hs)
            as (deleted' & notFound' & Hrun & Hlen & Hctx & Hkg & Hkeys
                & Hafter & Hdeleted)
      end.
      eexists deleted', (_ :: notFound').
      split; [rewrite Hrun; rewrite <- app_assoc; reflexivity |].
      split; [cbn [length]; lia |].
      split; [exact Hctx |]. split; [exact Hkg |]. split; [exact Hkeys |].
      split; [| exact Hdeleted].
      intros from. rewrite Hafter. apply filter_ext_in.
      intros rel Hin. rewrite Hhead.
      destruct (String.eqb (RelationRef.from relation) from) eqn:E;
        [| reflexivity].
      apply String.eqb_eq in E. subst from. rewrite Hrels in Hin.
      destruct Hin.
Qed.

Lemma handleDeleteRelations_run relations timestamp store (s s1 : Server)
    deleted notFound :
  deleteRelations_each relations [] [] s = (s1, inl (deleted, notFound)) ->
  exists item,
    handleDeleteRelations relations timestamp store s
    = (set_contextMemory (JsMap.set (ContextMemory.id item) item) s1,
       inl (Success
              (DeleteRelations.mk deleted notFound (totalRelations_of s1)
                 timestamp))).
Proof.
  intros Hrun. unfold handleDeleteRelations, try_catch, bind at 1.
  rewrite Hrun. eexists (ContextMemory.mk _ _ _ _ _). reflexivity.
Qed.

(** X27.  [delete_relations] removes exactly the relations it is asked to.
    On a coherent graph the call returns a result (no error); afterwards the
    relations of every entity are the relations it had without those whose
    source, target and type the request names, in the same order, so that
    no requested relation is left; entities are untouched and no list of
    relations appears or disappears.  A relation reported as deleted was
    there before the call, and every entry is reported as deleted or as not
    found. *)
Theorem handleDeleteRelations_removes_what_is_asked
    (relations : list RelationRef.t) (timestamp : Z) (store : StoreInputs)
    (s : Server) :
  graph_coherent s ->
  let s' := exec (handleDeleteRelations relations timestamp store) s in
  exists result,
    outcome (handleDeleteRelations relations timestamp store) s
    = inl (Success result)
    /\ (forall from,
          relations_of s' from
          = List.filter (fun rel => negb (to_unlink relations from rel))
              (relations_of s from))
    /\ (forall relation,
          In relation relations ->
          existsb (Relation.matches (RelationRef.to relation)
                     (RelationRef.relationType relation))
            (relations_of s' (RelationRef.from relation)) = false)
    /\ knowledgeGraph s' = knowledgeGraph s
    /\ JsMap.keys (entityRelations s') = JsMap.keys (entityRelations s)
    /\ (forall note,
          In note (DeleteRelations.deleted result) ->
          RelationNote.reason note = None
          /\ existsb (Relation.matches (RelationNote.to note)
                        (RelationNote.relationType note))
               (relations_of s (RelationNote.from note)) = true)
    /\ (length (DeleteRelations.deleted result)
        + length (DeleteRelations.notFound result) = length relations)%nat.
Proof.
  intros Hs s'.
  destruct (deleteRelations_each_run relations [] [] s Hs)
    as (deleted & notFound & Hrun & Hlen & Hctx & Hkg & Hkeys & Hafter
        & Hdeleted).
  cbn [app] in Hrun.
  destruct (handleDeleteRelations_run relations timestamp store s _ _ _ Hrun)
    as [item Hcall].
  assert (Hof : forall from,
             relations_of s' from
             = relations_of (exec (deleteRelations_each relations [] []) s)
                 from).
  { intros from. subst s'. unfold exec at 1. now rewrite Hcall. }
  exists (DeleteRelations.mk deleted notFound
            (totalRelations_of (exec (deleteRelations_each relations [] []) s))
            timestamp).
  split; [unfold outcome; now rewrite Hcall |].
  split; [intros from; rewrite Hof; apply Hafter |].
  split.
  { intros relation Hin. rewrite Hof, Hafter.
    destruct (existsb _ _) eqn:E; [| reflexivity].
    apply existsb_exists in E. destruct E as (rel & Hrel & Hm).
    apply filter_In in Hrel. destruct Hrel as [_ Hkeep].
    apply negb_true_iff in Hkeep.
    assert (Hasked : to_unlink relations (RelationRef.from relation) rel
                     = true).
    { apply existsb_exists. exists relation. split; [exact Hin |].
      now rewrite String.eqb_refl, Hm. }
    congruence. }
  subst s'. unfold exec at 1 2. rewrite Hcall. cbn [fst].
  split; [exact Hkg |]. split; [exact Hkeys |].
  split; [exact Hdeleted | exact Hlen].
Qed.

(** ** Reading the graph *)

Lemma openNodes_each_run (s : Server) (names : list string) :
  forall foundEntities notFound,
  openNodes_each s names foundEntities notFound
  = (foundEntities
     ++ flat_map
          (fun name =>
             match JsMap.get name (knowledgeGraph s) with
             | Some entity => [entity]
             | None => []
             end)
          names,
     notFound
     ++ List.filter (fun name => negb (JsMap.has name (knowledgeGraph s)))
          names).
Proof.
  induction names as [| name rest IH]; intros foundEntities notFound.
  - cbn. now rewrite !app_nil_r.
  - cbn [openNodes_each flat_map List.filter]. unfold JsMap.has at 1.
    destruct (JsMap.get name (knowledgeGraph s)) as [entity |];
      rewrite IH; cbn [negb app]; now rewrite <- app_assoc.
Qed.

Lemma with_from_same (rel : Relation.t) :
  Relation.with_from (Relation.from rel) rel = rel.
Proof. now destruct rel. Qed.

Lemma length_flat_map_relations (m : JsMap.t (list Relation.t)) (n : nat) :
  fold_left (fun sum rels => (sum + length rels)%nat) (JsMap.values m) n
  = (n + length (flat_map (fun '(from, rels) => relations_from from rels) m))%nat.
Proof.
  revert n. induction m as [| [from rels] m IH]; intros n; cbn; [lia |].
  unfold JsMap.values in IH. rewrite IH, length_app. unfold relations_from.
  rewrite length_map. lia.
Qed.

Lemma flat_map_relations_same (m : JsMap.t (list Relation.t)) :
  (forall from rels, In (from, rels) m -> relations_from from rels = rels) ->
  flat_map (fun '(from, rels) => relations_from from rels) m
  = flat_map snd m.
Proof.
  induction m as [| [from rels] m IH]; intros Hall; [reflexivity |].
  cbn [flat_map snd]. rewrite (Hall from rels) by now left.
  f_equal. apply IH. intros f r Hin. apply Hall. now right.
Qed.

(** X28.  Reading does not change the graph, and [open_nodes] returns the
    relations among the requested entities.  On a coherent graph both calls
    return a result (no error) and change nothing but the context memory,
    where each stores one item.  [open_nodes] returns the entities that
    exist under the requested names, in the order of the request, the names
    without an entity as not found, and exactly the stored relations whose
    source and target are both requested names.  [read_graph] returns every
    entity and every stored relation, and its count of relations is the
    count that [create_relations] and [delete_relations] report. *)
Theorem reading_leaves_the_graph_alone
    (names : list string) (timestamp : Z) (store : StoreInputs) (s : Server) :
  graph_coherent s ->
  (exists result item,
     handleOpenNodes names timestamp store s
     = (set_contextMemory (JsMap.set (ContextMemory.id item) item) s,
        inl (Success result))
     /\ OpenNodes.foundEntities result
        = flat_map
            (fun name =>
               match JsMap.get name (knowledgeGraph s) with
               | Some entity => [entity]
               | None => []
               end)
            names
     /\ OpenNodes.notFound result
        = List.filter (fun name => negb (JsMap.has name (knowledgeGraph s)))
            names
     /\ forall rel,
          In rel (OpenNodes.relations result)
          <-> In (Relation.from rel) names
              /\ In (Relation.to rel) names
              /\ In rel (relations_of s (Relation.from rel)))
  /\ (exists result item,
        handleReadGraph timestamp store s
        = (set_contextMemory (JsMap.set (ContextMemory.id item) item) s,
           inl (Success result))
        /\ ReadGraph.entities result = JsMap.values (knowledgeGraph s)
        /\ ReadGraph.relations result
           = flat_map snd (JsMap.entries (entityRelations s))
        /\ ReadGraph.totalRelations (ReadGraph.statistics result)
           = totalRelations_of s).
Proof.
  intros (Hkeys & Hnd & Hname & Hrel). split.
  - unfold handleOpenNodes, try_catch. rewrite run_read_bind.
    rewrite (openNodes_each_run s names [] []). cbn [app].
    eexists. eexists (ContextMemory.mk _ _ _ _ _).
    split; [reflexivity |]. cbn [OpenNodes.foundEntities OpenNodes.notFound
                                 OpenNodes.relations].
    split; [reflexivity |]. split; [reflexivity |].
    intros rel. rewrite in_flat_map. split.
    + intros (entity & Hentity & Hin).
      apply in_flat_map in Hentity. destruct Hentity as (name & Hname_in & He).
      destruct (JsMap.get name (knowledgeGraph s)) as [e |] eqn:Eget;
        [| destruct He].
      destruct He as [<- | []].
      rewrite (Hname _ _ Eget) in Hin. unfold relations_from in Hin.
      apply in_map_iff in Hin. destruct Hin as (rel0 & <- & Hrel0).
      apply filter_In in Hrel0. destruct Hrel0 as [Hrel0 Hto].
      apply includes_true in Hto.
      destruct (JsMap.get name (entityRelations s)) as [rels |] eqn:Erels;
        [| destruct Hrel0].
      cbn [default] in Hrel0. unfold id in Hrel0.
      destruct (Hrel _ _ Erels) as [_ Hin]. destruct (Hin _ Hrel0) as [Hfrom _].
      rewrite <- Hfrom, with_from_same. rewrite Hfrom.
      split; [exact Hname_in |]. split; [exact Hto |].
      unfold relations_of. now rewrite Erels.
    + intros (Hfrom & Hto & Hin).
      unfold relations_of in Hin.
      destruct (JsMap.get (Relation.from rel) (entityRelations s))
        as [rels |] eqn:Erels; [| destruct Hin].
      cbn [default] in Hin. unfold id in Hin.
      assert (Hentity : exists entity,
                 JsMap.get (Relation.from rel) (knowledgeGraph s)
                 = Some entity).
      { apply In_keys_get. rewrite <- Hkeys. now apply (get_In_keys _ _ rels). }
      destruct Hentity as [entity Hentity].
      exists entity. split.
      * apply in_flat_map. exists (Relation.from rel).
        split; [exact Hfrom |]. rewrite Hentity. now left.
      * rewrite (Hname _ _ Hentity), Erels. cbn [default]. unfold id.
        unfold relations_from. apply in_map_iff. exists rel.
        split; [apply with_from_same |]. apply filter_In.
        split; [exact Hin | now apply includes_true].
  - unfold handleReadGraph, try_catch. rewrite run_read_bind. cbv zeta.
    eexists. eexists (ContextMemory.mk _ _ _ _ _).
    split; [reflexivity |].
    cbn [ReadGraph.entities ReadGraph.relations ReadGraph.statistics
         ReadGraph.totalRelations].
    split; [reflexivity |]. split.
    + unfold JsMap.entries.
      assert (Hall : forall from rels,
                 In (from, rels) (entityRelations s) ->
                 relations_from from rels = rels).
      { intros from rels Hin. unfold relations_from.
        rewrite <- (map_id rels) at 2. apply map_ext_in.
        intros rel Hrel_in.
        apply In_get in Hin; [| now rewrite Hkeys].
        destruct (Hrel _ _ Hin) as [_ H]. destruct (H _ Hrel_in) as [<- _].
        apply with_from_same. }
      now apply flat_map_relations_same.
    + unfold totalRelations_of. rewrite length_flat_map_relations.
      reflexivity.
Qed.

(** ** A sample graph *)

Lemma sample_graph_coherent : graph_coherent Sample.graph.
Proof. apply run_tools_coherent, new_server_coherent. Qed.

Lemma handleDeleteEntities_cascades_witness :
  let entityNames := ["engine"] in
  let s := Sample.graph in
  let s' := exec (handleDeleteEntities entityNames 30 (Sample.store 30)) s in
  exists result,
    outcome (handleDeleteEntities entityNames 30 (Sample.store 30)) s
    = inl (Success result)
    /\ (forall name,
          JsMap.get name (knowledgeGraph s')
          = if includes entityNames name then None
            else JsMap.get name (knowledgeGraph s))
    /\ (forall from,
          JsMap.get from (entityRelations s')
          = if includes entityNames from then None
            else option_map
                   (List.filter
                      (fun rel =>
                         negb (includes entityNames (Relation.to rel))))
                   (JsMap.get from (entityRelations s)))
    /\ (forall name,
          In name (DeleteEntities.deleted result)
          <-> In name entityNames
              /\ JsMap.has name (knowledgeGraph s) = true)
    /\ (forall name,
          In name (DeleteEntities.notFound result) -> In name entityNames)
    /\ (length (DeleteEntities.deleted result)
        + length (DeleteEntities.notFound result) = length entityNames)%nat.
Proof.
  apply (handleDeleteEntities_cascades ["engine"] 30 (Sample.store 30)
           Sample.graph).
  apply run_tools_coherent, new_server_coherent.
Defined.

Lemma handleDeleteRelations_removes_what_is_asked_witness :
  let relations := [RelationRef.mk "ada" "engine" "programmed"] in
  let s := Sample.graph in
  let s' := exec (handleDeleteRelations relations 30 (Sample.store 30)) s in
  exists result,
    outcome (handleDeleteRelations relations 30 (Sample.store 30)) s
    = inl (Success result)
    /\ (forall from,
          relations_of s' from
          = List.filter (fun rel => negb (to_unlink relations from rel))
              (relations_of s from))
    /\ (forall relation,
          In relation relations ->
          existsb (Relation.matches (RelationRef.to relation)
                     (RelationRef.relationType relation))
            (relations_of s' (RelationRef.from relation)) = false)
    /\ knowledgeGraph s' = knowledgeGraph s
    /\ JsMap.keys (entityRelations s') = JsMap.keys (entityRelations s)
    /\ (forall note,
          In note (DeleteRelations.deleted result) ->
          RelationNote.reason note = None
          /\ existsb (Relation.matches (RelationNote.to note)
                        (RelationNote.relationType note))
               (relations_of s (RelationNote.from note)) = true)
    /\ (length (DeleteRelations.deleted result)
        + length (DeleteRelations.notFound result) = length relations)%nat.
Proof.
  apply (handleDeleteRelations_removes_what_is_asked
           [RelationRef.mk "ada" "engine" "programmed"] 30 (Sample.store 30)
           Sample.graph).
  apply run_tools_coherent, new_server_coherent.
Defined.

Lemma reading_leaves_the_graph_alone_witness :
  let names := ["ada"; "engine"; "babbage"] in
  let s := Sample.graph in
  (exists result item,
     handleOpenNodes names 30 (Sample.store 30) s
     = (set_contextMemory (JsMap.set (ContextMemory.id item) item) s,
        inl (Success result))
     /\ OpenNodes.foundEntities result
        = flat_map
            (fun name =>
               match JsMap.get name (knowledgeGraph s) with
               | Some entity => [entity]
               | None => []
               end)
            names
     /\ OpenNodes.notFound result
        = List.filter (fun name => negb (JsMap.has name (knowledgeGraph s)))
            names
     /\ forall rel,
          In rel (OpenNodes.relations result)
          <-> In (Relation.from rel) names
              /\ In (Relation.to rel) names
              /\ In rel (relations_of s (Relation.from rel)))
  /\ (exists result item,
        handleReadGraph 30 (Sample.store 30) s
        = (set_contextMemory (JsMap.set (ContextMemory.id item) item) s,
           inl (Success result))
        /\ ReadGraph.entities result = JsMap.values (knowledgeGraph s)
        /\ ReadGraph.relations result
           = flat_map snd (JsMap.entries (entityRelations s))
        /\ ReadGraph.totalRelations (ReadGraph.statistics result)
           = totalRelations_of s).
Proof.
  apply (reading_leaves_the_graph_alone ["ada"; "engine"; "babbage"] 30
           (Sample.store 30) Sample.graph).
  apply run_tools_coherent, new_server_coherent.
Defined.

(** In the sample graph, deleting the engine leaves Ada without relations,
    and a second entity named like the first is skipped. *)
Example deleting_the_target_of_a_relation :
  let s' :=
    exec (handleDeleteEntities ["engine"] 30 (Sample.store 30)) Sample.graph
  in
  JsMap.keys (knowledgeGraph s') = ["ada"]
  /\ JsMap.get "ada" (entityRelations s') = Some [].
Proof. vm_compute. now split. Qed.
